(* ===== verification/_CoqProject ===== *)
-Q . S2P
Prelude.v
JsNumber.v
Regex.v
JsValue.v
Contracts.v
ContractsSpec.v
ContractsProps.v
ServerNode.v
ServerNodeRuns.v
ServerNodeProps.v
ServerNodeBuffers.v
ServerNodeBody.v
WebEncoding.v
WebEncodingProps.v
WebOptions.v
WebOptionsProps.v
WebOptionsSpec.v
WebCredentials.v
WebErrors.v
WebController.v
WebControllerProps.v
JsText.v
ReactNative.v
ReactNativeProps.v
JsDate.v
PlatformSupport.v
PlatformSupportProps.v
Host.v
PathProps.v
DeviceEvidence.v
EvidenceSpec.v
DeviceEvidenceProps.v
DeviceRecord.v
DeviceFiles.v
DeviceFilesProps.v
DeviceClaims.v
LsanEvidence.v
LsanProps.v
ReleaseEvidence.v
ReviewReport.v
ReviewProps.v
ReleaseProps.v
ReleaseFiles.v
ReleaseFilesProps.v
ReleaseGateProps.v
ReleaseClaims.v
ReleaseSample.v
EvidenceReader.v
ReleaseFragment.v
FragmentProps.v
JsJson.v
MergeEvidence.v
FragmentSet.v
Disk.v
StageEvidence.v
StageProps.v
EvidenceWriter.v
CiEvidence.v
MergeCommand.v
EvidenceReaderProps.v
EmitCommand.v
WebEvidence.v
WebEvidenceProps.v
NativeEvidence.v
NativeEvidenceProps.v
EmitCommandProps.v
SignedEvidence.v
ReviewFragment.v
ArtifactFragment.v
PublishProps.v
EmitSample.v
ExternalEvidence.v
ExternalProps.v
Candidate.v
Provenance.v
ReleaseArchive.v
ReleaseBundle.v
ReleaseBundleSpec.v
BundlePackages.v
ReleaseBundleProps.v
