(* ===== verification/Prelude.v ===== *)
(** * Verification library for the Secure Keypad SDK (JavaScript side)

    The SDK keeps secrets out of JavaScript.  Its JavaScript parts are the shared
    contracts of keypad layouts and events, the server handler in front of an OPAQUE
    service, the browser passkey adapter, the React Native boundary, and the release
    scripts that decide whether a build may be published.  This library models each of
    them in the shape of the source and proves what makes it correct.

    ** Values and effects

    - A string is the list of its UTF-16 code units, a Number a binary64 value with its
      rounding (JsNumber), an [unknown] value a [val] (JsValue): objects are property
      lists in own-key order, arrays are lists of slots with holes, a function carries
      its source text and what it returns.  Regular expressions are trees run by
      derivatives and proved against their declarative language (Regex).
    - A call that may throw returns [result]; an array filled by [push] is an explicit
      list of messages; [forEach] visits the present slots ([present]), an iterator all
      of them ([iterated]).
    - JsText has the string operations, the UTF-8 decoder and POSIX [node:path]; JsDate
      the ISO date format, with parsing and printing proved inverse; JsJson JSON.stringify,
      whose text determines the data it was made from ([stringify_same]), the key order of
      Object.fromEntries and the default order of sort.
    - Host is a class of what the scripts call outside the language: file system,
      SHA-256, Ed25519, JSON.parse, date formats the standard leaves open.  The only law
      used, [HostLaws], says realpath returns canonical absolute paths; [realpath_plain],
      for one round trip, that a child that is no link is canonical.  Concrete hosts
      satisfy both (DeviceClaims, LsanProps, ReleaseSample).  Further behaviour of a file
      system is a named hypothesis of the theorem that needs it: a directory cannot be
      read as a file ([parent_unreadable]), parents can be examined ([LookupLaws]), a call
      adds no other file ([DiskFrames]).
    - Disk is a class of file systems that scripts write: states that a [Host] reads, the
      exclusive calls that change them with their laws ([DiskLaws]), a state-and-error
      monad, and an instance in memory that satisfies the laws.

    ** Components

    - Contracts: packages/contracts/src/index.ts, one definition per validator.
      ContractsSpec states well-formedness, ContractsProps that each validator decides
      it, that messages echo no data and that the UTF-8 length is the encoding's length.
    - ServerNode: packages/server-node/src/index.ts.  The handler is a tree of the calls
      it makes (a resumption) over a heap of byte buffers; ServerNodeRuns defines its
      runs against host callbacks that answer, throw or tick the clock.  ServerNodeProps:
      every guard the options configure passes before the body is read or the delegate
      called, replay protection, freshness over binary64.  ServerNodeBuffers and
      ServerNodeBody: the bounded body reader over every outcome of the stream, clearing
      of every secret buffer on every path, generic responses.
    - WebEncoding, WebOptions, WebCredentials, WebErrors: packages/web/src/index.ts
      without the controller.  The base64url codec is a bijection; option conversion
      accepts exactly the bounded options of the relations in WebOptionsSpec, which are
      the types save for three words tested after conversion to a string, and copies
      extensions within their bounds (WebOptionsProps); ceremonies call the credential
      API only when they may and reject only with stable errors.
    - WebController: createPasskeyController as a transition system of host calls and
      promise reactions.  Outcomes, single flight and draining hold in every reachable
      state (WebControllerProps).
    - ReactNative: packages/react-native/src/index.ts.  Prop validation, the allowlist
      of native props and the fail-closed events and render (ReactNativeProps).
    - PlatformSupport: scripts/platform-support.mjs with docs/PLATFORM-SUPPORT.json; the
      comparison of date strings is the order of days (PlatformSupportProps).
    - Host also has scripts/evidence-path.mjs; the link scan ends and finds exactly the
      links below the root (PathProps).
    - DeviceEvidence (record), DeviceFiles (files, command): check-device-evidence.mjs.
      EvidenceSpec, DeviceEvidenceProps, DeviceRecord and DeviceFilesProps build up to
      DeviceClaims: exit code 0 means a well-formed record whose files are clean, have
      the declared digests and lie strictly inside the root, given that the directory
      holding the root cannot be read as a file: the path test alone lets it through.
    - LsanEvidence: verify-lsan-evidence.mjs.  LsanProps: what a campaign record says,
      and that a built record verifies against the logs it was built from.
    - ReleaseEvidence (manifest), ReviewReport, ReleaseFiles (files, signatures,
      command): check-release-evidence.mjs, calling the device and sanitizer validators.
      ReviewProps, ReleaseProps, ReleaseFilesProps and ReleaseGateProps decide each
      part; ReleaseClaims composes them: the command accepts exactly a complete release
      whose files and both signatures verify.  ReleaseSample is such a release.
    - EvidenceReader and EvidenceWriter: the reader below the evidence root and the
      exclusive writer that the emitters, the merger and the fragment script each hold a
      copy of (EvidenceReaderProps).
    - MergeEvidence: merge-release-evidence.mjs; a merge is accepted by the manifest
      validator and holds the fragments' own gates, artifacts and descriptors.
      MergeCommand: its reading, writing and command; exit code 0 means a new manifest
      whose files and signatures verify, of the commit checked out if git reports one.
      FragmentSet: check-release-fragment-set.mjs, decided by [Complete_set].
    - StageEvidence: stage-release-evidence.mjs.  StageProps: the walk ends; staging
      changes no file, copies exactly the regular files of the three inputs to the output
      directory, within its bounds, and adds no other file ([DiskFrames]).
    - The emitters.  ReleaseFragment: the fragment of emit-release-gate-evidence.mjs,
      whose record the release gate takes (FragmentProps).  CiEvidence:
      emit-ci-gate-evidence.mjs.  WebEvidence: emit-web-browser-evidence.mjs
      (WebEvidenceProps).  NativeEvidence: emit-native-device-evidence.mjs
      (NativeEvidenceProps).  SignedEvidence: emit-signed-release-evidence.mjs and
      emit-signed-release-fragment.mjs.  ReviewFragment:
      emit-independent-review-fragment.mjs.  ArtifactFragment:
      emit-release-artifact-fragment.mjs.  EmitCommand: what the commands share, those of
      the CI and gate emitters, and emit-lsan-gate-evidence.mjs.  For each emitter a
      theorem says exactly when the release gate accepts what it builds from the same
      files (CiEvidence, WebEvidenceProps, NativeEvidenceProps, PublishProps): the emitters
      also take paths with empty and dot components, which the gate refuses.  Two more
      say that the commands change no readable file and, with exit code 0, put into new
      files below the root given the text of the record and of the fragment that binds it
      (EmitCommandProps), or of what the builder made of the inputs named by the arguments
      (PublishProps), for the commit checked out or given.  EmitSample runs them in memory.
    - ExternalEvidence: validate-external-release-evidence.mjs.  ExternalProps: the walk
      visits exactly the tree, and what is accepted are device records of the device gate
      and review files that hold what the emitter builds from the signed report.
    - Candidate: sign-release.mjs (no file is changed and the key's buffer is cleared
      however it ends; a signature verifies under the key written beside it, given the law
      [signs] of Ed25519), release-candidate-metadata.mjs, check-clean-checkout.mjs, and
      verify-production-candidate.mjs, whose gates run in order and fail closed.
    - Provenance: verify-github-run-provenance.mjs, exact over any answers of the API.
    - ReleaseArchive: check-release-archive.mjs, decided by [Archive_wf].  ReleaseBundle:
      check-release-bundle.mjs, as a writer of findings over the class [BundleHost].
      ReleaseBundleSpec states each check without findings, with the laws of path.join and
      of the directory listing, BundlePackages the packages; ReleaseBundleProps composes
      them into [Bundle_wf], with a bundle in memory that passes and some that do not.

    ** How the theorems are stated

    Acceptance is an equivalence: the validator reports nothing if and only if a record
    of propositions holds ([Layout_wf], [Evidence_wf], [Manifest_wf], ...).  File checks
    are equivalences over every host, so a failing call of the host can only reject.
    Runs and transition systems have invariants by induction on runs.  Each property
    with a hypothesis is followed by a closed instance.

    ** Fuel

    The upward path scans take one more step of fuel than the path has units, and every
    step shortens it ([dirname_shorter]); [symlink_scan_fuel] shows that more fuel changes
    nothing.  Version comparison uses the length of the longer part list.  Decimal
    printing takes its fuel from the binary logarithm.  Extension copying recurses on
    the value; the depth and node bounds are those of the source.  The walk of the
    evidence inputs takes one unit more than the depth bound of the source, which ends it
    first ([walk_terminates]).  The listing of a release bundle takes PATH_MAX plus one:
    [BundleLaws] says that directory entries are proper names and that a path longer than
    PATH_MAX cannot be read, so [list_files_spec] finds every file.  The walk of external
    evidence has no depth bound in the source; it counts a directory before it opens it,
    so one unit more than the bound on their number is enough ([visit_fuel_enough]).

    ** Not modelled

    - Object identity beyond the buffers of the server handler, prototypes other than
      the names the scripts can look up by a data key, getters (a host object is the
      outcome of reading each property), Windows paths, a file system that others change
      during a run.
    - JSON.parse, SHA-256, Ed25519, git, the clock, fetch, URL, spawnSync, tar,
      localeCompare and other date formats: parameters.  Where a record is written and
      read again, the theorems assume that JSON.parse inverts the text ([JSON_parse (utf8_decode bytes) = Ok record]), that it
      returns arrays without holes ([json_dense]) and that digests are lowercase
      hexadecimal ([hex_digests]).
    - verify-toolchains.mjs, the parity and SDK-contract checks and security-audit.mjs
      compare constants and substrings found in files of other languages and in the
      output of tools: what they mean lies in those files, so a model would repeat their
      tables.  web-browser-smoke.mjs drives browsers.
    - The two build-time configuration files of the React Native package; the Rust, Swift,
      Kotlin, C and Dart code; tests and examples. *)

From Stdlib Require Export ZArith Lia Bool List.
From stdpp Require Export base strings gmap option list.

(** The development's own notations live in [js_scope]. *)
Declare Scope js_scope.
Delimit Scope js_scope with js.
#[global] Open Scope Z_scope.

(** Rewriting and resolution databases filled by the component files. *)
Create HintDb js discriminated.
Create Rewrite HintDb js.

(** ** Completions: a call returns a value or throws *)

Inductive result (E A : Type) : Type :=
  | Ok (a : A)
  | Throw (e : E).
Arguments Ok {_ _} _.
Arguments Throw {_ _} _.

#[export] Instance result_ret E : MRet (result E) := fun A a => Ok a.
#[export] Instance result_bind E : MBind (result E) := fun A B f m =>
  match m with Ok a => f a | Throw e => Throw e end.
#[export] Instance result_fmap E : FMap (result E) := fun A B f m =>
  match m with Ok a => Ok (f a) | Throw e => Throw e end.

Definition is_ok {E A} (m : result E A) : bool :=
  match m with Ok _ => true | Throw _ => false end.

(** [try { m } catch (e) { h(e) }] *)
Definition try_catch {E F A} (m : result E A) (h : E -> result F A) : result F A :=
  match m with Ok a => Ok a | Throw e => h e end.

Lemma bind_Ok {E A B} (m : result E A) (f : A -> result E B) b :
  (m ≫= f) = Ok b <-> exists a, m = Ok a /\ f a = Ok b.
Proof. destruct m; cbn; naive_solver. Qed.

Lemma fmap_Ok {E A B} (m : result E A) (f : A -> B) b :
  (f <$> m) = Ok b <-> exists a, m = Ok a /\ b = f a.
Proof. destruct m; cbn; naive_solver. Qed.

Lemma Ok_inj {E A} (a b : A) : @Ok E A a = Ok b -> a = b.
Proof. by intros [=]. Qed.
Lemma Ok_pair {E A B} (a c : A) (b d : B) : @Ok E _ (a, b) = Ok (c, d) <-> a = c /\ b = d.
Proof. split; [by intros [=]|by intros [-> ->]]. Qed.

(** Left-to-right traversal that stops at the first throw. *)
Section traverse.
  Context {E A B : Type} (f : A -> result E B).
Fixpoint traverse (l : list A) : result E (list B) :=
    match l with
    | [] => Ok []
    | x :: l' => y ← f x; ys ← traverse l'; Ok (y :: ys)
    end.

Lemma traverse_Ok l ys :
    traverse l = Ok ys <-> Forall2 (fun x y => f x = Ok y) l ys.
  Proof.
    revert ys; induction l as [|x l IH]; intros ys; cbn.
    - split; [intros [= <-]; constructor | inversion 1; done].
    - rewrite bind_Ok. setoid_rewrite bind_Ok. split.
      + intros (y & Hy & ys' & Hys & [= <-]). constructor; [done|by apply IH].
      + inversion 1; subst. eexists; split; [done|].
        eexists; split; [by apply IH|done].
  Qed.
End traverse.

(** ** Boolean reflection *)

Lemma andb_iff a b : a && b = true <-> a = true /\ b = true.
Proof. apply andb_true_iff. Qed.
Lemma negb_iff a : negb a = true <-> a = false.
Proof. by destruct a. Qed.
Lemma negb_false_iff' a : negb a = false <-> a = true.
Proof. by destruct a. Qed.

(** Splits boolean hypotheses and goals into propositional ones. *)
Ltac breflect :=
  rewrite ?andb_true_iff, ?orb_true_iff, ?andb_false_iff, ?orb_false_iff,
    ?negb_true_iff, ?negb_false_iff, ?Z.leb_le, ?Z.ltb_lt, ?Z.eqb_eq,
    ?Z.leb_gt, ?Z.ltb_ge, ?Z.eqb_neq, ?Nat.leb_le, ?Nat.ltb_lt, ?Nat.eqb_eq,
    ?Nat.leb_gt, ?Nat.ltb_ge, ?Nat.eqb_neq,
    ?bool_decide_eq_true, ?bool_decide_eq_false.
Ltac breflect_in H :=
  rewrite ?andb_true_iff, ?orb_true_iff, ?andb_false_iff, ?orb_false_iff,
    ?negb_true_iff, ?negb_false_iff, ?Z.leb_le, ?Z.ltb_lt, ?Z.eqb_eq,
    ?Z.leb_gt, ?Z.ltb_ge, ?Z.eqb_neq, ?Nat.leb_le, ?Nat.ltb_lt, ?Nat.eqb_eq,
    ?Nat.leb_gt, ?Nat.ltb_ge, ?Nat.eqb_neq,
    ?bool_decide_eq_true, ?bool_decide_eq_false in H.

(** Cases on the innermost [match]/[if] scrutinee of the goal or a hypothesis. *)
Ltac case_match_eq :=
  match goal with
  | |- context [match ?x with _ => _ end] =>
      lazymatch x with context [match _ with _ => _ end] => fail | _ => destruct x eqn:? end
  end.
Ltac case_match_in H :=
  match type of H with
  | context [match ?x with _ => _ end] =>
      lazymatch x with context [match _ with _ => _ end] => fail | _ => destruct x eqn:? end
  end.

(** ** Lists *)

(** Elements with their positions, counted from [i]. *)
Fixpoint indexed_from {A} (i : nat) (l : list A) : list (nat * A) :=
  match l with [] => [] | x :: l' => (i, x) :: indexed_from (S i) l' end.
Abbreviation indexed := (indexed_from 0).

Lemma indexed_from_elem {A} (l : list A) i j x :
  (j, x) ∈ indexed_from i l <-> (i <= j)%nat /\ l !! (j - i)%nat = Some x.
Proof.
  revert i; induction l as [|y l IH]; intros i; cbn.
  - rewrite list_elem_of_In. cbn. rewrite lookup_nil. naive_solver.
  - rewrite elem_of_cons, IH. split.
    + intros [[= -> ->]|[? ?]].
      * by rewrite Nat.sub_diag.
      * split; [lia|]. replace (j - i)%nat with (S (j - S i)) by lia. done.
    + intros [? H]. destruct (decide (j = i)) as [->|].
      * rewrite Nat.sub_diag in H. cbn in H. naive_solver.
      * right. replace (j - i)%nat with (S (j - S i)) in H by lia. split; [lia|done].
Qed.

Lemma indexed_from_snd {A} (l : list A) i : (indexed_from i l).*2 = l.
Proof. revert i; induction l as [|x l IH]; intros i; cbn; [done|]. by rewrite IH. Qed.

Lemma forallb_Forall {A} (f : A -> bool) l :
  forallb f l = true <-> Forall (fun x => f x = true) l.
Proof.
  induction l as [|x l IH]; cbn; [split; [constructor|done]|].
  rewrite andb_true_iff, IH, Forall_cons. done.
Qed.

Lemma existsb_Exists {A} (f : A -> bool) l :
  existsb f l = true <-> Exists (fun x => f x = true) l.
Proof.
  induction l as [|x l IH]; cbn; [split; [done|inversion 1]|].
  rewrite orb_true_iff, IH, Exists_cons. done.
Qed.

Lemma existsb_false_Forall {A} (f : A -> bool) l :
  existsb f l = false <-> Forall (fun x => f x = false) l.
Proof.
  induction l as [|x l IH]; cbn; [split; [constructor|done]|].
  rewrite orb_false_iff, IH, Forall_cons. done.
Qed.

Lemma elem_of_flat_map {A B} (f : A -> list B) l y : y ∈ flat_map f l <-> exists x, x ∈ l /\ y ∈ f x.
Proof. rewrite list_elem_of_In, in_flat_map. by setoid_rewrite <- list_elem_of_In. Qed.

(** An insertion-ordered JavaScript [Set]. *)
Definition set_has `{EqDecision A} (x : A) (s : list A) : bool := bool_decide (x ∈ s).
Definition set_add `{EqDecision A} (x : A) (s : list A) : list A :=
  if set_has x s then s else s ++ [x].

Lemma elem_of_set_add `{EqDecision A} (x y : A) s : y ∈ set_add x s <-> y = x \/ y ∈ s.
Proof.
  unfold set_add, set_has. case_bool_decide.
  - naive_solver.
  - rewrite elem_of_app, list_elem_of_singleton. naive_solver.
Qed.

Lemma set_add_new `{EqDecision A} (x : A) s : x ∉ s -> set_add x s = s ++ [x].
Proof. intros H. unfold set_add, set_has. by rewrite bool_decide_eq_false_2. Qed.
Lemma NoDup_set_add `{EqDecision A} (x : A) s : NoDup s -> NoDup (set_add x s).
Proof.
  intros H. unfold set_add, set_has. case_bool_decide; [done|]. apply NoDup_app. split_and!; [done| |apply NoDup_singleton].
  by intros y Hy ->%list_elem_of_singleton.
Qed.
(** [[...new Set(l)]] *)
Definition unique `{EqDecision A} (l : list A) : list A := foldl (fun s x => set_add x s) [] l.

(** [l] holds distinct elements, none of them in [s]: what a loop that adds each element
    to a set and rejects those it has accepts. *)
Section unseen.
Context {A : Type}.
Definition unseen (s l : list A) : Prop := NoDup l /\ forall x, x ∈ l -> x ∉ s.
Lemma unseen_nil s : unseen s [].
Proof. split; [constructor|]. by intros ? ?%not_elem_of_nil. Qed.
Lemma unseen_app s a b : unseen s (a ++ b) <-> unseen s a /\ unseen (s ++ a) b.
Proof. unfold unseen. rewrite NoDup_app. setoid_rewrite elem_of_app. naive_solver. Qed.
Lemma unseen_single s x : unseen s [x] <-> x ∉ s.
Proof. unfold unseen. setoid_rewrite list_elem_of_singleton. split; [naive_solver|]. intros. split; [apply NoDup_singleton|naive_solver]. Qed.
Lemma unseen_empty l : unseen [] l <-> NoDup l.
Proof. unfold unseen. split; [naive_solver|]. intros. split; [done|]. intros ? _ ?%not_elem_of_nil. done. Qed.
End unseen.

(** An invariant kept by every step of a left fold. *)
Lemma foldl_inv {A B} (Inv : A -> Prop) (f : A -> B -> A) (l : list B) a :
  (forall a x, x ∈ l -> Inv a -> Inv (f a x)) -> Inv a -> Inv (foldl f a l).
Proof.
  revert a; induction l as [|x l IH]; intros a Hf Ha; cbn; [done|].
  apply IH; [|apply Hf; [left|done]]. intros a' y Hy. apply Hf. by right.
Qed.

Lemma unique_nil `{EqDecision A} (l : list A) : unique l = [] <-> l = [].
Proof.
  unfold unique. split; [|by intros ->]. destruct l as [|x l]; [done|]. cbn [foldl]. intros H.
  cut (x ∈ foldl (fun s x => set_add x s) (set_add x []) l); [rewrite H; by intros ?%not_elem_of_nil|].
  apply (foldl_inv (fun s => x ∈ s)); [|apply elem_of_set_add; by left]. intros s y _ Hs. apply elem_of_set_add. by right.
Qed.

(** Checking a boolean property on an integer interval by evaluation. *)
Lemma range_check (f : Z -> bool) a n c :
  forallb f (seqZ a n) = true -> a <= c < a + n -> f c = true.
Proof.
  rewrite forallb_Forall, Forall_forall. intros H Hc. apply H, elem_of_seqZ. lia.
Qed.

(** Splitting at the first occurrence of a separator is unambiguous. *)
Lemma app_sep_inj {A} (z : A) (a b x y : list A) :
  z ∉ a -> z ∉ b -> a ++ z :: x = b ++ z :: y -> a = b /\ x = y.
Proof.
  revert b; induction a as [|c a IH]; intros [|d b] Ha Hb; cbn.
  - by intros [= ->].
  - intros [= -> _]. destruct Hb. left.
  - intros [= <- _]. destruct Ha. left.
  - intros [= -> H]. destruct (IH b) as [-> ->]; [| |done|done].
    + intros ?. apply Ha. by right.
    + intros ?. apply Hb. by right.
Qed.
