(* ===== verification/JsNumber.v ===== *)
(** * JavaScript strings as code-unit sequences, and Number values

    A string is the sequence of its 16-bit code units.  A Number is an IEEE-754
    binary64 value; a finite one is written [m * 2^e].  The arithmetic the
    modelled code performs on Numbers (subtraction and addition of timestamps)
    rounds to 53 significant bits, ties to even. *)

From Stdlib Require Import Ascii.
From S2P Require Import Prelude.

(** ** Strings *)

Abbreviation jsstr := (list Z).

(** The code units of an ASCII literal. *)
Definition js (s : String.string) : jsstr :=
  map (fun a => Z.of_N (N_of_ascii a)) (String.list_ascii_of_string s).
Arguments js : simpl never.

Definition str_eqb (a b : jsstr) : bool := bool_decide (a = b).
Definition str_in (a : jsstr) (l : list jsstr) : bool := bool_decide (a ∈ l).

Lemma str_eqb_eq a b : str_eqb a b = true <-> a = b.
Proof. apply bool_decide_eq_true. Qed.
Lemma str_eqb_refl a : str_eqb a a = true.
Proof. by apply str_eqb_eq. Qed.
Lemma str_in_elem a l : str_in a l = true <-> a ∈ l.
Proof. apply bool_decide_eq_true. Qed.

(** Decimal digits of a non-negative integer, most significant first. *)
Fixpoint dec_digits (fuel : nat) (z : Z) (acc : jsstr) : jsstr :=
  match fuel with
  | O => acc
  | S fuel' =>
      let acc' := (48 + z mod 10) :: acc in
      if z <? 10 then acc' else dec_digits fuel' (z / 10) acc'
  end.
Definition dec (z : Z) : jsstr := dec_digits (S (Z.to_nat (Z.log2 z))) z [].
Definition dec_nat (n : nat) : jsstr := dec (Z.of_nat n).

(** ** Numbers *)

Inductive jsnum : Type :=
  | NaN
  | Inf (neg : bool)
  | Fin (m e : Z).

Definition num (z : Z) : jsnum := Fin z 0.

(** The integer a Number denotes, when it denotes one. *)
Definition num_toZ (x : jsnum) : option Z :=
  match x with
  | Fin m e =>
      if 0 <=? e then Some (m * 2 ^ e)
      else if m mod 2 ^ (- e) =? 0 then Some (m / 2 ^ (- e)) else None
  | _ => None
  end.

(** Exact comparison; [None] when an operand is NaN. *)
Definition num_compare (x y : jsnum) : option comparison :=
  match x, y with
  | NaN, _ | _, NaN => None
  | Inf true, Inf true | Inf false, Inf false => Some Eq
  | Inf true, _ | _, Inf false => Some Lt
  | Inf false, _ | _, Inf true => Some Gt
  | Fin m1 e1, Fin m2 e2 =>
      let e := Z.min e1 e2 in
      Some (m1 * 2 ^ (e1 - e) ?= m2 * 2 ^ (e2 - e))
  end.

Definition num_eqb x y := match num_compare x y with Some Eq => true | _ => false end.
Definition num_ltb x y := match num_compare x y with Some Lt => true | _ => false end.
Definition num_leb x y := match num_compare x y with Some (Lt | Eq) => true | _ => false end.

Definition is_finite (x : jsnum) : bool := match x with Fin _ _ => true | _ => false end.
Definition is_integer (x : jsnum) : bool := bool_decide (is_Some (num_toZ x)).
Definition MAX_SAFE_INTEGER : Z := 2 ^ 53 - 1.
Definition is_safe_integer (x : jsnum) : bool :=
  match num_toZ x with
  | Some z => Z.abs z <=? MAX_SAFE_INTEGER
  | None => false
  end.

(** Rounding of [m * 2^e] to 53 significant bits, ties to even, with overflow
    to an infinity. Sums of binary64 values never need subnormal rounding. *)
Definition round53 (m e : Z) : jsnum :=
  let d := Z.max 0 (Z.log2 (Z.abs m) + 1 - 53) in
  let q := m / 2 ^ d in
  let r := 2 * (m mod 2 ^ d) in
  let q' := if r <? 2 ^ d then q
            else if 2 ^ d <? r then q + 1
            else if Z.even q then q else q + 1 in
  if 1024 <? Z.log2 (Z.abs q') + (e + d) + 1 then Inf (m <? 0) else Fin q' (e + d).

Definition num_neg (x : jsnum) : jsnum :=
  match x with NaN => NaN | Inf b => Inf (negb b) | Fin m e => Fin (- m) e end.

Definition num_add (x y : jsnum) : jsnum :=
  match num_toZ x, num_toZ y with
  | Some a, Some b => round53 (a + b) 0
  | _, _ =>
      match x, y with
      | NaN, _ | _, NaN => NaN
      | Inf a, Inf b => if Bool.eqb a b then Inf a else NaN
      | Inf a, _ | _, Inf a => Inf a
      | Fin m1 e1, Fin m2 e2 =>
          let e := Z.min e1 e2 in
          round53 (m1 * 2 ^ (e1 - e) + m2 * 2 ^ (e2 - e)) e
      end
  end.
Definition num_sub (x y : jsnum) : jsnum := num_add x (num_neg y).

(** *** Lemmas *)

Lemma dec_is_digits z : Forall (fun c => 48 <= c <= 57) (dec z).
Proof.
  unfold dec. generalize (S (Z.to_nat (Z.log2 z))). intros n. assert (H : Forall (fun c => 48 <= c <= 57) []) by constructor.
  revert z H. generalize (@nil Z). induction n as [|n IH]; intros acc z Hacc; [done|]. cbn [dec_digits].
  assert (Hc : Forall (fun c => 48 <= c <= 57) ((48 + z mod 10) :: acc)).
  { constructor; [|done]. pose proof (Z.mod_pos_bound z 10 ltac:(lia)). lia. }
  destruct (z <? 10); [done|by apply IH].
Qed.
Lemma num_toZ_num z : num_toZ (num z) = Some z.
Proof. cbn. f_equal. lia. Qed.

Lemma num_toZ_Fin m e z :
  num_toZ (Fin m e) = Some z <->
  (0 <= e /\ z = m * 2 ^ e) \/ (e < 0 /\ m = z * 2 ^ (- e)).
Proof.
  unfold num_toZ. destruct (Z.leb_spec 0 e).
  - naive_solver lia.
  - assert (0 < 2 ^ (- e)) by (apply Z.pow_pos_nonneg; lia).
    destruct (Z.eqb_spec (m mod 2 ^ (- e)) 0) as [Hm|Hm]; split.
    + intros [= <-]. right. split; [lia|]. pose proof (Z.div_mod m (2 ^ (- e))). lia.
    + intros [?|[_ ->]]; [lia|]. f_equal. apply Z.div_mul. lia.
    + done.
    + intros [?|[_ ->]]; [lia|]. by rewrite Z.mod_mul in Hm by lia.
Qed.

Lemma is_integer_spec x : is_integer x = true <-> exists z, num_toZ x = Some z.
Proof. unfold is_integer. rewrite bool_decide_eq_true. done. Qed.

Lemma toZ_finite x z : num_toZ x = Some z -> is_finite x = true.
Proof. by destruct x. Qed.

(** Integers compare like the integers they denote. *)
Lemma num_compare_toZ x y a b :
  num_toZ x = Some a -> num_toZ y = Some b -> num_compare x y = Some (a ?= b).
Proof.
  destruct x as [| |m1 e1], y as [| |m2 e2]; try done.
  intros H1 H2. cbn. f_equal. apply num_toZ_Fin in H1, H2.
  set (e := Z.min e1 e2).
  assert (Hs : exists k, 0 < k /\ (m1 * 2 ^ (e1 - e) = a * k) /\ (m2 * 2 ^ (e2 - e) = b * k) \/
     k = 0 /\ 0 < e /\ exists k', 0 < k' /\ a = m1 * 2 ^ (e1 - e) * k' /\ b = m2 * 2 ^ (e2 - e) * k').
  { destruct (Z.le_gt_cases e 0) as [He|He].
    - exists (2 ^ (- e)). left.
      assert (HS : forall m e' z, e <= e' -> (0 <= e' /\ z = m * 2 ^ e') \/ (e' < 0 /\ m = z * 2 ^ (- e')) ->
                 m * 2 ^ (e' - e) = z * 2 ^ (- e)).
      { intros m e' z Hle [[? ->]|[? ->]].
        - rewrite <- Z.mul_assoc, <- Z.pow_add_r by lia. do 2 f_equal; lia.
        - rewrite <- Z.mul_assoc, <- Z.pow_add_r by lia. do 2 f_equal; lia. }
      split; [apply Z.pow_pos_nonneg; lia|]. split; apply HS; auto; lia.
    - exists 0. right. split; [done|]. split; [done|]. exists (2 ^ e).
      split; [apply Z.pow_pos_nonneg; lia|].
      destruct H1 as [[? ->]|?]; [|lia]. destruct H2 as [[? ->]|?]; [|lia].
      rewrite <- !Z.mul_assoc, <- !Z.pow_add_r by lia.
      split; do 2 f_equal; lia. }
  destruct Hs as (k & [(Hk & -> & ->)|(_ & _ & k' & Hk & -> & ->)]).
  - rewrite (Z.mul_comm a), (Z.mul_comm b). symmetry. apply Zmult_compare_compat_l. lia.
  - rewrite (Z.mul_comm _ k'), (Z.mul_comm (_ * 2 ^ (e2 - e)) k').
    apply Zmult_compare_compat_l. lia.
Qed.

Lemma num_leb_toZ x y a b :
  num_toZ x = Some a -> num_toZ y = Some b -> num_leb x y = (a <=? b).
Proof.
  intros Hx Hy. unfold num_leb. rewrite (num_compare_toZ _ _ _ _ Hx Hy).
  unfold Z.leb. by destruct (a ?= b).
Qed.
Lemma num_ltb_toZ x y a b :
  num_toZ x = Some a -> num_toZ y = Some b -> num_ltb x y = (a <? b).
Proof.
  intros Hx Hy. unfold num_ltb. rewrite (num_compare_toZ _ _ _ _ Hx Hy).
  unfold Z.ltb. by destruct (a ?= b).
Qed.
Lemma num_eqb_toZ x y a b :
  num_toZ x = Some a -> num_toZ y = Some b -> num_eqb x y = (a =? b).
Proof.
  intros Hx Hy. unfold num_eqb. rewrite (num_compare_toZ _ _ _ _ Hx Hy).
  rewrite Z.eqb_compare. by destruct (a ?= b).
Qed.

Lemma num_toZ_neg x z : num_toZ x = Some z -> num_toZ (num_neg x) = Some (- z).
Proof.
  destruct x as [| |m e]; try done. cbn [num_neg]. rewrite !num_toZ_Fin. lia.
Qed.

Lemma is_safe_integer_spec x :
  is_safe_integer x = true <-> exists z, num_toZ x = Some z /\ Z.abs z <= MAX_SAFE_INTEGER.
Proof.
  unfold is_safe_integer. destruct (num_toZ x); [rewrite Z.leb_le|]; naive_solver.
Qed.

(** Rounding is exact up to 2^53, and off by at most one up to 2^54. *)
Lemma round53_exact z : Z.abs z <= 2 ^ 53 -> num_toZ (round53 z 0) = Some z.
Proof.
  intros Hz.
  assert (Hl : Z.log2 (Z.abs z) <= 53)
    by (rewrite <- (Z.log2_pow2 53) by lia; apply Z.log2_le_mono; lia).
  destruct (decide (Z.abs z = 2 ^ 53)) as [He|He].
  - assert (z = 2 ^ 53 \/ z = - 2 ^ 53) as [-> | ->] by lia; by vm_compute.
  - assert (Z.log2 (Z.abs z) < 53) as Hlt.
    { destruct (decide (z = 0)) as [->|]; [done|]. apply Z.log2_lt_pow2; lia. }
    unfold round53. rewrite Z.max_l by lia.
    change (2 ^ 0) with 1. rewrite Z.mod_1_r, Z.div_1_r. change (2 * 0 <? 1) with true. cbn iota.
    destruct (Z.ltb_spec 1024 (Z.log2 (Z.abs z) + (0 + 0) + 1)); [lia|].
    apply num_toZ_Fin. left. cbn. lia.
Qed.

Lemma round53_near z : Z.abs z < 2 ^ 54 ->
  exists z', num_toZ (round53 z 0) = Some z' /\ Z.abs (z' - z) <= 1 /\
    (Z.abs z <= 2 ^ 53 -> z' = z).
Proof.
  intros Hz. destruct (Z.le_gt_cases (Z.abs z) (2 ^ 53)) as [?|Hg].
  { exists z. split; [by apply round53_exact|]. lia. }
  assert (Hl : Z.log2 (Z.abs z) = 53).
  { apply Z.log2_unique; [lia|]. change (Z.succ 53) with 54. lia. }
  unfold round53. rewrite Hl. change (Z.max 0 (53 + 1 - 53)) with 1. change (2 ^ 1) with 2.
  set (q' := if 2 * (z mod 2) <? 2 then _ else _).
  assert (Hq : Z.abs (2 * q' - z) <= 1).
  { subst q'. pose proof (Z.div_mod z 2). pose proof (Z.mod_pos_bound z 2).
    destruct (Z.ltb_spec (2 * (z mod 2)) 2), (Z.ltb_spec 2 (2 * (z mod 2)));
      try destruct (Z.even (z / 2)); lia. }
  assert (Z.log2 (Z.abs q') <= 54).
  { rewrite <- (Z.log2_pow2 54) by lia. apply Z.log2_le_mono. lia. }
  destruct (Z.ltb_spec 1024 (Z.log2 (Z.abs q') + (0 + 1) + 1)); [lia|].
  exists (q' * 2). split; [|lia]. apply num_toZ_Fin. left. change (2 ^ (0 + 1)) with 2. lia.
Qed.

(** The rounding of a difference of two safe integers never changes how it
    compares with a bound of moderate size. *)
Lemma num_sub_leb x y a b k :
  num_toZ x = Some a -> num_toZ y = Some b ->
  Z.abs a <= MAX_SAFE_INTEGER -> Z.abs b <= MAX_SAFE_INTEGER -> Z.abs k <= 2 ^ 52 ->
  num_leb (num_sub x y) (num k) = (a - b <=? k).
Proof.
  unfold MAX_SAFE_INTEGER. intros Hx Hy Ha Hb Hk. unfold num_sub, num_add.
  rewrite Hx, (num_toZ_neg _ _ Hy).
  destruct (round53_near (a + - b)) as (z' & Hz & Hn & He); [lia|].
  rewrite (num_leb_toZ _ _ _ _ Hz (num_toZ_num k)). apply eq_true_iff_eq.
  rewrite !Z.leb_le. destruct (Z.le_gt_cases (Z.abs (a + - b)) (2 ^ 53)); lia.
Qed.

Lemma num_add_leb_r x a b k :
  num_toZ x = Some a -> Z.abs b + Z.abs k <= 2 ^ 53 ->
  num_leb x (num_add (num b) (num k)) = (a <=? b + k).
Proof.
  intros Hx Hb. unfold num_add. rewrite !num_toZ_num.
  apply num_leb_toZ; [done|]. apply round53_exact. lia.
Qed.

(** Rounding never brings a value back into the safe range. *)
Lemma round53_large z :
  2 ^ 53 <= z -> round53 z 0 = Inf false \/ exists w, num_toZ (round53 z 0) = Some w /\ 2 ^ 53 <= w.
Proof.
  intros Hz. remember (Z.log2 z - 52) as d eqn:Ed.
  assert (Hd : 1 <= d).
  { assert (53 <= Z.log2 z); [|lia]. rewrite <- (Z.log2_pow2 53) by lia. by apply Z.log2_le_mono. }
  assert (Hl : 2 ^ 52 * 2 ^ d <= z).
  { rewrite <- Z.pow_add_r by lia. replace (52 + d) with (Z.log2 z) by lia. apply Z.log2_spec. lia. }
  unfold round53. rewrite (Z.abs_eq z) by lia. replace (Z.log2 z + 1 - 53) with d by lia.
  rewrite Z.max_r by lia. set (q := z / 2 ^ d).
  assert (Hq : 2 ^ 52 <= q) by (apply Z.div_le_lower_bound; lia).
  set (q' := if 2 * (z mod 2 ^ d) <? 2 ^ d then _ else _).
  assert (q <= q').
  { subst q'. destruct (_ <? _); [lia|]. destruct (_ <? _); [lia|]. destruct (Z.even q); lia. }
  destruct (1024 <? _); [left; f_equal; lia|]. right.
  exists (q' * 2 ^ (0 + d)). split; [apply num_toZ_Fin; left; lia|].
  assert (2 ^ 1 <= 2 ^ (0 + d)) by (apply Z.pow_le_mono_r; lia). nia.
Qed.
Lemma round53_unsafe z : 2 ^ 53 <= z -> is_safe_integer (round53 z 0) = false.
Proof.
  intros Hz. destruct (is_safe_integer _) eqn:Es; [|done]. exfalso.
  apply is_safe_integer_spec in Es as (v & Hv & Hb). unfold MAX_SAFE_INTEGER in Hb.
  destruct (round53_large z Hz) as [E|(w & E & ?)]; rewrite E in Hv; [done|]. injection Hv as ->. lia.
Qed.

(** Comparing the rounding of a natural number with a moderate one, directly or by
    the sign of the difference, is comparing the numbers. *)
Lemma round53_compare z y k :
  0 <= z -> num_toZ y = Some k -> 0 <= k <= 2 ^ 52 ->
  num_eqb (round53 z 0) y = (z =? k) /\ num_ltb (num_sub (round53 z 0) y) (num 0) = (z <? k).
Proof.
  intros Hz Hy Hk. unfold num_sub.
  assert (Hn : num_toZ (num_neg y) = Some (- k)) by by apply num_toZ_neg.
  assert (exists m e, y = Fin m e) as (m & e & ->) by (destruct y; try done; eauto).
  destruct (Z.le_gt_cases z (2 ^ 53)) as [Hs|Hl].
  - assert (E : num_toZ (round53 z 0) = Some z) by (apply round53_exact; lia).
    rewrite (num_eqb_toZ _ _ _ _ E Hy). split; [done|]. unfold num_add. rewrite E, Hn.
    rewrite (num_ltb_toZ _ _ (z + - k) 0); [|apply round53_exact; lia|apply num_toZ_num]. lia.
  - replace (z =? k) with false by lia. replace (z <? k) with false by lia.
    destruct (round53_large z ltac:(lia)) as [->|(w & E & Hw)].
    + split; [done|]. unfold num_add. rewrite Hn. cbn [num_toZ]. done.
    + rewrite (num_eqb_toZ _ _ _ _ E Hy). split; [lia|]. unfold num_add. rewrite E, Hn.
      destruct (Z.le_gt_cases (w + - k) (2 ^ 53)).
      * rewrite (num_ltb_toZ _ _ (w + - k) 0); [lia|apply round53_exact; lia|apply num_toZ_num].
      * destruct (round53_large (w + - k) ltac:(lia)) as [->|(w' & E' & Hw')]; [done|].
        rewrite (num_ltb_toZ _ _ w' 0); [lia|done|apply num_toZ_num].
Qed.
