(* ===== verification/Regex.v ===== *)
(** * Regular expressions over code units

    The patterns of the source are written here as syntax trees and run by
    Brzozowski derivatives.  [matches] is the declarative language of a tree and
    [re_match_correct] shows the matcher decides it, so every validator that
    tests a pattern is reasoned about through [matches].  Two analyses of a tree bound
    the units and the length of what it matches. *)

From S2P Require Import Prelude JsNumber.

Inductive re : Type :=
  | RNone
  | REps
  | RCls (rs : list (Z * Z))
  | RSeq (r1 r2 : re)
  | RAlt (r1 r2 : re)
  | RStar (r : re).

Definition in_cls (rs : list (Z * Z)) (c : Z) : bool :=
  existsb (fun '(lo, hi) => (lo <=? c) && (c <=? hi)) rs.

Inductive matches : re -> jsstr -> Prop :=
  | m_eps : matches REps []
  | m_cls rs c : in_cls rs c = true -> matches (RCls rs) [c]
  | m_seq r1 r2 s1 s2 : matches r1 s1 -> matches r2 s2 -> matches (RSeq r1 r2) (s1 ++ s2)
  | m_alt_l r1 r2 s : matches r1 s -> matches (RAlt r1 r2) s
  | m_alt_r r1 r2 s : matches r2 s -> matches (RAlt r1 r2) s
  | m_star_nil r : matches (RStar r) []
  | m_star_app r s1 s2 :
      matches r s1 -> matches (RStar r) s2 -> matches (RStar r) (s1 ++ s2).
#[export] Hint Constructors matches : js.

(** ** The matcher *)

Fixpoint nullable (r : re) : bool :=
  match r with
  | RNone | RCls _ => false
  | REps | RStar _ => true
  | RSeq r1 r2 => nullable r1 && nullable r2
  | RAlt r1 r2 => nullable r1 || nullable r2
  end.

(** Smart constructors keep the derivatives of bounded repetitions small. *)
Definition rseq (r1 r2 : re) : re :=
  match r1, r2 with
  | RNone, _ | _, RNone => RNone
  | REps, r => r
  | r, REps => r
  | _, _ => RSeq r1 r2
  end.
Definition ralt (r1 r2 : re) : re :=
  match r1, r2 with
  | RNone, r | r, RNone => r
  | _, _ => RAlt r1 r2
  end.

Fixpoint deriv (c : Z) (r : re) : re :=
  match r with
  | RNone | REps => RNone
  | RCls rs => if in_cls rs c then REps else RNone
  | RSeq r1 r2 =>
      if nullable r1 then ralt (rseq (deriv c r1) r2) (deriv c r2)
      else rseq (deriv c r1) r2
  | RAlt r1 r2 => ralt (deriv c r1) (deriv c r2)
  | RStar r' => rseq (deriv c r') (RStar r')
  end.

(** [/^r$/.test(s)] *)
Fixpoint re_match (r : re) (s : jsstr) : bool :=
  match s with
  | [] => nullable r
  | c :: s' => re_match (deriv c r) s'
  end.

(** ** Correctness of the matcher *)

Lemma matches_none s : matches RNone s <-> False.
Proof. split; [inversion 1|done]. Qed.
Lemma matches_eps s : matches REps s <-> s = [].
Proof. split; [by inversion 1|intros ->; constructor]. Qed.
Lemma matches_cls rs s : matches (RCls rs) s <-> exists c, s = [c] /\ in_cls rs c = true.
Proof. split; [inversion 1; naive_solver|intros (c & -> & ?); by constructor]. Qed.
Lemma matches_seq r1 r2 s :
  matches (RSeq r1 r2) s <-> exists s1 s2, s = s1 ++ s2 /\ matches r1 s1 /\ matches r2 s2.
Proof. split; [inversion 1; naive_solver|intros (? & ? & -> & ? & ?); by constructor]. Qed.
Lemma matches_alt r1 r2 s : matches (RAlt r1 r2) s <-> matches r1 s \/ matches r2 s.
Proof. split; [inversion 1; auto|intros []; eauto with js]. Qed.

Lemma nullable_correct r : nullable r = true <-> matches r [].
Proof.
  induction r; cbn.
  - by rewrite matches_none.
  - by rewrite matches_eps.
  - rewrite matches_cls. naive_solver.
  - rewrite andb_true_iff, IHr1, IHr2, matches_seq. split.
    + intros []. by exists [], [].
    + intros (s1 & s2 & H & ? & ?). symmetry in H. apply app_eq_nil in H as [-> ->]. done.
  - by rewrite orb_true_iff, IHr1, IHr2, matches_alt.
  - split; eauto with js.
Qed.

Lemma matches_seq_eps_l r s : matches (RSeq REps r) s <-> matches r s.
Proof.
  rewrite matches_seq. split; [intros (? & ? & -> & ->%matches_eps & ?); done|].
  intros ?. exists [], s. eauto with js.
Qed.
Lemma matches_seq_eps_r r s : matches (RSeq r REps) s <-> matches r s.
Proof.
  rewrite matches_seq. split.
  - intros (? & ? & -> & ? & ->%matches_eps). by rewrite app_nil_r.
  - intros ?. exists s, []. rewrite app_nil_r. eauto with js.
Qed.
Lemma matches_seq_none_l r s : matches (RSeq RNone r) s <-> False.
Proof. rewrite matches_seq. setoid_rewrite matches_none. naive_solver. Qed.
Lemma matches_seq_none_r r s : matches (RSeq r RNone) s <-> False.
Proof. rewrite matches_seq. setoid_rewrite matches_none. naive_solver. Qed.

Lemma rseq_correct r1 r2 s : matches (rseq r1 r2) s <-> matches (RSeq r1 r2) s.
Proof.
  destruct r1, r2; cbn [rseq];
    rewrite ?matches_seq_none_l, ?matches_seq_none_r, ?matches_none,
      ?matches_seq_eps_l, ?matches_seq_eps_r; done.
Qed.

Lemma ralt_correct r1 r2 s : matches (ralt r1 r2) s <-> matches (RAlt r1 r2) s.
Proof.
  rewrite matches_alt.
  destruct r1, r2; cbn; rewrite ?matches_alt, ?matches_none; tauto.
Qed.

Lemma matches_star_cons r c s :
  matches (RStar r) (c :: s) <->
  exists s1 s2, s = s1 ++ s2 /\ matches r (c :: s1) /\ matches (RStar r) s2.
Proof.
  split.
  - remember (RStar r) as r0 eqn:Hr. remember (c :: s) as s0 eqn:Hs.
    intros H. revert r c s Hr Hs.
    induction H as [| | | | | |r0 s1 s2 H1 _ H2 IH2]; intros r' c0 s0 Hr Hs;
      try discriminate. injection Hr as ->.
    destruct s1 as [|c' s1]; cbn in Hs.
    + by apply IH2.
    + injection Hs as -> <-. naive_solver.
  - intros (s1 & s2 & -> & H1 & H2). by apply (m_star_app _ (c :: s1)).
Qed.

Lemma deriv_correct c r s : matches (deriv c r) s <-> matches r (c :: s).
Proof.
  revert s; induction r as [| |rs|r1 IH1 r2 IH2|r1 IH1 r2 IH2|r IH]; intros s; cbn.
  - by rewrite !matches_none.
  - rewrite matches_none, matches_eps. done.
  - rewrite matches_cls. destruct (in_cls rs c) eqn:E.
    + rewrite matches_eps. split; [intros ->; by exists c|]. intros (c' & [= <- ->] & _). done.
    + rewrite matches_none. split; [done|]. intros (c' & [= <- ->] & ?). congruence.
  - assert (Hs : matches (RSeq (deriv c r1) r2) s <->
        exists s1 s2, s = s1 ++ s2 /\ matches r1 (c :: s1) /\ matches r2 s2).
    { rewrite matches_seq. by setoid_rewrite IH1. }
    rewrite (matches_seq r1 r2).
    assert (Hc : (exists s1 s2, c :: s = s1 ++ s2 /\ matches r1 s1 /\ matches r2 s2) <->
       (matches r1 [] /\ matches r2 (c :: s)) \/
       exists s1 s2, s = s1 ++ s2 /\ matches r1 (c :: s1) /\ matches r2 s2).
    { split.
      - intros ([|c' s1] & s2 & He & ? & ?); cbn in He.
        + left. by subst s2.
        + injection He as <- ->. eauto 8.
      - intros [[? ?]|(s1 & s2 & -> & ? & ?)]; [by exists [], (c :: s)|by exists (c :: s1), s2]. }
    rewrite Hc. destruct (nullable r1) eqn:En.
    + apply nullable_correct in En. rewrite ralt_correct, matches_alt, rseq_correct, Hs, IH2. tauto.
    + assert (~ matches r1 []) by (rewrite <- nullable_correct; congruence).
      rewrite rseq_correct, Hs. tauto.
  - by rewrite ralt_correct, !matches_alt, IH1, IH2.
  - rewrite rseq_correct, matches_seq, matches_star_cons. by setoid_rewrite IH.
Qed.

Theorem re_match_correct r s : re_match r s = true <-> matches r s.
Proof.
  revert r; induction s as [|c s IH]; intros r; cbn.
  - apply nullable_correct.
  - by rewrite IH, deriv_correct.
Qed.

(** ** Derived forms *)

Definition rchr (c : Z) : re := RCls [(c, c)].
(** A literal string. *)
Fixpoint rlit (s : jsstr) : re :=
  match s with [] => REps | c :: s' => RSeq (rchr c) (rlit s') end.
Definition ropt (r : re) : re := RAlt REps r.
(** [r{0,n}], right nested. *)
Fixpoint rupto (n : nat) (r : re) : re :=
  match n with O => REps | S n' => ropt (RSeq r (rupto n' r)) end.
(** [r{n}] followed by [k]. *)
Fixpoint rtimes (n : nat) (r k : re) : re :=
  match n with O => k | S n' => RSeq r (rtimes n' r k) end.
(** [r{lo,hi}] *)
Definition rbetween (lo hi : nat) (r : re) : re := rtimes lo r (rupto (hi - lo) r).
(** [r{n}] *)
Definition rexactly (n : nat) (r : re) : re := rtimes n r REps.
(** [r+] *)
Definition rplus (r : re) : re := RSeq r (RStar r).
Definition rany : re := RCls [(0, 65535)].
(** [/r/.test(s)] without anchors. *)
Definition re_search (r : re) (s : jsstr) : bool :=
  re_match (RSeq (RStar rany) (RSeq r (RStar rany))) s.
(** A literal under the [i] flag: each ASCII letter matches both cases. *)
Definition rchr_ci (c : Z) : re :=
  if (97 <=? c) && (c <=? 122) then RCls [(c, c); (c - 32, c - 32)]
  else if (65 <=? c) && (c <=? 90) then RCls [(c, c); (c + 32, c + 32)]
  else rchr c.
Fixpoint rlit_ci (s : jsstr) : re :=
  match s with [] => REps | c :: s' => RSeq (rchr_ci c) (rlit_ci s') end.
Fixpoint ralts (rs : list re) : re :=
  match rs with [] => RNone | [r] => r | r :: rs' => RAlt r (ralts rs') end.

Lemma matches_chr c s : matches (rchr c) s <-> s = [c].
Proof.
  unfold rchr. rewrite matches_cls. cbn. split.
  - intros (c' & -> & H). f_equal. lia.
  - intros ->. exists c. split; [done|]. lia.
Qed.
Lemma matches_opt r s : matches (ropt r) s <-> s = [] \/ matches r s.
Proof. unfold ropt. by rewrite matches_alt, matches_eps. Qed.

Lemma matches_lit w s : matches (rlit w) s <-> s = w.
Proof.
  revert s; induction w as [|c w IH]; intros s; cbn.
  - apply matches_eps.
  - rewrite matches_seq. setoid_rewrite matches_chr. setoid_rewrite IH.
    split; [intros (? & ? & -> & -> & ->); done|]. intros ->. by exists [c], w.
Qed.

Lemma matches_upto_cls n rs s :
  matches (rupto n (RCls rs)) s <->
  (length s <= n)%nat /\ Forall (fun c => in_cls rs c = true) s.
Proof.
  revert s; induction n as [|n IH]; intros s; cbn.
  - rewrite matches_eps. destruct s; cbn; split; [intros _; split; [lia|constructor]|done|done|lia].
  - rewrite matches_opt, matches_seq. setoid_rewrite matches_cls. setoid_rewrite IH. split.
    + intros [-> | (? & s2 & -> & (c & -> & ?) & ? & ?)]; cbn; [split; [lia|constructor]|].
      split; [lia|by constructor].
    + destruct s as [|c s]; [by left|]. cbn. intros [? H]. inversion H; subst. right.
      exists [c], s. split; [done|]. split; [by exists c|]. split; [lia|done].
Qed.

Lemma matches_times_cls n rs k s :
  matches (rtimes n (RCls rs) k) s <->
  exists s1 s2, s = s1 ++ s2 /\ length s1 = n /\
    Forall (fun c => in_cls rs c = true) s1 /\ matches k s2.
Proof.
  revert s; induction n as [|n IH]; intros s; cbn.
  - split; [intros; by exists [], s|]. intros ([|] & s2 & -> & ? & _ & ?); done.
  - rewrite matches_seq. setoid_rewrite matches_cls. setoid_rewrite IH. split.
    + intros (? & ? & -> & (c & -> & ?) & s1 & s2 & -> & <- & ? & ?).
      exists (c :: s1), s2. split_and!; [done|done|by constructor|done].
    + intros ([|c s1] & s2 & -> & [=] & Hf & ?). inversion Hf; subst.
      exists [c], (s1 ++ s2). split; [done|]. split; [eauto|]. exists s1, s2. done.
Qed.

Lemma matches_exactly_cls n rs s :
  matches (rexactly n (RCls rs)) s <->
  length s = n /\ Forall (fun c => in_cls rs c = true) s.
Proof.
  unfold rexactly. rewrite matches_times_cls. setoid_rewrite matches_eps. split.
  - intros (s1 & ? & -> & ? & ? & ->). by rewrite app_nil_r.
  - intros [? ?]. exists s, []. by rewrite app_nil_r.
Qed.

Lemma matches_star_cls rs s :
  matches (RStar (RCls rs)) s <-> Forall (fun c => in_cls rs c = true) s.
Proof.
  induction s as [|c s IH].
  - split; [constructor|]. intros _. constructor.
  - rewrite matches_star_cons. setoid_rewrite matches_cls. rewrite Forall_cons. split.
    + intros (s1 & s2 & -> & (c' & [= <- ->] & ?) & ?). split; [done|]. by apply IH.
    + intros [? ?]. exists [], s. split; [done|]. split; [by exists c|by apply IH].
Qed.

Lemma matches_plus_cls rs s :
  matches (rplus (RCls rs)) s <-> s <> [] /\ Forall (fun c => in_cls rs c = true) s.
Proof.
  unfold rplus. rewrite matches_seq. setoid_rewrite matches_cls. setoid_rewrite matches_star_cls. split.
  - intros (? & s2 & -> & (c & -> & ?) & ?). split; [discriminate|by constructor].
  - destruct s as [|c s]; [by intros [? _]|]. intros [_ [Hc Hs]%Forall_cons].
    exists [c], s. split; [done|]. split; [by exists c|done].
Qed.

#[export] Hint Rewrite matches_none matches_eps matches_cls matches_seq matches_alt
  matches_chr matches_opt matches_lit matches_upto_cls matches_times_cls
  matches_exactly_cls matches_star_cls matches_plus_cls : js.

(** ** What a pattern says of its units

    Whether all units of its strings satisfy a test, and the length of its longest
    string. *)

(** All units of a class; the classes of the patterns are small. *)
Definition class_units (rs : list (Z * Z)) : list Z := flat_map (fun '(lo, hi) => seqZ lo (hi - lo + 1)) rs.
Lemma elem_of_class_units rs c : in_cls rs c = true -> c ∈ class_units rs.
Proof.
  unfold in_cls, class_units. intros ([lo hi] & Hin & H)%existsb_exists. apply list_elem_of_In, in_flat_map.
  exists (lo, hi). split; [done|]. apply list_elem_of_In, elem_of_seqZ. lia.
Qed.
Fixpoint units_ok (f : Z -> bool) (r : re) : bool :=
  match r with
  | RNone | REps => true
  | RCls rs => forallb f (class_units rs)
  | RSeq r1 r2 | RAlt r1 r2 => units_ok f r1 && units_ok f r2
  | RStar r => units_ok f r
  end.
Lemma units_ok_correct f r s : units_ok f r = true -> matches r s -> Forall (fun c => f c = true) s.
Proof.
  intros H Hm. induction Hm as [|rs c Hc|r1 r2 s1 s2 _ IH1 _ IH2|r1 r2 s _ IH|r1 r2 s _ IH| |r s1 s2 _ IH1 _ IH2];
    cbn [units_ok] in H; rewrite ?andb_true_iff in H; try constructor; try (apply Forall_app; split); try naive_solver.
  - apply elem_of_class_units in Hc. rewrite forallb_Forall, Forall_forall in H. by apply H.
Qed.
(** The length of the longest string; [None] when there is none. *)
Fixpoint max_length (r : re) : option nat :=
  match r with
  | RNone | REps => Some 0%nat
  | RCls _ => Some 1%nat
  | RSeq r1 r2 => n ← max_length r1; m ← max_length r2; Some (n + m)%nat
  | RAlt r1 r2 => n ← max_length r1; m ← max_length r2; Some (Nat.max n m)
  | RStar _ => None
  end.
Lemma max_length_correct r s n : max_length r = Some n -> matches r s -> (length s <= n)%nat.
Proof.
  intros H Hm. revert n H. induction Hm as [|rs c Hc|r1 r2 s1 s2 _ IH1 _ IH2|r1 r2 s _ IH|r1 r2 s _ IH| |]; intros n H; cbn in *; try done;
    try (injection H as <-; lia).
  - destruct (max_length r1) as [a|]; [|done]. destruct (max_length r2) as [b|]; [|done]. cbn in H. injection H as <-.
    rewrite length_app. specialize (IH1 a eq_refl). specialize (IH2 b eq_refl). lia.
  - destruct (max_length r1) as [a|]; [|done]. destruct (max_length r2) as [b|]; [|done]. cbn in H. injection H as <-.
    specialize (IH a eq_refl). lia.
  - destruct (max_length r1) as [a|]; [|done]. destruct (max_length r2) as [b|]; [|done]. cbn in H. injection H as <-.
    specialize (IH b eq_refl). lia.
Qed.
Lemma matches_nonempty r s : nullable r = false -> matches r s -> s <> [].
Proof. intros H Hm ->. apply nullable_correct in Hm. congruence. Qed.
