(* ===== verification/JsValue.v ===== *)
(** * JavaScript values

    The type [val] of the values an [unknown] parameter ranges over, and the
    language operations the modelled files apply to them: property reads, own
    keys, [typeof] tests, [ToString], UTF-8 lengths, and the validation result
    shared by every validator. *)

From S2P Require Import Prelude JsNumber.

(** Exceptions raised by the language itself or by host callbacks. *)
Inductive jserr : Type := TypeError | RangeError | SyntaxError | HostError.

(** Own data properties are listed in own-key order.  An array is the list of
    its slots, [None] being a hole.  A function carries its source text and what
    calling it without arguments does ([None] throws).  [VBuf] is an
    [ArrayBuffer]. *)
Inductive val : Type :=
  | VUndef
  | VNull
  | VBool (b : bool)
  | VNum (n : jsnum)
  | VStr (s : jsstr)
  | VBigInt (z : Z)
  | VSym (description : jsstr)
  | VFun (source : jsstr) (ret : option val)
  | VArr (slots : list (option val))
  | VObj (props : list (jsstr * val))
  | VBuf (bytes : list Z).

Section val_nested_ind.
  Context (P : val -> Prop).
  Context (Hundef : P VUndef) (Hnull : P VNull) (Hbool : forall b, P (VBool b))
    (Hnum : forall n, P (VNum n)) (Hstr : forall s, P (VStr s))
    (Hbig : forall z, P (VBigInt z)) (Hsym : forall d, P (VSym d))
    (Hfun : forall s r, from_option P True r -> P (VFun s r))
    (Harr : forall l, Forall (from_option P True) l -> P (VArr l))
    (Hobj : forall ps, Forall (fun kv => P kv.2) ps -> P (VObj ps))
    (Hbuf : forall b, P (VBuf b)).

Fixpoint val_nested_ind (v : val) : P v :=
    match v with
    | VUndef => Hundef
    | VNull => Hnull
    | VBool b => Hbool b
    | VNum n => Hnum n
    | VStr s => Hstr s
    | VBigInt z => Hbig z
    | VSym d => Hsym d
    | VFun s r =>
        Hfun s r match r with None => I | Some w => val_nested_ind w end
    | VArr l =>
        Harr l ((fix go l : Forall (from_option P True) l :=
          match l with
          | [] => List.Forall_nil _
          | None :: l' => List.Forall_cons _ None _ I (go l')
          | Some w :: l' => List.Forall_cons _ (Some w) _ (val_nested_ind w) (go l')
          end) l)
    | VObj ps =>
        Hobj ps ((fix go ps : Forall (fun kv => P kv.2) ps :=
          match ps with
          | [] => List.Forall_nil _
          | (k, w) :: ps' => List.Forall_cons _ (k, w) _ (val_nested_ind w) (go ps')
          end) ps)
    | VBuf b => Hbuf b
    end.
End val_nested_ind.

(** ** Literals *)

Definition vstr (s : String.string) : val := VStr (js s).
Definition vnum (z : Z) : val := VNum (num z).
Definition varr (l : list val) : val := VArr (map Some l).
Definition vobj (ps : list (String.string * val)) : val :=
  VObj (map (fun '(k, v) => (js k, v)) ps).

(** ** Tests *)

Definition is_record (v : val) : bool :=
  match v with VObj _ | VBuf _ => true | _ => false end.
Definition is_array (v : val) : bool := match v with VArr _ => true | _ => false end.
Definition is_string (v : val) : bool := match v with VStr _ => true | _ => false end.
Definition is_boolean (v : val) : bool := match v with VBool _ => true | _ => false end.
Definition is_number (v : val) : bool := match v with VNum _ => true | _ => false end.
Definition is_function (v : val) : bool := match v with VFun _ _ => true | _ => false end.
Definition is_undefined (v : val) : bool := match v with VUndef => true | _ => false end.
Definition is_null (v : val) : bool := match v with VNull => true | _ => false end.

(** [v === "s"], [v === true], [v === z] *)
Definition eq_str (v : val) (s : jsstr) : bool :=
  match v with VStr s' => str_eqb s' s | _ => false end.
Definition eq_bool (v : val) (b : bool) : bool :=
  match v with VBool b' => Bool.eqb b' b | _ => false end.
Definition eq_int (v : val) (z : Z) : bool :=
  match v with VNum n => num_eqb n (num z) | _ => false end.
(** [words.includes(v)] for an array of string constants. *)
Definition includes_str (words : list jsstr) (v : val) : bool :=
  match v with VStr s => str_in s words | _ => false end.

(** [truthy v] is ToBoolean. *)
Definition truthy (v : val) : bool :=
  match v with
  | VUndef | VNull => false
  | VBool b => b
  | VNum NaN => false
  | VNum n => negb (num_eqb n (num 0))
  | VStr s => match s with [] => false | _ => true end
  | VBigInt z => negb (z =? 0)
  | _ => true
  end.
Definition is_object (v : val) : bool :=
  match v with VArr _ | VObj _ | VBuf _ => true | _ => false end.
(** [===] on primitives; modelled objects carry no identity. *)
Definition strict_eq (v w : val) : bool :=
  match v, w with
  | VUndef, VUndef | VNull, VNull => true
  | VBool a, VBool b => Bool.eqb a b
  | VNum a, VNum b => num_eqb a b
  | VStr a, VStr b => str_eqb a b
  | VBigInt a, VBigInt b => a =? b
  | _, _ => false
  end.
(** SameValueZero, the equality of [Set]: two slots never hold the same object. *)
Definition same_value (v w : val) : bool :=
  match v, w with VNum NaN, VNum NaN => true | _, _ => strict_eq v w end.
(** [new Set(l).size] *)
Fixpoint set_size (l : list val) : nat :=
  match l with [] => O | v :: l' => if existsb (same_value v) l' then set_size l' else S (set_size l') end.

Lemma eq_str_spec v s : eq_str v s = true <-> v = VStr s.
Proof. destruct v; cbn; try done. rewrite str_eqb_eq. naive_solver. Qed.
Lemma eq_bool_spec v b : eq_bool v b = true <-> v = VBool b.
Proof. destruct v as [| |[]| | | | | | | |], b; cbn; naive_solver. Qed.
Lemma includes_str_spec ws v : includes_str ws v = true <-> exists s, v = VStr s /\ s ∈ ws.
Proof.
  destruct v; cbn; try (split; [done|by intros (? & ? & _)]). rewrite str_in_elem.
  split; [eauto|]. by intros (? & [= <-] & ?).
Qed.
Lemma strict_eq_str s v : strict_eq (VStr s) v = true <-> v = VStr s.
Proof. destruct v; cbn; try done. rewrite str_eqb_eq. naive_solver. Qed.
Lemma strict_eq_text v s : strict_eq v (VStr s) = true <-> v = VStr s.
Proof. destruct v; cbn; try done. rewrite str_eqb_eq. naive_solver. Qed.
Lemma is_undefined_spec v : is_undefined v = true <-> v = VUndef.
Proof. by destruct v. Qed.

(** ** Properties *)

Fixpoint assoc (k : jsstr) (ps : list (jsstr * val)) : option val :=
  match ps with
  | [] => None
  | (k', v) :: ps' => if str_eqb k k' then Some v else assoc k ps'
  end.

(** [v.k] for a property name no prototype defines. *)
Definition get (v : val) (k : jsstr) : val :=
  match v with VObj ps => default VUndef (assoc k ps) | _ => VUndef end.
Definition entries (v : val) : list (jsstr * val) :=
  match v with VObj ps => ps | _ => [] end.
(** [Object.keys(v)], [Object.values(v)] *)
Definition keys (v : val) : list jsstr := (entries v).*1.
Definition values (v : val) : list val := (entries v).*2.

Notation "v '.[' k ]" := (get v (js k)) (at level 1, k at level 200, format "v .[ k ]") : js_scope.

Definition slots_of (v : val) : list (option val) :=
  match v with VArr l => l | _ => [] end.
(** The (index, element) pairs [forEach], [map] and [some] visit: holes are skipped. *)
Fixpoint present_from (i : nat) (l : list (option val)) : list (nat * val) :=
  match l with
  | [] => []
  | None :: l' => present_from (S i) l'
  | Some v :: l' => (i, v) :: present_from (S i) l'
  end.
Definition present (l : list (option val)) : list (nat * val) := present_from 0 l.
(** The elements an iterator yields: a hole reads as [undefined]. *)
Definition iterated (l : list (option val)) : list val := map (default VUndef) l.

Lemma present_from_elem i l j v :
  (j, v) ∈ present_from i l <-> (i <= j)%nat /\ l !! (j - i)%nat = Some (Some v).
Proof.
  revert i; induction l as [|o l IH]; intros i; cbn.
  - rewrite lookup_nil. split; [inversion 1|naive_solver].
  - assert (Hstep : (j, v) ∈ present_from (S i) l <->
              (i <= j)%nat /\ j <> i /\ (o :: l) !! (j - i)%nat = Some (Some v)).
    { rewrite IH. split.
      - intros [? H]. replace (j - i)%nat with (S (j - S i)) by lia. split_and!; [lia|lia|done].
      - intros (? & ? & H). replace (j - i)%nat with (S (j - S i)) in H by lia. split; [lia|done]. }
    destruct o as [w|].
    + rewrite elem_of_cons, Hstep. split.
      * intros [[= -> ->]|(? & ? & ?)]; [|done]. by rewrite Nat.sub_diag.
      * intros [? H]. destruct (decide (j = i)) as [->|]; [|by right].
        rewrite Nat.sub_diag in H. left. naive_solver.
    + rewrite Hstep. split; [naive_solver|]. intros [? H]. split; [done|]. split; [|done].
      intros ->. rewrite Nat.sub_diag in H. done.
Qed.

Lemma present_elem l j v : (j, v) ∈ present l <-> l !! j = Some (Some v).
Proof.
  unfold present. rewrite present_from_elem, Nat.sub_0_r. split; [naive_solver|]. intros; split; [lia|done].
Qed.

Lemma is_record_get_keys v k : v.[k]%js <> VUndef -> is_record v = true /\ js k ∈ keys v.
Proof.
  destruct v; cbn; try done. intros H. split; [done|]. unfold keys. cbn.
  induction props as [|[k' w] ps IH]; cbn in *; [done|].
  destruct (str_eqb (js k) k') eqn:E.
  - apply str_eqb_eq in E as ->. left.
  - right. by apply IH.
Qed.

(** ** ToString *)

(** Number::toString: shortest decimal digits that read back as the Number. *)
Definition round_ratio (a b : Z) : jsnum :=
  let e0 := Z.log2 a - Z.log2 b - 53 in
  let scaled e := if 0 <=? e then (a, b * 2 ^ e) else (a * 2 ^ (- e), b) in
  let e1 := let '(n, d) := scaled e0 in if n <? d * 2 ^ 53 then e0 else e0 + 1 in
  let e := Z.max (-1074) e1 in
  let '(n, d) := scaled e in
  let q := n / d in
  let r := 2 * (n mod d) in
  Fin (if r <? d then q else if d <? r then q + 1 else if Z.even q then q else q + 1) e.

Section num_to_string.
  Context (a b : Z).                     (* the positive value a / b *)
  (** Least [n >= n0] with [a / b < 10 ^ n]; started just below log10 (a / b). *)
Fixpoint decimal_exponent (fuel : nat) (n0 : Z) : Z :=
    match fuel with
    | O => n0
    | S fuel' =>
        if (if 0 <=? n0 then a <? b * 10 ^ n0 else a * 10 ^ (- n0) <? b)
        then n0 else decimal_exponent fuel' (n0 + 1)
    end.
Definition reads_back (s p : Z) : bool :=
    if s <=? 0 then false else
    num_eqb (if 0 <=? p then round_ratio (s * 10 ^ p) 1 else round_ratio s (10 ^ (- p)))
            (round_ratio a b).
  (** The shortest [k]-digit significand at decimal exponent [n]. *)
Fixpoint shortest (fuel : nat) (k n : Z) : Z * Z :=
    let p := n - k in
    let '(u, v) := if 0 <=? p then (a, b * 10 ^ p) else (a * 10 ^ (- p), b) in
    let f := u / v in
    let near := if 2 * (u mod v) <? v then [f; f + 1] else [f + 1; f] in
    match fuel with
    | O => (f, k)
    | S fuel' =>
        match filter (fun s => reads_back s p = true) near with
        | s :: _ => (s, k)
        | [] => shortest fuel' (k + 1) n
        end
    end.
End num_to_string.

Definition zeros (n : Z) : jsstr := repeat 48 (Z.to_nat n).

Definition num_to_string (x : jsnum) : jsstr :=
  match x with
  | NaN => js "NaN"
  | Inf b => if b then js "-Infinity" else js "Infinity"
  | Fin m e =>
      if m =? 0 then js "0" else
      let sign := if m <? 0 then js "-" else [] in
      let '(a, b) := if 0 <=? e then (Z.abs m * 2 ^ e, 1) else (Z.abs m, 2 ^ (- e)) in
      let n := decimal_exponent a b 4 (((Z.log2 a - Z.log2 b - 1) * 30103) / 100000) in
      let '(s, k) := shortest a b 18 1 n in
      let n := if s =? 10 ^ k then n + 1 else n in
      let ds := dec (if s =? 10 ^ k then 10 ^ (k - 1) else s) in
      sign ++
      (if (k <=? n) && (n <=? 21) then ds ++ zeros (n - k)
       else if (0 <? n) && (n <=? 21) then
         take (Z.to_nat n) ds ++ js "." ++ drop (Z.to_nat n) ds
       else if (-6 <? n) && (n <=? 0) then js "0." ++ zeros (- n) ++ ds
       else
         let ex := n - 1 in
         let exs := (if ex <? 0 then js "-" else js "+") ++ dec (Z.abs ex) in
         if k =? 1 then ds ++ js "e" ++ exs
         else take 1 ds ++ js "." ++ drop 1 ds ++ js "e" ++ exs)
  end.

Definition bigint_to_string (z : Z) : jsstr :=
  (if z <? 0 then js "-" else []) ++ dec (Z.abs z).

(** ToString of a primitive; [None] for an object. *)
Definition prim_to_string (v : val) : option (result jserr jsstr) :=
  match v with
  | VUndef => Some (Ok (js "undefined"))
  | VNull => Some (Ok (js "null"))
  | VBool b => Some (Ok (if b then js "true" else js "false"))
  | VNum n => Some (Ok (num_to_string n))
  | VStr s => Some (Ok s)
  | VBigInt z => Some (Ok (bigint_to_string z))
  | VSym _ => Some (Throw TypeError)
  | _ => None
  end.

(** OrdinaryToPrimitive with hint string: own [toString], then own [valueOf]. *)
Definition object_to_string (ps : list (jsstr * val)) : result jserr jsstr :=
  let by_valueOf :=
    match assoc (js "valueOf") ps with
    | Some (VFun _ None) => Throw HostError
    | Some (VFun _ (Some r)) => default (Throw TypeError) (prim_to_string r)
    | _ => Throw TypeError
    end in
  match assoc (js "toString") ps with
  | None => Ok (js "[object Object]")
  | Some (VFun _ None) => Throw HostError
  | Some (VFun _ (Some r)) => default by_valueOf (prim_to_string r)
  | Some _ => by_valueOf
  end.

Fixpoint to_string (v : val) : result jserr jsstr :=
  match v with
  | VFun src _ => Ok src
  | VArr l =>
      (fix join (l : list (option val)) : result jserr jsstr :=
         let elem o :=
           match o with
           | None | Some VUndef | Some VNull => Ok []
           | Some w => to_string w
           end in
         match l with
         | [] => Ok []
         | [o] => elem o
         | o :: l' => s ← elem o; t ← join l'; Ok (s ++ js "," ++ t)
         end) l
  | VObj ps => object_to_string ps
  | VBuf _ => Ok (js "[object ArrayBuffer]")
  | _ => default (Throw TypeError) (prim_to_string v)
  end.

(** The function [String]: only a symbol converts differently from ToString. *)
Definition String_ (v : val) : result jserr jsstr :=
  match v with
  | VSym d => Ok (js "Symbol(" ++ d ++ js ")")
  | _ => to_string v
  end.

(** [words.includes(String(v))] *)
Definition includes_String (words : list jsstr) (v : val) : result jserr bool :=
  s ← String_ v; Ok (str_in s words).

Example num_to_string_ex :
  map num_to_string [num 0; num (-1); num 120; num (10 ^ 21); Fin 1 (-2); Fin 3602879701896397 (-55);
     Fin 1 (-1074); num (2 ^ 53 - 1); Fin 5 (-30)] =
  map js ["0"; "-1"; "120"; "1e+21"; "0.25"; "0.1"; "5e-324"; "9007199254740991";
     "4.6566128730773926e-9"]%string.
Proof. vm_compute. reflexivity. Qed.

(** ** Code points and UTF-8 *)

Definition is_high (c : Z) : bool := (0xD800 <=? c) && (c <=? 0xDBFF).
Definition is_low (c : Z) : bool := (0xDC00 <=? c) && (c <=? 0xDFFF).
Definition is_code_unit (c : Z) : Prop := 0 <= c < 65536.

(** The code points [for (const c of s)] iterates over. *)
Fixpoint code_points (s : jsstr) : list Z :=
  match s with
  | [] => []
  | h :: t =>
      match t with
      | l :: t' =>
          if is_high h && is_low l
          then (h - 0xD800) * 1024 + (l - 0xDC00) + 0x10000 :: code_points t'
          else h :: code_points t
      | [] => [h]
      end
  end.

(** Induction along [code_points]. *)
Lemma code_points_ind (P : jsstr -> Prop) :
  P [] -> (forall c, P [c]) -> (forall h l t, P t -> P (l :: t) -> P (h :: l :: t)) ->
  forall s, P s.
Proof.
  intros H0 H1 H2 s. assert (H : P s /\ forall c, P (c :: s)); [|apply H].
  induction s as [|x s [IH IH']]; [done|]. split; [apply IH'|]. intros c. by apply H2.
Qed.

(** The bytes of one scalar value; a lone surrogate encodes as U+FFFD. *)
Definition utf8_bytes (cp0 : Z) : list Z :=
  let cp := if is_high cp0 || is_low cp0 then 0xFFFD else cp0 in
  if cp <=? 0x7f then [cp]
  else if cp <=? 0x7ff then [0xC0 + cp / 64; 0x80 + cp mod 64]
  else if cp <=? 0xffff then [0xE0 + cp / 4096; 0x80 + (cp / 64) mod 64; 0x80 + cp mod 64]
  else [0xF0 + cp / 262144; 0x80 + (cp / 4096) mod 64; 0x80 + (cp / 64) mod 64; 0x80 + cp mod 64].

(** [new TextEncoder().encode(s)] *)
Definition utf8_encode (s : jsstr) : list Z := flat_map utf8_bytes (code_points s).

(** ** Validation results *)

Record ValidationResult := { valid : bool; errors : list jsstr }.

(** [{ valid: errors.length === 0, errors }] *)
Definition finish (es : list jsstr) : ValidationResult :=
  {| valid := match es with [] => true | _ => false end; errors := es |}.
(** [{ valid: false, errors: [m] }] *)
Definition reject (m : jsstr) : ValidationResult := {| valid := false; errors := [m] |}.

(** [if (c) errors.push(m)] *)
Definition push_if (c : bool) (m : jsstr) (es : list jsstr) : list jsstr :=
  if c then es ++ [m] else es.

Lemma push_if_nil c m es : push_if c m es = [] <-> c = false /\ es = [].
Proof.
  destruct c; cbn; [|naive_solver]. split; [|naive_solver].
  intros H. by apply app_eq_nil in H as [_ ?].
Qed.
Lemma finish_valid es : valid (finish es) = true <-> es = [].
Proof. by destruct es. Qed.
Lemma finish_errors es : errors (finish es) = es.
Proof. done. Qed.
Lemma push_if_incl c m es x : x ∈ push_if c m es <-> x ∈ es \/ (c = true /\ x = m).
Proof.
  destruct c; cbn; [rewrite elem_of_app, list_elem_of_singleton|]; naive_solver.
Qed.

#[export] Hint Rewrite push_if_nil finish_valid eq_str_spec eq_bool_spec
  includes_str_spec is_undefined_spec : js.

Lemma Forall_push_if P c m es : P m -> Forall P es -> Forall P (push_if c m es).
Proof. intros. destruct c; cbn; [apply Forall_app; split; [done|by constructor]|done]. Qed.
#[export] Hint Resolve Forall_push_if : js.

(** A unit that is not a surrogate is a code point of the string. *)
Lemma code_points_unit c s :
  is_high c = false -> is_low c = false -> c ∈ s -> c ∈ code_points s.
Proof.
  intros Hh Hl. induction s as [|x|h l t IH IH'] using code_points_ind; [done|done|].
  change (code_points (h :: l :: t)) with
    (if is_high h && is_low l then (h - 0xD800) * 1024 + (l - 0xDC00) + 0x10000 :: code_points t
     else h :: code_points (l :: t)).
  rewrite elem_of_cons. destruct (is_high h && is_low l) eqn:E.
  - apply andb_true_iff in E as [E1 E2]. intros [->|[->|H]%elem_of_cons]; [congruence|congruence|].
    right. by apply IH.
  - intros [->|H]; [left|]. right. by apply IH'.
Qed.
