(* ===== verification/Contracts.v ===== *)
(** * packages/contracts/src/index.ts

    The shared layout, theme, masked-state and result-event validators.  Each
    validator threads the mutable [errors] array of the source as an explicit
    list and visits arrays the way [forEach] does (holes are skipped). *)

From S2P Require Import Prelude JsNumber Regex JsValue.
Open Scope js_scope.

(** ** Constants and patterns *)

Definition CONTRACT_VERSION : Z := 1.
Definition MAX_RENDERED_LENGTH : Z := 4096.
Definition MAX_KEY_LABEL_BYTES : Z := 16.
Definition MAX_ACCESSIBILITY_LABEL_BYTES : Z := 80.

Definition digit : Z * Z := (48, 57).
Definition lower : Z * Z := (97, 122).
Definition upper : Z * Z := (65, 90).
(** [[a-z0-9._-]] *)
Definition id_char : list (Z * Z) := [lower; digit; (46, 46); (95, 95); (45, 45)].
(** [/^[a-z0-9][a-z0-9._-]{0,63}$/] *)
Definition KEY_ID_PATTERN : re := RSeq (RCls [lower; digit]) (rupto 63 (RCls id_char)).
(** [/^[A-Za-z]{2,3}(?:-[A-Za-z0-9]{2,8})?$/] *)
Definition LOCALE_PATTERN : re :=
  RSeq (rbetween 2 3 (RCls [upper; lower]))
       (ropt (RSeq (rchr 45) (rbetween 2 8 (RCls [upper; lower; digit])))).
(** [/^#[0-9a-fA-F]{6}(?:[0-9a-fA-F]{2})?$/] *)
Definition COLOR_PATTERN : re :=
  RSeq (rchr 35) (RSeq (rexactly 6 (RCls [digit; (97, 102); (65, 70)]))
                       (ropt (rexactly 2 (RCls [digit; (97, 102); (65, 70)])))).

Inductive InputPolicy : Type := numeric | ascii | hangul.
#[export] Instance InputPolicy_eq_dec : EqDecision InputPolicy.
Proof. solve_decision. Defined.

Definition DISPLAY_STATES : list jsstr :=
  map js ["empty"; "masked"; "submitted"; "cancelled"]%string.
Definition KEY_ROLES : list jsstr :=
  map js ["input"; "backspace"; "submit"; "clear"; "cancel"; "spacer"]%string.
Definition FONT_WEIGHTS : list jsstr := map js ["400"; "500"; "600"; "700"]%string.
Definition HANGUL_INPUT_KEY_IDS : list jsstr := map js
  ["jamo-giyeok"; "jamo-ssang-giyeok"; "jamo-nieun"; "jamo-digeut"; "jamo-ssang-digeut";
   "jamo-rieul"; "jamo-mieum"; "jamo-bieub"; "jamo-ssang-bieub"; "jamo-siot";
   "jamo-ssang-siot"; "jamo-ieung"; "jamo-jieut"; "jamo-ssang-jieut"; "jamo-chieut";
   "jamo-kieuk"; "jamo-tieut"; "jamo-pieup"; "jamo-hieuh";
   "vowel-a"; "vowel-ae"; "vowel-ya"; "vowel-yae"; "vowel-eo"; "vowel-e"; "vowel-yeo";
   "vowel-ye"; "vowel-o"; "vowel-wa"; "vowel-wae"; "vowel-oe"; "vowel-yo"; "vowel-u";
   "vowel-wo"; "vowel-we"; "vowel-wi"; "vowel-yu"; "vowel-eu"; "vowel-ui"; "vowel-i";
   "tail-giyeok"; "tail-ssang-giyeok"; "tail-giyeok-siot"; "tail-nieun";
   "tail-nieun-jieut"; "tail-nieun-hieuh"; "tail-digeut"; "tail-rieul";
   "tail-rieul-giyeok"; "tail-rieul-mieum"; "tail-rieul-bieub"; "tail-rieul-siot";
   "tail-rieul-tieut"; "tail-rieul-pieup"; "tail-rieul-hieuh"; "tail-mieum"; "tail-bieub";
   "tail-bieub-siot"; "tail-siot"; "tail-ssang-siot"; "tail-ieung"; "tail-jieut";
   "tail-chieut"; "tail-kieuk"; "tail-tieut"; "tail-pieup"; "tail-hieuh"]%string.

(** ** Helpers *)

Definition isRecord (value : val) : bool := is_record value.
Definition hasOnlyKeys (value : val) (allowed : list jsstr) : bool :=
  forallb (fun key => str_in key allowed) (keys value).
Definition isBoundedNumber (value : val) (minimum maximum : Z) : bool :=
  match value with
  | VNum n => is_finite n && num_leb (num minimum) n && num_leb n (num maximum)
  | _ => false
  end.
Definition isBoundedInteger (value : val) (minimum maximum : Z) : bool :=
  match value with VNum n => is_integer n | _ => false end
  && isBoundedNumber value minimum maximum.

Definition utf8ByteLength (value : jsstr) : Z :=
  foldl (fun length codePoint =>
    length + (if codePoint <=? 0x7f then 1 else if codePoint <=? 0x7ff then 2
              else if codePoint <=? 0xffff then 3 else 4)) 0 (code_points value).

(** [typeof v === "string" && PATTERN.test(v)] *)
Definition is_pattern (p : re) (v : val) : bool :=
  match v with VStr s => re_match p s | _ => false end.
(** [typeof v === "string" && utf8ByteLength(v) <= max] *)
Definition is_label (max : Z) (v : val) : bool :=
  match v with VStr s => negb (max <? utf8ByteLength s) | _ => false end.
(** [v !== undefined && !ok(v)] *)
Definition bad_optional (ok : val -> bool) (v : val) : bool :=
  negb (is_undefined v) && negb (ok v).

(** ** Masked state and result events *)

Definition validateMaskedState (value : val) : ValidationResult :=
  if negb (isRecord value) then reject (js "masked state must be an object") else
  let errors := [] in
  let errors := push_if (negb (hasOnlyKeys value (map js ["length"; "displayState"]%string)))
    (js "masked state contains an unsupported field") errors in
  let errors := push_if (negb (isBoundedInteger value.["length"] 0 MAX_RENDERED_LENGTH))
    (js "masked state.length is invalid") errors in
  let errors := push_if (negb (includes_str DISPLAY_STATES value.["displayState"]))
    (js "masked state.displayState is invalid") errors in
  finish errors.

Definition RESULT_CODES : list jsstr :=
  map js ["success"; "cancelled"; "invalid"; "locked"; "error"]%string.

Definition validateResultEvent (value : val) : ValidationResult :=
  if negb (isRecord value) then reject (js "result event must be an object") else
  let errors := [] in
  let errors := push_if (negb (hasOnlyKeys value (map js ["type"; "code"]%string)))
    (js "result event contains an unsupported field") errors in
  let errors := push_if (negb (eq_str value.["type"] (js "result")))
    (js "result event.type is invalid") errors in
  let errors := push_if (negb (includes_str RESULT_CODES value.["code"]))
    (js "result event.code is invalid") errors in
  finish errors.

(** ** Layouts *)

Definition KEY_FIELDS : list jsstr :=
  map js ["id"; "label"; "icon"; "role"; "accessibilityLabel"; "testId"]%string.

Definition validateKey (value : val) (errors : list jsstr) (path : jsstr) : list jsstr * bool :=
  if negb (isRecord value) then (errors ++ [path ++ js " must be an object"], false) else
  let errors := push_if (negb (hasOnlyKeys value KEY_FIELDS))
    (path ++ js " contains an unsupported field") errors in
  let errors := push_if (negb (is_pattern KEY_ID_PATTERN value.["id"]))
    (path ++ js ".id is invalid") errors in
  let errors := push_if (bad_optional (is_label MAX_KEY_LABEL_BYTES) value.["label"])
    (path ++ js ".label is invalid") errors in
  let errors := push_if (bad_optional (is_pattern KEY_ID_PATTERN) value.["icon"])
    (path ++ js ".icon is invalid") errors in
  let errors := push_if (negb (includes_str KEY_ROLES value.["role"]))
    (path ++ js ".role is invalid") errors in
  let errors := push_if
    (bad_optional (is_label MAX_ACCESSIBILITY_LABEL_BYTES) value.["accessibilityLabel"])
    (path ++ js ".accessibilityLabel is invalid") errors in
  let errors := push_if (bad_optional (is_pattern KEY_ID_PATTERN) value.["testId"])
    (path ++ js ".testId is invalid") errors in
  (errors, match errors with [] => true | _ => false end).

Definition row_path (rowIndex : nat) : jsstr := js "layout.rows[" ++ dec_nat rowIndex ++ js "]".
Definition key_path (rowIndex keyIndex : nat) : jsstr :=
  row_path rowIndex ++ js "[" ++ dec_nat keyIndex ++ js "]".

(** The body of the inner [forEach]; the state is [errors] and the [keyIds] set. *)
Definition layout_key (rowIndex : nat) (st : list jsstr * list jsstr) (ik : nat * val)
    : list jsstr * list jsstr :=
  let '(errors, keyIds) := st in
  let '(keyIndex, key) := ik in
  let path := key_path rowIndex keyIndex in
  let errors := (validateKey key errors path).1 in
  match isRecord key, key.["id"] with
  | true, VStr id =>
      (push_if (set_has id keyIds) (path ++ js ".id is duplicated") errors, set_add id keyIds)
  | _, _ => (errors, keyIds)
  end.

(** The body of the outer [forEach]. *)
Definition layout_row (st : list jsstr * list jsstr) (ir : nat * val) : list jsstr * list jsstr :=
  let '(errors, keyIds) := st in
  let '(rowIndex, row) := ir in
  match row with
  | VArr ks =>
      if (length ks <? 1)%nat || (32 <? length ks)%nat
      then (errors ++ [row_path rowIndex ++ js " is invalid"], keyIds)
      else foldl (layout_key rowIndex) (errors, keyIds) (present ks)
  | _ => (errors ++ [row_path rowIndex ++ js " is invalid"], keyIds)
  end.

Definition layout_rows (rows : val) (errors : list jsstr) : list jsstr :=
  match rows with
  | VArr rs =>
      if (length rs <? 1)%nat || (16 <? length rs)%nat
      then errors ++ [js "layout.rows is invalid"]
      else (foldl layout_row (errors, []) (present rs)).1
  | _ => errors ++ [js "layout.rows is invalid"]
  end.

Definition SLOT_FIELDS : list jsstr := map js ["header"; "display"; "footer"; "error"]%string.

Definition layout_slots (slots : val) (errors : list jsstr) : list jsstr :=
  if is_undefined slots then errors
  else if negb (isRecord slots) || negb (hasOnlyKeys slots SLOT_FIELDS)
  then errors ++ [js "layout.slots is invalid"]
  else push_if (existsb (fun slot => negb (is_boolean slot)) (values slots))
    (js "layout.slots values are invalid") errors.

Definition LAYOUT_FIELDS : list jsstr :=
  map js ["schemaVersion"; "id"; "locale"; "direction"; "randomizeInputKeys"; "rows"; "slots"]%string.

Definition validateLayout (value : val) : ValidationResult :=
  if negb (isRecord value) then reject (js "layout must be an object") else
  let errors := [] in
  let errors := push_if (negb (hasOnlyKeys value LAYOUT_FIELDS))
    (js "layout contains an unsupported field") errors in
  let errors := push_if (negb (eq_int value.["schemaVersion"] 1))
    (js "layout.schemaVersion is unsupported") errors in
  let errors := push_if (bad_optional (is_pattern KEY_ID_PATTERN) value.["id"])
    (js "layout.id is invalid") errors in
  let errors := push_if (bad_optional (is_pattern LOCALE_PATTERN) value.["locale"])
    (js "layout.locale is invalid") errors in
  let errors := push_if (bad_optional (includes_str (map js ["ltr"; "rtl"]%string)) value.["direction"])
    (js "layout.direction is invalid") errors in
  let errors := push_if (bad_optional is_boolean value.["randomizeInputKeys"])
    (js "layout.randomizeInputKeys is invalid") errors in
  let errors := layout_rows value.["rows"] errors in
  let errors := layout_slots value.["slots"] errors in
  finish errors.

(** ** Input policies *)

(** [/^digit-[0-9]$/] and [/^ascii-[0-9a-f]{2}$/] *)
Definition DIGIT_ID : re := RSeq (rlit (js "digit-")) (RCls [digit]).
Definition ASCII_ID : re := RSeq (rlit (js "ascii-")) (rexactly 2 (RCls [digit; (97, 102)])).

Definition hex_digit (c : Z) : Z := if c <=? 57 then c - 48 else c - 87.
(** [Number.parseInt(s, 16)] on a string of lower-case hex digits. *)
Definition parse_hex (s : jsstr) : Z := foldl (fun acc c => acc * 16 + hex_digit c) 0 s.

Definition isCanonicalInputKeyId (keyId : jsstr) (policy : InputPolicy) : bool :=
  match policy with
  | numeric => re_match DIGIT_ID keyId
  | ascii =>
      if negb (re_match ASCII_ID keyId) then false
      else let codePoint := parse_hex (drop (length (js "ascii-")) keyId) in
           (0x20 <=? codePoint) && (codePoint <=? 0x7e)
  | hangul => set_has keyId HANGUL_INPUT_KEY_IDS
  end.

Definition policy_key (policy : InputPolicy) (rowIndex : nat) (errors : list jsstr) (ik : nat * val)
    : list jsstr :=
  let '(keyIndex, key) := ik in
  push_if
    (isRecord key && eq_str key.["role"] (js "input")
     && match key.["id"] with VStr id => negb (isCanonicalInputKeyId id policy) | _ => false end)
    (key_path rowIndex keyIndex ++ js ".id is invalid for input policy") errors.

Definition policy_row (policy : InputPolicy) (errors : list jsstr) (ir : nat * val) : list jsstr :=
  let '(rowIndex, row) := ir in
  match row with
  | VArr ks => foldl (policy_key policy rowIndex) errors (present ks)
  | _ => errors
  end.

Definition validateLayoutForPolicy (value : val) (policy : InputPolicy) : ValidationResult :=
  let result := validateLayout value in
  let errors := errors result in
  finish
    (if isRecord value
     then match value.["rows"] with
          | VArr rs => foldl (policy_row policy) errors (present rs)
          | _ => errors
          end
     else errors).

(** ** Themes *)

Definition THEME_FIELDS : list jsstr :=
  map js ["schemaVersion"; "colors"; "metrics"; "typography"; "animation"; "feedback"]%string.
Definition colorKeys : list jsstr :=
  map js ["background"; "keyBackground"; "keyForeground"; "keyPressedBackground";
          "keyDisabledBackground"; "error"]%string.
Definition metricKeys : list jsstr :=
  map js ["keyHeight"; "keyGap"; "keyRadius"; "contentPadding"]%string.
(** The bounds of each metric, in the order they are checked. *)
Definition metric_bounds : list (jsstr * (Z * Z)) :=
  [(js "keyHeight", (32, 160)); (js "keyGap", (0, 48)); (js "keyRadius", (0, 80));
   (js "contentPadding", (0, 80))].
Definition HAPTICS : list jsstr := map js ["none"; "light"; "medium"; "heavy"]%string.
Definition SOUNDS : list jsstr := map js ["none"; "click"]%string.

Definition theme_colors (colors : val) (errors : list jsstr) : list jsstr :=
  if negb (isRecord colors) || negb (hasOnlyKeys colors colorKeys)
  then errors ++ [js "theme.colors is invalid"]
  else foldl (fun errors key =>
         push_if (negb (is_pattern COLOR_PATTERN (get colors key)))
           (js "theme.colors." ++ key ++ js " is invalid") errors) errors colorKeys.

Definition theme_metrics (metrics : val) (errors : list jsstr) : list jsstr :=
  if negb (isRecord metrics) || negb (hasOnlyKeys metrics metricKeys)
  then errors ++ [js "theme.metrics is invalid"]
  else foldl (fun errors '(key, (lo, hi)) =>
         push_if (negb (isBoundedNumber (get metrics key) lo hi))
           (js "theme.metrics." ++ key ++ js " is invalid") errors) errors metric_bounds.

Definition theme_typography (typography : val) (errors : list jsstr) : list jsstr :=
  if negb (isRecord typography)
     || negb (hasOnlyKeys typography (map js ["keyFontSize"; "keyFontWeight"]%string))
  then errors ++ [js "theme.typography is invalid"]
  else
    let errors := push_if (negb (isBoundedNumber typography.["keyFontSize"] 10 72))
      (js "theme.typography.keyFontSize is invalid") errors in
    push_if (negb (includes_str FONT_WEIGHTS typography.["keyFontWeight"]))
      (js "theme.typography.keyFontWeight is invalid") errors.

Definition theme_animation (animation : val) (errors : list jsstr) : list jsstr :=
  if is_undefined animation then errors
  else if negb (isRecord animation)
     || negb (hasOnlyKeys animation (map js ["pressDurationMs"; "maskRevealDurationMs"]%string))
  then errors ++ [js "theme.animation is invalid"]
  else
    let errors := push_if
      (bad_optional (fun v => isBoundedInteger v 0 500) animation.["pressDurationMs"])
      (js "theme.animation.pressDurationMs is invalid") errors in
    push_if (bad_optional (fun v => isBoundedInteger v 0 2000) animation.["maskRevealDurationMs"])
      (js "theme.animation.maskRevealDurationMs is invalid") errors.

(** [v !== undefined && !words.includes(String(v))]; [String] may throw. *)
Definition bad_word (words : list jsstr) (v : val) : result jserr bool :=
  if is_undefined v then Ok false
  else b ← includes_String words v; Ok (negb b).

Definition theme_feedback (feedback : val) (errors : list jsstr) : result jserr (list jsstr) :=
  if is_undefined feedback then Ok errors
  else if negb (isRecord feedback)
     || negb (hasOnlyKeys feedback (map js ["haptic"; "sound"]%string))
  then Ok (errors ++ [js "theme.feedback is invalid"])
  else
    bad_haptic ← bad_word HAPTICS feedback.["haptic"];
    let errors := push_if bad_haptic (js "theme.feedback.haptic is invalid") errors in
    bad_sound ← bad_word SOUNDS feedback.["sound"];
    Ok (push_if bad_sound (js "theme.feedback.sound is invalid") errors).

Definition validateTheme (value : val) : result jserr ValidationResult :=
  if negb (isRecord value) then Ok (reject (js "theme must be an object")) else
  let errors := [] in
  let errors := push_if (negb (hasOnlyKeys value THEME_FIELDS))
    (js "theme contains an unsupported field") errors in
  let errors := push_if (negb (eq_int value.["schemaVersion"] 1))
    (js "theme.schemaVersion is unsupported") errors in
  let errors := theme_colors value.["colors"] errors in
  let errors := theme_metrics value.["metrics"] errors in
  let errors := theme_typography value.["typography"] errors in
  let errors := theme_animation value.["animation"] errors in
  errors ← theme_feedback value.["feedback"] errors;
  Ok (finish errors).

(** ** Default layouts and theme *)

Definition key_spec (id : String.string) (label : jsstr) (role : String.string) : val :=
  vobj [("id", vstr id); ("label", VStr label); ("role", vstr role)]%string.
Definition all_slots : val :=
  vobj [("header", VBool true); ("display", VBool true); ("footer", VBool true);
        ("error", VBool true)]%string.
Definition digit_key (d : String.string) : val :=
  key_spec (String.append "digit-" d) (js d) "input".

Definition DEFAULT_NUMERIC_LAYOUT : val :=
  vobj [("schemaVersion", vnum 1); ("id", vstr "default-numeric"); ("locale", vstr "en");
        ("direction", vstr "ltr");
        ("rows", varr
          [varr [digit_key "1"; digit_key "2"; digit_key "3"];
           varr [digit_key "4"; digit_key "5"; digit_key "6"];
           varr [digit_key "7"; digit_key "8"; digit_key "9"];
           varr [key_spec "clear" (js "Clear") "clear"; digit_key "0";
                 key_spec "backspace" (js "Delete") "backspace"];
           varr [key_spec "cancel" (js "Cancel") "cancel";
                 key_spec "submit" (js "Continue") "submit"]]);
        ("slots", all_slots)]%string.

(** Hangul labels are written by their code units. *)
Definition DEFAULT_HANGUL_LAYOUT : val :=
  vobj [("schemaVersion", vnum 1); ("id", vstr "default-hangul-example"); ("locale", vstr "ko");
        ("direction", vstr "ltr");
        ("rows", varr
          [varr [key_spec "jamo-giyeok" [0x3131] "input"; key_spec "jamo-nieun" [0x3134] "input";
                 key_spec "jamo-digeut" [0x3137] "input"];
           varr [key_spec "vowel-a" [0x314F] "input"; key_spec "vowel-eo" [0x3153] "input";
                 key_spec "vowel-o" [0x3157] "input"];
           varr [key_spec "tail-giyeok" [0xBC1B; 0xCE68; 0x20; 0x3131] "input";
                 key_spec "tail-nieun" [0xBC1B; 0xCE68; 0x20; 0x3134] "input";
                 key_spec "tail-mieum" [0xBC1B; 0xCE68; 0x20; 0x3141] "input"];
           varr [key_spec "clear" [0xCD08; 0xAE30; 0xD654] "clear";
                 key_spec "backspace" [0xC0AD; 0xC81C] "backspace";
                 key_spec "cancel" [0xCDE8; 0xC18C] "cancel";
                 key_spec "submit" [0xD655; 0xC778] "submit"]]);
        ("slots", all_slots)]%string.

Definition DEFAULT_THEME : val :=
  vobj [("schemaVersion", vnum 1);
        ("colors", vobj [("background", vstr "#101114"); ("keyBackground", vstr "#23262D");
           ("keyForeground", vstr "#FFFFFF"); ("keyPressedBackground", vstr "#3B82F6");
           ("keyDisabledBackground", vstr "#4B5563"); ("error", vstr "#F87171")]);
        ("metrics", vobj [("keyHeight", vnum 56); ("keyGap", vnum 8); ("keyRadius", vnum 12);
           ("contentPadding", vnum 16)]);
        ("typography", vobj [("keyFontSize", vnum 24); ("keyFontWeight", vstr "600")]);
        ("animation", vobj [("pressDurationMs", vnum 80); ("maskRevealDurationMs", vnum 0)]);
        ("feedback", vobj [("haptic", vstr "light"); ("sound", vstr "none")])]%string.
