(* ===== verification/ContractsSpec.v ===== *)
(** * What the contract validators accept

    Declarative well-formedness of layouts, themes, masked states and result
    events, and the theorems that the validators of [Contracts] decide them. *)

From S2P Require Import Prelude JsNumber Regex JsValue Contracts.
Open Scope js_scope.

(** ** Specifications *)

Definition keys_within (v : val) (allowed : list jsstr) : Prop :=
  forall k, k ∈ keys v -> k ∈ allowed.
Definition optional (P : val -> Prop) (v : val) : Prop := v = VUndef \/ P v.
Definition matching (p : re) (v : val) : Prop := exists s, v = VStr s /\ matches p s.
Definition one_of (words : list jsstr) (v : val) : Prop := exists s, v = VStr s /\ s ∈ words.
(** A string of at most [max] UTF-8 bytes. *)
Definition label_within (max : Z) (v : val) : Prop :=
  exists s, v = VStr s /\ Z.of_nat (length (utf8_encode s)) <= max.
(** An integer Number in [lo, hi]. *)
Definition integer_within (lo hi : Z) (v : val) : Prop :=
  exists n z, v = VNum n /\ num_toZ n = Some z /\ lo <= z <= hi.
(** A finite Number in [lo, hi]. *)
Definition number_within (lo hi : Z) (v : val) : Prop :=
  exists m e, v = VNum (Fin m e) /\
    num_leb (num lo) (Fin m e) = true /\ num_leb (Fin m e) (num hi) = true.
Definition boolean_val (v : val) : Prop := exists b, v = VBool b.
Definition equals_int (z : Z) (v : val) : Prop := exists n, v = VNum n /\ num_eqb n (num z) = true.

Definition MaskedState_wf (v : val) : Prop :=
  is_record v = true /\ keys_within v (map js ["length"; "displayState"]%string) /\
  integer_within 0 4096 v.["length"] /\ one_of DISPLAY_STATES v.["displayState"].

Definition ResultEvent_wf (v : val) : Prop :=
  is_record v = true /\ keys_within v (map js ["type"; "code"]%string) /\
  v.["type"] = VStr (js "result") /\ one_of RESULT_CODES v.["code"].

Record Key_wf (v : val) : Prop := {
  key_record : is_record v = true;
  key_fields : keys_within v KEY_FIELDS;
  key_id : matching KEY_ID_PATTERN v.["id"];
  key_label : optional (label_within 16) v.["label"];
  key_icon : optional (matching KEY_ID_PATTERN) v.["icon"];
  key_role : one_of KEY_ROLES v.["role"];
  key_accessibility : optional (label_within 80) v.["accessibilityLabel"];
  key_test_id : optional (matching KEY_ID_PATTERN) v.["testId"];
}.

(** The string identifiers of the keys a layout visits, in order. *)
Definition row_keys (row : val) : list val := (present (slots_of row)).*2.
Definition rows_keys (rows : val) : list val :=
  flat_map row_keys (present (slots_of rows)).*2.
Definition id_of (key : val) : list jsstr :=
  match is_record key, key.["id"] with true, VStr id => [id] | _, _ => [] end.
Definition layout_ids (rows : val) : list jsstr := flat_map id_of (rows_keys rows).

Definition Row_wf (row : val) : Prop :=
  exists ks, row = VArr ks /\ (1 <= length ks <= 32)%nat /\ Forall Key_wf (row_keys row).
Definition Rows_wf (rows : val) : Prop :=
  exists rs, rows = VArr rs /\ (1 <= length rs <= 16)%nat /\
    Forall Row_wf (present rs).*2 /\ NoDup (layout_ids rows).

Definition Slots_wf (v : val) : Prop :=
  is_record v = true /\ keys_within v SLOT_FIELDS /\ Forall boolean_val (values v).

Record Layout_wf (v : val) : Prop := {
  layout_record : is_record v = true;
  layout_fields : keys_within v LAYOUT_FIELDS;
  layout_version : equals_int 1 v.["schemaVersion"];
  layout_id : optional (matching KEY_ID_PATTERN) v.["id"];
  layout_locale : optional (matching LOCALE_PATTERN) v.["locale"];
  layout_direction : optional (one_of (map js ["ltr"; "rtl"]%string)) v.["direction"];
  layout_randomize : optional boolean_val v.["randomizeInputKeys"];
  layout_rows_wf : Rows_wf v.["rows"];
  layout_slots_wf : optional Slots_wf v.["slots"];
}.

(** ** Reflection of the field tests *)

Lemma hasOnlyKeys_spec v ks : hasOnlyKeys v ks = true <-> keys_within v ks.
Proof.
  unfold hasOnlyKeys, keys_within. rewrite forallb_Forall, Forall_forall.
  by setoid_rewrite str_in_elem.
Qed.

Lemma bad_optional_spec (ok : val -> bool) P v :
  (ok v = true <-> P v) -> (bad_optional ok v = false <-> optional P v).
Proof.
  intros H. unfold bad_optional, optional. rewrite <- H, <- is_undefined_spec.
  destruct (is_undefined v), (ok v); cbn; naive_solver.
Qed.

Lemma is_pattern_spec p v : is_pattern p v = true <-> matching p v.
Proof.
  unfold matching. destruct v; cbn; try (split; [done|by intros (? & ? & _)]).
  rewrite re_match_correct. split; [eauto|]. by intros (? & [= <-] & ?).
Qed.

Lemma includes_one_of ws v : includes_str ws v = true <-> one_of ws v.
Proof. apply includes_str_spec. Qed.

Lemma is_boolean_spec v : is_boolean v = true <-> boolean_val v.
Proof. unfold boolean_val. destruct v; cbn; naive_solver. Qed.

Lemma eq_int_spec z v : eq_int v z = true <-> equals_int z v.
Proof. unfold equals_int. destruct v; cbn; naive_solver. Qed.

Lemma isBoundedNumber_spec lo hi v : isBoundedNumber v lo hi = true <-> number_within lo hi v.
Proof.
  unfold number_within. destruct v as [| | |[| |m e]| | | | | | |]; cbn -[num_leb num];
    try (split; [done|by intros (? & ? & ? & _)]).
  rewrite andb_true_iff. split; [intros []; eauto|]. by intros (? & ? & [= <- <-] & ? & ?).
Qed.

Lemma isBoundedInteger_spec lo hi v :
  isBoundedInteger v lo hi = true <-> integer_within lo hi v.
Proof.
  unfold isBoundedInteger, integer_within. destruct v as [| | |n| | | | | | |]; cbn -[num_leb num];
    try (split; [done|by intros (? & ? & ? & _)]).
  rewrite andb_true_iff, is_integer_spec, !andb_true_iff. split.
  - intros ([z Hz] & (_ & H1) & H2). exists n, z.
    rewrite (num_leb_toZ _ _ _ _ (num_toZ_num lo) Hz) in H1.
    rewrite (num_leb_toZ _ _ _ _ Hz (num_toZ_num hi)) in H2.
    split_and!; [done|done|lia|lia].
  - intros (n' & z & [= <-] & Hz & ?). split; [eauto|].
    rewrite (toZ_finite _ _ Hz), (num_leb_toZ _ _ _ _ (num_toZ_num lo) Hz),
      (num_leb_toZ _ _ _ _ Hz (num_toZ_num hi)). lia.
Qed.

(** ** UTF-8 lengths *)

Lemma utf8_bytes_length cp :
  Z.of_nat (length (utf8_bytes cp)) =
  if cp <=? 0x7f then 1 else if cp <=? 0x7ff then 2 else if cp <=? 0xffff then 3 else 4.
Proof.
  unfold utf8_bytes. destruct (is_high cp || is_low cp) eqn:E.
  - unfold is_high, is_low in E.
    destruct (Z.leb_spec cp 0x7f), (Z.leb_spec cp 0x7ff), (Z.leb_spec cp 0xffff);
      try lia; done.
  - by destruct (cp <=? 0x7f), (cp <=? 0x7ff), (cp <=? 0xffff).
Qed.

Lemma utf8ByteLength_acc l acc :
  foldl (fun length codePoint =>
    length + (if codePoint <=? 0x7f then 1 else if codePoint <=? 0x7ff then 2
              else if codePoint <=? 0xffff then 3 else 4)) acc l
  = acc + Z.of_nat (length (flat_map utf8_bytes l)).
Proof.
  revert acc; induction l as [|c l IH]; intros acc; cbn [foldl flat_map]; [cbn; lia|].
  rewrite IH, length_app, Nat2Z.inj_add, utf8_bytes_length. lia.
Qed.

Lemma utf8ByteLength_encode s : utf8ByteLength s = Z.of_nat (length (utf8_encode s)).
Proof. unfold utf8ByteLength, utf8_encode. by rewrite utf8ByteLength_acc. Qed.

Lemma is_label_spec max v : is_label max v = true <-> label_within max v.
Proof.
  unfold label_within. destruct v; cbn; try (split; [done|by intros (? & ? & _)]).
  rewrite negb_true_iff, Z.ltb_ge, utf8ByteLength_encode.
  split; [eauto|]. by intros (? & [= <-] & ?).
Qed.

(** One rewriting step for every field test. *)
Ltac field_tests :=
  rewrite ?negb_false_iff, ?hasOnlyKeys_spec, ?is_pattern_spec, ?includes_one_of,
    ?eq_int_spec, ?eq_str_spec, ?isBoundedInteger_spec, ?isBoundedNumber_spec,
    ?(bad_optional_spec _ _ _ (is_pattern_spec _ _)),
    ?(bad_optional_spec _ _ _ (is_label_spec _ _)),
    ?(bad_optional_spec _ _ _ (includes_one_of _ _)),
    ?(bad_optional_spec _ _ _ (is_boolean_spec _)),
    ?(bad_optional_spec _ _ _ (isBoundedInteger_spec _ _ _)).

(** ** Themes *)

Definition Color_wf (v : val) : Prop := matching COLOR_PATTERN v.
Definition Colors_wf (v : val) : Prop :=
  is_record v = true /\ keys_within v colorKeys /\ Forall (fun k => Color_wf (get v k)) colorKeys.
Definition Metrics_wf (v : val) : Prop :=
  is_record v = true /\ keys_within v metricKeys /\
  number_within 32 160 v.["keyHeight"] /\ number_within 0 48 v.["keyGap"] /\
  number_within 0 80 v.["keyRadius"] /\ number_within 0 80 v.["contentPadding"].
Definition Typography_wf (v : val) : Prop :=
  is_record v = true /\ keys_within v (map js ["keyFontSize"; "keyFontWeight"]%string) /\
  number_within 10 72 v.["keyFontSize"] /\ one_of FONT_WEIGHTS v.["keyFontWeight"].
Definition Animation_wf (v : val) : Prop :=
  is_record v = true /\ keys_within v (map js ["pressDurationMs"; "maskRevealDurationMs"]%string) /\
  optional (integer_within 0 500) v.["pressDurationMs"] /\
  optional (integer_within 0 2000) v.["maskRevealDurationMs"].
(** A value whose string conversion is one of [words]. *)
Definition converts_to (words : list jsstr) (v : val) : Prop :=
  exists s, String_ v = Ok s /\ s ∈ words.
Definition Feedback_wf (v : val) : Prop :=
  is_record v = true /\ keys_within v (map js ["haptic"; "sound"]%string) /\
  optional (converts_to HAPTICS) v.["haptic"] /\ optional (converts_to SOUNDS) v.["sound"].

Record Theme_wf (v : val) : Prop := {
  theme_record : is_record v = true;
  theme_fields : keys_within v THEME_FIELDS;
  theme_version : equals_int 1 v.["schemaVersion"];
  theme_colors_wf : Colors_wf v.["colors"];
  theme_metrics_wf : Metrics_wf v.["metrics"];
  theme_typography_wf : Typography_wf v.["typography"];
  theme_animation_wf : optional Animation_wf v.["animation"];
  theme_feedback_wf : optional Feedback_wf v.["feedback"];
}.

(** The canonical identifiers, listed. *)
Definition hex2 (z : Z) : jsstr :=
  let d x := if x <? 10 then 48 + x else 87 + x in [d (z / 16); d (z mod 16)].
Definition canonical_ids (p : InputPolicy) : list jsstr :=
  match p with
  | numeric => map (fun d => js "digit-" ++ dec d) (seqZ 0 10)
  | ascii => map (fun c => js "ascii-" ++ hex2 c) (seqZ 0x20 95)
  | hangul => HANGUL_INPUT_KEY_IDS
  end.

(** The keys of a layout that take part in input. *)
Definition input_key_canonical (p : InputPolicy) (key : val) : Prop :=
  is_record key = true -> key.["role"] = VStr (js "input") ->
  forall id, key.["id"] = VStr id -> id ∈ canonical_ids p.
