(* ===== verification/ContractsProps.v ===== *)
(** * Properties of the contract validators *)

From S2P Require Import Prelude JsNumber Regex JsValue Contracts ContractsSpec.
Open Scope js_scope.

(** ** Keys and rows *)

Lemma validateKey_nil v es path : (validateKey v es path).1 = [] <-> es = [] /\ Key_wf v.
Proof.
  unfold validateKey, isRecord. destruct (is_record v) eqn:Hr; cbn [negb].
  - cbn [fst]. autorewrite with js. field_tests. split.
    + intros (? & ? & ? & ? & ? & ? & ? & ?). split; [done|]. by constructor.
    + intros [? []]. done.
  - cbn [fst]. rewrite app_nil. split; [intros [_ ?]; done|]. intros [_ []]. congruence.
Qed.

Lemma layout_key_nil ri es ids j key :
  (layout_key ri (es, ids) (j, key)).1 = [] <->
  es = [] /\ Key_wf key /\ (forall id, id ∈ id_of key -> id ∉ ids).
Proof.
  unfold layout_key, id_of, isRecord.
  pose proof (validateKey_nil key es (key_path ri j)) as Hk.
  destruct (is_record key); [|cbn [fst]; rewrite Hk; set_solver].
  destruct (get key (js "id")); cbn [fst]; try (rewrite Hk; set_solver).
  rewrite push_if_nil, Hk. unfold set_has. rewrite bool_decide_eq_false. set_solver.
Qed.

Lemma layout_key_ids ri es ids j key x :
  x ∈ (layout_key ri (es, ids) (j, key)).2 <-> x ∈ ids \/ x ∈ id_of key.
Proof.
  unfold layout_key, id_of, isRecord.
  destruct (is_record key); [|cbn [snd]; set_solver].
  destruct (get key (js "id")); cbn [snd]; try set_solver.
  rewrite elem_of_set_add. set_solver.
Qed.

Lemma id_of_NoDup key : NoDup (id_of key).
Proof.
  unfold id_of. destruct (is_record key), (get key (js "id"));
    try apply NoDup_nil_2; apply NoDup_singleton.
Qed.

(** A fold of key steps reports nothing exactly when every key is well formed
    and no identifier repeats, within the fold or against the earlier ones. *)
Lemma layout_keys_nil ri ks es ids :
  (foldl (layout_key ri) (es, ids) ks).1 = [] <->
  es = [] /\ Forall Key_wf ks.*2 /\
  NoDup (flat_map id_of ks.*2) /\ (forall id, id ∈ flat_map id_of ks.*2 -> id ∉ ids).
Proof.
  revert es ids; induction ks as [|[j key] ks IH]; intros es ids; cbn [foldl].
  - cbn. split; [|naive_solver]. intros ->. split_and!; [done|constructor|constructor|set_solver].
  - destruct (layout_key ri (es, ids) (j, key)) as [es' ids'] eqn:E.
    rewrite IH. cbn [fmap list_fmap snd flat_map]. rewrite Forall_cons, NoDup_app.
    pose proof (layout_key_nil ri es ids j key) as Hn. rewrite E in Hn. cbn [fst] in Hn.
    pose proof (layout_key_ids ri es ids j key) as Hi. rewrite E in Hi. cbn [snd] in Hi.
    setoid_rewrite elem_of_app. rewrite Hn.
    pose proof (id_of_NoDup key). split.
    + intros ((-> & Hk & Hnew) & Hks & Hnd & Hdisj). split_and!; try done.
      * intros x Hx Hx'. apply (Hdisj x Hx'), Hi. by right.
      * intros x [Hx|Hx] Hin; [by apply (Hnew x)|]. apply (Hdisj x Hx), Hi. by left.
    + intros (-> & [Hk Hks] & (_ & Hd & Hnd) & Hold). split_and!; try done.
      * intros x Hx. apply Hold. by left.
      * intros x Hx [Hin|Hin]%Hi; [by apply (Hold x); [right|]|by apply (Hd x)].
Qed.

Lemma layout_keys_ids ri ks es ids x :
  x ∈ (foldl (layout_key ri) (es, ids) ks).2 <-> x ∈ ids \/ x ∈ flat_map id_of ks.*2.
Proof.
  revert es ids; induction ks as [|[j key] ks IH]; intros es ids; cbn [foldl fmap list_fmap snd flat_map].
  - set_solver.
  - destruct (layout_key ri (es, ids) (j, key)) as [es' ids'] eqn:E.
    rewrite IH, elem_of_app. pose proof (layout_key_ids ri es ids j key x) as Hi.
    rewrite E in Hi. cbn [snd] in Hi. rewrite Hi. tauto.
Qed.

Definition row_size_ok (row : val) : Prop :=
  exists ks, row = VArr ks /\ (1 <= length ks <= 32)%nat.

Lemma layout_row_nil es ids i row :
  (layout_row (es, ids) (i, row)).1 = [] <->
  es = [] /\ Row_wf row /\ NoDup (flat_map id_of (row_keys row)) /\
  (forall id, id ∈ flat_map id_of (row_keys row) -> id ∉ ids).
Proof.
  unfold layout_row, Row_wf.
  destruct row as [| | | | | | | |ks| |]; cbn [fst]; rewrite ?app_nil;
    try (split; [intros [_ ?]; done|intros (_ & (? & ? & _) & _); done]).
  unfold row_keys. cbn [slots_of].
  destruct ((length ks <? 1)%nat || (32 <? length ks)%nat) eqn:E; cbn [fst].
  - rewrite app_nil. split; [intros [_ ?]; done|].
    intros (_ & (ks' & [= <-] & Hl & _) & _). breflect_in E. lia.
  - rewrite layout_keys_nil. breflect_in E. split.
    + intros (-> & Hk & Hn & Hd). split; [done|]. split; [|done].
      exists ks. split_and!; [done|lia|lia|done].
    + intros (-> & (ks' & [= <-] & _ & Hk) & ?). done.
Qed.

Lemma layout_row_ids es ids i row x :
  (exists ks, row = VArr ks /\ (1 <= length ks <= 32)%nat) ->
  x ∈ (layout_row (es, ids) (i, row)).2 <-> x ∈ ids \/ x ∈ flat_map id_of (row_keys row).
Proof.
  intros (ks & -> & Hl). unfold layout_row, row_keys. cbn [slots_of].
  destruct ((length ks <? 1)%nat || (32 <? length ks)%nat) eqn:E.
  - breflect_in E. lia.
  - apply layout_keys_ids.
Qed.

Lemma layout_rows_fold_nil rs es ids :
  (foldl layout_row (es, ids) rs).1 = [] <->
  es = [] /\ Forall Row_wf rs.*2 /\
  NoDup (flat_map id_of (flat_map row_keys rs.*2)) /\
  (forall id, id ∈ flat_map id_of (flat_map row_keys rs.*2) -> id ∉ ids).
Proof.
  revert es ids; induction rs as [|[i row] rs IH]; intros es ids; cbn [foldl].
  - cbn. split; [|naive_solver]. intros ->. split_and!; [done|constructor|constructor|set_solver].
  - destruct (layout_row (es, ids) (i, row)) as [es' ids'] eqn:E.
    rewrite IH. cbn [fmap list_fmap snd flat_map]. rewrite flat_map_app, Forall_cons, NoDup_app.
    pose proof (layout_row_nil es ids i row) as Hn. rewrite E in Hn. cbn [fst] in Hn.
    assert (Hi : Row_wf row -> forall x, x ∈ ids' <-> x ∈ ids \/ x ∈ flat_map id_of (row_keys row)).
    { intros (ks & ? & ? & _) x. pose proof (layout_row_ids es ids i row x) as Hi.
      rewrite E in Hi. apply Hi. eauto. }
    setoid_rewrite elem_of_app. rewrite Hn. split.
    + intros ((-> & Hk & Hndr & Hnew) & Hks & Hnd & Hdisj). split_and!; try done.
      * intros x Hx Hx'. apply (Hdisj x Hx'), Hi; [done|]. by right.
      * intros x [Hx|Hx] Hin; [by apply (Hnew x)|]. apply (Hdisj x Hx), Hi; [done|]. by left.
    + intros (-> & [Hk Hks] & (? & Hd & Hnd) & Hold). split_and!; try done.
      * intros x Hx. apply Hold. by left.
      * intros x Hx [Hin|Hin]%Hi; [by apply (Hold x); [right|]|by apply (Hd x)|done].
Qed.

Lemma layout_rows_nil rows es : layout_rows rows es = [] <-> es = [] /\ Rows_wf rows.
Proof.
  unfold layout_rows, Rows_wf.
  destruct rows as [| | | | | | | |rs| |]; rewrite ?app_nil;
    try (split; [intros [_ ?]; done|intros (_ & ? & ? & _); done]).
  unfold layout_ids, rows_keys. cbn [slots_of].
  destruct ((length rs <? 1)%nat || (16 <? length rs)%nat) eqn:E; breflect_in E.
  - rewrite app_nil. split; [intros [_ ?]; done|]. intros (_ & ? & [= <-] & ? & _). lia.
  - rewrite layout_rows_fold_nil. split.
    + intros (-> & ? & ? & _). split; [done|]. exists rs. split_and!; [done|lia|lia|done|done].
    + intros (-> & ? & [= <-] & _ & ? & ?). split_and!; [done|done|done|set_solver].
Qed.

Lemma layout_slots_nil v es : layout_slots v es = [] <-> es = [] /\ optional Slots_wf v.
Proof.
  unfold layout_slots, optional, Slots_wf, isRecord. rewrite <- is_undefined_spec.
  destruct (is_undefined v) eqn:Eu; [tauto|].
  rewrite <- hasOnlyKeys_spec.
  destruct (is_record v), (hasOnlyKeys v SLOT_FIELDS); cbn [negb orb];
    try (rewrite app_nil; naive_solver).
  rewrite push_if_nil, existsb_false_Forall.
  assert (Hb : Forall (fun slot => negb (is_boolean slot) = false) (values v) <->
               Forall boolean_val (values v)).
  { apply Forall_iff. intros x. rewrite negb_false_iff. apply is_boolean_spec. }
  rewrite Hb. naive_solver.
Qed.

Lemma validateLayout_wf v : valid (validateLayout v) = true <-> Layout_wf v.
Proof.
  unfold validateLayout, isRecord. destruct (is_record v) eqn:Hr; cbn [negb].
  - rewrite finish_valid, layout_slots_nil, layout_rows_nil. autorewrite with js.
    field_tests. split.
    + intros. destruct_and!. by constructor.
    + intros []. done.
  - split; [done|]. intros []. congruence.
Qed.

(** C36. [validateLayout] accepts exactly the well-formed layouts: a record
    with only known fields, schema version 1, patterned identifier and locale, 1 to
    16 rows of 1 to 32 keys, every visited key well formed, all key identifiers
    pairwise distinct, and boolean slots. *)
Theorem validateLayout_correct v : valid (validateLayout v) = true <-> Layout_wf v.
Proof. exact (validateLayout_wf v). Qed.

(** ** Error messages never echo input *)

Definition LAYOUT_MESSAGES : list jsstr := map js
  ["layout must be an object"; "layout contains an unsupported field";
   "layout.schemaVersion is unsupported"; "layout.id is invalid"; "layout.locale is invalid";
   "layout.direction is invalid"; "layout.randomizeInputKeys is invalid";
   "layout.rows is invalid"; "layout.slots is invalid"; "layout.slots values are invalid"]%string.
Definition KEY_MESSAGES : list jsstr := map js
  [" must be an object"; " contains an unsupported field"; ".id is invalid"; ".label is invalid";
   ".icon is invalid"; ".role is invalid"; ".accessibilityLabel is invalid";
   ".testId is invalid"; ".id is duplicated"; ".id is invalid for input policy"]%string.

(** The closed vocabulary of layout errors: constants, and constants after a
    row or key position. No field name or value of the input occurs. *)
Definition layout_message (m : jsstr) : Prop :=
  m ∈ LAYOUT_MESSAGES \/
  (exists i, m = row_path i ++ js " is invalid") \/
  (exists i j suffix, suffix ∈ KEY_MESSAGES /\ m = key_path i j ++ suffix).

Lemma layout_message_const m : str_in m LAYOUT_MESSAGES = true -> layout_message m.
Proof. rewrite str_in_elem. by left. Qed.
Lemma layout_message_row i : layout_message (row_path i ++ js " is invalid").
Proof. right; left. by exists i. Qed.
Lemma layout_message_key i j suffix :
  str_in suffix KEY_MESSAGES = true -> layout_message (key_path i j ++ suffix).
Proof. rewrite str_in_elem. right; right. by exists i, j, suffix. Qed.
#[local] Hint Resolve layout_message_row : js.
#[local] Hint Extern 2 (layout_message (key_path _ _ ++ _)) =>
  (apply layout_message_key; vm_compute; reflexivity) : js.
#[local] Hint Extern 3 (layout_message (js _)) =>
  (apply layout_message_const; vm_compute; reflexivity) : js.

Ltac message_step := first
  [ apply Forall_push_if; [solve [eauto with js]|]
  | apply Forall_app; split; [|apply Forall_singleton; solve [eauto with js]]
  | assumption | apply List.Forall_nil ].
Ltac messages := solve [repeat message_step].

Lemma validateKey_messages v es i j :
  Forall layout_message es -> Forall layout_message (validateKey v es (key_path i j)).1.
Proof.
  intros. unfold validateKey. destruct (isRecord v); cbn [negb fst]; messages.
Qed.

Lemma layout_key_messages i st ik :
  Forall layout_message st.1 -> Forall layout_message (layout_key i st ik).1.
Proof.
  destruct st as [es ids], ik as [j key]. cbn [fst]. intros H. unfold layout_key.
  pose proof (validateKey_messages key es i j H).
  destruct (isRecord key), (get key (js "id")); cbn [fst]; messages.
Qed.

Lemma layout_row_messages st ir :
  Forall layout_message st.1 -> Forall layout_message (layout_row st ir).1.
Proof.
  destruct st as [es ids], ir as [i row]. cbn [fst]. intros H. unfold layout_row.
  destruct row; cbn [fst]; try solve [messages].
  destruct (_ || _); cbn [fst]; [messages|].
  apply (foldl_inv (fun st => Forall layout_message st.1)); [|done].
  intros. by apply layout_key_messages.
Qed.

Lemma layout_rows_messages rows es :
  Forall layout_message es -> Forall layout_message (layout_rows rows es).
Proof.
  intros H. unfold layout_rows. destruct rows; try solve [messages].
  destruct (_ || _); [messages|].
  apply (foldl_inv (fun st => Forall layout_message st.1)); [|done].
  intros. by apply layout_row_messages.
Qed.

Lemma layout_slots_messages v es :
  Forall layout_message es -> Forall layout_message (layout_slots v es).
Proof.
  intros H. unfold layout_slots. destruct (is_undefined v); [done|].
  destruct (_ || _); messages.
Qed.

Lemma validateLayout_messages v : Forall layout_message (errors (validateLayout v)).
Proof.
  unfold validateLayout. destruct (isRecord v); cbn [negb reject errors].
  - rewrite finish_errors. apply layout_slots_messages, layout_rows_messages. messages.
  - apply Forall_singleton. eauto with js.
Qed.

(** No error of the layout validators carries data of the validated value:
    every message belongs to the closed vocabulary [layout_message]. *)
Theorem validateLayoutForPolicy_no_echo v p :
  Forall layout_message (errors (validateLayout v)) /\
  Forall layout_message (errors (validateLayoutForPolicy v p)).
Proof.
  pose proof (validateLayout_messages v) as H. split; [done|].
  unfold validateLayoutForPolicy. rewrite finish_errors.
  destruct (isRecord v); [|done]. destruct (get v (js "rows")); try done.
  apply (foldl_inv (Forall layout_message)); [|done]. intros es [i row] _ Hes. cbn.
  destruct row; try done. apply (foldl_inv (Forall layout_message)); [|done].
  intros es' [j key] _ Hes'. unfold policy_key. messages.
Qed.

(** ** Input policies *)

Lemma canonical_ids_accepted p id :
  id ∈ canonical_ids p -> isCanonicalInputKeyId id p = true.
Proof.
  assert (H : forallb (fun id => isCanonicalInputKeyId id p) (canonical_ids p) = true)
    by (destruct p; vm_compute; reflexivity).
  rewrite forallb_Forall, Forall_forall in H. apply H.
Qed.

Lemma digit_id_listed c : 48 <= c <= 57 -> js "digit-" ++ [c] ∈ canonical_ids numeric.
Proof.
  intros Hc. apply str_in_elem.
  apply (range_check (fun c => str_in (js "digit-" ++ [c]) (canonical_ids numeric)) 48 10);
    [by vm_compute|lia].
Qed.

Lemma ascii_id_listed a b :
  (48 <= a <= 57 \/ 97 <= a <= 102) -> (48 <= b <= 57 \/ 97 <= b <= 102) ->
  0x20 <= parse_hex [a; b] <= 0x7e -> js "ascii-" ++ [a; b] ∈ canonical_ids ascii.
Proof.
  intros Ha Hb Hp. apply str_in_elem.
  pose (ok := fun a b =>
    if in_cls [digit; (97, 102)] a && in_cls [digit; (97, 102)] b
       && (0x20 <=? parse_hex [a; b]) && (parse_hex [a; b] <=? 0x7e)
    then str_in (js "ascii-" ++ [a; b]) (canonical_ids ascii) else true).
  assert (H : ok a b = true).
  { refine (range_check (ok a) 48 55 b _ _); [|lia].
    refine (range_check (fun a => forallb (ok a) (seqZ 48 55)) 48 55 a _ _); [by vm_compute|lia]. }
  unfold ok in H. destruct (_ && _ && _ && _) eqn:E in H; [exact H|].
  breflect_in E. cbn [in_cls existsb digit] in E. lia.
Qed.

(** The policy test accepts exactly the listed identifiers: ten digits, the
    95 printable ASCII code points in two lower-case hex digits, and the Hangul set. *)
Theorem isCanonicalInputKeyId_exact p id :
  isCanonicalInputKeyId id p = true <-> id ∈ canonical_ids p.
Proof.
  split; [|apply canonical_ids_accepted]. destruct p; cbn [isCanonicalInputKeyId].
  - rewrite re_match_correct. unfold DIGIT_ID. rewrite matches_seq.
    intros (s1 & s2 & -> & ->%matches_lit & (c & -> & Hc)%matches_cls).
    apply digit_id_listed. cbn in Hc. lia.
  - destruct (re_match ASCII_ID id) eqn:E; cbn [negb]; [|done].
    apply re_match_correct in E. unfold ASCII_ID in E. rewrite matches_seq in E.
    destruct E as (s1 & s2 & -> & ->%matches_lit & (Hl & Hf)%matches_exactly_cls).
    destruct s2 as [|a [|b [|]]]; try discriminate. rewrite drop_app_length.
    rewrite andb_true_iff, !Z.leb_le. intros Hp. rewrite !Forall_cons in Hf.
    destruct Hf as (Ha & Hb & _). cbn in Ha, Hb. apply ascii_id_listed; [lia|lia|done].
  - apply bool_decide_eq_true.
Qed.

Lemma validateLayoutForPolicy_wf v p :
  valid (validateLayoutForPolicy v p) = true <->
  Layout_wf v /\ Forall (input_key_canonical p) (rows_keys v.["rows"]).
Proof.
  unfold validateLayoutForPolicy. rewrite finish_valid.
  assert (Hv : errors (validateLayout v) = [] <-> Layout_wf v).
  { rewrite <- validateLayout_wf. unfold validateLayout.
    destruct (isRecord v); cbn [negb]; [rewrite finish_valid; done|done]. }
  assert (Hkey : forall i ks es, foldl (policy_key p i) es ks = [] <->
            es = [] /\ Forall (input_key_canonical p) ks.*2).
  { intros i ks. induction ks as [|[j key] ks IH]; intros es; cbn [foldl fmap list_fmap snd].
    { split; [intros ->; split; [done|constructor]|by intros [-> _]]. }
    rewrite IH, Forall_cons. unfold policy_key at 1. rewrite push_if_nil.
    assert (Hc : isRecord key && eq_str key.["role"] (js "input") &&
        match key.["id"] with VStr id => negb (isCanonicalInputKeyId id p) | _ => false end = false
        <-> input_key_canonical p key).
    { unfold input_key_canonical, isRecord. rewrite !andb_false_iff, <- eq_str_spec.
      setoid_rewrite <- isCanonicalInputKeyId_exact.
      destruct (is_record key), (eq_str _ _);
        try (split; [intros _ ? ?; congruence|intros _; tauto]).
      destruct (get key (js "id")) as [| | | |id| | | | | |]; cbn;
        try (split; [intros _ _ _ ? ?; congruence|tauto]).
      rewrite negb_false_iff. split; [intros [[|]|Hc] _ _ id' [= <-]; done|]. intros Hc. right.
      by apply Hc. }
    rewrite Hc. tauto. }
  assert (Hrows : forall rs es, foldl (policy_row p) es rs = [] <->
            es = [] /\ Forall (input_key_canonical p) (flat_map row_keys rs.*2)).
  { intros rs. induction rs as [|[i row] rs IH]; intros es; cbn [foldl fmap list_fmap snd flat_map].
    { split; [intros ->; split; [done|constructor]|by intros [-> _]]. }
    rewrite IH, Forall_app. unfold policy_row at 1, row_keys at 2.
    destruct row; cbn [slots_of]; try (rewrite Forall_nil; tauto).
    rewrite Hkey. tauto. }
  unfold isRecord. destruct (is_record v) eqn:Er.
  - unfold rows_keys. destruct (get v (js "rows")) eqn:Erows; cbn [slots_of];
      try (cbn; rewrite Hv, Forall_nil; tauto).
    rewrite Hrows, Hv. done.
  - rewrite Hv. split; [intros H|by intros [? _]]. destruct H; congruence.
Qed.

(** With an input policy, a layout is accepted exactly when it is well
    formed and every visited input-role key carries a canonical identifier. *)
Theorem validateLayoutForPolicy_correct v p :
  valid (validateLayoutForPolicy v p) = true <->
  Layout_wf v /\ Forall (input_key_canonical p) (rows_keys v.["rows"]).
Proof. exact (validateLayoutForPolicy_wf v p). Qed.

(** ** Masked states and result events *)

Lemma event_validators_wf v :
  (valid (validateMaskedState v) = true <-> MaskedState_wf v) /\
  (valid (validateResultEvent v) = true <-> ResultEvent_wf v).
Proof.
  unfold validateMaskedState, validateResultEvent, MaskedState_wf, ResultEvent_wf, isRecord.
  split; (destruct (is_record v) eqn:Hr; cbn [negb]; [|split; [done|naive_solver]]).
  all: rewrite finish_valid; autorewrite with js; field_tests; tauto.
Qed.

(** Masked metadata is accepted exactly when it is a record of a bounded
    integer length and a known display state and nothing else; a result event exactly
    when it is the tag and one of the five codes and nothing else. *)
Theorem event_validators_correct v :
  (valid (validateMaskedState v) = true <-> MaskedState_wf v) /\
  (valid (validateResultEvent v) = true <-> ResultEvent_wf v).
Proof. exact (event_validators_wf v). Qed.

(** ** Themes *)

Lemma foldl_push_if_nil {A} (bad : A -> bool) (msg : A -> jsstr) (l : list A) es :
  foldl (fun es x => push_if (bad x) (msg x) es) es l = [] <->
  es = [] /\ Forall (fun x => bad x = false) l.
Proof.
  revert es; induction l as [|x l IH]; intros es; cbn [foldl].
  - rewrite Forall_nil. tauto.
  - rewrite IH, push_if_nil, Forall_cons. tauto.
Qed.

Lemma theme_colors_nil v es : theme_colors v es = [] <-> es = [] /\ Colors_wf v.
Proof.
  unfold theme_colors, Colors_wf, isRecord. rewrite <- hasOnlyKeys_spec.
  destruct (is_record v), (hasOnlyKeys v colorKeys); cbn [negb orb];
    try (rewrite app_nil; naive_solver).
  rewrite foldl_push_if_nil. setoid_rewrite negb_false_iff.
  setoid_rewrite is_pattern_spec. naive_solver.
Qed.

Lemma theme_metrics_nil v es : theme_metrics v es = [] <-> es = [] /\ Metrics_wf v.
Proof.
  unfold theme_metrics, Metrics_wf, isRecord. rewrite <- hasOnlyKeys_spec.
  destruct (is_record v), (hasOnlyKeys v metricKeys); cbn [negb orb];
    try (rewrite app_nil; naive_solver).
  cbn [foldl metric_bounds]. rewrite !push_if_nil, !negb_false_iff, !isBoundedNumber_spec.
  naive_solver.
Qed.

Lemma theme_typography_nil v es : theme_typography v es = [] <-> es = [] /\ Typography_wf v.
Proof.
  unfold theme_typography, Typography_wf, isRecord. rewrite <- hasOnlyKeys_spec.
  destruct (is_record v), (hasOnlyKeys v _); cbn [negb orb];
    try (rewrite app_nil; naive_solver).
  rewrite !push_if_nil. field_tests. naive_solver.
Qed.

Lemma theme_animation_nil v es :
  theme_animation v es = [] <-> es = [] /\ optional Animation_wf v.
Proof.
  unfold theme_animation, optional at 1, Animation_wf, isRecord.
  rewrite <- hasOnlyKeys_spec, <- is_undefined_spec.
  destruct (is_undefined v); [tauto|].
  destruct (is_record v), (hasOnlyKeys v _); cbn [negb orb];
    try (rewrite app_nil; naive_solver).
  rewrite !push_if_nil. field_tests. naive_solver.
Qed.

Lemma bad_word_false ws v : bad_word ws v = Ok false <-> optional (converts_to ws) v.
Proof.
  unfold bad_word, optional, converts_to, includes_String. rewrite <- is_undefined_spec.
  destruct (is_undefined v); [tauto|]. destruct (String_ v) as [s|e]; cbn.
  - setoid_rewrite <- str_in_elem. destruct (str_in s ws) eqn:E; cbn; split; try done.
    + intros _. right. by exists s.
    + intros [|(s' & [= <-] & ?)]; [done|congruence].
  - split; [done|]. intros [|(s' & ? & _)]; done.
Qed.

Lemma theme_feedback_nil v es :
  theme_feedback v es = Ok [] <-> es = [] /\ optional Feedback_wf v.
Proof.
  unfold theme_feedback, optional at 1, Feedback_wf, isRecord.
  rewrite <- hasOnlyKeys_spec, <- is_undefined_spec.
  destruct (is_undefined v); [naive_solver|].
  destruct (is_record v), (hasOnlyKeys v _); cbn [negb orb];
    try (split; [intros H; exfalso; injection H as H; by destruct es|]; intros (_ & [|(? & ? & _)]); done).
  rewrite bind_Ok. setoid_rewrite bind_Ok. split.
  - intros (bh & Hh & bs & Hs & [= H]). rewrite !push_if_nil in H.
    destruct H as (-> & -> & ->). rewrite <- !bad_word_false. split; [done|]. by right.
  - rewrite <- !bad_word_false. intros (-> & [|(_ & _ & Hh & Hs)]); [done|].
    exists false. split; [done|]. by exists false.
Qed.

Lemma validateTheme_wf v :
  (exists r, validateTheme v = Ok r /\ valid r = true) <-> Theme_wf v.
Proof.
  unfold validateTheme, isRecord. destruct (is_record v) eqn:Hr; cbn [negb].
  - set (es := theme_animation _ _).
    assert (Hes : es = [] <-> keys_within v THEME_FIELDS /\ equals_int 1 v.["schemaVersion"] /\
      Colors_wf v.["colors"] /\ Metrics_wf v.["metrics"] /\ Typography_wf v.["typography"] /\
      optional Animation_wf v.["animation"]).
    { subst es. rewrite theme_animation_nil, theme_typography_nil, theme_metrics_nil,
        theme_colors_nil, !push_if_nil. field_tests. tauto. }
    clearbody es. split.
    + intros (r & (es' & Hf & [= <-])%bind_Ok & ->%finish_valid).
      apply theme_feedback_nil in Hf as [H Hf]. apply Hes in H. destruct_and! H. by constructor.
    + intros []. exists (finish []). split; [|done]. apply bind_Ok. exists [].
      split; [|done]. apply theme_feedback_nil. split; [apply Hes|]; done.
  - split; [intros (r & [= <-] & ?); done|]. intros []. congruence.
Qed.

(** [validateTheme] returns a valid result exactly on the well-formed
    themes; in particular it completes on each of them. *)
Theorem validateTheme_correct v :
  (exists r, validateTheme v = Ok r /\ valid r = true) <-> Theme_wf v.
Proof. exact (validateTheme_wf v). Qed.

(** ** Defaults, lengths and two boundary behaviours *)

Lemma utf8_bytes_bounds c :
  (1 <= length (utf8_bytes c) <= 4)%nat /\ (is_code_unit c -> (length (utf8_bytes c) <= 3)%nat).
Proof.
  pose proof (utf8_bytes_length c) as H. unfold is_code_unit.
  destruct (Z.leb_spec c 0x7f), (Z.leb_spec c 0x7ff), (Z.leb_spec c 0xffff); lia.
Qed.

(** The hand-written UTF-8 length equals the length of the encoding of the
    string, lone surrogates included, and lies between one and three bytes per unit. *)
Theorem utf8ByteLength_is_encoding_length s :
  Forall is_code_unit s ->
  utf8ByteLength s = Z.of_nat (length (utf8_encode s)) /\
  Z.of_nat (length s) <= utf8ByteLength s <= 3 * Z.of_nat (length s).
Proof.
  intros Hs. split; [apply utf8ByteLength_encode|]. rewrite utf8ByteLength_encode. unfold utf8_encode.
  revert Hs. induction s as [|c|h l t IH IH'] using code_points_ind; intros Hs; [done| |].
  - rewrite Forall_singleton in Hs. cbn [code_points flat_map]. rewrite length_app.
    pose proof (utf8_bytes_bounds c) as [? Hb]. specialize (Hb Hs). cbn [length]. lia.
  - rewrite !Forall_cons in Hs. destruct Hs as (Hh & Hl & Ht).
    specialize (IH Ht). specialize (IH' ltac:(by constructor)).
    change (code_points (h :: l :: t)) with
      (if is_high h && is_low l then (h - 0xD800) * 1024 + (l - 0xDC00) + 0x10000 :: code_points t
       else h :: code_points (l :: t)).
    destruct (is_high h && is_low l) eqn:E; cbn [flat_map]; rewrite length_app.
    + assert (Hb : Z.of_nat (length (utf8_bytes ((h - 0xD800) * 1024 + (l - 0xDC00) + 0x10000))) = 4).
      { rewrite utf8_bytes_length. unfold is_high, is_low in E. breflect_in E.
        destruct (Z.leb_spec ((h - 0xD800) * 1024 + (l - 0xDC00) + 0x10000) 0x7f),
          (Z.leb_spec ((h - 0xD800) * 1024 + (l - 0xDC00) + 0x10000) 0x7ff),
          (Z.leb_spec ((h - 0xD800) * 1024 + (l - 0xDC00) + 0x10000) 0xffff); lia. }
      cbn [length]. lia.
    + pose proof (utf8_bytes_bounds h) as [? Hb]. specialize (Hb Hh). cbn [length] in *. lia.
Qed.
(* a Hangul syllable, a surrogate pair and a lone high surrogate *)
Lemma utf8ByteLength_is_encoding_length_witness :
  utf8ByteLength [0xBC1B; 0xD83D; 0xDE00; 0xD800] = 10 /\
  length [0xBC1B; 0xD83D; 0xDE00; 0xD800] = 4%nat /\
  Z.of_nat (length [0xBC1B; 0xD83D; 0xDE00; 0xD800]) <= utf8ByteLength [0xBC1B; 0xD83D; 0xDE00; 0xD800].
Proof.
  split; [reflexivity|]. split; [reflexivity|].
  apply (utf8ByteLength_is_encoding_length [0xBC1B; 0xD83D; 0xDE00; 0xD800]).
  by repeat (constructor; [unfold is_code_unit; lia|]).
Defined.

(** The exported defaults pass their own validators. *)
Lemma defaults_accepted :
  valid (validateLayoutForPolicy DEFAULT_NUMERIC_LAYOUT numeric) = true /\
  valid (validateLayoutForPolicy DEFAULT_HANGUL_LAYOUT hangul) = true /\
  validateTheme DEFAULT_THEME = Ok {| valid := true; errors := [] |}.
Proof. split_and!; vm_compute; reflexivity. Qed.

(** A theme that differs from the default in its feedback only. *)
Definition theme_with_haptic (haptic : val) : val :=
  match DEFAULT_THEME with
  | VObj ps => VObj (filter (fun kv => kv.1 <> js "feedback") ps ++
                     [(js "feedback", vobj [("haptic", haptic)]%string)])
  | v => v
  end.

(** [String(haptic)] is tested instead of [haptic]: a one-element array
    holding an allowed word is accepted although it is not a string, and an object with
    a non-callable [toString] field makes the validator throw. *)
Lemma theme_haptic_conversion :
  validateTheme (theme_with_haptic (varr [vstr "light"])) = Ok {| valid := true; errors := [] |} /\
  validateTheme (theme_with_haptic (vobj [("toString", vnum 1)]%string)) = Throw TypeError.
Proof. split; vm_compute; reflexivity. Qed.

(** [forEach] skips holes: a layout whose only row slot is a hole is
    accepted although none of its rows has been validated and it has no key. *)
Lemma sparse_rows_accepted :
  exists v, valid (validateLayout v) = true /\ valid (validateLayoutForPolicy v numeric) = true /\
    rows_keys v.["rows"] = [].
Proof.
  exists (VObj [(js "schemaVersion", vnum 1); (js "rows", VArr [None])]).
  split_and!; vm_compute; reflexivity.
Qed.
