(* ===== verification/ServerNode.v ===== *)
(** * packages/server-node/src/index.ts

    The Fetch handler in front of the OPAQUE delegate.  A handler run is a tree
    of the awaits it performs ([prog]); the code between two awaits is ordinary
    functions.  The replay map is the only state the runs of one handler share. *)

From S2P Require Import Prelude JsNumber Regex JsValue.
Open Scope js_scope.

(** ** Constants *)

Definition NODE_SERVER_CONTRACT_VERSION : Z := 1.
Definition OPAQUE_PROTOCOL_VERSION : Z := 1.
Definition OPAQUE_CIPHER_SUITE_ID : jsstr := js "opaque-ke-4.0.1-ristretto255-tripledh-sha512-argon2".
Definition MAX_HTTP_BODY_BYTES : Z := 128 * 1024.
Definition JSON_CONTENT_TYPE : jsstr := js "application/json; charset=utf-8".
Definition OPAQUE_ROUTE_PATHS : list jsstr := map js
  ["/v1/opaque/registration/start"; "/v1/opaque/registration/finish";
   "/v1/opaque/login/start"; "/v1/opaque/login/finish"]%string.
Definition RESPONSE_SECURITY_HEADERS : list (jsstr * jsstr) :=
  map (fun '(n, v) => (js n, js v))
  [("cache-control", "no-store"); ("pragma", "no-cache"); ("x-content-type-options", "nosniff");
   ("referrer-policy", "no-referrer");
   ("content-security-policy", "default-src 'none'; frame-ancestors 'none'; base-uri 'none'")]%string.
Definition STATUS_CODES : list Z := [200; 400; 401; 403; 404; 405; 413; 415; 429; 503].
Definition MAX_FINANCIAL_REPLAY_ENTRIES : nat := 4096.
Definition DEVICE_INTEGRITY_PROVIDERS : list jsstr :=
  map js ["android-play-integrity"; "ios-app-attest"; "ios-device-check"; "custom"]%string.

(** ** Platform data the handler receives *)

(** A host object: reading a property may run a getter that throws. *)
Abbreviation hostobj := (jsstr -> result jserr val).

(** What [new URL(request.url)] exposes. *)
Record url := { search : jsstr; hash : jsstr; pathname : jsstr }.
(** Accessors of the Fetch [Request]; each may throw. [has_body] is
    [request.body !== null]. *)
Record request := {
  parsed_url : result jserr url;
  method : result jserr jsstr;
  content_type : result jserr (option jsstr);
  content_length : result jserr (option jsstr);
  has_body : result jserr bool;
}.
(** Each option is read once per request; for the callbacks only presence matters. *)
Record CreateOpaqueHandlerOptions := {
  rateLimitDecision : result jserr bool;
  financialContext : result jserr bool;
  deviceIntegrityVerifier : result jserr bool;
  deploymentContext : result jserr hostobj;
  securityProfile : result jserr val;
  csrfValidated : result jserr unit;
  delegate : result jserr unit;
}.

Record Response := {
  status : Z;
  headers : list (jsstr * jsstr);
  response_body : list Z;
}.

(** ** Responses *)

(** [JSON.stringify({ error: code })] encoded; 123, 34, 58, 125 are the code
    units of an opening brace, a quote, a colon and a closing brace. *)
Definition errorBody (code : jsstr) : list Z :=
  utf8_encode ([123; 34] ++ js "error" ++ [34; 58; 34] ++ code ++ [34; 125]).
Definition responseHeaders : list (jsstr * jsstr) :=
  (js "content-type", JSON_CONTENT_TYPE) :: RESPONSE_SECURITY_HEADERS.
Definition genericResponse (st : Z) (code : jsstr) : Response :=
  {| status := st; headers := responseHeaders; response_body := errorBody code |}.
Definition invalid (st : Z) : Response := genericResponse st (js "invalid_request").
Definition unavailable : Response := genericResponse 503 (js "temporarily_unavailable").

(** ** Guards evaluated before the first await *)

Definition isSecurityProfile (value : val) : bool :=
  eq_str value (js "standard") || eq_str value (js "financial").

Definition isReady (context : hostobj) : option Z :=
  let checks : result jserr (option Z) :=
    transport ← context (js "transport");
    if negb (eq_str transport (js "direct-tls") || eq_str transport (js "trusted-proxy-tls"))
    then Ok None else
    limit ← context (js "upstreamBodyLimitBytes");
    match limit with
    | VNum n =>
        if is_safe_integer n && num_ltb (num 0) n && num_leb n (num MAX_HTTP_BODY_BYTES)
        then
          enforced ← context (js "connectionLimitsEnforced");
          Ok (if truthy enforced then num_toZ n else None)
        else Ok None
    | _ => Ok None
    end in
  match checks with Ok r => r | Throw _ => None end.

Definition routePath (r : request) : option jsstr :=
  match parsed_url r with
  | Ok u =>
      match search u, hash u with
      | [], [] => if str_in (pathname u) OPAQUE_ROUTE_PATHS then Some (pathname u) else None
      | _, _ => None
      end
  | Throw _ => None
  end.

(** WhiteSpace and LineTerminator code units, removed by [trim]. *)
Definition is_space (c : Z) : bool :=
  ((9 <=? c) && (c <=? 13)) || (c =? 32) || (c =? 160) || (c =? 0x1680)
  || ((0x2000 <=? c) && (c <=? 0x200A)) || (c =? 0x2028) || (c =? 0x2029)
  || (c =? 0x202F) || (c =? 0x205F) || (c =? 0x3000) || (c =? 0xFEFF).
Fixpoint trim_left (s : jsstr) : jsstr :=
  match s with c :: s' => if is_space c then trim_left s' else s | [] => [] end.
Definition trim (s : jsstr) : jsstr := rev (trim_left (rev (trim_left s))).
(** Header values are byte strings: lower case on Latin-1 code units. *)
Definition toLowerCase (s : jsstr) : jsstr :=
  map (fun c => if ((65 <=? c) && (c <=? 90)) || ((192 <=? c) && (c <=? 222) && negb (c =? 215))
                then c + 32 else c) s.
(** [s.split(";", 1)[0]] *)
Fixpoint before_semicolon (s : jsstr) : jsstr :=
  match s with c :: s' => if c =? 59 then [] else c :: before_semicolon s' | [] => [] end.

Definition isJsonContentType (value : option jsstr) : bool :=
  match value with
  | None => false
  | Some v => str_eqb (toLowerCase (trim (before_semicolon v))) (js "application/json")
  end.

Inductive declared := Undeclared | Invalid | Declared (n : Z).
Definition DIGITS : re := rplus (RCls [(48, 57)]).
Definition decimal_value (s : jsstr) : Z := foldl (fun acc c => acc * 10 + (c - 48)) 0 s.
(** [Number(value)] on a trimmed run of digits rounds to a binary64 value. *)
Definition declaredBodyLength (value : option jsstr) : declared :=
  match value with
  | None => Undeclared
  | Some v =>
      if negb (re_match DIGITS (trim v)) then Invalid
      else let length := round53 (decimal_value (trim v)) 0 in
           if is_safe_integer length
           then match num_toZ length with Some n => Declared n | None => Invalid end
           else Invalid
  end.

(** ** Financial profile *)

(** The Unicode data behind [/(?:\p{C}|\p{White_Space})/u], which the source
    takes from the platform; the laws are the ASCII rows of those tables. *)
Class UnicodeData := {
  control_or_space : Z -> bool;
  ascii_control_or_space : forall c, 0 <= c <= 32 \/ c = 127 -> control_or_space c = true;
}.

Section financial.
Context {unicode : UnicodeData}.

Definition isBoundedBinding (value : val) (minimumLength maximumLength : Z) : bool :=
  match value with
  | VStr s =>
      if existsb control_or_space (code_points s) then false
      else let byteLength := Z.of_nat (length (utf8_encode s)) in
           (minimumLength <=? byteLength) && (byteLength <=? maximumLength)
  | _ => false
  end.

(** [path.includes("registration")] *)
Definition operation_of (path : jsstr) : jsstr :=
  if re_search (rlit (js "registration")) path then js "registration" else js "login".

Definition isValidFinancialContext (candidate : val) (path : jsstr) : bool :=
  if negb (is_object candidate) then false else
  eq_str candidate.["operation"] (operation_of path)
  && isBoundedBinding candidate.["subject"] 1 256
  && isBoundedBinding candidate.["nonce"] 16 512
  && isBoundedBinding candidate.["deploymentId"] 1 128.
End financial.

Definition isFreshBoundEvidence (candidate context : val) (nowMs : Z) : bool :=
  if negb (is_object candidate) then false else
  if negb (includes_str DEVICE_INTEGRITY_PROVIDERS candidate.["provider"]) then false else
  if negb (strict_eq candidate.["subject"] context.["subject"]
           && strict_eq candidate.["operation"] context.["operation"]
           && strict_eq candidate.["nonce"] context.["nonce"]
           && strict_eq candidate.["deploymentId"] context.["deploymentId"]) then false else
  match candidate.["issuedAtMs"], candidate.["expiresAtMs"] with
  | VNum issuedAtMs, VNum expiresAtMs =>
      if negb (is_safe_integer issuedAtMs) || negb (is_safe_integer expiresAtMs) then false else
      num_leb issuedAtMs (num_add (num nowMs) (num 30000))
      && num_ltb (num nowMs) expiresAtMs
      && num_ltb issuedAtMs expiresAtMs
      && num_leb (num_sub expiresAtMs issuedAtMs) (num 300000)
  | _, _ => false
  end.

(** The [Map<string, number>] shared by every request of one handler. *)
Abbreviation replay_map := (gmap jsstr jsnum).

Inductive FinancialReplayDecision := consumed | replayed | unavailable_decision.
#[export] Instance FinancialReplayDecision_eq_dec : EqDecision FinancialReplayDecision.
Proof. solve_decision. Defined.

(** [${deploymentId}\u0000${subject}\u0000${operation}\u0000${nonce}] *)
Definition replay_key (context : val) : result jserr jsstr :=
  d ← to_string context.["deploymentId"];
  s ← to_string context.["subject"];
  o ← to_string context.["operation"];
  n ← to_string context.["nonce"];
  Ok (d ++ [0] ++ s ++ [0] ++ o ++ [0] ++ n).

Definition sweep (m : replay_map) (nowMs : Z) : replay_map :=
  filter (fun kv => num_leb kv.2 (num nowMs) = false) m.

Definition consumeFinancialEvidence (m : replay_map) (context : val) (expiresAtMs : jsnum) (nowMs : Z)
    : replay_map * FinancialReplayDecision :=
  let m := sweep m nowMs in
  match replay_key context with
  | Throw _ => (m, unavailable_decision)
  | Ok replayKey =>
      match m !! replayKey with
      | Some _ => (m, replayed)
      | None =>
          if (MAX_FINANCIAL_REPLAY_ENTRIES <=? size m)%nat then (m, unavailable_decision)
          else (<[replayKey := expiresAtMs]> m, consumed)
      end
  end.

(** ** Buffers and the body stream *)

(** Array buffers by identity: two chunks may view the same buffer. *)
Abbreviation heap := (gmap nat (list Z)).
Record view := { vbuffer : nat; voffset : nat; vlength : nat }.
#[export] Instance view_eq_dec : EqDecision view.
Proof. solve_decision. Defined.

(** A value a stream or the delegate hands over: a [Uint8Array], another view
    with its BYTES_PER_ELEMENT (none for a DataView), a buffer, or anything else. *)
Inductive chunk :=
  | CUint8Array (v : view)
  | CView (v : view) (bytes_per_element : option Z)
  | CArrayBuffer (id : nat)
  | COther.

(** The [byteLength] bytes of a view. *)
Definition view_bytes (h : heap) (v : view) : list Z :=
  resize (vlength v) 0 (drop (voffset v) (default [] (h !! vbuffer v))).
(** [view.fill(0)]: zeros over the viewed range. *)
Definition fill0 (v : view) (h : heap) : heap :=
  alter (fun bs => take (voffset v) bs
                   ++ replicate (length (take (vlength v) (drop (voffset v) bs))) 0
                   ++ drop (voffset v + vlength v) bs) (vbuffer v) h.
Definition whole (h : heap) (id : nat) : view :=
  {| vbuffer := id; voffset := 0; vlength := length (default [] (h !! id)) |}.

Definition byteView (h : heap) (value : chunk) : option view :=
  match value with
  | CUint8Array v => Some v
  | CView v (Some 1) => Some v
  | CView _ _ => None
  | CArrayBuffer id => Some (whole h id)
  | COther => None
  end.
Definition zeroizeChunk (value : chunk) (h : heap) : heap :=
  match value with
  | CUint8Array v | CView v _ => fill0 v h
  | CArrayBuffer id => fill0 (whole h id) h
  | COther => h
  end.

(** What one [await reader.read()] yields, with the heap as the host left it. *)
Inductive read_result := RDone | RChunk (value : chunk) | RThrow.
Abbreviation read_outcome := (heap * read_result)%type.

Inductive body_error := BodyTooLargeError | StreamError.

Definition clearChunks (chunks : list view) (h : heap) : heap :=
  foldl (fun h v => fill0 v h) h chunks.

Fixpoint concat_chunks (h : heap) (chunks : list view) : list Z :=
  match chunks with [] => [] | v :: vs => view_bytes h v ++ concat_chunks h vs end.

(** The read loop; [None] when the outcomes end before the loop does. The
    failing paths leave through the [catch] block, which clears the chunks. *)
Fixpoint read_loop (outcomes : list read_outcome) (limit : Z) (chunks : list view) (total : Z)
    : option (heap * (list view + body_error)) :=
  match outcomes with
  | [] => None
  | (h, RThrow) :: _ => Some (clearChunks chunks h, inr StreamError)
  | (h, RDone) :: _ => Some (h, inl chunks)
  | (h, RChunk value) :: outcomes' =>
      match byteView h value with
      | None => Some (clearChunks chunks (clearChunks chunks (zeroizeChunk value h)), inr StreamError)
      | Some bytes =>
          let total := total + Z.of_nat (vlength bytes) in
          if limit <? total
          then Some (clearChunks chunks (clearChunks chunks h), inr BodyTooLargeError)
          else read_loop outcomes' limit (chunks ++ [bytes]) total
      end
  end.

(** The output array is a new buffer holding the concatenation; the chunks are
    cleared before it is returned. *)
Definition readBoundedBody (hasBody : bool) (h0 : heap) (outcomes : list read_outcome) (limit : Z)
    : option (heap * (nat + body_error)) :=
  if negb hasBody
  then let id := fresh (dom h0) in Some (<[id := []]> h0, inl id)
  else
    match read_loop outcomes limit [] 0 with
    | None => None
    | Some (h, inr e) => Some (h, inr e)
    | Some (h, inl chunks) =>
        let id := fresh (dom h) in
        Some (clearChunks chunks (<[id := concat_chunks h chunks]> h), inl id)
    end.

(** ** Delegation *)

Record NodeHttpRequest := {
  req_path : jsstr;
  req_contentType : jsstr;
  req_csrfValidated : bool;
  req_body : nat;
}.

(** The value the delegate resolves to. *)
Inductive delegate_value :=
  | DNull
  | DUndefined
  | DPrimitive
  | DObject (status : val) (body : chunk).

Definition status_code (v : val) : option Z :=
  match v with
  | VNum n => match num_toZ n with
              | Some z => if bool_decide (z ∈ STATUS_CODES) then Some z else None
              | None => None
              end
  | _ => None
  end.

Definition responseFromDelegate (value : delegate_value) (h : heap) : result jserr Response * heap :=
  match value with
  | DUndefined => (Throw TypeError, h)
  | DNull | DPrimitive => (Ok unavailable, h)
  | DObject st body =>
      (match status_code st, body with
       | Some z, CUint8Array v =>
           if MAX_HTTP_BODY_BYTES <? Z.of_nat (vlength v) then Ok unavailable
           else Ok {| status := z; headers := responseHeaders; response_body := view_bytes h v |}
       | _, _ => Ok unavailable
       end, zeroizeChunk body h)
  end.

(** ** The handler *)

(** One request as the tree of its awaits. [Admit] is the synchronous block that
    checks and consumes attestation evidence and continues with [rest] when it
    is consumed: it reads the clock twice and updates the shared replay map
    without an await in between. *)
Inductive prog : Type :=
  | Respond (r : Response) (h : heap)
  | Pending
  | Csrf (k : result jserr val -> prog)
  | RateLimit (k : result jserr val -> prog)
  | FinancialContext (path : jsstr) (k : result jserr val -> prog)
  | Verify (context : val) (k : result jserr val -> prog)
  | Admit (context verification : val) (rest : prog)
  | ReadBody (limit : Z) (k : heap -> list read_outcome -> prog)
  | Delegate (req : NodeHttpRequest) (h : heap) (k : heap -> result jserr delegate_value -> prog).

(** A response before any body exists. *)
Definition respond (r : Response) : prog := Respond r ∅.

Record handler_options := {
  h_deployment : hostobj;
  h_limit : Z;
  h_profile : val;
  h_has_rate : bool;
  h_has_financial : bool;
  h_has_verifier : bool;
}.

(** Reads every option once, in source order, with the default profile. *)
Definition read_options (o : CreateOpaqueHandlerOptions)
    : result jserr (bool * bool * bool * hostobj * val) :=
  rate ← rateLimitDecision o;
  fin ← financialContext o;
  ver ← deviceIntegrityVerifier o;
  dep ← deploymentContext o;
  prof ← securityProfile o;
  _ ← csrfValidated o;
  _ ← delegate o;
  Ok (rate, fin, ver, dep,
      match prof with VUndef | VNull => vstr "standard" | p => p end).

(** Route, method, media type and declared length: a response, or the path and
    the content type the rest of the handler uses. *)
Definition admission (r : request) (limit : Z) : Response + jsstr * jsstr :=
  match routePath r with
  | None => inl (invalid 404)
  | Some path =>
      let rest : result jserr (Response + jsstr * jsstr) :=
        m ← method r;
        if negb (str_eqb m (js "POST")) then Ok (inl (invalid 405)) else
        ct ← content_type r;
        if negb (isJsonContentType ct) then Ok (inl (invalid 415)) else
        cl ← content_length r;
        match declaredBodyLength cl with
        | Invalid => Ok (inl (invalid 400))
        | Declared n => if limit <? n then Ok (inl (invalid 413))
                        else Ok (inr (path, default JSON_CONTENT_TYPE ct))
        | Undeclared => Ok (inr (path, default JSON_CONTENT_TYPE ct))
        end in
      match rest with Ok x => x | Throw _ => inl unavailable end
  end.

(** The final stage: [body.fill(0)] runs in the [finally] block. *)
Definition finish_delegate (body : nat) (h : heap) (answer : result jserr delegate_value) : prog :=
  let clear h := fill0 (whole h body) h in
  match answer with
  | Throw _ => Respond unavailable (clear h)
  | Ok value =>
      let '(r, h') := responseFromDelegate value h in
      match r with
      | Ok response => Respond response (clear h')
      | Throw _ => Respond unavailable (clear h')
      end
  end.

Definition body_stage (r : request) (limit : Z) (path contentType : jsstr) : prog :=
  ReadBody limit (fun h0 outcomes =>
    match has_body r with
    | Throw _ => Respond unavailable h0
    | Ok hasBody =>
        match readBoundedBody hasBody h0 outcomes limit with
        | None => Pending
        | Some (h, inr BodyTooLargeError) => Respond (invalid 413) h
        | Some (h, inr StreamError) => Respond unavailable h
        | Some (h, inl body) =>
            Delegate {| req_path := path; req_contentType := contentType;
                        req_csrfValidated := true; req_body := body |} h
              (finish_delegate body)
        end
    end).

(** The block from the verifier's answer to the consumption of the evidence:
    the new map and the early response, if any. [now1] and [now2] are the two
    readings of [Date.now()]. *)
Definition evidence_expiry (verification : val) : jsnum :=
  match verification.["expiresAtMs"] with VNum n => n | _ => NaN end.
Definition admit_evidence (context verification : val) (now1 now2 : Z) (m : replay_map)
    : replay_map * option Response :=
  if negb (isFreshBoundEvidence verification context now1) then (m, Some (invalid 403)) else
  let '(m', decision) := consumeFinancialEvidence m context (evidence_expiry verification) now2 in
  (m', match decision with
       | replayed => Some (invalid 403)
       | unavailable_decision => Some unavailable
       | consumed => None
       end).

Section handler.
Context {unicode : UnicodeData}.

Definition financial_stage (has_financial has_verifier : bool) (path : jsstr) (rest : prog) : prog :=
  if negb has_financial || negb has_verifier then respond unavailable else
  FinancialContext path (fun answer =>
    match answer with
    | Throw _ => respond unavailable
    | Ok context =>
        if negb (isValidFinancialContext context path) then respond unavailable else
        Verify context (fun answer =>
          match answer with
          | Throw _ => respond unavailable
          | Ok verification =>
              if eq_str verification (js "rejected") then respond (invalid 403) else
              if eq_str verification (js "unavailable") || eq_str verification (js "verified")
              then respond unavailable
              else Admit context verification rest
          end)
    end).

Definition guarded_stages (o : handler_options) (r : request) (path contentType : jsstr) : prog :=
  let body := body_stage r (h_limit o) path contentType in
  Csrf (fun answer =>
    match answer with
    | Throw _ => respond unavailable
    | Ok csrfPassed =>
        if negb (truthy csrfPassed) then respond (invalid 403) else
        if negb (h_has_rate o) then respond unavailable else
        RateLimit (fun answer =>
          match answer with
          | Throw _ => respond unavailable
          | Ok rateLimitResult =>
              if eq_str rateLimitResult (js "rate-limited")
              then respond (genericResponse 429 (js "rate_limited")) else
              if negb (eq_str rateLimitResult (js "allowed")) then respond unavailable else
              if eq_str (h_profile o) (js "financial")
              then financial_stage (h_has_financial o) (h_has_verifier o) path body
              else body
          end)
    end).

(** The function [createOpaqueHandler] returns. *)
Definition opaqueHandler (options : CreateOpaqueHandlerOptions) (r : request) : prog :=
  match read_options options with
  | Throw _ => respond unavailable
  | Ok (rate, fin, ver, deployment, profile) =>
      if negb (isSecurityProfile profile) then respond (invalid 400) else
      match isReady deployment with
      | None => respond (invalid 400)
      | Some limit =>
          match admission r limit with
          | inl response => respond response
          | inr (path, contentType) =>
              guarded_stages
                {| h_deployment := deployment; h_limit := limit; h_profile := profile;
                   h_has_rate := rate; h_has_financial := fin; h_has_verifier := ver |}
                r path contentType
          end
      end
  end.
End handler.
