(* ===== verification/ServerNodeRuns.v ===== *)
(** * Runs of the server-node handler

    [exec] relates a handler tree to the events of one complete run, every host
    answer, clock reading and state of the shared replay map being arbitrary.
    [system] interleaves any number of requests over one replay map and a clock
    that never goes back. *)

From S2P Require Import Prelude JsNumber Regex JsValue ServerNode.
Open Scope js_scope.

(** ** One request *)

Inductive event : Type :=
  | ECsrf (answer : result jserr val)
  | ERateLimit (answer : result jserr val)
  | EFinancialContext (path : jsstr) (answer : result jserr val)
  | EVerify (context : val) (answer : result jserr val)
  | EAdmit (context verification : val) (now1 now2 : Z) (before after : replay_map)
  | EReadBody (limit : Z) (before : heap) (outcomes : list read_outcome)
  | EDelegate (req : NodeHttpRequest) (at_call at_return : heap)
      (answer : result jserr delegate_value).

Inductive exec : prog -> list event -> Response -> heap -> Prop :=
  | exec_respond r h : exec (Respond r h) [] r h
  | exec_csrf k a t r h : exec (k a) t r h -> exec (Csrf k) (ECsrf a :: t) r h
  | exec_rate k a t r h : exec (k a) t r h -> exec (RateLimit k) (ERateLimit a :: t) r h
  | exec_context path k a t r h :
      exec (k a) t r h -> exec (FinancialContext path k) (EFinancialContext path a :: t) r h
  | exec_verify ctx k a t r h : exec (k a) t r h -> exec (Verify ctx k) (EVerify ctx a :: t) r h
  | exec_admit_refused ctx ver rest n1 n2 m m' r :
      admit_evidence ctx ver n1 n2 m = (m', Some r) ->
      exec (Admit ctx ver rest) [EAdmit ctx ver n1 n2 m m'] r ∅
  | exec_admit ctx ver rest n1 n2 m m' t r h :
      admit_evidence ctx ver n1 n2 m = (m', None) ->
      exec rest t r h -> exec (Admit ctx ver rest) (EAdmit ctx ver n1 n2 m m' :: t) r h
  | exec_body limit k h0 outcomes t r h :
      exec (k h0 outcomes) t r h ->
      exec (ReadBody limit k) (EReadBody limit h0 outcomes :: t) r h
  | exec_delegate req hd k h' a t r h :
      exec (k h' a) t r h -> exec (Delegate req hd k) (EDelegate req hd h' a :: t) r h.

(** ** Many requests over one handler *)

(** An admission as the invariant needs it: the replay key, the clock reading
    of the freshness check, that of the consumption, and the expiry. *)
Record admission_log := {
  a_key : jsstr; a_checked : Z; a_consumed : Z; a_expires : Z;
}.

Record system := {
  s_map : replay_map;
  s_clock : Z;
  s_requests : list prog;
  s_log : list admission_log;     (* latest first *)
}.

(** A request waiting for a host answer continues with some answer. *)
Inductive resume : prog -> prog -> Prop :=
  | resume_csrf k a : resume (Csrf k) (k a)
  | resume_rate k a : resume (RateLimit k) (k a)
  | resume_context path k a : resume (FinancialContext path k) (k a)
  | resume_verify ctx k a : resume (Verify ctx k) (k a)
  | resume_body limit k h outcomes : resume (ReadBody limit k) (k h outcomes)
  | resume_delegate req hd k h' a : resume (Delegate req hd k) (k h' a).

Definition log_entry (ctx ver : val) (n1 n2 : Z) (key : jsstr) : admission_log :=
  {| a_key := key; a_checked := n1; a_consumed := n2;
     a_expires := default 0 (num_toZ (evidence_expiry ver)) |}.

Section interleaving.
(** Which handler trees may arrive. *)
Context (arrives : prog -> Prop).

Inductive step : system -> system -> Prop :=
  | step_arrive s p : arrives p ->
      step s {| s_map := s_map s; s_clock := s_clock s;
                s_requests := s_requests s ++ [p]; s_log := s_log s |}
  | step_time s c : s_clock s <= c ->
      step s {| s_map := s_map s; s_clock := c; s_requests := s_requests s; s_log := s_log s |}
  | step_resume s i p p' :
      s_requests s !! i = Some p -> resume p p' ->
      step s {| s_map := s_map s; s_clock := s_clock s;
                s_requests := <[i := p']> (s_requests s); s_log := s_log s |}
  | step_refuse s i ctx ver rest n1 n2 m' r :
      s_requests s !! i = Some (Admit ctx ver rest) ->
      s_clock s <= n1 -> n1 <= n2 ->
      admit_evidence ctx ver n1 n2 (s_map s) = (m', Some r) ->
      step s {| s_map := m'; s_clock := n2;
                s_requests := <[i := respond r]> (s_requests s); s_log := s_log s |}
  | step_admit s i ctx ver rest n1 n2 m' key :
      s_requests s !! i = Some (Admit ctx ver rest) ->
      s_clock s <= n1 -> n1 <= n2 ->
      admit_evidence ctx ver n1 n2 (s_map s) = (m', None) ->
      replay_key ctx = Ok key ->
      step s {| s_map := m'; s_clock := n2;
                s_requests := <[i := rest]> (s_requests s);
                s_log := log_entry ctx ver n1 n2 key :: s_log s |}.

Definition initial (s : system) : Prop :=
  s_map s = ∅ /\ s_requests s = [] /\ s_log s = [].

(** Reachable from the state right after [createOpaqueHandler]. *)
Inductive reachable : system -> Prop :=
  | reach_init s : initial s -> reachable s
  | reach_step s s' : reachable s -> step s s' -> reachable s'.

(** Answering awaits of one request from a list keeps a state reachable. *)
Fixpoint advance (answers : list (result jserr val)) (p : prog) : option prog :=
  match p, answers with
  | _, [] => Some p
  | (Csrf k | RateLimit k | FinancialContext _ k | Verify _ k), a :: rest => advance rest (k a)
  | _, _ => None
  end.

Lemma reach_advance answers s i p p' :
  reachable s -> s_requests s !! i = Some p -> advance answers p = Some p' ->
  reachable {| s_map := s_map s; s_clock := s_clock s;
               s_requests := <[i := p']> (s_requests s); s_log := s_log s |}.
Proof.
  revert s p; induction answers as [|a answers IH]; intros s p Hs Hp Hadv.
  - assert (Some p = Some p') as [= <-] by (destruct p; exact Hadv).
    rewrite list_insert_id by done. by destruct s.
  - assert (Hi : (i < length (s_requests s))%nat) by (eapply lookup_lt_Some; done).
    destruct p; try discriminate; cbn in Hadv;
      (rewrite <- (list_insert_insert_eq (s_requests s) i p' (k a));
       refine (IH {| s_map := s_map s; s_clock := s_clock s;
                  s_requests := <[i := k a]> (s_requests s); s_log := s_log s |} (k a) _ _ Hadv);
       [eapply reach_step; [exact Hs|]; eapply step_resume; [exact Hp|constructor]
       |cbn; by apply list_lookup_insert_eq]).
Qed.
End interleaving.

(** ** An executable run

    [run] answers the awaits of a tree from a list, for evaluating it on
    concrete inputs. *)

Inductive answer : Type :=
  | AValue (v : result jserr val)
  | AClock (now1 now2 : Z) (m : replay_map)
  | ABody (h : heap) (outcomes : list read_outcome)
  | ADelegate (h : heap) (v : result jserr delegate_value).

Definition emit (e : event) (x : option (list event * Response * heap))
    : option (list event * Response * heap) :=
  match x with Some (t, r, h) => Some (e :: t, r, h) | None => None end.

Fixpoint run (answers : list answer) (p : prog) : option (list event * Response * heap) :=
  match p, answers with
  | Respond r h, _ => Some ([], r, h)
  | Csrf k, AValue a :: rest => emit (ECsrf a) (run rest (k a))
  | RateLimit k, AValue a :: rest => emit (ERateLimit a) (run rest (k a))
  | FinancialContext path k, AValue a :: rest => emit (EFinancialContext path a) (run rest (k a))
  | Verify ctx k, AValue a :: rest => emit (EVerify ctx a) (run rest (k a))
  | Admit ctx ver cont, AClock n1 n2 m :: rest =>
      match admit_evidence ctx ver n1 n2 m with
      | (m', Some r) => Some ([EAdmit ctx ver n1 n2 m m'], r, ∅)
      | (m', None) => emit (EAdmit ctx ver n1 n2 m m') (run rest cont)
      end
  | ReadBody limit k, ABody h outcomes :: rest =>
      emit (EReadBody limit h outcomes) (run rest (k h outcomes))
  | Delegate req hd k, ADelegate h a :: rest => emit (EDelegate req hd h a) (run rest (k h a))
  | _, _ => None
  end.

Lemma emit_Some e x t r h :
  emit e x = Some (t, r, h) -> exists t', x = Some (t', r, h) /\ t = e :: t'.
Proof. destruct x as [[[t' r'] h']|]; cbn; [|done]. intros [= <- <- <-]. eauto. Qed.

Lemma run_exec answers p t r h : run answers p = Some (t, r, h) -> exec p t r h.
Proof.
  revert p t r h; induction answers as [|a answers IH]; intros p t r h;
    destruct p as [| |k|k|path k|ctx k|ctx ver cont|limit k|req hd k]; cbn; try done;
    try (intros [= <- <- <-]; constructor); destruct a; try done.
  all: try (intros (t' & Ht & ->)%emit_Some; constructor; by apply IH).
  destruct (admit_evidence ctx ver now1 now2 m) as [m' [r'|]] eqn:Ea.
  - intros [= <- <- <-]. by constructor.
  - intros (t' & Ht & ->)%emit_Some. econstructor; [done|by apply IH].
Qed.
