(* ===== verification/ServerNodeProps.v ===== *)
(** * Properties of the server-node handler *)

From S2P Require Import Prelude JsNumber Regex JsValue ServerNode ServerNodeRuns.
Open Scope js_scope.

(** ** Admission of attestation evidence *)

Lemma admit_evidence_None ctx ver n1 n2 m m' :
  admit_evidence ctx ver n1 n2 m = (m', None) <->
  isFreshBoundEvidence ver ctx n1 = true /\
  consumeFinancialEvidence m ctx (evidence_expiry ver) n2 = (m', consumed).
Proof.
  unfold admit_evidence. destruct (isFreshBoundEvidence ver ctx n1); cbn [negb].
  - destruct (consumeFinancialEvidence m ctx (evidence_expiry ver) n2) as [m1 []]; naive_solver.
  - naive_solver.
Qed.

Lemma consume_consumed m ctx e now m' :
  consumeFinancialEvidence m ctx e now = (m', consumed) <->
  exists key, replay_key ctx = Ok key /\ sweep m now !! key = None /\
    (size (sweep m now) < MAX_FINANCIAL_REPLAY_ENTRIES)%nat /\ m' = <[key := e]> (sweep m now).
Proof.
  unfold consumeFinancialEvidence. destruct (replay_key ctx) as [key|]; [|naive_solver].
  destruct (sweep m now !! key) eqn:El; [naive_solver|].
  destruct (Nat.leb_spec MAX_FINANCIAL_REPLAY_ENTRIES (size (sweep m now))).
  - split; [done|]. intros (? & ? & ? & ? & _). lia.
  - split; [intros [= <-]; eauto|]. intros (? & [= <-] & _ & _ & ->). done.
Qed.

(** Every other outcome only sweeps expired entries. *)
Lemma admit_evidence_Some ctx ver n1 n2 m m' r :
  admit_evidence ctx ver n1 n2 m = (m', Some r) -> m' = m \/ m' = sweep m n2.
Proof.
  unfold admit_evidence, consumeFinancialEvidence.
  destruct (isFreshBoundEvidence ver ctx n1); cbn [negb]; [|naive_solver].
  destruct (replay_key ctx) as [key|]; [|intros [= <- _]; auto].
  destruct (sweep m n2 !! key); [intros [= <- _]; auto|].
  destruct (_ <=? _)%nat; [intros [= <- _]; auto|done].
Qed.

Lemma sweep_lookup m now k e :
  sweep m now !! k = Some e <-> m !! k = Some e /\ num_leb e (num now) = false.
Proof. unfold sweep. rewrite map_lookup_filter_Some. done. Qed.
Lemma sweep_lookup_None m now k :
  sweep m now !! k = None <-> m !! k = None \/ exists e, m !! k = Some e /\ num_leb e (num now) = true.
Proof.
  unfold sweep. rewrite map_lookup_filter_None. cbn. split.
  - intros [|H]; [by left|]. destruct (m !! k) as [e|] eqn:E; [|by left]. right. exists e.
    split; [done|]. specialize (H e eq_refl). by destruct (num_leb e (num now)).
  - intros [|(e & He & Hl)]; [by left|]. right. intros e' He'. rewrite He in He'. injection He' as <-.
    by rewrite Hl.
Qed.
Lemma sweep_size m now : (size (sweep m now) <= size m)%nat.
Proof. apply map_size_filter. Qed.

(** *** Freshness in exact integer arithmetic *)

Definition same_binding (a b : val) : Prop :=
  Forall (fun k => strict_eq (get a k) (get b k) = true)
    (map js ["subject"; "operation"; "nonce"; "deploymentId"]%string).

Record Fresh (candidate context : val) (now : Z) : Prop := {
  fresh_provider : exists p, candidate.["provider"] = VStr p /\ p ∈ DEVICE_INTEGRITY_PROVIDERS;
  fresh_binding : same_binding candidate context;
  fresh_window : exists ni ne issued expires,
    candidate.["issuedAtMs"] = VNum ni /\ num_toZ ni = Some issued /\
    candidate.["expiresAtMs"] = VNum ne /\ num_toZ ne = Some expires /\
    Z.abs issued <= MAX_SAFE_INTEGER /\ Z.abs expires <= MAX_SAFE_INTEGER /\
    issued <= now + 30000 /\ now < expires /\ issued < expires /\ expires - issued <= 300000;
}.

Lemma get_object v k : v.[k] <> VUndef -> is_object v = true.
Proof. by destruct v. Qed.

(** The window test of the code, in exact arithmetic. *)
Lemma window_test candidate now :
  Z.abs now <= 2 ^ 52 ->
  (exists ni ne i e, candidate.["issuedAtMs"] = VNum ni /\ num_toZ ni = Some i /\
    candidate.["expiresAtMs"] = VNum ne /\ num_toZ ne = Some e /\
    Z.abs i <= MAX_SAFE_INTEGER /\ Z.abs e <= MAX_SAFE_INTEGER /\
    i <= now + 30000 /\ now < e /\ i < e /\ e - i <= 300000) <->
  match candidate.["issuedAtMs"], candidate.["expiresAtMs"] with
  | VNum ni, VNum ne =>
      if negb (is_safe_integer ni) || negb (is_safe_integer ne) then false else
      num_leb ni (num_add (num now) (num 30000)) && num_ltb (num now) ne &&
      num_ltb ni ne && num_leb (num_sub ne ni) (num 300000)
  | _, _ => false
  end = true.
Proof.
  intros Hnow. destruct (get candidate (js "issuedAtMs")) as [| | |ni| | | | | | |];
    try (split; [intros (? & ? & ? & ? & ? & _); discriminate|discriminate]).
  destruct (get candidate (js "expiresAtMs")) as [| | |ne| | | | | | |];
    try (split; [intros (? & ? & ? & ? & _ & _ & ? & _); discriminate|discriminate]).
  destruct (is_safe_integer ni) eqn:Ei; [destruct (is_safe_integer ne) eqn:Ee|]; cbn [negb orb].
  2: { split; [|discriminate]. intros (? & ? & i & e & _ & _ & [= <-] & He & _ & ? & _).
       rewrite <- Ee. apply is_safe_integer_spec. eauto. }
  2: { split; [|discriminate]. intros (? & ? & i & e & [= <-] & Hi & _ & _ & ? & _).
       rewrite <- Ei. apply is_safe_integer_spec. eauto. }
  apply is_safe_integer_spec in Ei as (i & Hi & ?), Ee as (e & He & ?).
  rewrite !andb_true_iff, (num_add_leb_r _ _ _ _ Hi), (num_ltb_toZ _ _ _ _ (num_toZ_num now) He),
    (num_ltb_toZ _ _ _ _ Hi He), (num_sub_leb _ _ _ _ _ He Hi) by (unfold MAX_SAFE_INTEGER in *; lia).
  split.
  - intros (? & ? & i' & e' & [= <-] & Hi' & [= <-] & He' & ?). simplify_eq. lia.
  - intros. exists ni, ne, i, e. split_and!; try done; lia.
Qed.

(** C11. The evidence test, whose sum and difference round to binary64, decides the
    exact window: issued at most 30 s ahead, unexpired, positive lifetime of at most
    five minutes, from a known provider, bound to the four context fields. *)
Theorem isFreshBoundEvidence_correct candidate context now :
  Z.abs now <= 2 ^ 52 ->
  isFreshBoundEvidence candidate context now = true <-> Fresh candidate context now.
Proof.
  intros Hnow. unfold isFreshBoundEvidence.
  assert (Hb : same_binding candidate context <->
     strict_eq candidate.["subject"] context.["subject"] &&
     strict_eq candidate.["operation"] context.["operation"] &&
     strict_eq candidate.["nonce"] context.["nonce"] &&
     strict_eq candidate.["deploymentId"] context.["deploymentId"] = true).
  { unfold same_binding. cbn [map]. rewrite !Forall_cons, Forall_nil, !andb_true_iff. tauto. }
  pose proof (window_test candidate now Hnow) as Hw.
  split.
  - destruct (is_object candidate); cbn [negb]; [|done].
    destruct (includes_str DEVICE_INTEGRITY_PROVIDERS _) eqn:Ep; cbn [negb]; [|done].
    destruct (_ && _ && _ && _) eqn:Eb; cbn [negb]; [|done].
    intros H. constructor; [by apply includes_str_spec|by apply Hb|by apply Hw].
  - intros [Hp Hsb Hwin]. apply Hw in Hwin. rewrite Hwin.
    rewrite (get_object candidate "provider"%string) by (destruct Hp as (? & -> & _); done).
    apply includes_str_spec in Hp. rewrite Hp. apply Hb in Hsb. by rewrite Hsb.
Qed.

(** ** The replay key *)

Section keys.
Context {unicode : UnicodeData}.

Lemma bounded_binding_spec v lo hi :
  isBoundedBinding v lo hi = true ->
  exists s, v = VStr s /\ (0 ∉ s) /\ lo <= Z.of_nat (length (utf8_encode s)) <= hi.
Proof.
  destruct v as [| | | |s| | | | | |]; cbn [isBoundedBinding]; try done.
  destruct (existsb control_or_space (code_points s)) eqn:E; [done|].
  rewrite andb_true_iff, !Z.leb_le. intros ?. exists s. split; [done|]. split; [|done].
  intros Hin. rewrite existsb_false_Forall, Forall_forall in E.
  specialize (E 0 (code_points_unit 0 s eq_refl eq_refl Hin)).
  by rewrite ascii_control_or_space in E by lia.
Qed.

(** The four strings a valid context binds. *)
Record ContextFields (ctx : val) (d s o n : jsstr) : Prop := {
  cf_deployment : ctx.["deploymentId"] = VStr d;
  cf_subject : ctx.["subject"] = VStr s;
  cf_operation : ctx.["operation"] = VStr o;
  cf_nonce : ctx.["nonce"] = VStr n;
  cf_nul : (0 ∉ d) /\ (0 ∉ s) /\ (0 ∉ o) /\ (0 ∉ n);
}.

Lemma operation_of_no_nul path : 0 ∉ operation_of path.
Proof.
  unfold operation_of. destruct (re_search _ _);
    refine (bool_decide_unpack _ _); vm_compute; exact I.
Qed.

Lemma valid_context_fields ctx path :
  isValidFinancialContext ctx path = true ->
  exists d s n, ContextFields ctx d s (operation_of path) n.
Proof.
  unfold isValidFinancialContext. destruct (is_object ctx); cbn [negb]; [|done].
  rewrite !andb_true_iff, eq_str_spec. intros (((Ho & Hs) & Hn) & Hd).
  apply bounded_binding_spec in Hs as (s & ? & ? & _), Hn as (n & ? & ? & _),
    Hd as (d & ? & ? & _).
  exists d, s, n. constructor; try done. pose proof (operation_of_no_nul path). done.
Qed.

Lemma replay_key_fields ctx d s o n :
  ContextFields ctx d s o n -> replay_key ctx = Ok (d ++ 0 :: s ++ 0 :: o ++ 0 :: n).
Proof. intros [Hd Hs Ho Hn _]. unfold replay_key. by rewrite Hd, Hs, Ho, Hn. Qed.

(** The replay key is a binding: two valid contexts with the same key agree on
    the deployment, the subject, the operation and the nonce. *)
Theorem replay_key_injective c1 c2 p1 p2 :
  isValidFinancialContext c1 p1 = true -> isValidFinancialContext c2 p2 = true ->
  replay_key c1 = replay_key c2 ->
  is_ok (replay_key c1) = true /\ same_binding c1 c2.
Proof.
  intros (d1 & s1 & n1 & F1)%valid_context_fields (d2 & s2 & n2 & F2)%valid_context_fields.
  rewrite (replay_key_fields _ _ _ _ _ F1), (replay_key_fields _ _ _ _ _ F2). intros [= Hk].
  destruct F1 as [Hd1 Hs1 Ho1 Hn1 (N1 & N2 & N3 & N4)], F2 as [Hd2 Hs2 Ho2 Hn2 (M1 & M2 & M3 & M4)].
  apply app_sep_inj in Hk as [-> Hk]; [|done|done].
  apply app_sep_inj in Hk as [-> Hk]; [|done|done].
  apply app_sep_inj in Hk as [Ho ->]; [|done|done].
  split; [done|]. unfold same_binding. cbn [map]. rewrite !Forall_cons, Forall_nil.
  rewrite Hd1, Hs1, Ho1, Hn1, Hd2, Hs2, Ho2, Hn2, Ho. cbn [strict_eq]. by rewrite !str_eqb_refl.
Qed.
End keys.

(** The ASCII rows of the Unicode tables only: a concrete instance. *)
Definition ascii_control (c : Z) : bool := ((0 <=? c) && (c <=? 32)) || (c =? 127).
Lemma ascii_control_spec c : 0 <= c <= 32 \/ c = 127 -> ascii_control c = true.
Proof. unfold ascii_control. lia. Qed.
Definition ascii_unicode : UnicodeData :=
  {| control_or_space := ascii_control; ascii_control_or_space := ascii_control_spec |}.

Definition sample_context (subject : String.string) : val :=
  vobj [("subject", vstr subject); ("operation", vstr "login");
        ("nonce", vstr "nonce-0123456789abcdef"); ("deploymentId", vstr "prod-1")]%string.
Definition login_path : jsstr := js "/v1/opaque/login/start".

Lemma replay_key_injective_witness :
  is_ok (replay_key (sample_context "alice")) = true /\
  same_binding (sample_context "alice") (sample_context "alice").
Proof.
  apply (@replay_key_injective ascii_unicode _ _ login_path login_path);
    vm_compute; reflexivity.
Defined.

Lemma isFreshBoundEvidence_correct_witness :
  Z.abs 1700000000000 <= 2 ^ 52 /\
  Fresh (vobj [("provider", vstr "custom"); ("subject", vstr "alice"); ("operation", vstr "login");
          ("nonce", vstr "n"); ("deploymentId", vstr "d");
          ("issuedAtMs", vnum 1700000000000); ("expiresAtMs", vnum 1700000300000)]%string)
    (vobj [("subject", vstr "alice"); ("operation", vstr "login");
          ("nonce", vstr "n"); ("deploymentId", vstr "d")]%string) 1700000000000.
Proof.
  split; [lia|]. apply isFreshBoundEvidence_correct; [lia|]. vm_compute. reflexivity.
Defined.

(** ** Complete mediation *)

(** Unfolds one run of a handler tree that is known at its head. *)
Ltac run_step H :=
  lazymatch type of H with
  | exec (respond _) _ _ _ => unfold respond in H; inversion H; subst; clear H
  | exec (if ?b then _ else _) _ _ _ => let E := fresh "E" in destruct b eqn:E
  | exec (match ?x with _ => _ end) _ _ _ => let E := fresh "E" in destruct x eqn:E
  | exec _ _ _ _ => inversion H; subst; clear H
  end.
Ltac exec_hyp H := match goal with X : exec _ _ _ _ |- _ => rename X into H end.

Lemma exec_finish_delegate body h a t r h' : exec (finish_delegate body h a) t r h' -> t = [].
Proof.
  unfold finish_delegate. intros H.
  destruct a as [value|]; [destruct (responseFromDelegate value h) as [[] ?]|];
    by inversion H.
Qed.

Definition delegated (r : request) (limit : Z) (path contentType : jsstr) (h0 : heap)
    (outcomes : list read_outcome) (tail : list event) : Prop :=
  exists hasBody hd body h' a,
    has_body r = Ok hasBody /\ readBoundedBody hasBody h0 outcomes limit = Some (hd, inl body) /\
    tail = [EDelegate {| req_path := path; req_contentType := contentType;
                         req_csrfValidated := true; req_body := body |} hd h' a].

Lemma exec_body_stage r limit path ct t resp h :
  exec (body_stage r limit path ct) t resp h ->
  exists h0 outcomes tail, t = EReadBody limit h0 outcomes :: tail /\
    (tail = [] \/ delegated r limit path ct h0 outcomes tail).
Proof.
  unfold body_stage. intros H. run_step H. exec_hyp H. eexists _, _, _. split; [done|].
  destruct (has_body r) as [hb|] eqn:Eb; [|inversion H; by left].
  destruct (readBoundedBody _ _ _ _) as [[hd [body|[]]]|] eqn:Er;
    try (inversion H; subst; by left).
  run_step H. right. exec_hyp H. apply exec_finish_delegate in H as ->.
  unfold delegated. eauto 10.
Qed.

Section mediation.
Context {unicode : UnicodeData}.

(** The financial profile's events: a valid context for the route, the host's
    verification of that context, and the consumption of the fresh evidence. *)
Definition financial_gate (path : jsstr) (evs : list event) : Prop :=
  exists ctx ver n1 n2 m m',
    evs = [EFinancialContext path (Ok ctx); EVerify ctx (Ok ver); EAdmit ctx ver n1 n2 m m'] /\
    isValidFinancialContext ctx path = true /\ isFreshBoundEvidence ver ctx n1 = true /\
    consumeFinancialEvidence m ctx (evidence_expiry ver) n2 = (m', consumed).

Definition gate (profile : val) (path : jsstr) (evs : list event) : Prop :=
  exists csrf fin,
    evs = ECsrf (Ok csrf) :: ERateLimit (Ok (VStr (js "allowed"))) :: fin /\
    truthy csrf = true /\
    if eq_str profile (js "financial") then financial_gate path fin else fin = [].

Definition is_body_event (e : event) : bool :=
  match e with EReadBody _ _ _ | EDelegate _ _ _ _ => true | _ => false end.

Lemma exec_financial_stage hf hv path body t resp h :
  exec (financial_stage hf hv path body) t resp h ->
  existsb is_body_event t = true ->
  hf = true /\ hv = true /\
  exists fin t', t = fin ++ t' /\ financial_gate path fin /\ exec body t' resp h.
Proof.
  unfold financial_stage. intros H Hb.
  destruct hf, hv; cbn [negb orb] in H; try (by run_step H). split_and!; [done..|]. run_step H.
  exec_hyp H. cbn in Hb.
  destruct a as [ctx|]; [|by run_step H].
  destruct (isValidFinancialContext ctx path) eqn:Ev; cbn [negb] in H; [|by run_step H].
  run_step H. exec_hyp H. cbn in Hb.
  destruct a as [ver|]; [|by run_step H].
  destruct (eq_str ver (js "rejected")); [by run_step H|].
  destruct (_ || _); [by run_step H|]. run_step H; [done|].
  match goal with X : admit_evidence _ _ _ _ _ = _ |- _ => apply admit_evidence_None in X as [? ?] end.
  eexists [_; _; _], _. split; [done|]. split; [|done]. unfold financial_gate. eauto 12.
Qed.

Lemma exec_guarded_stages o r path ct t resp h :
  exec (guarded_stages o r path ct) t resp h ->
  existsb is_body_event t = true ->
  h_has_rate o = true /\
  (h_profile o = VStr (js "financial") -> h_has_financial o = true /\ h_has_verifier o = true) /\
  exists g h0 outcomes tail, t = g ++ EReadBody (h_limit o) h0 outcomes :: tail /\
    gate (h_profile o) path g /\ (tail = [] \/ delegated r (h_limit o) path ct h0 outcomes tail).
Proof.
  unfold guarded_stages. intros H Hb. run_step H.
  exec_hyp H. cbn in Hb.
  destruct a as [csrf|]; [|by run_step H].
  destruct (truthy csrf) eqn:Ec; cbn [negb] in H; [|by run_step H].
  destruct (h_has_rate o); cbn [negb] in H; [|by run_step H]. run_step H.
  exec_hyp H. cbn in Hb.
  destruct a as [rate|]; [|by run_step H].
  destruct (eq_str rate (js "rate-limited")); [by run_step H|].
  destruct (eq_str rate (js "allowed")) eqn:Ea; cbn [negb] in H; [|by run_step H].
  apply eq_str_spec in Ea as ->.
  destruct (eq_str (h_profile o) (js "financial")) eqn:Ef.
  - apply exec_financial_stage in H as (? & ? & fin & t' & -> & Hf & H); [|done].
    apply exec_body_stage in H as (h0 & outs & tail & -> & Ht).
    split_and!; [done..|]. eexists (_ :: _ :: fin), h0, outs, tail. split; [done|]. split; [|done].
    unfold gate. rewrite Ef. eauto.
  - apply exec_body_stage in H as (h0 & outs & tail & -> & Ht).
    split_and!; [done|by intros Hp; rewrite Hp in Ef|].
    eexists [_; _], h0, outs, tail. split; [done|]. split; [|done].
    unfold gate. rewrite Ef. eauto.
Qed.

(** The deployment is ready: TLS in front, enforced connection limits, and the
    body limit it declares, which is positive and at most 128 KiB. *)
Record Ready (dep : hostobj) (limit : Z) : Prop := {
  ready_transport : exists t, dep (js "transport") = Ok (VStr t) /\
    (t = js "direct-tls" \/ t = js "trusted-proxy-tls");
  ready_limit : exists n, dep (js "upstreamBodyLimitBytes") = Ok (VNum n) /\
    num_toZ n = Some limit /\ 0 < limit <= MAX_HTTP_BODY_BYTES;
  ready_connections : exists e, dep (js "connectionLimitsEnforced") = Ok e /\ truthy e = true;
}.

Lemma isReady_spec dep limit : isReady dep = Some limit -> Ready dep limit.
Proof.
  unfold isReady. destruct (dep (js "transport")) as [tr|] eqn:Edt; [|done].
  cbn [mbind result_bind].
  destruct (eq_str tr _ || eq_str tr _) eqn:Et; cbn [negb]; [|done].
  destruct (dep (js "upstreamBodyLimitBytes")) as [[| | |n| | | | | | |]|] eqn:Edl; try done.
  cbn [mbind result_bind].
  destruct (is_safe_integer n && num_ltb (num 0) n && num_leb n (num MAX_HTTP_BODY_BYTES)) eqn:En; [|done].
  destruct (dep (js "connectionLimitsEnforced")) as [e|] eqn:Ede; [|done]. cbn [mbind result_bind].
  destruct (truthy e) eqn:Ee; [|done]. intros Hl.
  rewrite !andb_true_iff in En. destruct En as [[_ H1] H2].
  rewrite (num_ltb_toZ _ _ _ _ (num_toZ_num 0) Hl) in H1.
  rewrite (num_leb_toZ _ _ _ _ Hl (num_toZ_num _)) in H2.
  rewrite orb_true_iff, !eq_str_spec in Et.
  constructor; [naive_solver|exists n; split_and!; [done..|lia|lia]|by exists e].
Qed.

(** What the options of the handler configure. *)
Record Configured (o : CreateOpaqueHandlerOptions) (profile : val) (limit : Z) : Prop := {
  cfg_deployment : exists dep, deploymentContext o = Ok dep /\ Ready dep limit;
  cfg_profile : exists p, securityProfile o = Ok p /\
    profile = match p with VUndef | VNull => vstr "standard" | _ => p end;
  cfg_known : profile = VStr (js "standard") \/ profile = VStr (js "financial");
  cfg_callbacks : csrfValidated o = Ok tt /\ delegate o = Ok tt /\ rateLimitDecision o = Ok true;
  cfg_financial : profile = VStr (js "financial") ->
    financialContext o = Ok true /\ deviceIntegrityVerifier o = Ok true;
}.

Lemma read_options_ok o rate fin ver dep prof :
  read_options o = Ok (rate, fin, ver, dep, prof) ->
  rateLimitDecision o = Ok rate /\ financialContext o = Ok fin /\
  deviceIntegrityVerifier o = Ok ver /\ deploymentContext o = Ok dep /\
  (exists p, securityProfile o = Ok p /\
     prof = match p with VUndef | VNull => vstr "standard" | _ => p end) /\
  csrfValidated o = Ok tt /\ delegate o = Ok tt.
Proof.
  destruct o as [[r1|] [f1|] [v1|] [d1|] [p1|] [[]|] [[]|]]; cbn; try done.
  intros H. injection H as <- <- <- <- <-. split_and!; try done. by exists p1.
Qed.

Lemma admission_inr r limit path ct :
  admission r limit = inr (path, ct) ->
  routePath r = Some path /\ method r = Ok (js "POST") /\
  (exists v, content_type r = Ok (Some v) /\ ct = v /\ isJsonContentType (Some v) = true) /\
  (exists cl, content_length r = Ok cl /\
     match declaredBodyLength cl with Invalid => False | Declared n => n <= limit | Undeclared => True end).
Proof.
  unfold admission. destruct (routePath r) as [p|]; [|done].
  destruct (method r) as [mt|]; cbn [mbind result_bind]; [|done].
  destruct (str_eqb mt (js "POST")) eqn:Em; cbn [negb]; [|done]. apply str_eqb_eq in Em as ->.
  destruct (content_type r) as [[v|]|]; cbn [mbind result_bind]; try done.
  destruct (isJsonContentType (Some v)) eqn:Ej; cbn [negb]; [|done].
  destruct (content_length r) as [cl|]; cbn [mbind result_bind]; [|done].
  destruct (declaredBodyLength cl) as [| |n] eqn:Ed; [|done|destruct (Z.ltb_spec limit n); [done|]];
    intros [= <- <-]; (split_and!; [done|done|by exists v|exists cl; rewrite Ed; done]).
Qed.

(** The request is one the handler serves: a route, the method, the media type
    and a declared length within the limit. *)
Record Served (r : request) (limit : Z) (path contentType : jsstr) : Prop := {
  sv_route : exists u, parsed_url r = Ok u /\ search u = [] /\ hash u = [] /\
    path = pathname u /\ path ∈ OPAQUE_ROUTE_PATHS;
  sv_method : method r = Ok (js "POST");
  sv_media : content_type r = Ok (Some contentType) /\ isJsonContentType (Some contentType) = true;
  sv_length : exists cl, content_length r = Ok cl /\
    (declaredBodyLength cl = Undeclared \/
     exists n, declaredBodyLength cl = Declared n /\ n <= limit);
}.

Lemma routePath_spec r path :
  routePath r = Some path ->
  exists u, parsed_url r = Ok u /\ search u = [] /\ hash u = [] /\
    path = pathname u /\ path ∈ OPAQUE_ROUTE_PATHS.
Proof.
  unfold routePath. destruct (parsed_url r) as [u|]; [|done].
  destruct (search u) eqn:Es, (hash u) eqn:Eh; try done.
  destruct (str_in (pathname u) OPAQUE_ROUTE_PATHS) eqn:E; [|done].
  intros [= <-]. exists u. split_and!; [done..|by apply str_in_elem].
Qed.

Lemma admission_served r limit path ct : admission r limit = inr (path, ct) -> Served r limit path ct.
Proof.
  intros (Hr%routePath_spec & Hm & (v & Hc & -> & Hj) & cl & Hl & Hd)%admission_inr.
  constructor; [done..|]. exists cl. split; [done|].
  destruct (declaredBodyLength cl) as [| |n]; [by left|done|right; by exists n].
Qed.

Lemma isSecurityProfile_spec v :
  isSecurityProfile v = true -> v = VStr (js "standard") \/ v = VStr (js "financial").
Proof. unfold isSecurityProfile. by rewrite orb_true_iff, !eq_str_spec. Qed.

(** C1. Complete mediation. If a run of the handler built from [o] reads the body or
    calls the delegate, then every guard [o] configures passed: the deployment context
    of [o] is ready and declares the limit, the profile is the one of [o] ("standard"
    when absent), the callbacks are there, the two of the financial profile when it is
    that one; the request is a served one; and the run's events are exactly: a truthy
    CSRF answer, an allowed rate-limit answer, in the financial profile a valid context
    with fresh evidence consumed for it, then the read of the body under the declared
    limit, then at most one delegation, of the bounded body. *)
Theorem complete_mediation o r t resp h :
  exec (opaqueHandler o r) t resp h ->
  existsb is_body_event t = true ->
  exists profile limit path contentType g h0 outcomes tail,
    Configured o profile limit /\ Served r limit path contentType /\
    t = g ++ EReadBody limit h0 outcomes :: tail /\
    gate profile path g /\
    (tail = [] \/ delegated r limit path contentType h0 outcomes tail).
Proof.
  unfold opaqueHandler. intros He Hb.
  destruct (read_options o) as [[[[[rate fin] ver] dep] prof]|] eqn:Eo; [|by run_step He].
  destruct (isSecurityProfile prof) eqn:Ep; cbn [negb] in He; [|by run_step He].
  destruct (isReady dep) as [limit|] eqn:Er; [|by run_step He].
  destruct (admission r limit) as [resp'|[path ct]] eqn:Ea; [by run_step He|].
  apply exec_guarded_stages in He as (Hrate & Hfin & g & h0 & outs & tail & -> & Hg & Ht); [|done].
  cbn [h_limit h_profile h_has_rate h_has_financial h_has_verifier] in *.
  apply read_options_ok in Eo as (? & ? & ? & ? & ? & ? & ?). subst rate.
  exists prof, limit, path, ct, g, h0, outs, tail.
  split_and!; [|by apply admission_served|done..].
  constructor; [exists dep; split; [done|by apply isReady_spec]|done|by apply isSecurityProfile_spec|done|].
  intros [-> ->]%Hfin. done.
Qed.
End mediation.

(** ** Replay protection under interleaving *)

Lemma num_leb_clock e z a b :
  num_toZ e = Some z -> a <= b -> num_leb e (num a) = true -> num_leb e (num b) = true.
Proof.
  intros He Hab. rewrite !(num_leb_toZ _ _ _ _ He (num_toZ_num _)), !Z.leb_le. lia.
Qed.

Lemma fresh_expiry ctx ver now :
  isFreshBoundEvidence ver ctx now = true ->
  exists z, num_toZ (evidence_expiry ver) = Some z /\ now < z.
Proof.
  unfold isFreshBoundEvidence, evidence_expiry.
  destruct (is_object ver); cbn [negb]; [|done].
  destruct (includes_str _ _); cbn [negb]; [|done].
  destruct (_ && _ && _ && _); cbn [negb]; [|done].
  destruct (get ver (js "issuedAtMs")) as [| | |ni| | | | | | |]; try done.
  destruct (get ver (js "expiresAtMs")) as [| | |ne| | | | | | |]; try done.
  destruct (is_safe_integer ni); cbn [negb orb]; [|done].
  destruct (is_safe_integer ne) eqn:Es; cbn [negb]; [|done].
  apply is_safe_integer_spec in Es as (z & Hz & _).
  rewrite !andb_true_iff, (num_ltb_toZ _ _ _ _ (num_toZ_num now) Hz), Z.ltb_lt.
  intros [[[_ ?] _] _]. eauto.
Qed.

(** An admission recorded in the log is still stored, or has expired. *)
Definition entry_live (m : replay_map) (clock : Z) (a : admission_log) : Prop :=
  a_expires a <= clock \/ exists e, m !! a_key a = Some e /\ num_toZ e = Some (a_expires a).
(** Of two admissions under one key, the later consumption is past the
    earlier expiry. *)
Definition log_ok (l : list admission_log) : Prop :=
  forall i j a b, (i < j)%nat -> l !! i = Some a -> l !! j = Some b -> a_key a = a_key b ->
    a_expires b <= a_consumed a.
Definition entry_ok (clock : Z) (a : admission_log) : Prop :=
  a_checked a <= a_consumed a <= clock /\ a_checked a < a_expires a.

Record sys_inv (s : system) : Prop := {
  inv_live : Forall (entry_live (s_map s) (s_clock s)) (s_log s);
  inv_entry : Forall (entry_ok (s_clock s)) (s_log s);
  inv_log : log_ok (s_log s);
  inv_size : (size (s_map s) <= MAX_FINANCIAL_REPLAY_ENTRIES)%nat;
}.

Lemma entry_live_clock m c c' a : c <= c' -> entry_live m c a -> entry_live m c' a.
Proof. unfold entry_live. intros ? [|]; [left; lia|by right]. Qed.
Lemma entry_live_sweep m c now a :
  c <= now -> entry_live m c a -> entry_live (sweep m now) now a.
Proof.
  intros Hc [?|(e & He & Hz)]; [left; lia|].
  destruct (num_leb e (num now)) eqn:El.
  - left. rewrite (num_leb_toZ _ _ _ _ Hz (num_toZ_num _)) in El. lia.
  - right. exists e. by rewrite sweep_lookup.
Qed.
Lemma entry_ok_clock c c' a : c <= c' -> entry_ok c a -> entry_ok c' a.
Proof. unfold entry_ok. lia. Qed.

Lemma log_ok_cons a l :
  log_ok l -> Forall (fun b => a_key a = a_key b -> a_expires b <= a_consumed a) l ->
  log_ok (a :: l).
Proof.
  intros Hl Ha [|i] [|j] x y Hij Hx Hy Hk; [lia| |lia|].
  - injection Hx as <-. rewrite Forall_lookup in Ha. by apply (Ha j).
  - apply (Hl i j); [lia|done..].
Qed.

Lemma sys_inv_admit s i ctx ver rest n1 n2 m' key :
  sys_inv s -> s_clock s <= n1 -> n1 <= n2 ->
  admit_evidence ctx ver n1 n2 (s_map s) = (m', None) -> replay_key ctx = Ok key ->
  sys_inv {| s_map := m'; s_clock := n2; s_requests := <[i := rest]> (s_requests s);
             s_log := log_entry ctx ver n1 n2 key :: s_log s |}.
Proof.
  intros [Hl He Ho Hs] Hc Hn [Hf Hcons]%admit_evidence_None Hk.
  apply consume_consumed in Hcons as (key' & Hk' & Hnone & Hsize & ->).
  rewrite Hk in Hk'. injection Hk' as <-.
  destruct (fresh_expiry _ _ _ Hf) as (z & Hz & Hlt).
  assert (Hsw : Forall (entry_live (sweep (s_map s) n2) n2) (s_log s)).
  { eapply Forall_impl; [exact Hl|]. intros. eapply entry_live_sweep; [|done]. lia. }
  constructor; cbn.
  - constructor.
    + right. exists (evidence_expiry ver). cbn. rewrite lookup_insert_eq, Hz. done.
    + eapply Forall_impl; [exact Hsw|]. intros b [?|(e & Hb & ?)]; [by left|].
      right. exists e. split; [|done]. rewrite lookup_insert_ne; [done|].
      intros Heq. rewrite <- Heq in Hb. congruence.
  - constructor; [unfold entry_ok; cbn; rewrite Hz; cbn; lia|].
    eapply Forall_impl; [exact He|]. intros. eapply entry_ok_clock; [|done]. lia.
  - apply log_ok_cons; [done|]. eapply Forall_impl; [exact Hsw|]. cbn.
    intros b [?|(e & Hb & _)] Heq; [done|]. congruence.
  - rewrite map_size_insert_None by done. unfold MAX_FINANCIAL_REPLAY_ENTRIES in *. lia.
Qed.

Lemma sys_inv_reachable arrives s : reachable arrives s -> sys_inv s.
Proof.
  induction 1 as [s (Hm & _ & Hl)|s s' _ IH Hstep].
  - constructor; rewrite ?Hm, ?Hl; try constructor.
    + intros [|] ? ? ? ? Hx; inversion Hx.
    + rewrite map_size_empty. lia.
  - destruct Hstep as [s p Hp|s c Hc|s i p p' Hp Hr|s i ctx ver rest n1 n2 m' r Hp H1 H2 Ha
                      |s i ctx ver rest n1 n2 m' key Hp H1 H2 Ha Hk].
    + destruct IH. by constructor.
    + destruct IH as [Hl He Ho Hs]. constructor; cbn; try done.
      * eapply Forall_impl; [exact Hl|]. intros. by eapply entry_live_clock.
      * eapply Forall_impl; [exact He|]. intros. by eapply entry_ok_clock.
    + destruct IH. by constructor.
    + destruct IH as [Hl He Ho Hs]. apply admit_evidence_Some in Ha.
      constructor; cbn; try done.
      * eapply Forall_impl; [exact Hl|]. intros b Hb. destruct Ha as [->| ->].
        -- eapply entry_live_clock; [|done]. lia.
        -- eapply entry_live_sweep; [|done]. lia.
      * eapply Forall_impl; [exact He|]. intros. eapply entry_ok_clock; [|done]. lia.
      * destruct Ha as [->| ->]; [done|]. pose proof (sweep_size (s_map s) n2). lia.
    + by eapply sys_inv_admit.
Qed.

(** C6. Under any interleaving of any number of requests, with a clock that never goes
    back: when two admissions carry the same replay key, the later one is consumed
    no earlier than the expiry of the earlier evidence; if the two clock readings of the
    later admission agree, its evidence outlives the earlier one, so it is a new
    attestation. In every reachable state, whatever the log holds, the replay map is
    within its capacity. The log lists the latest admission first. *)
Theorem replay_protection arrives s :
  reachable arrives s ->
  (size (s_map s) <= MAX_FINANCIAL_REPLAY_ENTRIES)%nat /\
  forall i j a b, (i < j)%nat ->
    s_log s !! i = Some a -> s_log s !! j = Some b -> a_key a = a_key b ->
    a_expires b <= a_consumed a /\
    (a_checked a = a_consumed a -> a_expires b < a_expires a).
Proof.
  intros Hr. destruct (sys_inv_reachable _ _ Hr) as [_ He Ho Hs]. split; [done|].
  intros i j a b Hij Ha Hb Hk. pose proof (Ho _ _ _ _ Hij Ha Hb Hk).
  rewrite Forall_lookup in He. destruct (He _ _ Ha). split; [done|lia].
Qed.

(** *** A concrete handler and two requests *)

Definition sample_deployment : hostobj := fun k =>
  if str_eqb k (js "transport") then Ok (vstr "direct-tls") else
  if str_eqb k (js "upstreamBodyLimitBytes") then Ok (vnum 1024) else
  if str_eqb k (js "connectionLimitsEnforced") then Ok (VBool true) else Ok VUndef.
Definition sample_options : CreateOpaqueHandlerOptions := {|
  rateLimitDecision := Ok true; financialContext := Ok true; deviceIntegrityVerifier := Ok true;
  deploymentContext := Ok sample_deployment; securityProfile := Ok (vstr "financial");
  csrfValidated := Ok tt; delegate := Ok tt |}.
Definition sample_request : request := {|
  parsed_url := Ok {| search := []; hash := []; pathname := login_path |};
  method := Ok (js "POST"); content_type := Ok (Some (js "application/json"));
  content_length := Ok None; has_body := Ok true |}.
Definition sample_evidence (expires : Z) : val :=
  vobj [("provider", vstr "custom"); ("subject", vstr "alice"); ("operation", vstr "login");
        ("nonce", vstr "nonce-0123456789abcdef"); ("deploymentId", vstr "prod-1");
        ("issuedAtMs", vnum 1000000); ("expiresAtMs", vnum expires)]%string.
Definition sample_handler : prog := @opaqueHandler ascii_unicode sample_options sample_request.
Definition sample_answers (expires : Z) : list (result jserr val) :=
  [Ok (VBool true); Ok (vstr "allowed"); Ok (sample_context "alice"); Ok (sample_evidence expires)].
Definition sample_body : prog := body_stage sample_request 1024 login_path (js "application/json").
Definition sample_admit (expires : Z) : prog :=
  Admit (sample_context "alice") (sample_evidence expires) sample_body.
Definition sample_key : jsstr :=
  js "prod-1" ++ 0 :: js "alice" ++ 0 :: js "login" ++ 0 :: js "nonce-0123456789abcdef".

Lemma sample_advance expires :
  advance (sample_answers expires) sample_handler = Some (sample_admit expires).
Proof. vm_compute. reflexivity. Qed.

(** The state after both requests reached their verifier's answer. *)
Definition sample_waiting (e1 e2 : Z) : system :=
  {| s_map := ∅; s_clock := 0; s_requests := [sample_admit e1; sample_admit e2]; s_log := [] |}.
Lemma sample_waiting_reachable e1 e2 :
  reachable (fun p => p = sample_handler) (sample_waiting e1 e2).
Proof.
  pose (mk rs := {| s_map := ∅; s_clock := 0; s_requests := rs; s_log := [] |}).
  assert (H0 : reachable (fun p => p = sample_handler) (mk [])) by (constructor; done).
  assert (H1 : reachable (fun p => p = sample_handler) (mk [sample_handler]))
    by exact (reach_step _ _ _ H0 (step_arrive _ (mk []) sample_handler eq_refl)).
  assert (H2 : reachable (fun p => p = sample_handler) (mk [sample_handler; sample_handler]))
    by exact (reach_step _ _ _ H1 (step_arrive _ (mk [sample_handler]) sample_handler eq_refl)).
  pose proof (reach_advance _ _ _ 0 _ _ H2 eq_refl (sample_advance e1)) as H3.
  exact (reach_advance _ _ _ 1 _ _ H3 eq_refl (sample_advance e2)).
Qed.

Definition sample_log (expires checked consumed : Z) : admission_log :=
  {| a_key := sample_key; a_checked := checked; a_consumed := consumed; a_expires := expires |}.

Definition sample_map (e : Z) : replay_map := <[sample_key := num e]> ∅.

Lemma sample_log_entry e a b :
  log_entry (sample_context "alice") (sample_evidence e) a b sample_key = sample_log e a b.
Proof.
  unfold log_entry, sample_log. f_equal.
  assert (evidence_expiry (sample_evidence e) = num e) as -> by (vm_compute; reflexivity).
  by rewrite num_toZ_num.
Qed.

Lemma sample_two_admissions e1 e2 n1 n2 n1' n2' m1 m2 :
  0 <= n1 -> n1 <= n2 -> n2 <= n1' -> n1' <= n2' ->
  admit_evidence (sample_context "alice") (sample_evidence e1) n1 n2 ∅ = (m1, None) ->
  admit_evidence (sample_context "alice") (sample_evidence e2) n1' n2' m1 = (m2, None) ->
  exists s, reachable (fun p => p = sample_handler) s /\
    s_log s = [sample_log e2 n1' n2'; sample_log e1 n1 n2].
Proof.
  intros H0 H1 H2 H3 A1 A2. eexists. split.
  - eapply reach_step; [eapply reach_step; [apply (sample_waiting_reachable e1 e2)|]|].
    + apply (step_admit _ _ 0 (sample_context "alice") (sample_evidence e1) sample_body n1 n2 m1 sample_key);
        [done|done|done|exact A1|vm_compute; reflexivity].
    + apply (step_admit _ _ 1 (sample_context "alice") (sample_evidence e2) sample_body n1' n2' m2 sample_key);
        [done|done|done|exact A2|vm_compute; reflexivity].
  - cbn [s_log]. by rewrite !sample_log_entry.
Qed.

Lemma sample_admitted e n1 n2 m :
  isFreshBoundEvidence (sample_evidence e) (sample_context "alice") n1 = true ->
  evidence_expiry (sample_evidence e) = num e -> sweep m n2 = ∅ ->
  admit_evidence (sample_context "alice") (sample_evidence e) n1 n2 m = (sample_map e, None).
Proof.
  intros Hf He Hm. apply admit_evidence_None. split; [done|]. rewrite He. apply consume_consumed.
  exists sample_key. rewrite Hm, map_size_empty. split_and!; [vm_compute; reflexivity|done|apply Nat.lt_0_succ|done].
Qed.
Lemma sample_map_swept e n : num_leb (num e) (num n) = true -> sweep (sample_map e) n = ∅.
Proof.
  intros H. apply map_empty. intros k. apply sweep_lookup_None. unfold sample_map.
  destruct (decide (sample_key = k)) as [<-|Hk].
  - right. exists (num e). by rewrite lookup_insert_eq.
  - left. by rewrite lookup_insert_ne.
Qed.

(* the nonce is admitted again after the first evidence expired *)
Lemma replay_protection_witness :
  exists s, reachable (fun p => p = sample_handler) s /\
    s_log s = [sample_log 1200000 1100000 1100001; sample_log 1050000 1000000 1000001] /\
    1050000 <= 1100001.
Proof.
  destruct (sample_two_admissions 1050000 1200000 1000000 1000001 1100000 1100001
    (sample_map 1050000) (sample_map 1200000)
    ltac:(lia) ltac:(lia) ltac:(lia) ltac:(lia)
    (sample_admitted 1050000 1000000 1000001 ∅ ltac:(vm_compute; reflexivity) ltac:(vm_compute; reflexivity) eq_refl)
    (sample_admitted 1200000 1100000 1100001 _ ltac:(vm_compute; reflexivity) ltac:(vm_compute; reflexivity)
       (sample_map_swept 1050000 1100001 eq_refl))) as (s & Hr & Hl).
  exists s. split; [exact Hr|]. split; [exact Hl|].
  refine (proj1 (proj2 (replay_protection _ s Hr) 0%nat 1%nat (sample_log 1200000 1100000 1100001)
    (sample_log 1050000 1000000 1000001) ltac:(lia) _ _ eq_refl)); by rewrite Hl.
Defined.

(** C38. The two clock readings of one admission are not the same instant: when the
    evidence expires between them, the freshness test still passes, the sweep
    removes the stored key, and the same evidence is admitted a second time. *)
Theorem expiry_tick_replay :
  exists s a b, reachable (fun p => p = sample_handler) s /\ s_log s = [a; b] /\
    a_key a = a_key b /\ a_expires a = a_expires b /\ a_checked a < a_expires a.
Proof.
  destruct (sample_two_admissions 1050000 1050000 1000000 1000000 1049999 1050000
    (sample_map 1050000) (sample_map 1050000)
    ltac:(lia) ltac:(lia) ltac:(lia) ltac:(lia)
    (sample_admitted 1050000 1000000 1000000 ∅ ltac:(vm_compute; reflexivity) ltac:(vm_compute; reflexivity) eq_refl)
    (sample_admitted 1050000 1049999 1050000 _ ltac:(vm_compute; reflexivity) ltac:(vm_compute; reflexivity)
       (sample_map_swept 1050000 1050000 eq_refl))) as (s & Hr & Hl).
  eexists s, _, _. split; [exact Hr|]. split; [exact Hl|]. by vm_compute.
Qed.

(** ** A concrete mediated run *)

Definition sample_heap : heap := {[ 0%nat := [123; 125] ]}.
Definition sample_outcomes : list read_outcome :=
  [(sample_heap, RChunk (CUint8Array {| vbuffer := 0; voffset := 0; vlength := 2 |}));
   (sample_heap, RDone)].
Definition sample_run : list answer :=
  map AValue (sample_answers 1050000) ++
  [AClock 1000000 1000000 ∅; ABody sample_heap sample_outcomes;
   ADelegate sample_heap (Ok (DObject (vnum 200) (CUint8Array {| vbuffer := 0; voffset := 0; vlength := 2 |})))].

Lemma sample_run_summary :
  (fun '(t, resp, _) => (existsb is_body_event t, status resp)) <$> run sample_run sample_handler
  = Some (true, 200).
Proof. vm_compute. reflexivity. Qed.

(* the delegate is reached, so the theorem's conclusion is about a real delegation;
   the profile it finds is the financial one of the options *)
Lemma complete_mediation_witness :
  exists t resp h, run sample_run sample_handler = Some (t, resp, h) /\
    existsb is_body_event t = true /\ status resp = 200 /\
    exists profile limit, Configured sample_options profile limit.
Proof.
  pose proof sample_run_summary as Hsum.
  destruct (run sample_run sample_handler) as [[[t resp] h]|] eqn:E; [|discriminate].
  injection Hsum as Hb Hs.
  exists t, resp, h. split; [reflexivity|]. split; [exact Hb|]. split; [exact Hs|].
  destruct (@complete_mediation ascii_unicode sample_options sample_request t resp h
    (run_exec _ _ _ _ _ E) Hb) as (profile & limit & _ & _ & _ & _ & _ & _ & Hc & _).
  exists profile, limit. exact Hc.
Defined.
