(* ===== verification/ServerNodeBuffers.v ===== *)
(** * The request body and the buffers it passes through

    [readBoundedBody] copies the stream into one buffer and clears the chunks;
    the delegation clears that buffer and the delegate's. *)

From S2P Require Import Prelude JsNumber Regex JsValue ServerNode ServerNodeRuns ServerNodeProps.
Open Scope js_scope.

(** ** Bytes of a heap *)

Definition byte_at (h : heap) (b : nat) (j : nat) : Z := default 0 (default [] (h !! b) !! j).
Definition covers (v : view) (b j : nat) : bool :=
  bool_decide (vbuffer v = b) && (voffset v <=? j)%nat && (j <? voffset v + vlength v)%nat.
Definition zeroed (h : heap) (v : view) : Prop := Forall (fun c => c = 0) (view_bytes h v).

Lemma view_bytes_length h v : length (view_bytes h v) = vlength v.
Proof. apply length_resize. Qed.
Lemma view_bytes_lookup h v i :
  view_bytes h v !! i = if (i <? vlength v)%nat then Some (byte_at h (vbuffer v) (voffset v + i)) else None.
Proof.
  unfold view_bytes, byte_at. set (bs := default [] (h !! vbuffer v)).
  destruct (Nat.ltb_spec i (vlength v)).
  - destruct (decide (i < length (drop (voffset v) bs))%nat) as [Hl|Hl].
    + rewrite lookup_resize by lia. rewrite lookup_drop.
      rewrite length_drop in Hl. destruct (lookup_lt_is_Some_2 bs (voffset v + i)) as [x ->]; [lia|done].
    + rewrite lookup_resize_new by lia. rewrite length_drop in Hl.
      by rewrite (lookup_ge_None_2 bs) by lia.
  - rewrite lookup_resize_old by lia. done.
Qed.
Lemma zeroed_byte_at h v :
  zeroed h v <-> forall j, (j < vlength v)%nat -> byte_at h (vbuffer v) (voffset v + j) = 0.
Proof.
  unfold zeroed. rewrite Forall_lookup. split.
  - intros H j Hj. apply (H j). rewrite view_bytes_lookup. by destruct (Nat.ltb_spec j (vlength v)); [|lia].
  - intros H i x. rewrite view_bytes_lookup. destruct (Nat.ltb_spec i (vlength v)); [|done].
    intros [= <-]. by apply H.
Qed.

(** Clearing a range of a byte list, position by position. *)
Lemma clear_lookup (bs : list Z) off len j :
  default 0 ((take off bs ++ replicate (length (take len (drop off bs))) 0 ++ drop (off + len) bs) !! j)
  = if (off <=? j)%nat && (j <? off + len)%nat then 0 else default 0 (bs !! j).
Proof.
  destruct (decide (length bs <= j)%nat) as [Hj|Hj].
  { rewrite !lookup_ge_None_2; [by destruct (_ && _)|lia|].
    rewrite !length_app, length_replicate, !length_take, !length_drop. lia. }
  destruct (Nat.leb_spec off j); cbn [andb].
  - rewrite lookup_app_r; rewrite length_take; [|lia]. rewrite Nat.min_l by lia.
    destruct (Nat.ltb_spec j (off + len)).
    + rewrite lookup_app_l, lookup_replicate_2; rewrite ?length_replicate, ?length_take, ?length_drop; [done|lia..].
    + rewrite lookup_app_r; rewrite length_replicate, length_take, length_drop; [|lia].
      rewrite lookup_drop. do 2 f_equal. lia.
  - rewrite lookup_app_l by (rewrite length_take; lia). by rewrite lookup_take_lt by lia.
Qed.

Lemma byte_at_fill0 w h b j :
  byte_at (fill0 w h) b j = if covers w b j then 0 else byte_at h b j.
Proof.
  unfold byte_at, fill0, covers. destruct (decide (vbuffer w = b)) as [<-|Hb].
  - rewrite lookup_alter_eq, bool_decide_eq_true_2 by done. cbn [andb].
    destruct (h !! vbuffer w) as [bs|]; [apply clear_lookup|by destruct (_ && _)].
  - rewrite lookup_alter_ne by done. by rewrite bool_decide_eq_false_2.
Qed.

Lemma fill0_dom v h : dom (fill0 v h) = dom h.
Proof. apply dom_alter_L. Qed.
Lemma fill0_other v h b : vbuffer v <> b -> fill0 v h !! b = h !! b.
Proof. apply lookup_alter_ne. Qed.
Lemma fill0_zeroed w h : zeroed (fill0 w h) w.
Proof.
  apply zeroed_byte_at. intros j Hj. rewrite byte_at_fill0. unfold covers.
  rewrite bool_decide_eq_true_2 by done. cbn [andb].
  destruct (Nat.leb_spec (voffset w) (voffset w + j)), (Nat.ltb_spec (voffset w + j) (voffset w + vlength w)); by try lia.
Qed.
(** Once zero, a range stays zero under further clearing. *)
Lemma fill0_preserves v w h : zeroed h v -> zeroed (fill0 w h) v.
Proof.
  rewrite !zeroed_byte_at. intros H j Hj. rewrite byte_at_fill0, H by done. by destruct (covers _ _ _).
Qed.

(** ** Clearing the chunks *)

Lemma clearChunks_preserves v vs h : zeroed h v -> zeroed (clearChunks vs h) v.
Proof. revert h; induction vs as [|w vs IH]; intros h H; [done|]. by apply IH, fill0_preserves. Qed.
Lemma clearChunks_zeroed vs h : Forall (zeroed (clearChunks vs h)) vs.
Proof.
  revert h; induction vs as [|v vs IH]; intros h; [done|]. constructor; [|apply IH].
  change (zeroed (clearChunks vs (fill0 v h)) v). apply clearChunks_preserves, fill0_zeroed.
Qed.
Lemma clearChunks_other vs h b : Forall (fun v => vbuffer v <> b) vs -> clearChunks vs h !! b = h !! b.
Proof.
  revert h; induction vs as [|v vs IH]; intros h; [done|]. intros [Hv Hvs]%Forall_cons.
  cbn. change (clearChunks vs (fill0 v h) !! b = h !! b). by rewrite IH, fill0_other.
Qed.
Lemma concat_chunks_length h vs : length (concat_chunks h vs) = list_sum (map vlength vs).
Proof. induction vs as [|v vs IH]; [done|]. cbn. by rewrite length_app, view_bytes_length, IH. Qed.

Lemma fill0_length w h b : length (default [] (fill0 w h !! b)) = length (default [] (h !! b)).
Proof.
  unfold fill0. destruct (decide (vbuffer w = b)) as [<-|Hb]; [|by rewrite lookup_alter_ne].
  rewrite lookup_alter_eq. destruct (h !! vbuffer w) as [bs|]; [|done].
  cbn. rewrite !length_app, length_replicate, !length_take, !length_drop. lia.
Qed.
Lemma fill0_whole w h b : whole (fill0 w h) b = whole h b.
Proof. unfold whole. by rewrite fill0_length. Qed.

(** All the bytes a value handed over gives access to are zero. *)
Definition chunk_zeroed (h : heap) (c : chunk) : Prop :=
  match c with
  | CUint8Array v | CView v _ => zeroed h v
  | CArrayBuffer id => zeroed h (whole h id)
  | COther => True
  end.
Lemma zeroizeChunk_zeroed c h : chunk_zeroed (zeroizeChunk c h) c.
Proof. destruct c; cbn [chunk_zeroed zeroizeChunk]; rewrite ?fill0_whole; try apply fill0_zeroed; done. Qed.
Lemma chunk_zeroed_fill0 c w h : chunk_zeroed h c -> chunk_zeroed (fill0 w h) c.
Proof. destruct c; cbn [chunk_zeroed zeroizeChunk]; rewrite ?fill0_whole; try apply fill0_preserves; done. Qed.

Lemma clearChunks_chunk_zeroed c vs h : chunk_zeroed h c -> chunk_zeroed (clearChunks vs h) c.
Proof. revert h; induction vs as [|v vs IH]; intros h H; [done|]. by apply IH, chunk_zeroed_fill0. Qed.

(** ** What the read loop takes from the stream *)

Definition total_bytes (vs : list view) : Z := Z.of_nat (list_sum (map vlength vs)).
Lemma total_bytes_snoc vs v : total_bytes (vs ++ [v]) = total_bytes vs + Z.of_nat (vlength v).
Proof. unfold total_bytes. rewrite map_app, list_sum_app. cbn. lia. Qed.
Lemma total_bytes_cons v vs : total_bytes (v :: vs) = Z.of_nat (vlength v) + total_bytes vs.
Proof. unfold total_bytes. by rewrite <- Nat2Z.inj_add. Qed.
Lemma total_bytes_nonneg vs : 0 <= total_bytes vs.
Proof. unfold total_bytes. lia. Qed.

(** A prefix of the outcomes is byte chunks, viewed by [vs]; the rest follows. *)
Inductive Taken : list read_outcome -> list view -> list read_outcome -> Prop :=
  | Taken_none rest : Taken rest [] rest
  | Taken_chunk h value v outcomes vs rest :
      byteView h value = Some v -> Taken outcomes vs rest ->
      Taken ((h, RChunk value) :: outcomes) (v :: vs) rest.

(** How the reading stops after the chunks [vs]: at the end of the stream, at a
    chunk that exceeds the limit, at a failure of the stream, or at a value that is
    not bytes; with the heap of that moment. *)
Inductive Stops (limit : Z) (vs : list view) : list read_outcome -> heap -> option body_error -> Prop :=
  | Stops_done h rest : Stops limit vs ((h, RDone) :: rest) h None
  | Stops_large h value v rest :
      byteView h value = Some v -> limit < total_bytes vs + Z.of_nat (vlength v) ->
      Stops limit vs ((h, RChunk value) :: rest) h (Some BodyTooLargeError)
  | Stops_throw h rest : Stops limit vs ((h, RThrow) :: rest) h (Some StreamError)
  | Stops_value h value rest :
      byteView h value = None -> Stops limit vs ((h, RChunk value) :: rest) h (Some StreamError).

Lemma Taken_det outcomes vs r1 r2 : Taken outcomes vs r1 -> Taken outcomes vs r2 -> r1 = r2.
Proof. intros H; revert r2; induction H; intros r2 H2; inversion H2; subst; auto. Qed.

(** The stream as the reader sees it: the chunks within the limit, and the stop. *)
Definition Read (outcomes : list read_outcome) (limit : Z) (vs : list view) (hl : heap)
    (e : option body_error) : Prop :=
  total_bytes vs <= limit /\ exists rest, Taken outcomes vs rest /\ Stops limit vs rest hl e.

Lemma read_loop_taken outcomes vs rest limit chunks :
  Taken outcomes vs rest -> total_bytes (chunks ++ vs) <= limit ->
  read_loop outcomes limit chunks (total_bytes chunks) =
  read_loop rest limit (chunks ++ vs) (total_bytes (chunks ++ vs)).
Proof.
  intros H; revert chunks; induction H as [rest|h value v outcomes vs rest Hv _ IH]; intros chunks Hb.
  - by rewrite app_nil_r.
  - cbn [read_loop]. rewrite Hv, <- total_bytes_snoc.
    replace (chunks ++ v :: vs) with ((chunks ++ [v]) ++ vs) in * by (by rewrite <- app_assoc).
    destruct (Z.ltb_spec limit (total_bytes (chunks ++ [v]))) as [Hl|_]; [|by apply IH].
    unfold total_bytes in *. rewrite map_app, list_sum_app in Hb. lia.
Qed.

(** A list of outcomes is read to a stop, or it runs out. *)
Lemma read_or_pending outcomes limit chunks :
  total_bytes chunks <= limit ->
  exists vs rest, Taken outcomes vs rest /\ total_bytes (chunks ++ vs) <= limit /\
    (rest = [] \/ exists hl e, Stops limit (chunks ++ vs) rest hl e).
Proof.
  revert chunks; induction outcomes as [|[h [|value|]] outcomes IH]; intros chunks Hb.
  - exists [], []. rewrite app_nil_r. split_and!; [constructor|done|by left].
  - exists [], ((h, RDone) :: outcomes). rewrite app_nil_r.
    split_and!; [constructor|done|right; eexists _, _; constructor].
  - destruct (byteView h value) as [v|] eqn:Ev.
    + destruct (Z.le_gt_cases (total_bytes (chunks ++ [v])) limit) as [Hv|Hv].
      * destruct (IH _ Hv) as (vs & rest & Ht & Hr). exists (v :: vs), rest.
        rewrite <- app_assoc in Hr. split; [by econstructor|done].
      * exists [], ((h, RChunk value) :: outcomes). rewrite app_nil_r.
        split_and!; [constructor|done|right]. rewrite total_bytes_snoc in Hv.
        eexists _, _. eapply Stops_large; [exact Ev|lia].
    + exists [], ((h, RChunk value) :: outcomes). rewrite app_nil_r.
      split_and!; [constructor|done|right; eexists _, _; by apply Stops_value].
  - exists [], ((h, RThrow) :: outcomes). rewrite app_nil_r.
    split_and!; [constructor|done|right; eexists _, _; constructor].
Qed.

(** What the loop returns at a stop; the failing paths clear what they hold. *)
Lemma read_loop_stops limit vs rest hl e :
  Stops limit vs rest hl e ->
  exists h, read_loop rest limit vs (total_bytes vs)
      = Some (h, match e with None => inl vs | Some err => inr err end) /\
    (e = None -> h = hl) /\ (e <> None -> Forall (zeroed h) vs) /\
    forall value rest', rest = (hl, RChunk value) :: rest' -> byteView hl value = None ->
      chunk_zeroed h value.
Proof.
  intros [h rest'|h value v rest' Hv Hl|h rest'|h value rest' Hv]; cbn [read_loop].
  - exists h. split_and!; try done.
  - rewrite Hv. destruct (Z.ltb_spec limit (total_bytes vs + Z.of_nat (vlength v))); [|lia].
    eexists. split_and!; [done|done|intros _; apply clearChunks_zeroed|]. intros ? ? [= <- _]. congruence.
  - eexists. split_and!; [done|done|intros _; apply clearChunks_zeroed|done].
  - rewrite Hv. eexists. split_and!; [done|done|intros _; apply clearChunks_zeroed|].
    intros ? ? [= <- _] _. apply clearChunks_chunk_zeroed, clearChunks_chunk_zeroed, zeroizeChunk_zeroed.
Qed.

(** Every chunk of a stream views a buffer that exists when the stream ends. *)
Definition live (h : heap) (vs : list view) : Prop := Forall (fun v => vbuffer v ∈ dom h) vs.

(** The new buffer of a complete read. *)
Definition fresh_copy (hl : heap) (vs : list view) (h : heap) (body : nat) : Prop :=
  (body ∉ dom hl) /\ h !! body = Some (concat_chunks hl vs) /\
  Z.of_nat (length (concat_chunks hl vs)) = total_bytes vs /\
  forall b, b ∈ dom hl -> Forall (fun v => vbuffer v <> b) vs -> h !! b = hl !! b.

Lemma clearChunks_copy hl vs :
  live hl vs ->
  fresh_copy hl vs (clearChunks vs (<[fresh (dom hl) := concat_chunks hl vs]> hl)) (fresh (dom hl)).
Proof.
  intros Hlive. pose proof (is_fresh (dom hl)) as Hf.
  assert (Hne : Forall (fun v => vbuffer v <> fresh (dom hl)) vs)
    by (eapply Forall_impl; [exact Hlive|]; cbn; congruence).
  split_and!; [done| | |].
  - by rewrite clearChunks_other, lookup_insert_eq.
  - by rewrite concat_chunks_length.
  - intros b Hb Hvb. rewrite clearChunks_other, lookup_insert_ne by congruence. done.
Qed.

(** What one read gives, computed from how the stream stops. *)
Lemma readBoundedBody_read h0 outcomes limit vs hl e :
  Read outcomes limit vs hl e ->
  exists h x, readBoundedBody true h0 outcomes limit = Some (h, x) /\
    Forall (zeroed h) vs /\
    match e with
    | None => exists body, x = inl body /\ (live hl vs -> fresh_copy hl vs h body)
    | Some err => x = inr err /\
        forall value rest, Taken outcomes vs ((hl, RChunk value) :: rest) -> byteView hl value = None ->
          chunk_zeroed h value
    end.
Proof.
  intros [Hb (rest & Ht & Hs)]. unfold readBoundedBody; cbn [negb].
  pose proof (read_loop_taken _ _ _ limit [] Ht Hb) as Hr. cbn [app] in Hr.
  change (total_bytes []) with 0 in Hr. rewrite Hr.
  destruct (read_loop_stops _ _ _ _ _ Hs) as (h & -> & Hh & Hz & Hc).
  destruct e as [err|].
  - eexists _, _. split_and!; [done|by apply Hz|done|].
    intros value rest' Ht'. rewrite (Taken_det _ _ _ _ Ht Ht') in Hc. by eapply Hc.
  - rewrite (Hh eq_refl). eexists _, _. split_and!; [done|apply clearChunks_zeroed|].
    eexists. split; [done|apply clearChunks_copy].
Qed.

(** The result of a read is that of some stop. *)
Lemma readBoundedBody_inv h0 outcomes limit h x :
  0 <= limit -> readBoundedBody true h0 outcomes limit = Some (h, x) ->
  exists vs hl e, Read outcomes limit vs hl e.
Proof.
  intros Hlim Hx.
  destruct (read_or_pending outcomes limit []) as (vs & rest & Ht & Hb & [->|(hl & e & Hs)]); [done| |].
  - exfalso. unfold readBoundedBody in Hx; cbn [negb] in Hx.
    pose proof (read_loop_taken _ _ _ limit [] Ht Hb) as Hr. change (total_bytes []) with 0 in Hr.
    by rewrite Hr in Hx.
  - exists vs, hl, e. split; [done|]. by exists rest.
Qed.

(** C12. Reading a body. It succeeds exactly when the stream yields byte chunks within
    the limit and then ends; it fails as too large exactly when a byte chunk goes past
    the limit; and with a stream error exactly when, within the limit, the stream fails
    or yields a value that is not bytes. Whatever the outcome, the chunks taken are
    zero afterwards, and so is the value that is not bytes. A complete read, whose
    chunks view buffers that exist ([live]), returns a fresh buffer with the
    concatenation, in order, of the bytes the chunks hold when the stream ends, and
    leaves the buffers that no chunk views as they are. *)
Theorem readBoundedBody_correct h0 outcomes limit :
  0 <= limit ->
  ((exists h body, readBoundedBody true h0 outcomes limit = Some (h, inl body)) <->
     exists vs hl, Read outcomes limit vs hl None) /\
  (forall err, (exists h, readBoundedBody true h0 outcomes limit = Some (h, inr err)) <->
     exists vs hl, Read outcomes limit vs hl (Some err)) /\
  (forall vs hl h body, Read outcomes limit vs hl None ->
     readBoundedBody true h0 outcomes limit = Some (h, inl body) ->
     Forall (zeroed h) vs /\ (live hl vs -> fresh_copy hl vs h body)) /\
  (forall vs hl h err, Read outcomes limit vs hl (Some err) ->
     readBoundedBody true h0 outcomes limit = Some (h, inr err) ->
     Forall (zeroed h) vs /\
     forall value rest, Taken outcomes vs ((hl, RChunk value) :: rest) -> byteView hl value = None ->
       chunk_zeroed h value).
Proof.
  intros Hlim. split_and!; [split|split| |].
  - intros (h & body & Hr). destruct (readBoundedBody_inv _ _ _ _ _ Hlim Hr) as (vs & hl & e & H).
    destruct (readBoundedBody_read h0 _ _ _ _ _ H) as (h' & x & Hr' & _ & He). destruct e; naive_solver.
  - intros (vs & hl & H).
    destruct (readBoundedBody_read h0 _ _ _ _ _ H) as (h & x & Hr & _ & body & -> & _). eauto.
  - intros (h & Hr). destruct (readBoundedBody_inv _ _ _ _ _ Hlim Hr) as (vs & hl & e & H).
    destruct (readBoundedBody_read h0 _ _ _ _ _ H) as (h' & x & Hr' & _ & He). destruct e; naive_solver.
  - intros (vs & hl & H).
    destruct (readBoundedBody_read h0 _ _ _ _ _ H) as (h & x & Hr & _ & -> & _). eauto.
  - intros vs hl h body H Hr.
    destruct (readBoundedBody_read h0 _ _ _ _ _ H) as (h' & x & Hr' & Hz & body' & -> & Hf).
    rewrite Hr in Hr'. by simplify_eq.
  - intros vs hl h err H Hr.
    destruct (readBoundedBody_read h0 _ _ _ _ _ H) as (h' & x & Hr' & Hz & _ & Hc).
    rewrite Hr in Hr'. by simplify_eq.
Qed.

(** ** A concrete stream *)

Definition two_chunks : heap := {[ 0%nat := [1; 2; 3]; 1%nat := [4; 5] ]}.
Definition chunk0 : view := {| vbuffer := 0; voffset := 1; vlength := 2 |}.
Definition chunk1 : view := {| vbuffer := 1; voffset := 0; vlength := 2 |}.
Definition two_outcomes : list read_outcome :=
  [(two_chunks, RChunk (CUint8Array chunk0)); (two_chunks, RChunk (CArrayBuffer 1));
   (two_chunks, RDone)].

Lemma two_outcomes_read : Read two_outcomes 4 [chunk0; chunk1] two_chunks None.
Proof. split; [vm_compute; discriminate|]. eexists. repeat econstructor. Qed.

Lemma readBoundedBody_correct_witness :
  exists h body, readBoundedBody true ∅ two_outcomes 4 = Some (h, inl body) /\
    h !! body = Some [2; 3; 4; 5] /\ zeroed h chunk0 /\ zeroed h chunk1 /\
    exists h', readBoundedBody true ∅ two_outcomes 3 = Some (h', inr BodyTooLargeError).
Proof.
  destruct (readBoundedBody_correct ∅ two_outcomes 4 ltac:(lia)) as ([_ H1] & _ & H3 & _).
  destruct (readBoundedBody_correct ∅ two_outcomes 3 ltac:(lia)) as (_ & H2 & _).
  destruct H1 as (h & body & Hr); [eexists _, _; apply two_outcomes_read|].
  destruct (H3 _ _ h body two_outcomes_read Hr) as [[Hz0 [Hz1 _]%Forall_cons]%Forall_cons Hf].
  exists h, body. split; [exact Hr|].
  destruct Hf as (_ & Hb & _); [apply (bool_decide_unpack _); vm_compute; exact I|].
  split; [rewrite Hb; vm_compute; reflexivity|]. split; [exact Hz0|]. split; [exact Hz1|].
  apply H2. exists [chunk0], two_chunks. split; [vm_compute; discriminate|].
  eexists. split; [repeat econstructor|]. eapply Stops_large; [reflexivity|vm_compute; reflexivity].
Defined.

(** A size failure leaves the bytes of the chunk that exceeded the limit, which
    the handler has already read, in their buffer: only the chunks before it are
    cleared. *)
Lemma oversized_chunk_kept :
  exists h, readBoundedBody true ∅ two_outcomes 3 = Some (h, inr BodyTooLargeError) /\
    view_bytes h chunk0 = [0; 0] /\ view_bytes h chunk1 = [4; 5].
Proof. eexists. split; [reflexivity|]. split; vm_compute; reflexivity. Qed.

(** ** The buffers of one delegation *)

Lemma finish_delegate_clears body h1 a t resp h :
  exec (finish_delegate body h1 a) t resp h ->
  zeroed h (whole h body) /\
  forall st c, a = Ok (DObject st c) -> chunk_zeroed h c.
Proof.
  unfold finish_delegate. intros H.
  assert (exists h2, h = fill0 (whole h2 body) h2 /\
      forall st c, a = Ok (DObject st c) -> chunk_zeroed h2 c) as (h2 & -> & Hc).
  { destruct a as [value|]; [|inversion H; subst; exists h1; split; [reflexivity|discriminate]].
    destruct (responseFromDelegate value h1) as [rr h2] eqn:Er.
    assert (h = fill0 (whole h2 body) h2) as -> by (destruct rr; by inversion H).
    exists h2. split; [done|]. intros st c [= ->]. cbn in Er. injection Er as _ <-.
    apply zeroizeChunk_zeroed. }
  split; [rewrite fill0_whole; apply fill0_zeroed|].
  intros st c Ha. by eapply chunk_zeroed_fill0, Hc.
Qed.
