(* ===== verification/ServerNodeBody.v ===== *)
(** * Responses and buffers of the server-node handler *)

From S2P Require Import Prelude JsNumber Regex JsValue ServerNode ServerNodeRuns.
From S2P Require Import ServerNodeProps ServerNodeBuffers.
Open Scope js_scope.

(** ** Responses *)

(** A response the handler itself produced: an error code body. *)
Inductive generic : Response -> Prop :=
  | generic_unavailable : generic unavailable
  | generic_limited : generic (genericResponse 429 (js "rate_limited"))
  | generic_invalid st : st ∈ [400; 403; 404; 405; 413; 415] -> generic (invalid st).
#[local] Hint Extern 1 (generic unavailable) => exact generic_unavailable : js.
#[local] Hint Extern 1 (generic (genericResponse _ _)) => exact generic_limited : js.
#[local] Hint Extern 1 (generic (invalid _)) => apply generic_invalid : js.
#[local] Hint Extern 1 (_ ∈ _) => (apply (bool_decide_unpack _); exact I) : js.

Lemma generic_shape r : generic r -> headers r = responseHeaders /\ status r ∈ STATUS_CODES.
Proof.
  intros [| |st Hst]; (split; [reflexivity|]); cbn [status invalid unavailable genericResponse].
  1, 2: auto with js.
  repeat (apply elem_of_cons in Hst as [->|Hst]; [auto with js|]). by apply not_elem_of_nil in Hst.
Qed.

(** The delegate's response is passed on as the bytes of a bounded view. *)
Definition passed_on (r : Response) (e : event) : Prop :=
  exists req hd h st body, e = EDelegate req hd h (Ok (DObject st (CUint8Array body))) /\
    status_code st = Some (status r) /\ response_body r = view_bytes h body /\
    Z.of_nat (vlength body) <= MAX_HTTP_BODY_BYTES /\ headers r = responseHeaders.

Lemma exec_finish_response body h a t r h' :
  exec (finish_delegate body h a) t r h' ->
  generic r \/ forall req hd, passed_on r (EDelegate req hd h a).
Proof.
  unfold finish_delegate. intros H.
  assert (Hg : generic unavailable) by (auto with js).
  destruct a as [value|]; [|inversion H; subst; by left].
  destruct value as [| | |st bd]; cbn in H; try (inversion H; subst; by left).
  destruct (status_code st) as [z|] eqn:Es; [|destruct bd; inversion H; subst; by left].
  destruct bd as [v|v|id|]; try (inversion H; subst; by left).
  destruct (Z.ltb_spec MAX_HTTP_BODY_BYTES (Z.of_nat (vlength v))); inversion H; subst; [by left|].
  right. intros req hd. exists req, hd, h, st, v. done.
Qed.

Lemma exec_body_response r limit path ct t resp h :
  exec (body_stage r limit path ct) t resp h -> generic resp \/ Exists (passed_on resp) t.
Proof.
  unfold body_stage. intros H. run_step H. exec_hyp H.
  destruct (has_body r) as [hb|]; [|inversion H; subst; left; auto with js].
  destruct (readBoundedBody _ _ _ _) as [[hd [body|[]]]|];
    try (inversion H; subst; left; solve [auto with js]).
  run_step H. exec_hyp H. destruct (exec_finish_response _ _ _ _ _ _ H) as [|Hp]; [by left|].
  right. apply Exists_cons_tl, Exists_cons_hd, Hp.
Qed.

Lemma admission_inl r limit resp : admission r limit = inl resp -> generic resp.
Proof.
  unfold admission. destruct (routePath r); [|intros [= <-]; auto with js].
  destruct (method r); cbn [mbind result_bind]; [|intros [= <-]; auto with js].
  destruct (negb _); [intros [= <-]; auto with js|].
  destruct (content_type r); cbn [mbind result_bind]; [|intros [= <-]; auto with js].
  destruct (negb _); [intros [= <-]; auto with js|].
  destruct (content_length r) as [cl|]; cbn [mbind result_bind]; [|intros [= <-]; auto with js].
  destruct (declaredBodyLength cl) as [| |n]; [done|intros [= <-]; auto with js|].
  destruct (_ <? _); [intros [= <-]; auto with js|done].
Qed.

Lemma admit_response ctx ver n1 n2 m m' r :
  admit_evidence ctx ver n1 n2 m = (m', Some r) -> generic r.
Proof.
  unfold admit_evidence. destruct (negb _); [intros [= _ <-]; auto with js|].
  destruct (consumeFinancialEvidence _ _ _ _) as [? []]; [done|intros [= _ <-]; auto with js..].
Qed.

(** ** What holds of every run

    A property of runs that holds of the early responses, of the runs of the body
    stage, and is kept by the events before it, holds of every run. *)
Section every_run.
Context {unicode : UnicodeData} (Q : list event -> Response -> heap -> Prop).
Context (Q_early : forall resp, generic resp -> Q [] resp ∅).
Context (Q_cons : forall e t resp h, is_body_event e = false -> Q t resp h -> Q (e :: t) resp h).
Context (Q_body : forall r limit path ct t resp h,
  exec (body_stage r limit path ct) t resp h -> Q t resp h).

Ltac early H := unfold respond in H; inversion H; subst; apply Q_early; auto with js.

Lemma financial_stage_runs hf hv path r limit p ct t resp h :
  exec (financial_stage hf hv path (body_stage r limit p ct)) t resp h -> Q t resp h.
Proof.
  unfold financial_stage. intros H. destruct (_ || _); [early H|].
  run_step H. exec_hyp H. apply Q_cons; [done|].
  destruct a as [ctx|]; [|early H]. destruct (negb _); [early H|].
  run_step H. exec_hyp H. apply Q_cons; [done|].
  destruct a as [ver|]; [|early H].
  destruct (eq_str _ _); [early H|]. destruct (_ || _); [early H|].
  run_step H; (apply Q_cons; [done|]); [by eapply Q_early, admit_response|by eapply Q_body].
Qed.

Lemma every_run o r t resp h : exec (opaqueHandler o r) t resp h -> Q t resp h.
Proof.
  intros H. unfold opaqueHandler in H.
  destruct (read_options o) as [[[[[rate fin] ver] dep] prof]|]; [|early H].
  destruct (negb _); [early H|]. destruct (isReady dep) as [limit|]; [|early H].
  destruct (admission r limit) as [resp'|[path ct]] eqn:Ea.
  { unfold respond in H. inversion H; subst. by eapply Q_early, admission_inl. }
  unfold guarded_stages in H. run_step H. exec_hyp H. apply Q_cons; [done|].
  destruct a as [csrf|]; [|early H]. destruct (negb _); [early H|].
  destruct (negb _); [early H|]. run_step H. exec_hyp H. apply Q_cons; [done|].
  destruct a as [rl|]; [|early H]. destruct (eq_str _ _); [early H|].
  destruct (negb _); [early H|]. cbn [h_profile h_limit] in H.
  destruct (eq_str prof _); [by eapply financial_stage_runs|by eapply Q_body].
Qed.
End every_run.

(** A generic response, or the delegate's passed on. *)
Definition response_ok (t : list event) (r : Response) : Prop :=
  generic r \/ Exists (passed_on r) t.

(** Every response is one of eight generic error responses or the bounded bytes
    of the delegate's [Uint8Array] under one of the ten allowed statuses; every
    response carries the fixed security headers. *)
Theorem responses_are_generic (unicode : UnicodeData) o r t resp h :
  exec (opaqueHandler o r) t resp h ->
  response_ok t resp /\ headers resp = responseHeaders /\ status resp ∈ STATUS_CODES.
Proof.
  intros H. assert (Hok : response_ok t resp).
  { refine (every_run (fun t resp _ => response_ok t resp) _ _ _ o r t resp h H).
    - by left.
    - intros e t' resp' _ _ [|]; [by left|right; by constructor].
    - exact exec_body_response. }
  split; [done|]. destruct Hok as [Hg|Hp].
  - by apply generic_shape.
  - apply Exists_exists in Hp as (e & _ & (req & hd & h' & st & body & _ & Hs & _ & _ & ?)).
    split; [done|]. unfold status_code in Hs. destruct st; try done.
    destruct (num_toZ n) as [z|]; [|done]. case_bool_decide; [|done]. by injection Hs as <-.
Qed.

Lemma responses_are_generic_witness :
  exists t resp h, run sample_run sample_handler = Some (t, resp, h) /\
    headers resp = responseHeaders.
Proof.
  pose proof sample_run_summary as Hsum.
  destruct (run sample_run sample_handler) as [[[t resp] h]|] eqn:E; [|discriminate].
  exists t, resp, h. split; [reflexivity|].
  exact (proj1 (proj2 (@responses_are_generic ascii_unicode sample_options sample_request t resp h
    (run_exec _ _ _ _ _ E)))).
Defined.

(** ** Buffers at the end of a run *)

Definition delegation_cleared (h : heap) (e : event) : Prop :=
  match e with
  | EDelegate req _ h1 answer =>
      zeroed h (whole h (req_body req)) /\
      forall st c, answer = Ok (DObject st c) -> chunk_zeroed h c
  | _ => True
  end.

(** C10. When a run that called the delegate ends, the buffer the request body was
    copied into and the body the delegate answered with are both all zeros, on the
    failure paths too. *)
Theorem buffers_cleared (unicode : UnicodeData) o r t resp h :
  exec (opaqueHandler o r) t resp h -> Forall (delegation_cleared h) t.
Proof.
  refine (every_run (fun t _ h => Forall (delegation_cleared h) t) _ _ _ o r t resp h).
  - constructor.
  - intros e t' resp' h' He H. constructor; [by destruct e|done].
  - clear. intros r limit path ct t resp h H. unfold body_stage in H. run_step H. exec_hyp H.
    constructor; [exact I|].
    destruct (has_body r); [|by inversion H; subst].
    destruct (readBoundedBody _ _ _ _) as [[hd [body|[]]]|]; try (by inversion H; subst).
    run_step H. exec_hyp H. pose proof (exec_finish_delegate _ _ _ _ _ _ H) as ->.
    constructor; [|constructor]. exact (finish_delegate_clears _ _ _ _ _ _ H).
Qed.

Lemma buffers_cleared_witness :
  exists t resp h, run sample_run sample_handler = Some (t, resp, h) /\
    existsb is_body_event t = true /\ Forall (delegation_cleared h) t.
Proof.
  pose proof sample_run_summary as Hsum.
  destruct (run sample_run sample_handler) as [[[t resp] h]|] eqn:E; [|discriminate].
  injection Hsum as Hb _. exists t, resp, h. split; [reflexivity|]. split; [exact Hb|].
  exact (@buffers_cleared ascii_unicode sample_options sample_request t resp h
    (run_exec _ _ _ _ _ E)).
Defined.

(** ** The declared length *)

Definition digit (c : Z) : Prop := 48 <= c <= 57.

Lemma decimal_digits s : re_match DIGITS s = true <-> s <> [] /\ Forall digit s.
Proof.
  unfold DIGITS. rewrite re_match_correct, matches_plus_cls. f_equiv. apply Forall_proper; [|done].
  intros c. unfold digit, in_cls. cbn. lia.
Qed.
Lemma decimal_value_nonneg s : Forall digit s -> 0 <= decimal_value s.
Proof.
  intros H. unfold decimal_value. apply foldl_inv; [|lia].
  rewrite Forall_forall in H. intros a c Hc%H Ha. unfold digit in Hc. lia.
Qed.

(** The declared length, which the code reads through a binary64 [Number], is
    exact: it is accepted with value [n] exactly when the trimmed header is a
    non-empty run of digits whose decimal value is the safe integer [n]; anything
    else that is present is invalid. *)
Theorem declaredBodyLength_exact v n :
  (declaredBodyLength (Some v) = Declared n <->
    trim v <> [] /\ Forall digit (trim v) /\ decimal_value (trim v) = n /\ n <= MAX_SAFE_INTEGER) /\
  (declaredBodyLength (Some v) <> Undeclared) /\ declaredBodyLength None = Undeclared.
Proof.
  unfold declaredBodyLength. set (s := trim v).
  destruct (re_match DIGITS s) eqn:Ed; cbn [negb].
  2: { split; [|done]. split; [done|]. intros (? & ? & _).
       assert (re_match DIGITS s = true) by by apply decimal_digits. congruence. }
  apply decimal_digits in Ed as [Hne Hd]. pose proof (decimal_value_nonneg _ Hd) as H0.
  set (z := decimal_value s) in *. unfold MAX_SAFE_INTEGER.
  destruct (Z.le_gt_cases (2 ^ 53) z) as [Hz|Hz].
  - rewrite round53_unsafe by done. split; [|done]. split; [done|]. lia.
  - assert (Hr : num_toZ (round53 z 0) = Some z) by (apply round53_exact; lia).
    assert (is_safe_integer (round53 z 0) = true) as ->
      by (apply is_safe_integer_spec; exists z; unfold MAX_SAFE_INTEGER; split; [done|lia]).
    rewrite Hr. split; [|done]. split; [intros [= <-]|intros (_ & _ & -> & _)]; [|done].
    split_and!; [done..|lia].
Qed.
