(* ===== verification/WebEncoding.v ===== *)
(** * packages/web/src/index.ts: errors and base64url

    The error type of the WebAuthn adapter and its two binary conversions.  The
    decoder's accumulator is a 32-bit integer that wraps, as [<<] does. *)

From S2P Require Import Prelude JsNumber Regex JsValue.
Open Scope js_scope.

(** ** Constants *)

Definition MAX_WEBAUTHN_BINARY_BYTES : Z := 8 * 1024.
Definition BASE64URL_ALPHABET : jsstr :=
  js "ABCDEFGHIJKLMNOPQRSTUVWXYZabcdefghijklmnopqrstuvwxyz0123456789-_".
Definition BASE64URL_PATTERN : re := RStar (RCls [(65, 90); (97, 122); (48, 57); (95, 95); (45, 45)]).

(** ** Errors *)

Inductive WebAuthnClientErrorCode :=
  | insecure_context | unsupported | invalid_options | invalid_mode | no_credential
  | invalid_credential | credential_api_failure | operation_in_progress | aborted
  | fallback_not_acknowledged.
#[export] Instance WebAuthnClientErrorCode_eq_dec : EqDecision WebAuthnClientErrorCode.
Proof. solve_decision. Defined.

(** What a [catch] receives: the package's own error, an exception of the
    language, or a value thrown by the host with the outcome of reading its
    [name] property. *)
Inductive web_error :=
  | ClientError (code : WebAuthnClientErrorCode) (message : jsstr)
  | LanguageError (e : jserr)
  | HostThrown (v : val) (name : result jserr val).
Abbreviation web A := (result web_error A).

Definition client {A} (code : WebAuthnClientErrorCode) (message : jsstr) : web A :=
  Throw (ClientError code message).
(** A language operation inside the adapter. *)
Definition lift {A} (m : result jserr A) : web A :=
  match m with Ok a => Ok a | Throw e => Throw (LanguageError e) end.

Definition isAbortError (error : web_error) : bool :=
  match error with
  | HostThrown (VObj _ | VArr _ | VBuf _) (Ok name) => eq_str name (js "AbortError")
  | _ => false
  end.
Definition isWebAuthnClientError (error : web_error) : bool :=
  match error with ClientError _ _ => true | _ => false end.
Definition normalizeWebAuthnError (error : web_error) (code : WebAuthnClientErrorCode)
    (message : jsstr) : web_error :=
  if isWebAuthnClientError error then error
  else if isAbortError error
  then ClientError aborted (js "WebAuthn credential operation was aborted")
  else ClientError code message.

(** ** Encoding *)

(** An [ArrayBuffer], a view on one, or something else. *)
Inductive buffer_source :=
  | BArrayBuffer (bytes : list Z)
  | BView (bytes : list Z)
  | BOther.
Definition bytesOf (value : buffer_source) : web (list Z) :=
  match value with
  | BArrayBuffer bytes | BView bytes => Ok bytes
  | BOther => client invalid_credential (js "Binary WebAuthn data is invalid")
  end.

(** [BASE64URL_ALPHABET[i]] appended to a string. *)
Definition letter (i : Z) : jsstr :=
  match BASE64URL_ALPHABET !! Z.to_nat i with Some c => [c] | None => js "undefined" end.

Fixpoint encode_loop (bytes : list Z) (encoded : jsstr) : jsstr :=
  match bytes with
  | [] => encoded
  | [first] =>
      encoded ++ letter (Z.shiftr first 2)
        ++ letter (Z.lor (Z.shiftl (Z.land first 0x03) 4) (Z.shiftr 0 4))
  | [first; second] =>
      encoded ++ letter (Z.shiftr first 2)
        ++ letter (Z.lor (Z.shiftl (Z.land first 0x03) 4) (Z.shiftr second 4))
        ++ letter (Z.lor (Z.shiftl (Z.land second 0x0f) 2) (Z.shiftr 0 6))
  | first :: second :: third :: rest =>
      encode_loop rest
        (encoded ++ letter (Z.shiftr first 2)
          ++ letter (Z.lor (Z.shiftl (Z.land first 0x03) 4) (Z.shiftr second 4))
          ++ letter (Z.lor (Z.shiftl (Z.land second 0x0f) 2) (Z.shiftr third 6))
          ++ letter (Z.land third 0x3f))
  end.
Definition encodeBase64Url (value : buffer_source) : web jsstr :=
  bytes ← bytesOf value;
  if MAX_WEBAUTHN_BINARY_BYTES <? Z.of_nat (length bytes)
  then client invalid_credential (js "WebAuthn binary data is too large")
  else Ok (encode_loop bytes []).

(** ** Decoding *)

(** ToInt32: the wrap-around of the bitwise operators. *)
Definition to_int32 (z : Z) : Z := (z + 2 ^ 31) mod 2 ^ 32 - 2 ^ 31.

Definition bad_base64 {A} : web A :=
  client invalid_options (js "Base64url WebAuthn data is invalid").

(** [BASE64URL_ALPHABET.indexOf(character)]; -1 is [None]. *)
Definition indexOf (c : Z) : option Z :=
  Z.of_nat <$> (fst <$> list_find (fun d => d = c) BASE64URL_ALPHABET).

Record decoder := { accumulator : Z; bits : Z; output : list Z; lastDigit : Z }.

(** One iteration; [size] is [output.length] in the source, whose array is
    filled from the left. *)
Definition decode_step (size : nat) (st : decoder) (character : Z) : web decoder :=
  match indexOf character with
  | None => bad_base64
  | Some digit =>
      let acc := Z.lor (to_int32 (Z.shiftl (accumulator st) 6)) digit in
      let bits := bits st + 6 in
      if 8 <=? bits then
        let bits := bits - 8 in
        let byte := Z.land (Z.shiftr acc bits) 0xff in
        if (size <=? length (output st))%nat then bad_base64 else
        Ok {| accumulator := acc; bits := bits; output := output st ++ [byte]; lastDigit := digit |}
      else Ok {| accumulator := acc; bits := bits; output := output st; lastDigit := digit |}
  end.
Fixpoint decode_loop (size : nat) (st : decoder) (s : jsstr) : web decoder :=
  match s with
  | [] => Ok st
  | c :: s' => st' ← decode_step size st c; decode_loop size st' s'
  end.

(** The integer between 0 and the limit that [maxBytes] is, if it is one. *)
Definition max_bytes (maxBytes : val) : option Z :=
  match maxBytes with
  | VNum n =>
      if is_safe_integer n then
        match num_toZ n with
        | Some z => if (z <? 0) || (MAX_WEBAUTHN_BINARY_BYTES <? z) then None else Some z
        | None => None
        end
      else None
  | _ => None
  end.

(** [Math.ceil((maxBytes * 8) / 6)]: the division of integers this small rounds
    to the same side of every integer as the exact quotient. *)
Definition maxEncodedLength (maxBytes : Z) : Z := (maxBytes * 8 + 5) / 6.

Definition decodeBase64Url (value : val) (maxBytes : val) : web (list Z) :=
  match max_bytes maxBytes, value with
  | Some maxBytes, VStr s =>
      if (maxEncodedLength maxBytes <? Z.of_nat (length s)) || negb (re_match BASE64URL_PATTERN s)
      then bad_base64 else
      if Z.of_nat (length s) mod 4 =? 1 then bad_base64 else
      let size := Z.to_nat (Z.of_nat (length s) * 6 / 8) in
      st ← decode_loop size {| accumulator := 0; bits := 0; output := []; lastDigit := 0 |} s;
      if (0 <? bits st) && negb (Z.land (lastDigit st) (Z.shiftl 1 (bits st) - 1) =? 0)
      then client invalid_options (js "Base64url WebAuthn data is not canonical") else
      if maxBytes <? Z.of_nat size
      then client invalid_options (js "WebAuthn binary data is too large")
      else Ok (resize size 0 (output st))
  | _, _ => bad_base64
  end.
