(* ===== verification/WebEncodingProps.v ===== *)
(** * The base64url conversions are inverse bijections

    The encoder and the decoder are first read off as functions on digits in
    [0, 64) and bytes in [0, 256), without bit operations or 32-bit wrap-around. *)

From S2P Require Import Prelude JsNumber Regex JsValue WebEncoding.
Open Scope js_scope.

(** ** Bit operations *)

Lemma lor_low x y n : 0 <= n -> 0 <= y < 2 ^ n -> Z.lor (x * 2 ^ n) y = x * 2 ^ n + y.
Proof.
  intros Hn Hy. symmetry. apply Z.add_nocarry_lor. apply Z.bits_inj'. intros k Hk.
  rewrite Z.land_spec, Z.bits_0. destruct (Z.lt_ge_cases k n).
  - by rewrite Z.mul_pow2_bits_low.
  - enough (Z.testbit y k = false) as -> by apply andb_false_r.
    destruct (decide (y = 0)) as [->|]; [apply Z.bits_0|]. apply Z.bits_above_log2; [lia|].
    assert (Z.log2 y < n); [|lia]. apply Z.log2_lt_pow2; lia.
Qed.
Lemma lor_shiftl x y n : 0 <= n -> 0 <= y < 2 ^ n -> Z.lor (Z.shiftl x n) y = x * 2 ^ n + y.
Proof. intros. rewrite Z.shiftl_mul_pow2 by done. by apply lor_low. Qed.

(** The wrapped accumulator keeps the low bits the decoder still needs. *)
Lemma accumulate acc d : 0 <= d < 64 ->
  exists k, Z.lor (to_int32 (Z.shiftl acc 6)) d = acc * 64 + d - k * 2 ^ 32.
Proof.
  intros Hd. unfold to_int32. rewrite Z.shiftl_mul_pow2 by done. change (2 ^ 6) with 64.
  exists ((acc * 64 + 2 ^ 31) / 2 ^ 32). set (q := (acc * 64 + 2 ^ 31) / 2 ^ 32).
  rewrite Z.mod_eq by done. fold q.
  replace (acc * 64 + 2 ^ 31 - 2 ^ 32 * q - 2 ^ 31) with ((acc - 2 ^ 26 * q) * 2 ^ 6) by lia.
  rewrite lor_low by (change (2 ^ 6) with 64; lia). lia.
Qed.

(** ** Digits and letters *)

Definition is_digit (d : Z) : Prop := 0 <= d < 64.
Definition is_byte (b : Z) : Prop := 0 <= b < 256.
Definition sym (d : Z) : Z := default 0 (BASE64URL_ALPHABET !! Z.to_nat d).

Definition in_pattern (c : Z) : bool := in_cls [(65, 90); (97, 122); (48, 57); (95, 95); (45, 45)] c.

Definition sym_ok (d : Z) : bool :=
  bool_decide (letter d = [sym d]) && bool_decide (indexOf (sym d) = Some d) && in_pattern (sym d).
Lemma sym_letter d : is_digit d ->
  letter d = [sym d] /\ indexOf (sym d) = Some d /\ in_pattern (sym d) = true.
Proof.
  intros Hd. assert (H : sym_ok d = true) by (apply (range_check sym_ok 0 64); [vm_compute; done|exact Hd]).
  unfold sym_ok in H. rewrite !andb_true_iff, !bool_decide_eq_true in H. by destruct H as [[? ?] ?].
Qed.
Definition unit_ok (c : Z) : bool :=
  implb (in_pattern c)
    match indexOf c with Some d => (0 <=? d) && (d <? 64) && (c =? sym d) | None => false end.
Lemma pattern_sym c : in_pattern c = true -> exists d, is_digit d /\ c = sym d.
Proof.
  intros Hc. assert (H : unit_ok c = true).
  { apply (range_check unit_ok 0 128); [vm_compute; done|]. unfold in_pattern in Hc. cbn in Hc. lia. }
  unfold unit_ok in H. rewrite Hc in H. cbn [implb] in H. destruct (indexOf c) as [d|]; [|done].
  exists d. unfold is_digit. lia.
Qed.
Lemma pattern_spec s : re_match BASE64URL_PATTERN s = true <-> exists ds, Forall is_digit ds /\ s = map sym ds.
Proof.
  unfold BASE64URL_PATTERN. rewrite re_match_correct, matches_star_cls. split.
  - induction s as [|c s IH]; [by exists []|]. intros [Hc (ds & Hds & ->)%IH]%Forall_cons.
    apply pattern_sym in Hc as (d & ? & ->). exists (d :: ds). by split; [constructor|].
  - intros (ds & Hds & ->). apply Forall_map. eapply Forall_impl; [exact Hds|].
    intros d Hd. by apply sym_letter.
Qed.

(** ** The encoder on digits *)

Fixpoint enc_digits (bs : list Z) : list Z :=
  match bs with
  | [] => []
  | [a] => [a / 4; a mod 4 * 16]
  | [a; b] => [a / 4; a mod 4 * 16 + b / 16; b mod 16 * 4]
  | a :: b :: c :: bs' => a / 4 :: a mod 4 * 16 + b / 16 :: b mod 16 * 4 + c / 64 :: c mod 64 :: enc_digits bs'
  end.
Fixpoint dec_digits (ds : list Z) : option (list Z) :=
  match ds with
  | [] => Some []
  | [x] => None
  | [x; y] => if y mod 16 =? 0 then Some [x * 4 + y / 16] else None
  | [x; y; z] => if z mod 4 =? 0 then Some [x * 4 + y / 16; y mod 16 * 16 + z / 4] else None
  | x :: y :: z :: w :: ds' =>
      (fun r => x * 4 + y / 16 :: y mod 16 * 16 + z / 4 :: z mod 4 * 64 + w :: r) <$> dec_digits ds'
  end.

(** Induction by groups of three and of four. *)
Lemma by_three (P : list Z -> Prop) :
  P [] -> (forall a, P [a]) -> (forall a b, P [a; b]) ->
  (forall a b c l, P l -> P (a :: b :: c :: l)) -> forall l, P l.
Proof.
  intros H0 H1 H2 H3 l. enough (P l /\ (forall a, P (a :: l)) /\ (forall a b, P (a :: b :: l))) by tauto.
  induction l as [|x l (? & ? & ?)]; [done|]. split_and!; [auto|auto|]. intros a b. auto.
Qed.
Lemma by_four (P : list Z -> Prop) :
  P [] -> (forall a, P [a]) -> (forall a b, P [a; b]) -> (forall a b c, P [a; b; c]) ->
  (forall a b c d l, P l -> P (a :: b :: c :: d :: l)) -> forall l, P l.
Proof.
  intros H0 H1 H2 H3 H4 l.
  enough (P l /\ (forall a, P (a :: l)) /\ (forall a b, P (a :: b :: l)) /\ (forall a b c, P (a :: b :: c :: l))) by tauto.
  induction l as [|x l (? & ? & ? & ?)]; [done|]. split_and!; auto.
Qed.

Ltac nat_div :=
  repeat match goal with
  | |- context [(?a / ?b)%nat] =>
      pose proof (Nat.div_mod_eq a b); pose proof (Nat.mod_upper_bound a b ltac:(lia));
      generalize dependent (a / b)%nat; intros
  end; lia.
Ltac byte_arith := unfold is_byte, is_digit in *; Z.to_euclidean_division_equations; lia.

Lemma enc_digits_range bs : Forall is_byte bs -> Forall is_digit (enc_digits bs).
Proof.
  induction bs as [| | |a b c bs IH] using by_three; cbn; rewrite ?Forall_cons, ?Forall_nil;
    intros; destruct_and?; split_and?; try done; try (by apply IH); byte_arith.
Qed.
Lemma enc_digits_length bs : (length (enc_digits bs) = (length bs * 4 + 2) / 3)%nat.
Proof.
  induction bs as [| | |a b c bs IH] using by_three; cbn [enc_digits length]; [done..|].
  rewrite IH. nat_div.
Qed.

(** The two directions on digits. *)
Lemma dec_enc bs : Forall is_byte bs -> dec_digits (enc_digits bs) = Some bs.
Proof.
  induction bs as [| | |a b c bs IH] using by_three; cbn [enc_digits dec_digits];
    rewrite ?Forall_cons, ?Forall_nil; intros; destruct_and?; [done|..].
  - replace (a mod 4 * 16 mod 16) with 0 by byte_arith. cbn. repeat f_equal; byte_arith.
  - replace (b mod 16 * 4 mod 4) with 0 by byte_arith. cbn. repeat f_equal; byte_arith.
  - rewrite IH by done. cbn. repeat f_equal; byte_arith.
Qed.
Lemma enc_dec ds bs : Forall is_digit ds -> dec_digits ds = Some bs ->
  Forall is_byte bs /\ enc_digits bs = ds /\ (length bs = length ds * 6 / 8)%nat.
Proof.
  revert bs; induction ds as [| | | |x y z w ds IH] using by_four; intros bs; cbn [dec_digits];
    rewrite ?Forall_cons, ?Forall_nil; intros; destruct_and?; simplify_eq; [done| | |].
  - destruct (Z.eqb_spec (b mod 16) 0); simplify_eq.
    rewrite Forall_singleton. split_and!; [byte_arith| |done]. cbn. repeat f_equal; byte_arith.
  - destruct (Z.eqb_spec (c mod 4) 0); simplify_eq. rewrite !Forall_cons.
    split_and!; [byte_arith|byte_arith|done| |done]. cbn. repeat f_equal; byte_arith.
  - destruct (dec_digits ds) as [bs'|]; cbn [fmap option_fmap option_map] in *; simplify_eq.
    destruct (IH bs') as (Hb & He & Hl); [done|done|].
    rewrite !Forall_cons. split_and!; [byte_arith..|done| |].
    + cbn [enc_digits]. rewrite He. repeat f_equal; byte_arith.
    + cbn [length]. rewrite Hl. nat_div.
Qed.

(** ** The loops of the source are the digit functions *)

Lemma letter_first a : is_byte a -> letter (Z.shiftr a 2) = [sym (a / 4)].
Proof.
  intros Ha. rewrite Z.shiftr_div_pow2 by done. change (2 ^ 2) with 4. apply sym_letter. byte_arith.
Qed.
(** Two partial bytes packed with a shift by [n] and one by [m]. *)
Lemma letter_packed x y n m :
  0 <= n -> 0 <= m -> 0 <= y / 2 ^ m < 2 ^ n -> is_digit (x * 2 ^ n + y / 2 ^ m) ->
  letter (Z.lor (Z.shiftl x n) (Z.shiftr y m)) = [sym (x * 2 ^ n + y / 2 ^ m)].
Proof.
  intros Hn Hm Hy Hd. rewrite Z.shiftr_div_pow2, lor_shiftl by done. by apply sym_letter.
Qed.
Lemma letter_second a b : is_byte a -> is_byte b ->
  letter (Z.lor (Z.shiftl (Z.land a 0x03) 4) (Z.shiftr b 4)) = [sym (a mod 4 * 16 + b / 16)].
Proof.
  intros. change 0x03 with (Z.ones 2). rewrite Z.land_ones by done. apply letter_packed; try done.
  all: change (2 ^ 4) with 16; change (2 ^ 2) with 4; byte_arith.
Qed.
Lemma letter_third b c : is_byte b -> is_byte c ->
  letter (Z.lor (Z.shiftl (Z.land b 0x0f) 2) (Z.shiftr c 6)) = [sym (b mod 16 * 4 + c / 64)].
Proof.
  intros. change 0x0f with (Z.ones 4). rewrite Z.land_ones by done. apply letter_packed; try done.
  all: change (2 ^ 4) with 16; change (2 ^ 2) with 4; change (2 ^ 6) with 64; byte_arith.
Qed.
Lemma letter_fourth c : is_byte c -> letter (Z.land c 0x3f) = [sym (c mod 64)].
Proof.
  intros. change 0x3f with (Z.ones 6). rewrite Z.land_ones by done. apply sym_letter. byte_arith.
Qed.

Lemma encode_loop_digits bs enc :
  Forall is_byte bs -> encode_loop bs enc = enc ++ map sym (enc_digits bs).
Proof.
  assert (is_byte 0) by (unfold is_byte; lia).
  revert enc; induction bs as [|a|a b|a b c bs IH] using by_three; intros enc; cbn [encode_loop enc_digits];
    rewrite ?Forall_cons, ?Forall_nil; intros Hb; destruct_and?; [by rewrite app_nil_r|..].
  - rewrite letter_first, letter_second by done. by rewrite Z.add_0_r.
  - rewrite letter_first, letter_second, letter_third by done. by rewrite Z.add_0_r.
  - rewrite letter_first, letter_second, letter_third, letter_fourth, IH by done.
    by rewrite <- !app_assoc.
Qed.

(** One step of the decoder: the residual bits are [accumulator mod 2 ^ bits]. *)
Definition residual (st : decoder) : Z := accumulator st mod 2 ^ bits st.

Lemma accumulate_mod acc n d k :
  is_digit d -> 0 <= n <= 6 ->
  (acc * 64 + d - k * 2 ^ 32) mod 2 ^ (n + 6) = acc mod 2 ^ n * 64 + d.
Proof.
  unfold is_digit. intros Hd Hn. assert (0 < 2 ^ n) by (apply Z.pow_pos_nonneg; lia).
  rewrite Z.pow_add_r by lia. change (2 ^ 6) with 64.
  replace (2 ^ 32) with (2 ^ (26 - n) * (2 ^ n * 64))
    by (change 64 with (2 ^ 6); rewrite <- !Z.pow_add_r by lia; f_equal; lia).
  pose proof (Z.div_mod acc (2 ^ n) ltac:(lia)). pose proof (Z.mod_pos_bound acc (2 ^ n) ltac:(lia)).
  symmetry. apply (Z.mod_unique_pos _ _ (acc / 2 ^ n - k * 2 ^ (26 - n))); [lia|].
  set (q := acc / 2 ^ n) in *. set (r := acc mod 2 ^ n) in *.
  replace acc with (2 ^ n * q + r) by lia. ring.
Qed.
Lemma div_mod_mul a b c : 0 < b -> 0 < c -> (a / b) mod c = a mod (b * c) / b.
Proof.
  intros. rewrite Z.rem_mul_r by lia. rewrite Z.mul_comm, Z.div_add by lia.
  rewrite (Z.div_small (a mod b)); [lia|]. apply Z.mod_pos_bound. lia.
Qed.

(** The decoder with [n] residual bits of value [r]. *)
Definition at_bits (st : decoder) (n r : Z) (out : list Z) : Prop :=
  bits st = n /\ accumulator st mod 2 ^ n = r /\ output st = out.

Lemma decode_step_sym size st n r out d :
  is_digit d -> 0 <= n <= 6 -> at_bits st n r out -> (2 <= n -> (length out < size)%nat) ->
  exists st', decode_step size st (sym d) = Ok st' /\ lastDigit st' = d /\
    if 2 <=? n
    then at_bits st' (n - 2) ((r * 64 + d) mod 2 ^ (n - 2)) (out ++ [(r * 64 + d) / 2 ^ (n - 2)])
    else at_bits st' (n + 6) (r * 64 + d) out.
Proof.
  intros Hd Hbits (Hn & Hr & Ho) Hsize. unfold decode_step, at_bits.
  destruct (sym_letter d Hd) as (_ & -> & _).
  destruct (accumulate (accumulator st) d Hd) as [k ->]. rewrite Hn, Ho.
  set (A := accumulator st * 64 + d - k * 2 ^ 32).
  pose proof (accumulate_mod (accumulator st) n d k Hd Hbits : A mod 2 ^ (n + 6) = _) as Hm.
  rewrite Hr in Hm. destruct (Z.leb_spec 8 (n + 6)), (Z.leb_spec 2 n); try lia.
  - rewrite (proj2 (Nat.leb_gt _ _)) by auto.
    eexists. split; [reflexivity|]. cbn [bits output accumulator lastDigit].
    replace (n + 6 - 8) with (n - 2) by lia. rewrite <- Hm.
    replace (n + 6) with (n - 2 + 8) by lia. rewrite Z.pow_add_r by lia. split_and!; [done|done| |].
    + rewrite Z.mod_mod_divide by apply Z.divide_factor_l. done.
    + do 2 f_equal. rewrite Z.shiftr_div_pow2 by lia. change 0xff with (Z.ones 8).
      by rewrite Z.land_ones, div_mod_mul by (try apply Z.pow_pos_nonneg; lia).
  - eexists. split; [reflexivity|]. cbn [bits output accumulator lastDigit]. done.
Qed.

(** The four digits of a group. *)
Lemma decode_first size st out d : is_digit d -> at_bits st 0 0 out ->
  exists st', decode_step size st (sym d) = Ok st' /\ lastDigit st' = d /\ at_bits st' 6 d out.
Proof. intros Hd Hst. apply (decode_step_sym size st 0 0 out d Hd ltac:(lia) Hst). lia. Qed.
Lemma decode_second size st r out d : is_digit d -> at_bits st 6 r out -> (length out < size)%nat ->
  exists st', decode_step size st (sym d) = Ok st' /\ lastDigit st' = d /\
    at_bits st' 4 (d mod 16) (out ++ [r * 4 + d / 16]).
Proof.
  intros Hd Hst Hs. destruct (decode_step_sym size st 6 r out d Hd ltac:(lia) Hst ltac:(done))
    as (st' & ? & ? & H). exists st'. split_and!; [done..|].
  replace (d mod 16) with ((r * 64 + d) mod 2 ^ (6 - 2)) by (change (2 ^ (6 - 2)) with 16; byte_arith).
  replace (r * 4 + d / 16) with ((r * 64 + d) / 2 ^ (6 - 2)) by (change (2 ^ (6 - 2)) with 16; byte_arith).
  exact H.
Qed.
Lemma decode_third size st r out d : is_digit d -> at_bits st 4 r out -> (length out < size)%nat ->
  exists st', decode_step size st (sym d) = Ok st' /\ lastDigit st' = d /\
    at_bits st' 2 (d mod 4) (out ++ [r * 16 + d / 4]).
Proof.
  intros Hd Hst Hs. destruct (decode_step_sym size st 4 r out d Hd ltac:(lia) Hst ltac:(done))
    as (st' & ? & ? & H). exists st'. split_and!; [done..|].
  replace (d mod 4) with ((r * 64 + d) mod 2 ^ (4 - 2)) by (change (2 ^ (4 - 2)) with 4; byte_arith).
  replace (r * 16 + d / 4) with ((r * 64 + d) / 2 ^ (4 - 2)) by (change (2 ^ (4 - 2)) with 4; byte_arith).
  exact H.
Qed.
Lemma decode_fourth size st r out d : is_digit d -> at_bits st 2 r out -> (length out < size)%nat ->
  exists st', decode_step size st (sym d) = Ok st' /\ lastDigit st' = d /\
    at_bits st' 0 0 (out ++ [r * 64 + d]).
Proof.
  intros Hd Hst Hs. destruct (decode_step_sym size st 2 r out d Hd ltac:(lia) Hst ltac:(done))
    as (st' & ? & ? & H). exists st'. split_and!; [done..|].
  change (2 - 2) with 0 in H. change (2 ^ 0) with 1 in H. by rewrite Z.mod_1_r, Z.div_1_r in H.
Qed.

(** The canonicity test of the source on the final state. *)
Definition residue_set (st : decoder) : bool :=
  (0 <? bits st) && negb (Z.land (lastDigit st) (Z.shiftl 1 (bits st) - 1) =? 0).

Lemma residue_at st n r out d k : at_bits st n r out -> lastDigit st = d -> 0 < n ->
  Z.shiftl 1 n - 1 = Z.ones k -> 0 <= k -> residue_set st = negb (d mod 2 ^ k =? 0).
Proof.
  intros (Hn & _ & _) Hd Hpos Hk Hk0. unfold residue_set. rewrite Hn, Hd, Hk, Z.land_ones by done.
  by destruct (Z.ltb_spec 0 n); [|lia].
Qed.

Lemma decode_two size st out x y rest :
  is_digit x -> is_digit y -> at_bits st 0 0 out -> (length out < size)%nat ->
  exists st', decode_loop size st (map sym (x :: y :: rest)) = decode_loop size st' (map sym rest) /\
    lastDigit st' = y /\ at_bits st' 4 (y mod 16) (out ++ [x * 4 + y / 16]).
Proof.
  intros Hx Hy Hst Hs. cbn [map decode_loop].
  destruct (decode_first size st out x) as (s1 & -> & _ & H1); [done..|].
  destruct (decode_second size s1 x out y) as (s2 & E2 & Hl & H2); [done..|].
  exists s2. cbn [mbind result_bind]. by rewrite E2.
Qed.
Lemma decode_three size st out x y z rest :
  is_digit x -> is_digit y -> is_digit z -> at_bits st 0 0 out -> (length out + 2 <= size)%nat ->
  exists st', decode_loop size st (map sym (x :: y :: z :: rest)) = decode_loop size st' (map sym rest) /\
    lastDigit st' = z /\ at_bits st' 2 (z mod 4) (out ++ [x * 4 + y / 16; y mod 16 * 16 + z / 4]).
Proof.
  intros Hx Hy Hz Hst Hs.
  destruct (decode_two size st out x y (z :: rest)) as (s2 & -> & _ & H2); [done|done|done|lia|].
  destruct (decode_third size s2 _ _ z Hz H2) as (s3 & E3 & Hl & H3); [rewrite length_app; cbn; lia|].
  exists s3. cbn [map decode_loop]. rewrite E3. by rewrite <- app_assoc in H3.
Qed.
Lemma decode_four size st out x y z w rest :
  is_digit x -> is_digit y -> is_digit z -> is_digit w -> at_bits st 0 0 out ->
  (length out + 3 <= size)%nat ->
  exists st', decode_loop size st (map sym (x :: y :: z :: w :: rest)) = decode_loop size st' (map sym rest) /\
    at_bits st' 0 0 (out ++ [x * 4 + y / 16; y mod 16 * 16 + z / 4; z mod 4 * 64 + w]).
Proof.
  intros Hx Hy Hz Hw Hst Hs.
  destruct (decode_three size st out x y z (w :: rest)) as (s3 & -> & _ & H3); [done..|lia|].
  destruct (decode_fourth size s3 _ _ w Hw H3) as (s4 & E4 & _ & H4); [rewrite length_app; cbn; lia|].
  exists s4. cbn [map decode_loop]. rewrite E4. by rewrite <- app_assoc in H4.
Qed.

Lemma decode_loop_digits size st out ds :
  Forall is_digit ds -> (length ds mod 4)%nat <> 1%nat -> at_bits st 0 0 out ->
  (length out + length ds * 6 / 8 <= size)%nat ->
  exists st', decode_loop size st (map sym ds) = Ok st' /\
    (length (output st') = length out + length ds * 6 / 8)%nat /\
    match dec_digits ds with
    | Some bs => residue_set st' = false /\ output st' = out ++ bs
    | None => residue_set st' = true
    end.
Proof.
  revert st out; induction ds as [|x|x y|x y z|x y z w ds IH] using by_four; intros st out;
    rewrite ?Forall_cons; intros Hds Hlen Hst Hsize; destruct_and?.
  - exists st. destruct Hst as (Hb & _ & Ho). cbn [dec_digits]. rewrite Ho, app_nil_r.
    unfold residue_set. rewrite Hb. split_and!; [done|cbn; lia|done|done].
  - done.
  - change (length [x; y] * 6 / 8)%nat with 1%nat in *.
    destruct (decode_two size st out x y []) as (s2 & -> & Hl & Hs2); [done|done|done|lia|].
    exists s2. split; [done|]. rewrite (residue_at _ _ _ _ _ 4 Hs2 Hl) by done.
    destruct Hs2 as (_ & _ & ->). rewrite length_app. split; [done|]. cbn [dec_digits].
    change (2 ^ 4) with 16. by destruct (y mod 16 =? 0).
  - change (length [x; y; z] * 6 / 8)%nat with 2%nat in *.
    destruct (decode_three size st out x y z []) as (s3 & -> & Hl & Hs3); [done..|].
    exists s3. split; [done|]. rewrite (residue_at _ _ _ _ _ 2 Hs3 Hl) by done.
    destruct Hs3 as (_ & _ & ->). rewrite length_app. split; [done|]. cbn [dec_digits].
    change (2 ^ 2) with 4. by destruct (z mod 4 =? 0).
  - assert (Hq : (length (x :: y :: z :: w :: ds) * 6 / 8 = 3 + length ds * 6 / 8)%nat)
      by (cbn [length]; nat_div).
    rewrite Hq in *.
    destruct (decode_four size st out x y z w ds) as (s4 & -> & Hs4); [done..|lia|].
    destruct (IH s4 (out ++ [x * 4 + y / 16; y mod 16 * 16 + z / 4; z mod 4 * 64 + w]))
      as (st' & -> & Hl & Hd); [done| |exact Hs4|rewrite length_app; cbn [length]; lia|].
    { intros Hm. apply Hlen. cbn [length]. replace (S (S (S (S (length ds))))) with (length ds + 1 * 4)%nat by lia.
      by rewrite Nat.Div0.mod_add. }
    exists st'. split; [done|]. rewrite Hl, length_app. split; [cbn [length]; lia|].
    cbn [dec_digits]. destruct (dec_digits ds) as [bs|]; [|done]. cbn.
    destruct Hd as [? ->]. split; [done|]. by rewrite <- app_assoc.
Qed.

Lemma size_nat n : Z.to_nat (Z.of_nat n * 6 / 8) = (n * 6 / 8)%nat.
Proof.
  change 6 with (Z.of_nat 6). change 8 with (Z.of_nat 8).
  by rewrite <- Nat2Z.inj_mul, <- Nat2Z.inj_div, Nat2Z.id.
Qed.
Lemma mod4_nat n : (Z.of_nat n mod 4 =? 1) = bool_decide (n mod 4 = 1)%nat.
Proof.
  change 4 with (Z.of_nat 4). rewrite <- Nat2Z.inj_mod. case_bool_decide; lia.
Qed.

(** The decoder on the letters of a digit sequence. *)
Lemma decode_digits ds m :
  Forall is_digit ds -> 0 <= m <= MAX_WEBAUTHN_BINARY_BYTES ->
  forall bs, decodeBase64Url (VStr (map sym ds)) (vnum m) = Ok bs <->
    (length ds mod 4 <> 1)%nat /\ Z.of_nat (length ds) <= maxEncodedLength m /\
    dec_digits ds = Some bs /\ Z.of_nat (length bs) <= m.
Proof.
  intros Hds Hm bs. unfold decodeBase64Url.
  assert (max_bytes (vnum m) = Some m) as ->.
  { unfold max_bytes, vnum. rewrite (proj2 (is_safe_integer_spec (num m))), num_toZ_num.
    - destruct (Z.ltb_spec m 0), (Z.ltb_spec MAX_WEBAUTHN_BINARY_BYTES m); try lia. done.
    - exists m. rewrite num_toZ_num. unfold MAX_SAFE_INTEGER, MAX_WEBAUTHN_BINARY_BYTES in *. split; [done|lia]. }
  assert (re_match BASE64URL_PATTERN (map sym ds) = true) as -> by (apply pattern_spec; eauto).
  rewrite length_map, size_nat, mod4_nat. cbn [negb]. rewrite orb_false_r.
  destruct (Z.ltb_spec (maxEncodedLength m) (Z.of_nat (length ds))); [split; [done|lia]|].
  case_bool_decide as Hmod; [split; [done|tauto]|].
  destruct (decode_loop_digits (length ds * 6 / 8) {| accumulator := 0; bits := 0; output := []; lastDigit := 0 |}
    [] ds) as (st & -> & Hl & Hd); [done|done|done|cbn; lia|]. cbn [mbind result_bind].
  fold (residue_set st). destruct (dec_digits ds) as [bs'|] eqn:Ed.
  2: { rewrite Hd. split; [done|]. intros (_ & _ & [=] & _). }
  destruct Hd as [-> Ho]. apply enc_dec in Ed as (_ & _ & Hlen); [|done].
  rewrite Ho in *. cbn [app length] in *. rewrite <- Hlen, resize_all.
  destruct (Z.ltb_spec m (Z.of_nat (length bs'))); split; try done; try naive_solver lia.
Qed.

Lemma base64url_decode s m bs :
  0 <= m <= MAX_WEBAUTHN_BINARY_BYTES ->
  decodeBase64Url (VStr s) (vnum m) = Ok bs <->
  Forall is_byte bs /\ Z.of_nat (length bs) <= m /\ encodeBase64Url (BArrayBuffer bs) = Ok s.
Proof.
  intros Hm. unfold encodeBase64Url, bytesOf. cbn [mbind result_bind]. split.
  - intros Hdec. assert (Hp : re_match BASE64URL_PATTERN s = true).
    { unfold decodeBase64Url in Hdec. destruct (max_bytes _); [|done].
      destruct (re_match BASE64URL_PATTERN s); [done|]. by rewrite orb_true_r in Hdec. }
    apply pattern_spec in Hp as (ds & Hds & ->).
    apply (decode_digits ds m Hds Hm) in Hdec as (_ & _ & Hd & Hl).
    apply enc_dec in Hd as (Hb & <- & _); [|done].
    destruct (Z.ltb_spec MAX_WEBAUTHN_BINARY_BYTES (Z.of_nat (length bs))); [lia|].
    by rewrite encode_loop_digits.
  - intros (Hb & Hl & He).
    destruct (Z.ltb_spec MAX_WEBAUTHN_BINARY_BYTES (Z.of_nat (length bs))); [done|].
    rewrite encode_loop_digits in He by done. injection He as <-.
    pose proof (enc_digits_range bs Hb) as Hds. pose proof (dec_enc bs Hb) as Hd.
    apply (decode_digits _ m Hds Hm). pose proof (enc_digits_length bs) as Hn. split_and!; [| |done|done].
    + intros Hmod. revert Hmod. rewrite Hn. clear. intros Hmod. 
      pose proof (Nat.div_mod_eq ((length bs * 4 + 2) / 3) 4). pose proof (Nat.div_mod_eq (length bs * 4 + 2) 3).
      pose proof (Nat.mod_upper_bound (length bs * 4 + 2) 3 ltac:(lia)). lia.
    + rewrite Hn. unfold maxEncodedLength. rewrite Nat2Z.inj_div, Nat2Z.inj_add, Nat2Z.inj_mul. byte_arith.
Qed.

(** C13. The two base64url conversions are inverse: for every bound in range, the
    decoder accepts exactly the strings the encoder produces for byte sequences
    within the bound, and returns that sequence.  The 32-bit accumulator, the
    canonicity test and the length precheck lose nothing. *)
Theorem base64url_bijection s m bs :
  0 <= m <= MAX_WEBAUTHN_BINARY_BYTES ->
  decodeBase64Url (VStr s) (vnum m) = Ok bs <->
  Forall is_byte bs /\ Z.of_nat (length bs) <= m /\ encodeBase64Url (BArrayBuffer bs) = Ok s.
Proof. apply base64url_decode. Qed.

Lemma base64url_bijection_witness :
  0 <= 4 <= MAX_WEBAUTHN_BINARY_BYTES /\
  decodeBase64Url (VStr (js "_-4BAA")) (vnum 4) = Ok [255; 238; 1; 0].
Proof.
  split; [done|]. apply base64url_bijection; [done|]. split_and!.
  - repeat (constructor; [unfold is_byte; lia|]). constructor.
  - vm_compute. discriminate.
  - vm_compute. reflexivity.
Defined.

Example encode_decode_ex :
  encodeBase64Url (BArrayBuffer [255; 238; 1; 0]) = Ok (js "_-4BAA") /\
  decodeBase64Url (vstr "_-4BAA") (vnum 4) = Ok [255; 238; 1; 0] /\
  decodeBase64Url (vstr "_-4BAB") (vnum 4)
    = client invalid_options (js "Base64url WebAuthn data is not canonical").
Proof. vm_compute. done. Qed.
