(* ===== verification/WebOptions.v ===== *)
(** * packages/web/src/index.ts: options and extension values

    The conversion of the server's JSON options into the native request, and the
    bounded copy of extension values.  Option objects are plain data. *)

From S2P Require Import Prelude JsNumber Regex JsValue WebEncoding.
Open Scope js_scope.

(** ** Bounds *)

Definition MAX_WEBAUTHN_CREDENTIALS : Z := 64.
Definition MAX_WEBAUTHN_EXTENSION_DEPTH : Z := 4.
Definition MAX_WEBAUTHN_EXTENSION_NODES : Z := 256.
Definition MAX_WEBAUTHN_EXTENSION_KEYS : Z := 32.
Definition MAX_WEBAUTHN_EXTENSION_STRING_LENGTH : Z := 2048.
Definition WORDS_REQUIREMENT : list jsstr := map js ["discouraged"; "preferred"; "required"]%string.
Definition WORDS_TRANSPORT : list jsstr := map js ["ble"; "hybrid"; "internal"; "nfc"; "usb"]%string.
Definition WORDS_HINT : list jsstr := map js ["client-device"; "hybrid"; "security-key"]%string.
Definition WORDS_ATTESTATION : list jsstr := map js ["none"; "indirect"; "direct"; "enterprise"]%string.

Definition len {A} (l : list A) : Z := Z.of_nat (length l).

(** ** Strings and numbers *)

Definition invalidOptions {A} (message : jsstr) : web A := client invalid_options message.
Definition webauthn_invalid (field : jsstr) : jsstr := js "WebAuthn " ++ field ++ js " is invalid".

Definition requiredString (value : val) (field : jsstr) (maximum : Z) : web jsstr :=
  match value with
  | VStr s => if (len s =? 0) || (maximum <? len s) then invalidOptions (webauthn_invalid field) else Ok s
  | _ => invalidOptions (webauthn_invalid field)
  end.
Definition optionalString (value : val) (field : jsstr) (maximum : Z) : web (option jsstr) :=
  match value with
  | VUndef => Ok None
  | _ => Some <$> requiredString value field maximum
  end.
Definition binaryOption (value : val) (field : jsstr) : web (list Z) :=
  encoded ← requiredString value field (MAX_WEBAUTHN_BINARY_BYTES * 2);
  match decodeBase64Url (VStr encoded) (vnum MAX_WEBAUTHN_BINARY_BYTES) with
  | Ok bytes => Ok bytes
  | Throw _ => invalidOptions (webauthn_invalid field)
  end.
Definition boundedTimeout (value : val) : web (option jsnum) :=
  match value with
  | VUndef => Ok None
  | VNum n =>
      if negb (is_integer n) || negb (is_finite n) || num_ltb n (num 1) || num_ltb (num 120000) n
      then invalidOptions (js "WebAuthn timeout is invalid") else Ok (Some n)
  | _ => invalidOptions (js "WebAuthn timeout is invalid")
  end.

(** ** Authenticator selection *)

(** The own properties of the returned object. *)
Record native_selection := {
  ns_attachment : option val;
  ns_residentKey : option val;
  ns_requireResidentKey : option val;
  ns_userVerification : option val;
}.
Definition bad_selection {A} : web A := invalidOptions (js "WebAuthn authenticatorSelection is invalid").
(** [if (v !== undefined) { if (!test(v)) invalidOptions(..); result.k = v; }] *)
Definition checked_field (v : val) (test : val -> result jserr bool) : web (option val) :=
  match v with
  | VUndef => Ok None
  | _ => ok ← lift (test v); if ok : bool then Ok (Some v) else bad_selection
  end.

Definition toNativeAuthenticatorSelection (value : val) : web native_selection :=
  if negb (is_record value) then bad_selection else
  let allowed := map js ["authenticatorAttachment"; "residentKey"; "requireResidentKey"; "userVerification"]%string in
  if existsb (fun key => negb (str_in key allowed)) (keys value) then bad_selection else
  attachment ← checked_field value.["authenticatorAttachment"]
    (fun v => Ok (eq_str v (js "cross-platform") || eq_str v (js "platform")));
  residentKey ← checked_field value.["residentKey"] (includes_String WORDS_REQUIREMENT);
  requireResidentKey ← checked_field value.["requireResidentKey"] (fun v => Ok (is_boolean v));
  userVerification ← checked_field value.["userVerification"] (includes_String WORDS_REQUIREMENT);
  Ok {| ns_attachment := attachment; ns_residentKey := residentKey;
        ns_requireResidentKey := requireResidentKey; ns_userVerification := userVerification |}.

(** [if (v !== undefined) publicKey.authenticatorSelection = ..] *)
Definition optional_selection (v : val) : web (option native_selection) :=
  match v with
  | VUndef => Ok None
  | _ => Some <$> toNativeAuthenticatorSelection v
  end.

(** ** Extension values *)

(** [constructor], [prototype] and [__proto__] are not copied. *)
Definition bad_key (key : jsstr) : bool :=
  (128 <? len key) || str_eqb key (js "__proto__") || str_eqb key (js "constructor")
  || str_eqb key (js "prototype").

Section copy.
Context (field : jsstr) (errorCode : WebAuthnClientErrorCode).

Definition complain {A} (what : jsstr) : web A := client errorCode (field ++ what).

(** The entries of an array and the members of an object, given the copy of one
    value; holes are not visited. *)
Section children.
Context (copy : val -> Z -> web (val * Z)).
Fixpoint copy_entries (l : list (option val)) (nodes : Z) : web (list (option val) * Z) :=
  match l with
  | [] => Ok ([], nodes)
  | None :: l' => r ← copy_entries l' nodes; Ok (None :: r.1, r.2)
  | Some v :: l' =>
      w ← copy v nodes; r ← copy_entries l' w.2; Ok (Some w.1 :: r.1, r.2)
  end.
Fixpoint copy_members (ps : list (jsstr * val)) (nodes : Z) : web (list (jsstr * val) * Z) :=
  match ps with
  | [] => Ok ([], nodes)
  | (key, v) :: ps' =>
      if bad_key key then complain (js " has an invalid key") else
      w ← copy v nodes; r ← copy_members ps' w.2; Ok ((key, w.1) :: r.1, r.2)
  end.
End children.

(** The copy and the number of nodes counted so far: [budget.nodes] is shared by
    the whole traversal. *)
Fixpoint copyBoundedExtensionValue (value : val) (depth nodes : Z) : web (val * Z) :=
  let nodes := nodes + 1 in
  if (MAX_WEBAUTHN_EXTENSION_NODES <? nodes) || (MAX_WEBAUTHN_EXTENSION_DEPTH <? depth)
  then complain (js " is too complex") else
  match value with
  | VNull | VBool _ => Ok (value, nodes)
  | VStr s =>
      if MAX_WEBAUTHN_EXTENSION_STRING_LENGTH <? len s then complain (js " is too large")
      else Ok (value, nodes)
  | VNum n => if is_finite n then Ok (value, nodes) else complain (js " is invalid")
  | VArr slots =>
      if MAX_WEBAUTHN_EXTENSION_KEYS <? len slots then complain (js " is too large") else
      r ← copy_entries (fun v => copyBoundedExtensionValue v (depth + 1)) slots nodes;
      Ok (VArr r.1, r.2)
  | VObj props =>
      if MAX_WEBAUTHN_EXTENSION_KEYS <? len props then complain (js " has too many keys") else
      r ← copy_members (fun v => copyBoundedExtensionValue v (depth + 1)) props nodes;
      Ok (VObj r.1, r.2)
  | VBuf _ => Ok (VObj [], nodes)
  | _ => complain (js " is invalid")
  end.
End copy.

Definition copyRecord (value : val) (field : jsstr) (errorCode : WebAuthnClientErrorCode)
    : web (option val) :=
  match value with
  | VUndef => Ok None
  | _ =>
      if negb (is_record value) then client errorCode (webauthn_invalid field) else
      r ← copyBoundedExtensionValue field errorCode value 0 0;
      if negb (is_record r.1) then client errorCode (webauthn_invalid field) else Ok (Some r.1)
  end.

(** ** Credential descriptors *)

(** [l.some((v) => !words.includes(String(v)))], which stops at the first hit. *)
Fixpoint some_not_included (words : list jsstr) (l : list val) : result jserr bool :=
  match l with
  | [] => Ok false
  | v :: l' => ok ← includes_String words v;
               if ok : bool then some_not_included words l' else Ok true
  end.

(** The descriptor's [type] is the constant the source writes. *)
Record native_descriptor := { nd_id : list Z; nd_transports : option (list val) }.
Definition toNativeDescriptor (value : val) (field : jsstr) : web native_descriptor :=
  if negb (is_record value) || negb (eq_str value.["type"] (js "public-key"))
  then invalidOptions (webauthn_invalid field) else
  id ← binaryOption value.["id"] (field ++ js ".id");
  match value.["transports"] with
  | VUndef => Ok {| nd_id := id; nd_transports := None |}
  | VArr slots =>
      if 5 <? len slots then invalidOptions (webauthn_invalid (field ++ js ".transports")) else
      bad ← lift (some_not_included WORDS_TRANSPORT (present slots).*2);
      if bad : bool then invalidOptions (webauthn_invalid (field ++ js ".transports"))
      else Ok {| nd_id := id; nd_transports := Some (iterated slots) |}
  | _ => invalidOptions (webauthn_invalid (field ++ js ".transports"))
  end.

(** [map] keeps the holes of its receiver. *)
Fixpoint map_slots {A} (f : nat -> val -> web A) (i : nat) (l : list (option val)) : web (list (option A)) :=
  match l with
  | [] => Ok []
  | None :: l' => r ← map_slots f (S i) l'; Ok (None :: r)
  | Some v :: l' => a ← f i v; r ← map_slots f (S i) l'; Ok (Some a :: r)
  end.

Definition toNativeCredentials (value : val) (field : jsstr)
    : web (option (list (option native_descriptor))) :=
  match value with
  | VUndef => Ok None
  | VArr slots =>
      if MAX_WEBAUTHN_CREDENTIALS <? len slots then invalidOptions (webauthn_invalid field) else
      Some <$> map_slots (fun index descriptor =>
        toNativeDescriptor descriptor (field ++ js "[" ++ dec_nat index ++ js "]")) 0 slots
  | _ => invalidOptions (webauthn_invalid field)
  end.

(** ** Requests *)

Record native_rp := { rp_name : jsstr; rp_id : option jsstr; rp_icon : option jsstr }.
Record native_user := {
  user_id : list Z; user_name : jsstr; user_displayName : jsstr; user_icon : option jsstr;
}.
Record creation_publicKey := {
  c_challenge : list Z;
  c_rp : native_rp;
  c_user : native_user;
  c_pubKeyCredParams : list (option val);     (* the [alg] of each entry *)
  c_timeout : option jsnum;
  c_excludeCredentials : option (list (option native_descriptor));
  c_authenticatorSelection : option native_selection;
  c_attestation : option val;
  c_hints : option (list val);
  c_extensions : option val;
}.
Record request_publicKey := {
  q_challenge : list Z;
  q_timeout : option jsnum;
  q_rpId : option jsstr;
  q_allowCredentials : option (list (option native_descriptor));
  q_userVerification : option val;
  q_hints : option (list val);
  q_extensions : option val;
}.

Definition default_message : jsstr := js "WebAuthn options are invalid".

(** [if (v !== undefined) { if (!words.includes(v)) invalidOptions(..); pk.k = v; }] *)
Definition optional_word (v : val) (words : list jsstr) (field : jsstr) : web (option val) :=
  match v with
  | VUndef => Ok None
  | _ => if includes_str words v then Ok (Some v) else invalidOptions (webauthn_invalid field)
  end.
Definition optional_hints (v : val) : web (option (list val)) :=
  let bad := invalidOptions (js "WebAuthn hints are invalid") in
  match v with
  | VUndef => Ok None
  | VArr slots =>
      if (3 <? len slots) || existsb (fun h => negb (includes_str WORDS_HINT h)) (present slots).*2
      then bad else Ok (Some (iterated slots))
  | _ => bad
  end.
Definition credential_parameter (parameter : val) : web val :=
  if negb (is_record parameter) || negb (eq_str parameter.["type"] (js "public-key"))
     || negb (match parameter.["alg"] with VNum n => is_integer n | _ => false end)
  then invalidOptions (js "WebAuthn pubKeyCredParams is invalid") else Ok parameter.["alg"].

Definition native_rp_of (rp : val) : web native_rp :=
  name ← requiredString rp.["name"] (js "rp.name") 256;
  id ← optionalString rp.["id"] (js "rp.id") 253;
  icon ← optionalString rp.["icon"] (js "rp.icon") 2048;
  Ok {| rp_name := name; rp_id := id; rp_icon := icon |}.
Definition native_user_of (user : val) : web native_user :=
  id ← binaryOption user.["id"] (js "user.id");
  name ← requiredString user.["name"] (js "user.name") 320;
  displayName ← requiredString user.["displayName"] (js "user.displayName") 256;
  icon ← optionalString user.["icon"] (js "user.icon") 2048;
  Ok {| user_id := id; user_name := name; user_displayName := displayName; user_icon := icon |}.

Definition toNativeCreationOptions (options : val) : web creation_publicKey :=
  if negb (is_record options) then invalidOptions default_message else
  let rp := options.["rp"] in
  let user := options.["user"] in
  if negb (is_record rp) || negb (is_record user) then invalidOptions default_message else
  match options.["pubKeyCredParams"] with
  | VArr slots =>
      if (len slots =? 0) || (32 <? len slots)
      then invalidOptions (js "WebAuthn pubKeyCredParams is invalid") else
      challenge ← binaryOption options.["challenge"] (js "challenge");
      rp' ← native_rp_of rp;
      user' ← native_user_of user;
      params ← map_slots (fun _ => credential_parameter) 0 slots;
      timeout ← boundedTimeout options.["timeout"];
      excludeCredentials ← toNativeCredentials options.["excludeCredentials"] (js "excludeCredentials");
      selection ← optional_selection options.["authenticatorSelection"];
      attestation ← optional_word options.["attestation"] WORDS_ATTESTATION (js "attestation");
      hints ← optional_hints options.["hints"];
      extensions ← copyRecord options.["extensions"] (js "extensions") invalid_options;
      Ok {| c_challenge := challenge; c_rp := rp'; c_user := user'; c_pubKeyCredParams := params;
            c_timeout := timeout; c_excludeCredentials := excludeCredentials;
            c_authenticatorSelection := selection; c_attestation := attestation;
            c_hints := hints; c_extensions := extensions |}
  | _ => invalidOptions (js "WebAuthn pubKeyCredParams is invalid")
  end.

Definition toNativeRequestOptions (options : val) : web request_publicKey :=
  if negb (is_record options) then invalidOptions default_message else
  challenge ← binaryOption options.["challenge"] (js "challenge");
  timeout ← boundedTimeout options.["timeout"];
  rpId ← optionalString options.["rpId"] (js "rpId") 253;
  allowCredentials ← toNativeCredentials options.["allowCredentials"] (js "allowCredentials");
  userVerification ← optional_word options.["userVerification"] WORDS_REQUIREMENT (js "userVerification");
  hints ← optional_hints options.["hints"];
  extensions ← copyRecord options.["extensions"] (js "extensions") invalid_options;
  Ok {| q_challenge := challenge; q_timeout := timeout; q_rpId := rpId;
        q_allowCredentials := allowCredentials; q_userVerification := userVerification;
        q_hints := hints; q_extensions := extensions |}.
