(* ===== verification/WebOptionsProps.v ===== *)
(** * Properties of the option conversion *)

From S2P Require Import Prelude JsNumber Regex JsValue WebEncoding WebEncodingProps WebOptions.
Open Scope js_scope.

(** ** What the bounded copy accepts and returns

    [ext_size] counts the nodes the traversal visits, [ext_ok] is the shape it
    accepts at a given depth, and [ext_norm] is the value it builds: the same
    value, an [ArrayBuffer] becoming an empty object. *)

Fixpoint ext_size (v : val) : Z :=
  1 + match v with
      | VArr l => foldr (fun o z => match o with Some w => ext_size w + z | None => z end) 0 l
      | VObj ps => foldr (fun kv z => ext_size kv.2 + z) 0 ps
      | _ => 0
      end.
Fixpoint ext_norm (v : val) : val :=
  match v with
  | VArr l => VArr (map (option_map ext_norm) l)
  | VObj ps => VObj (map (fun kv => (kv.1, ext_norm kv.2)) ps)
  | VBuf _ => VObj []
  | _ => v
  end.
Fixpoint ext_ok (d : Z) (v : val) : bool :=
  (d <=? MAX_WEBAUTHN_EXTENSION_DEPTH) &&
  match v with
  | VNull | VBool _ | VBuf _ => true
  | VStr s => len s <=? MAX_WEBAUTHN_EXTENSION_STRING_LENGTH
  | VNum n => is_finite n
  | VArr l =>
      (len l <=? MAX_WEBAUTHN_EXTENSION_KEYS) &&
      forallb (fun o => match o with Some w => ext_ok (d + 1) w | None => true end) l
  | VObj ps =>
      (len ps <=? MAX_WEBAUTHN_EXTENSION_KEYS) &&
      forallb (fun kv => negb (bad_key kv.1) && ext_ok (d + 1) kv.2) ps
  | _ => false
  end.

Definition slots_size (l : list (option val)) : Z :=
  foldr (fun o z => match o with Some w => ext_size w + z | None => z end) 0 l.
Definition members_size (ps : list (jsstr * val)) : Z :=
  foldr (fun kv z => ext_size kv.2 + z) 0 ps.

Lemma slots_size_some v l : slots_size (Some v :: l) = ext_size v + slots_size l.
Proof. done. Qed.
Lemma members_size_cons k v ps : members_size ((k, v) :: ps) = ext_size v + members_size ps.
Proof. done. Qed.

Lemma ext_size_pos v : 1 <= ext_size v.
Proof.
  induction v as [| | | | | | | |l IH|ps IH|] using val_nested_ind; cbn [ext_size]; try lia.
  - change (1 <= 1 + slots_size l). enough (0 <= slots_size l) by lia.
    induction IH as [|[w|] l Hw _ IH]; [done| |done]. rewrite slots_size_some. cbn in Hw. lia.
  - change (1 <= 1 + members_size ps). enough (0 <= members_size ps) by lia.
    induction IH as [|[k w] ps Hw _ IH]; [done|]. rewrite members_size_cons. cbn in Hw. lia.
Qed.
Lemma slots_size_nonneg l : 0 <= slots_size l.
Proof.
  induction l as [|[w|] l IH]; [done| |done]. rewrite slots_size_some. pose proof (ext_size_pos w). lia.
Qed.
Lemma members_size_nonneg ps : 0 <= members_size ps.
Proof.
  induction ps as [|[k w] ps IH]; [done|]. rewrite members_size_cons. pose proof (ext_size_pos w). lia.
Qed.

Section copy_exact.
Context (field : jsstr) (code : WebAuthnClientErrorCode).
Abbreviation copy := (copyBoundedExtensionValue field code).

(** The specification of one call. *)
Definition copies (v : val) : Prop := forall d n w n',
  copy v d n = Ok (w, n') <->
  ext_ok d v = true /\ w = ext_norm v /\ n' = n + ext_size v /\ n' <= MAX_WEBAUTHN_EXTENSION_NODES.

Lemma copy_entries_exact d l n l' n' :
  Forall (from_option copies True) l -> n <= MAX_WEBAUTHN_EXTENSION_NODES ->
  copy_entries (fun v => copy v d) l n = Ok (l', n') <->
  forallb (fun o => match o with Some w => ext_ok d w | None => true end) l = true /\
  l' = map (option_map ext_norm) l /\ n' = n + slots_size l /\ n' <= MAX_WEBAUTHN_EXTENSION_NODES.
Proof.
  intros Hl; revert n l' n'; induction Hl as [|[v|] l Hv Hl IH]; intros n l' n' Hn; cbn [copy_entries].
  - cbn. rewrite Z.add_0_r. naive_solver.
  - rewrite bind_Ok. setoid_rewrite bind_Ok. cbn [forallb map option_map].
    rewrite slots_size_some.
    pose proof (slots_size_nonneg l). rewrite andb_true_iff. split.
    + intros ([w nw] & Hw & [r nr] & Hr & [= <- <-]). apply Hv in Hw as (? & -> & -> & ?).
      cbn [fst snd] in *.
      apply IH in Hr as (? & -> & -> & ?); [|done]. split_and!; try done; lia.
    + intros ([Hok Hall] & -> & -> & Hle). eexists (_, _). split; [apply Hv; split_and!; [done..|lia]|].
      eexists (_, _). split; [apply IH; [cbn [snd]; lia|]; split_and!; [done..|cbn [snd]; lia]|].
      cbn [fst snd]. do 2 f_equal. lia.
  - rewrite bind_Ok. cbn [forallb map option_map andb].
    change (slots_size (None :: l)) with (slots_size l). split.
    + intros ([r nr] & Hr & [= <- <-]). apply IH in Hr as (? & -> & -> & ?); done.
    + intros (Hok & -> & -> & Hle). eexists (_, _). split; [by apply IH|]. done.
Qed.

Lemma copy_members_exact d ps n ps' n' :
  Forall (fun kv => copies kv.2) ps -> n <= MAX_WEBAUTHN_EXTENSION_NODES ->
  copy_members field code (fun v => copy v d) ps n = Ok (ps', n') <->
  forallb (fun kv => negb (bad_key kv.1) && ext_ok d kv.2) ps = true /\
  ps' = map (fun kv => (kv.1, ext_norm kv.2)) ps /\ n' = n + members_size ps /\
  n' <= MAX_WEBAUTHN_EXTENSION_NODES.
Proof.
  intros Hl; revert n ps' n'; induction Hl as [|[k v] ps Hv Hl IH]; intros n ps' n' Hn; cbn [copy_members].
  - cbn. rewrite Z.add_0_r. naive_solver.
  - cbn [snd] in Hv. cbn [forallb map fst snd]. destruct (bad_key k); cbn [negb andb]; [naive_solver|].
    rewrite bind_Ok. setoid_rewrite bind_Ok. rewrite members_size_cons.
    pose proof (members_size_nonneg ps). rewrite andb_true_iff. split.
    + intros ([w nw] & Hw & [r nr] & Hr & [= <- <-]). apply Hv in Hw as (? & -> & -> & ?).
      cbn [fst snd] in *.
      apply IH in Hr as (? & -> & -> & ?); [|done]. split_and!; try done; lia.
    + intros ([Hok Hall] & -> & -> & Hle). eexists (_, _). split; [apply Hv; split_and!; [done..|lia]|].
      eexists (_, _). split; [apply IH; [cbn [snd]; lia|]; split_and!; [done..|cbn [snd]; lia]|].
      cbn [fst snd]. do 2 f_equal. lia.
Qed.

Definition too_complex (d n : Z) : bool :=
  (MAX_WEBAUTHN_EXTENSION_NODES <? n + 1) || (MAX_WEBAUTHN_EXTENSION_DEPTH <? d).
Lemma copy_too_complex v d n : too_complex d n = true -> copy v d n = complain field code (js " is too complex").
Proof. unfold too_complex. intros H. by destruct v; cbn [copyBoundedExtensionValue]; rewrite H. Qed.
Lemma ext_ok_depth d v : ext_ok d v = true -> d <= MAX_WEBAUTHN_EXTENSION_DEPTH.
Proof. destruct v; cbn [ext_ok]; rewrite andb_true_iff, Z.leb_le; by intros [? _]. Qed.

Lemma copy_exact v : copies v.
Proof.
  unfold copies. induction v as [| |b|x|s|z|sy|src r _|l IH|ps IH|bytes] using val_nested_ind;
    intros d n w n'.
  all: match goal with |- context [copyBoundedExtensionValue _ _ ?v ?d ?n] =>
         destruct (too_complex d n) eqn:Hc;
         [rewrite (copy_too_complex v d n Hc); apply orb_true_iff in Hc; rewrite !Z.ltb_lt in Hc;
          pose proof (ext_size_pos v); (split; [done|]); intros (?%ext_ok_depth & _ & -> & ?); lia|] end.
  all: unfold too_complex in Hc; cbn [copyBoundedExtensionValue ext_ok ext_norm ext_size]; rewrite Hc;
    apply orb_false_iff in Hc as [Hn Hd%Z.ltb_ge]; rewrite Z.ltb_ge in Hn;
    rewrite ?(proj2 (Z.leb_le _ _) Hd), ?andb_false_r; cbn [andb]; rewrite ?Z.add_0_r; try naive_solver.
  - destruct (is_finite x); naive_solver.
  - rewrite Z.leb_antisym. destruct (_ <? _); naive_solver.
  - rewrite Z.leb_antisym. destruct (_ <? _); [naive_solver|]. cbn [negb andb].
    rewrite bind_Ok. change (foldr _ 0 l) with (slots_size l). rewrite Z.add_assoc. split.
    + intros ([r nr] & Hr & [= <- <-]). apply copy_entries_exact in Hr as (? & -> & -> & ?); [|done|done]. done.
    + intros (Hok & -> & -> & Hle). eexists (_, _). split; [by apply copy_entries_exact|]. done.
  - rewrite Z.leb_antisym. destruct (_ <? _); [naive_solver|]. cbn [negb andb].
    rewrite bind_Ok. change (foldr _ 0 ps) with (members_size ps). rewrite Z.add_assoc. split.
    + intros ([r nr] & Hr & [= <- <-]). apply copy_members_exact in Hr as (? & -> & -> & ?); [|done|done]. done.
    + intros (Hok & -> & -> & Hle). eexists (_, _). split; [by apply copy_members_exact|]. done.
Qed.
End copy_exact.

(** ** Records of extension values *)

(** Values JSON can carry: no buffer anywhere. *)
Fixpoint buffer_free (v : val) : bool :=
  match v with
  | VBuf _ => false
  | VArr l => forallb (fun o => match o with Some w => buffer_free w | None => true end) l
  | VObj ps => forallb (fun kv => buffer_free kv.2) ps
  | _ => true
  end.
Lemma ext_norm_id v : buffer_free v = true -> ext_norm v = v.
Proof.
  induction v as [| | | | | | | |l IH|ps IH|] using val_nested_ind; try done; cbn.
  - intros H. f_equal. induction IH as [|[w|] l Hw _ IH]; cbn in *; [done| |].
    + apply andb_true_iff in H as [? ?]. by rewrite Hw, IH.
    + by rewrite IH.
  - intros H. f_equal. induction IH as [|[k w] ps Hw _ IH]; cbn in *; [done|].
    apply andb_true_iff in H as [? ?]. by rewrite Hw, IH.
Qed.

Lemma copyRecord_spec v field code :
  (forall w, copyRecord v field code = Ok (Some w) <->
     is_record v = true /\ ext_ok 0 v = true /\ ext_size v <= MAX_WEBAUTHN_EXTENSION_NODES /\
     w = ext_norm v) /\
  (copyRecord v field code = Ok None <-> v = VUndef).
Proof.
  assert (H : forall w, copyRecord v field code = Ok (Some w) <->
     is_record v = true /\ ext_ok 0 v = true /\ ext_size v <= MAX_WEBAUTHN_EXTENSION_NODES /\
     w = ext_norm v).
  { intros w. unfold copyRecord. destruct (is_record v) eqn:Er; [|destruct v; naive_solver].
    assert ((r ← copyBoundedExtensionValue field code v 0 0;
       if negb (is_record r.1) then client code (webauthn_invalid field) else Ok (Some r.1)) = Ok (Some w) <->
       is_record v = true /\ ext_ok 0 v = true /\ ext_size v <= MAX_WEBAUTHN_EXTENSION_NODES /\ w = ext_norm v) as Hc;
      [|destruct v; try done; exact Hc].
    rewrite bind_Ok. assert (is_record (ext_norm v) = true) as Hrn by (by destruct v). split.
    - intros ([r n] & Hr & H'). apply copy_exact in Hr as (? & -> & -> & ?). cbn [fst] in H'.
      rewrite Hrn in H'. by injection H' as <-.
    - intros (_ & ? & ? & ->). exists (ext_norm v, ext_size v). split; [by apply copy_exact|].
      cbn [fst]. by rewrite Hrn. }
  split; [exact H|].
  unfold copyRecord. destruct v; split; try done; cbn [is_record negb]; try done;
    intros Hx; apply bind_Ok in Hx as (r & _ & Hx); destruct (negb _); discriminate.
Qed.

(** C39. The bounded copy of an extension record: it succeeds exactly on records of at
    most 256 nodes, depth 4, 32 entries per level, bounded strings, finite numbers
    and no prototype-polluting key; the node budget threaded through the traversal
    is the size of the value; and what is built is the value itself, up to
    [ArrayBuffer]s, which become empty objects. *)
Theorem copyRecord_exact v field code :
  (forall w, copyRecord v field code = Ok (Some w) <->
     is_record v = true /\ ext_ok 0 v = true /\ ext_size v <= MAX_WEBAUTHN_EXTENSION_NODES /\
     w = ext_norm v) /\
  (copyRecord v field code = Ok None <-> v = VUndef) /\
  (forall w, copyRecord v field code = Ok (Some w) -> buffer_free v = true -> w = v).
Proof.
  destruct (copyRecord_spec v field code) as [H1 H2]. split_and!; [exact H1|exact H2|].
  intros w (_ & _ & _ & ->)%H1. apply ext_norm_id.
Qed.
