(* ===== verification/WebOptionsSpec.v ===== *)
(** * What a native WebAuthn request must be

    Declarative relations between the server's JSON options and the native
    request, and the proof that the conversion functions compute exactly them. *)

From S2P Require Import Prelude JsNumber Regex JsValue WebEncoding WebEncodingProps WebOptions.
From S2P Require Import WebOptionsProps.
Open Scope js_scope.

(** ** Fields *)

Definition StringField (v : val) (maximum : Z) (s : jsstr) : Prop :=
  v = VStr s /\ 0 < len s <= maximum.
Definition OptionalString (v : val) (maximum : Z) (s : option jsstr) : Prop :=
  match s with None => v = VUndef | Some s => StringField v maximum s end.
(** A binary field carries exactly the bytes whose base64url form the server sent. *)
Definition BinaryField (v : val) (bytes : list Z) : Prop :=
  exists s, v = VStr s /\ s <> [] /\ Forall is_byte bytes /\
    encodeBase64Url (BArrayBuffer bytes) = Ok s.
Definition Timeout (v : val) (t : option jsnum) : Prop :=
  match t with
  | None => v = VUndef
  | Some n => v = VNum n /\ exists z, num_toZ n = Some z /\ 1 <= z <= 120000
  end.
Definition OptionalWord (v : val) (words : list jsstr) (w : option val) : Prop :=
  match w with
  | None => v = VUndef
  | Some x => x = v /\ exists s, v = VStr s /\ s ∈ words
  end.
(** A value whose conversion by [String] is one of the words: any string among them,
    and also a value that only converts to one, such as an array of that one word. *)
Definition Reads_as (words : list jsstr) (v : val) : Prop := exists s, String_ v = Ok s /\ s ∈ words.
Definition Hints (v : val) (h : option (list val)) : Prop :=
  match h with
  | None => v = VUndef
  | Some l => exists slots, v = VArr slots /\ len slots <= 3 /\ l = iterated slots /\
      Forall (fun x => includes_str WORDS_HINT x = true) (present slots).*2
  end.
Definition Extensions (v : val) (e : option val) : Prop :=
  match e with
  | None => v = VUndef
  | Some w => is_record v = true /\ ext_ok 0 v = true /\
      ext_size v <= MAX_WEBAUTHN_EXTENSION_NODES /\ w = ext_norm v
  end.

Record Descriptor (v : val) (d : native_descriptor) : Prop := {
  d_type : v.["type"] = vstr "public-key";
  d_id : BinaryField v.["id"] (nd_id d);
  d_transports :
    match nd_transports d with
    | None => v.["transports"] = VUndef
    | Some ts => exists slots, v.["transports"] = VArr slots /\ len slots <= 5 /\
        ts = iterated slots /\
        Forall (Reads_as WORDS_TRANSPORT) (present slots).*2
    end;
}.
(** Position by position, a hole staying a hole. *)
Definition SlotWise {A} (R : val -> A -> Prop) : list (option val) -> list (option A) -> Prop :=
  Forall2 (fun o a => match o, a with
                      | None, None => True
                      | Some v, Some x => R v x
                      | _, _ => False
                      end).
Definition Descriptors (v : val) (ds : option (list (option native_descriptor))) : Prop :=
  match ds with
  | None => v = VUndef
  | Some ds => exists slots, v = VArr slots /\ len slots <= MAX_WEBAUTHN_CREDENTIALS /\
      SlotWise Descriptor slots ds
  end.

Definition SelectionField (v : val) (test : val -> Prop) (f : option val) : Prop :=
  match f with None => v = VUndef | Some w => w = v /\ v <> VUndef /\ test v end.
Record Selection (v : val) (n : native_selection) : Prop := {
  s_record : is_record v = true;
  s_keys : Forall (fun k => k ∈ map js ["authenticatorAttachment"; "residentKey";
    "requireResidentKey"; "userVerification"]%string) (keys v);
  s_attachment : SelectionField v.["authenticatorAttachment"]
    (fun w => w = vstr "cross-platform" \/ w = vstr "platform") (ns_attachment n);
  s_residentKey : SelectionField v.["residentKey"]
    (Reads_as WORDS_REQUIREMENT) (ns_residentKey n);
  s_requireResidentKey : SelectionField v.["requireResidentKey"]
    (fun w => exists b, w = VBool b) (ns_requireResidentKey n);
  s_userVerification : SelectionField v.["userVerification"]
    (Reads_as WORDS_REQUIREMENT) (ns_userVerification n);
}.

Definition Parameter_ (v a : val) : Prop :=
  v.["type"] = vstr "public-key" /\ a = v.["alg"] /\ exists n, a = VNum n /\ is_integer n = true.

Record Creation (o : val) (pk : creation_publicKey) : Prop := {
  cr_challenge : BinaryField o.["challenge"] (c_challenge pk);
  cr_rp_name : StringField (o.["rp"]).["name"] 256 (rp_name (c_rp pk));
  cr_rp_id : OptionalString (o.["rp"]).["id"] 253 (rp_id (c_rp pk));
  cr_rp_icon : OptionalString (o.["rp"]).["icon"] 2048 (rp_icon (c_rp pk));
  cr_user_id : BinaryField (o.["user"]).["id"] (user_id (c_user pk));
  cr_user_name : StringField (o.["user"]).["name"] 320 (user_name (c_user pk));
  cr_user_display : StringField (o.["user"]).["displayName"] 256 (user_displayName (c_user pk));
  cr_user_icon : OptionalString (o.["user"]).["icon"] 2048 (user_icon (c_user pk));
  cr_params : exists slots, o.["pubKeyCredParams"] = VArr slots /\ 0 < len slots <= 32 /\
    SlotWise Parameter_ slots (c_pubKeyCredParams pk);
  cr_timeout : Timeout o.["timeout"] (c_timeout pk);
  cr_exclude : Descriptors o.["excludeCredentials"] (c_excludeCredentials pk);
  cr_selection : match c_authenticatorSelection pk with
                 | None => o.["authenticatorSelection"] = VUndef
                 | Some n => Selection o.["authenticatorSelection"] n
                 end;
  cr_attestation : OptionalWord o.["attestation"] WORDS_ATTESTATION (c_attestation pk);
  cr_hints : Hints o.["hints"] (c_hints pk);
  cr_extensions : Extensions o.["extensions"] (c_extensions pk);
}.
Record Request (o : val) (pk : request_publicKey) : Prop := {
  rq_challenge : BinaryField o.["challenge"] (q_challenge pk);
  rq_timeout : Timeout o.["timeout"] (q_timeout pk);
  rq_rpId : OptionalString o.["rpId"] 253 (q_rpId pk);
  rq_allow : Descriptors o.["allowCredentials"] (q_allowCredentials pk);
  rq_verification : OptionalWord o.["userVerification"] WORDS_REQUIREMENT (q_userVerification pk);
  rq_hints : Hints o.["hints"] (q_hints pk);
  rq_extensions : Extensions o.["extensions"] (q_extensions pk);
}.

(** ** Each conversion computes its relation *)

Lemma requiredString_Ok v field m s : requiredString v field m = Ok s <-> StringField v m s.
Proof.
  unfold requiredString, StringField. destruct v as [| | | |x| | | | | |]; try (split; [done|by intros [? _]]).
  destruct (Z.eqb_spec (len x) 0), (Z.ltb_spec m (len x)); cbn [orb]; split; try done;
    try (intros [[= <-] ?]; lia || done).
  intros [= <-]. unfold len in *. split; [done|lia].
Qed.
Lemma optionalString_Ok v field m s : optionalString v field m = Ok s <-> OptionalString v m s.
Proof.
  unfold optionalString. assert (H : (Some <$> requiredString v field m) = Ok s <->
      exists x, s = Some x /\ StringField v m x).
  { rewrite fmap_Ok. setoid_rewrite requiredString_Ok. naive_solver. }
  unfold OptionalString. destruct v; try (rewrite H; destruct s; naive_solver congruence).
  destruct s; [|done]. split; [done|by intros [? _]].
Qed.
Lemma encode_nil bytes s : Forall is_byte bytes -> encodeBase64Url (BArrayBuffer bytes) = Ok s ->
  Z.of_nat (length bytes) <= MAX_WEBAUTHN_BINARY_BYTES /\ len s <= MAX_WEBAUTHN_BINARY_BYTES * 2.
Proof.
  intros Hb. unfold encodeBase64Url, bytesOf. cbn [mbind result_bind].
  destruct (Z.ltb_spec MAX_WEBAUTHN_BINARY_BYTES (Z.of_nat (length bytes))); [done|]. intros [= <-].
  split; [done|]. rewrite encode_loop_digits by done. cbn [app]. unfold len.
  rewrite length_map, enc_digits_length, Nat2Z.inj_div, Nat2Z.inj_add, Nat2Z.inj_mul.
  unfold MAX_WEBAUTHN_BINARY_BYTES in *. Z.to_euclidean_division_equations; lia.
Qed.
Lemma binaryOption_Ok v field bytes : binaryOption v field = Ok bytes <-> BinaryField v bytes.
Proof.
  unfold binaryOption, BinaryField. rewrite bind_Ok. setoid_rewrite requiredString_Ok.
  assert (Hm : 0 <= MAX_WEBAUTHN_BINARY_BYTES <= MAX_WEBAUTHN_BINARY_BYTES) by done. split.
  - intros (s & [-> Hs] & H). exists s.
    destruct (decodeBase64Url (VStr s) _) as [b|] eqn:Ed; [|done]. injection H as <-.
    apply base64url_decode in Ed as (? & _ & ?); [|done]. split_and!; try done.
    intros ->. unfold len in Hs. cbn in Hs. lia.
  - intros (s & -> & Hne & Hb & He). destruct (encode_nil _ _ Hb He). exists s. split.
    + split; [done|]. destruct s; [done|]. unfold len in *. cbn [length] in *. lia.
    + assert (decodeBase64Url (VStr s) (vnum MAX_WEBAUTHN_BINARY_BYTES) = Ok bytes) as ->; [|done].
      by apply base64url_decode.
Qed.
Lemma boundedTimeout_Ok v t : boundedTimeout v = Ok t <-> Timeout v t.
Proof.
  unfold boundedTimeout, Timeout. destruct v as [| | |n| | | | | | |];
    try (destruct t; split; try done; by intros [? _]).
  destruct (is_integer n) eqn:Ei; cbn [negb orb].
  2: { destruct t as [x|]; [|done]. split; [done|]. intros ([= <-] & z & Hz & _).
       rewrite (proj2 (is_integer_spec n)) in Ei by eauto. done. }
  apply is_integer_spec in Ei as [z Hz]. rewrite (toZ_finite _ _ Hz). cbn [negb orb].
  rewrite (num_ltb_toZ _ _ _ _ Hz (num_toZ_num _)), (num_ltb_toZ _ _ _ _ (num_toZ_num _) Hz).
  destruct (Z.ltb_spec z 1), (Z.ltb_spec 120000 z); cbn [orb]; (destruct t as [x|]; split; try done);
    try (intros ([= <-] & z' & Hz' & ?); rewrite Hz in Hz'; injection Hz' as <-; lia || done).
  intros [= <-]. eauto.
Qed.

Lemma optional_word_Ok v words field w : optional_word v words field = Ok w <-> OptionalWord v words w.
Proof.
  unfold optional_word, OptionalWord.
  assert (H : forall x, (exists s, x = VStr s /\ s ∈ words) <-> includes_str words x = true)
    by (intros; by rewrite includes_str_spec).
  destruct w as [x|].
  - rewrite H. destruct v; try (destruct (includes_str words _); naive_solver); naive_solver.
  - destruct v; try (destruct (includes_str words _); naive_solver); naive_solver.
Qed.

Lemma existsb_negb_false {A} (f : A -> bool) l :
  existsb (fun x => negb (f x)) l = false <-> Forall (fun x => f x = true) l.
Proof. rewrite existsb_false_Forall. apply Forall_proper; [|done]. intros x. apply negb_false_iff. Qed.

Lemma optional_hints_Ok v h : optional_hints v = Ok h <-> Hints v h.
Proof.
  unfold optional_hints, Hints. destruct v as [| | | | | | | |slots| |];
    try (destruct h; split; try done; by intros (? & ? & _)).
  assert (Hf : (3 <? len slots) || existsb (fun h0 => negb (includes_str WORDS_HINT h0)) (present slots).*2 = false
    <-> len slots <= 3 /\ Forall (fun x => includes_str WORDS_HINT x = true) (present slots).*2)
    by (rewrite orb_false_iff, Z.ltb_ge, existsb_negb_false; done).
  destruct (_ || _) eqn:E in |- *.
  - destruct h; split; try done. intros (? & [= <-] & ? & _ & ?).
    rewrite (proj2 Hf) in E; done.
  - apply Hf in E as [? ?]. destruct h; split; try done.
    + intros [= <-]. by exists slots.
    + by intros (? & [= <-] & _ & -> & _).
Qed.
Lemma extensions_Ok v e field code : copyRecord v field code = Ok e <-> Extensions v e.
Proof.
  destruct (copyRecord_spec v field code) as [H1 H2]. destruct e; [apply H1|apply H2].
Qed.

Lemma lift_Ok {A} (m : result jserr A) a : lift m = Ok a <-> m = Ok a.
Proof. destruct m; cbn; naive_solver. Qed.
Lemma includes_String_Ok words v : includes_String words v = Ok true <-> Reads_as words v.
Proof.
  unfold includes_String, Reads_as. rewrite bind_Ok. apply exist_proper. intros s.
  rewrite <- str_in_elem. split; [by intros [? [= ->]]|by intros [? ->]].
Qed.
Lemma Reads_as_string words s : Reads_as words (VStr s) <-> s ∈ words.
Proof. unfold Reads_as. cbn. naive_solver. Qed.
Lemma some_not_included_false words l :
  some_not_included words l = Ok false <-> Forall (Reads_as words) l.
Proof.
  induction l as [|v l IH]; cbn [some_not_included]; [done|].
  rewrite bind_Ok, Forall_cons, <- includes_String_Ok. split.
  - intros ([|] & Hv & H); [|done]. split; [done|by apply IH].
  - intros [Hv Hl]. exists true. split; [done|by apply IH].
Qed.
Lemma checked_field_Ok v test f :
  checked_field v test = Ok f <-> SelectionField v (fun w => test w = Ok true) f.
Proof.
  unfold checked_field, SelectionField.
  assert (H : (ok ← lift (test v); if ok : bool then Ok (Some v) else bad_selection) = Ok f <->
     match f with None => False | Some w => w = v /\ test v = Ok true end).
  { rewrite bind_Ok. setoid_rewrite lift_Ok. split.
    - intros ([|] & ? & [= <-]). done.
    - destruct f; [|done]. intros [-> ?]. by exists true. }
  destruct v; try (rewrite H; destruct f; naive_solver). destruct f; [|done].
  split; [done|]. by intros (_ & ? & _).
Qed.

(** ** Descriptors, selections, parameters *)

Lemma Descriptor_intro v d :
  Descriptor v d <->
  v.["type"] = vstr "public-key" /\ BinaryField v.["id"] (nd_id d) /\
  match nd_transports d with
  | None => v.["transports"] = VUndef
  | Some ts => exists slots, v.["transports"] = VArr slots /\ len slots <= 5 /\
      ts = iterated slots /\
      Forall (Reads_as WORDS_TRANSPORT) (present slots).*2
  end.
Proof. split; [by intros []|intros (? & ? & ?); by constructor]. Qed.

Lemma typed_record v : v.["type"] = vstr "public-key" -> is_record v = true.
Proof. intros H. apply (is_record_get_keys v "type"). by rewrite H. Qed.

Lemma toNativeDescriptor_Ok v field d : toNativeDescriptor v field = Ok d <-> Descriptor v d.
Proof.
  rewrite Descriptor_intro. unfold toNativeDescriptor.
  destruct (is_record v) eqn:Er; cbn [negb orb].
  2: { split; [done|]. intros (Ht & _). by rewrite (typed_record _ Ht) in Er. }
  destruct (eq_str v.["type"] (js "public-key")) eqn:Et; cbn [negb].
  2: { split; [done|]. intros (Ht & _). rewrite Ht in Et. by rewrite (proj2 (eq_str_spec _ _)) in Et. }
  apply eq_str_spec in Et. rewrite bind_Ok. setoid_rewrite binaryOption_Ok.
  destruct d as [id ts]; cbn [nd_id nd_transports].
  transitivity (BinaryField v.["id"] id /\
    match ts with
    | None => v.["transports"] = VUndef
    | Some ts => exists slots, v.["transports"] = VArr slots /\ len slots <= 5 /\ ts = iterated slots /\
        Forall (Reads_as WORDS_TRANSPORT) (present slots).*2
    end); [|tauto].
  destruct (get v (js "transports")) as [| | | | | | | |slots| |] eqn:Es;
    try (split; [by intros (? & _ & ?)|destruct ts; [by intros (_ & ? & ? & _)|by intros [_ ?]]]).
  - split; [intros (id' & ? & [= <- <-]); done|]. intros [? Hts]. exists id. destruct ts; [|done].
    by destruct Hts as (? & ? & _).
  - destruct (Z.ltb_spec 5 (len slots)).
    { split; [by intros (? & _ & ?)|]. destruct ts; [|by intros [_ ?]].
      intros (_ & ? & [= <-] & ? & _). lia. }
    setoid_rewrite bind_Ok. setoid_rewrite lift_Ok. split.
    + intros (id' & ? & [|] & Hb & Hr); [done|]. injection Hr as <- <-. split; [done|].
      exists slots. by rewrite <- some_not_included_false.
    + intros [? Hts]. exists id. split; [done|]. destruct ts; [|done].
      destruct Hts as (? & [= <-] & _ & -> & Hf). exists false. by rewrite some_not_included_false.
Qed.

Lemma map_slots_Ok {A} (f : nat -> val -> web A) (R : val -> A -> Prop) i l r :
  (forall i v a, f i v = Ok a <-> R v a) -> map_slots f i l = Ok r <-> SlotWise R l r.
Proof.
  intros HR. revert i r; induction l as [|[v|] l IH]; intros i r; cbn [map_slots].
  - split; [intros [= <-]; constructor|by inversion 1].
  - rewrite bind_Ok. setoid_rewrite bind_Ok. split.
    + intros (a & Ha & r' & Hr & [= <-]). constructor; [by apply HR in Ha|by apply IH in Hr].
    + inversion 1 as [|? [a|] ? r' Ha Hr]; subst; [|done].
      exists a. split; [by apply HR|]. exists r'. split; [by apply IH|done].
  - rewrite bind_Ok. split.
    + intros (r' & Hr & [= <-]). constructor; [done|by apply IH in Hr].
    + inversion 1 as [|? [a|] ? r' Ha Hr]; subst; [done|].
      exists r'. split; [by apply IH|done].
Qed.

Lemma toNativeCredentials_Ok v field ds : toNativeCredentials v field = Ok ds <-> Descriptors v ds.
Proof.
  unfold toNativeCredentials, Descriptors.
  destruct v as [| | | | | | | |slots| |]; try (destruct ds; split; try done; by intros (? & ? & _)).
  destruct (Z.ltb_spec MAX_WEBAUTHN_CREDENTIALS (len slots)).
  { destruct ds; split; try done. intros (? & [= <-] & ? & _). lia. }
  rewrite fmap_Ok. setoid_rewrite (map_slots_Ok _ Descriptor _ _ _ (fun i v => toNativeDescriptor_Ok v _)).
  destruct ds; split; try done; try naive_solver.
Qed.

Lemma selection_keys v allowed :
  existsb (fun key => negb (str_in key allowed)) (keys v) = false <->
  Forall (fun k => k ∈ allowed) (keys v).
Proof.
  rewrite existsb_negb_false. apply Forall_proper; [|done]. intros k. apply str_in_elem.
Qed.

Lemma SelectionField_proper v P Q f :
  (forall w, w <> VUndef -> P w <-> Q w) -> SelectionField v P f <-> SelectionField v Q f.
Proof. intros H. unfold SelectionField. destruct f; [|done]. naive_solver. Qed.

Lemma selection_Ok v n : toNativeAuthenticatorSelection v = Ok n <-> Selection v n.
Proof.
  unfold toNativeAuthenticatorSelection. destruct (is_record v) eqn:Er; cbn [negb].
  2: { split; [done|]. intros []. congruence. }
  set (allowed := map js _). destruct (existsb _ (keys v)) eqn:Ek.
  { split; [done|]. intros []. by rewrite (proj2 (selection_keys v allowed)) in Ek. }
  apply selection_keys in Ek. repeat setoid_rewrite bind_Ok. repeat setoid_rewrite checked_field_Ok.
  assert (Ha : forall w, Ok (eq_str w (js "cross-platform") || eq_str w (js "platform")) = Ok (E:=jserr) true <->
    w = vstr "cross-platform" \/ w = vstr "platform").
  { intros w. unfold vstr. rewrite <- !eq_str_spec, <- orb_true_iff. split; [by intros [= ?]|by intros ->]. }
  assert (Hb : forall w, Ok (is_boolean w) = Ok (E:=jserr) true <-> exists b, w = VBool b).
  { intros w. destruct w; cbn; try (split; [done|by intros [? ?]]). naive_solver. }
  setoid_rewrite (SelectionField_proper _ _ _ _ (fun w _ => Ha w)).
  setoid_rewrite (SelectionField_proper _ _ _ _ (fun w _ => Hb w)).
  setoid_rewrite (SelectionField_proper _ _ _ _ (fun w _ => includes_String_Ok WORDS_REQUIREMENT w)).
  destruct n as [n1 n2 n3 n4]. split.
  - intros (? & ? & ? & ? & ? & ? & ? & ? & [= <- <- <- <-]). constructor; done.
  - intros []; cbn [ns_attachment ns_residentKey ns_requireResidentKey ns_userVerification] in *.
    eauto 10.
Qed.

Lemma parameter_Ok v a : credential_parameter v = Ok a <-> Parameter_ v a.
Proof.
  unfold credential_parameter, Parameter_. destruct (is_record v) eqn:Er; cbn [negb orb].
  2: { split; [done|]. intros (Ht & _). by rewrite (typed_record _ Ht) in Er. }
  destruct (eq_str v.["type"] (js "public-key")) eqn:Et; cbn [negb orb].
  2: { split; [done|]. intros (Ht & _). rewrite Ht in Et. by rewrite (proj2 (eq_str_spec _ _)) in Et. }
  apply eq_str_spec in Et.
  destruct (get v (js "alg")) as [| | |n| | | | | | |] eqn:Ea;
    try (split; [done|by intros (_ & -> & ? & ? & _)]).
  destruct (is_integer n) eqn:Ei; cbn [negb]; split; try done.
  - intros [= <-]. eauto.
  - by intros (_ & -> & _).
  - intros (_ & -> & ? & [= <-] & ?). congruence.
Qed.

(** ** Requests *)

(* setoid_rewrite must see the calls, not their bodies *)
#[local] Opaque requiredString optionalString binaryOption boundedTimeout toNativeCredentials
  optional_word optional_hints copyRecord map_slots toNativeAuthenticatorSelection.

(** Request options: the conversion of the server's JSON succeeds exactly on
    bounded, well-typed options, and the native request carries the server's
    challenge bytes, credential ids, words and extension values unchanged. *)
Theorem toNativeRequestOptions_correct o pk :
  toNativeRequestOptions o = Ok pk <-> is_record o = true /\ Request o pk.
Proof.
  unfold toNativeRequestOptions. destruct (is_record o); cbn [negb]; [|split; [done|by intros [? _]]].
  repeat setoid_rewrite bind_Ok. setoid_rewrite binaryOption_Ok. setoid_rewrite boundedTimeout_Ok.
  setoid_rewrite optionalString_Ok. setoid_rewrite toNativeCredentials_Ok.
  setoid_rewrite optional_word_Ok. setoid_rewrite optional_hints_Ok. setoid_rewrite extensions_Ok.
  destruct pk. split.
  - intros (? & ? & ? & ? & ? & ? & ? & ? & ? & ? & ? & ? & ? & ? & Heq).
    injection Heq as <- <- <- <- <- <- <-. split; [done|]. by constructor.
  - intros [_ []]. repeat (eexists; split; [eassumption|]). done.
Qed.

Lemma rp_Ok rp r : native_rp_of rp = Ok r <->
  StringField rp.["name"] 256 (rp_name r) /\ OptionalString rp.["id"] 253 (rp_id r) /\
  OptionalString rp.["icon"] 2048 (rp_icon r).
Proof.
  unfold native_rp_of. repeat setoid_rewrite bind_Ok. setoid_rewrite requiredString_Ok.
  repeat setoid_rewrite optionalString_Ok. destruct r; cbn. split.
  - intros (? & ? & ? & ? & ? & ? & [= <- <- <-]). done.
  - intros (? & ? & ?). eauto 10.
Qed.
Lemma user_Ok user u : native_user_of user = Ok u <->
  BinaryField user.["id"] (user_id u) /\ StringField user.["name"] 320 (user_name u) /\
  StringField user.["displayName"] 256 (user_displayName u) /\
  OptionalString user.["icon"] 2048 (user_icon u).
Proof.
  unfold native_user_of. repeat setoid_rewrite bind_Ok. setoid_rewrite binaryOption_Ok.
  repeat setoid_rewrite requiredString_Ok. setoid_rewrite optionalString_Ok. destruct u; cbn. split.
  - intros (? & ? & ? & ? & ? & ? & ? & ? & Heq). injection Heq as <- <- <- <-. done.
  - intros (? & ? & ? & ?). eauto 12.
Qed.
Lemma string_record v k m s : StringField v.[k] m s -> is_record v = true.
Proof. intros [H _]. apply (is_record_get_keys v k). by rewrite H. Qed.
Lemma binary_record v k b : BinaryField v.[k] b -> is_record v = true.
Proof. intros (s & H & _). apply (is_record_get_keys v k). by rewrite H. Qed.

Lemma optional_selection_Ok v n :
  optional_selection v = Ok n <->
  match n with None => v = VUndef | Some n => Selection v n end.
Proof.
  assert (H : (Some <$> toNativeAuthenticatorSelection v) = Ok n <->
    match n with None => False | Some n => Selection v n end).
  { rewrite fmap_Ok. setoid_rewrite selection_Ok. destruct n; naive_solver. }
  unfold optional_selection.
  destruct v; try (rewrite H; destruct n; naive_solver). destruct n; split; try done.
  intros []. done.
Qed.

#[local] Opaque native_rp_of native_user_of optional_selection.

(** C14. Creation options: the conversion succeeds exactly on the options [Creation]
    describes - the server's challenge, user handle and credential ids as canonical
    base64url, carried byte for byte; bounded strings, timeout, 1 to 32 parameters with
    integer algorithms, at most 64 excluded credentials, a known attestation word, known
    hints, a bounded extension record, copied - and gives the native request related to
    them.  Three kinds of word are tested more loosely than their types say: for
    residentKey, userVerification and the transports the value must only convert by
    [String] to a permitted word, and the value itself is passed on, so an array holding
    one word is accepted ([selection_word_not_string]); for a value that is a string the
    test is membership ([Reads_as_string]). *)
Theorem toNativeCreationOptions_correct o pk :
  toNativeCreationOptions o = Ok pk <-> Creation o pk.
Proof.
  unfold toNativeCreationOptions. destruct (is_record o) eqn:Eo; cbn [negb].
  2: { split; [done|]. intros []. by rewrite (binary_record _ _ _ cr_challenge0) in Eo. }
  destruct (is_record o.["rp"]) eqn:Er; cbn [negb orb].
  2: { split; [done|]. intros []. by rewrite (string_record _ _ _ _ cr_rp_name0) in Er. }
  destruct (is_record o.["user"]) eqn:Eu; cbn [negb].
  2: { split; [done|]. intros []. by rewrite (binary_record _ _ _ cr_user_id0) in Eu. }
  destruct (get o (js "pubKeyCredParams")) as [| | | | | | | |slots| |] eqn:Es;
    try (split; [done|intros []; destruct cr_params0 as (? & ? & _); congruence]).
  destruct (Z.eqb_spec (len slots) 0), (Z.ltb_spec 32 (len slots)); cbn [orb];
    try (split; [done|intros []; destruct cr_params0 as (? & Hs & ? & _); rewrite Es in Hs;
      injection Hs as <-; lia]).
  repeat setoid_rewrite bind_Ok. setoid_rewrite binaryOption_Ok. setoid_rewrite rp_Ok.
  setoid_rewrite user_Ok. setoid_rewrite boundedTimeout_Ok. setoid_rewrite toNativeCredentials_Ok.
  setoid_rewrite optional_word_Ok. setoid_rewrite optional_hints_Ok. setoid_rewrite extensions_Ok.
  setoid_rewrite optional_selection_Ok.
  setoid_rewrite (map_slots_Ok _ Parameter_ _ _ _ (fun _ v => parameter_Ok v)).
  destruct pk. split.
  - intros (? & ? & ? & (? & ? & ?) & ? & (? & ? & ? & ?) & ? & ? & ? & ? & ? & ? & ? & ? & ? & ? & ? & ? & ? & ? & Heq).
    injection Heq as <- <- <- <- <- <- <- <- <- <-. constructor; try done.
    exists slots. cbn. split_and!; try done. unfold len in *. lia.
  - intros []. cbn in *. destruct cr_params0 as (sl & Hsl & _ & Hp). rewrite Es in Hsl. injection Hsl as <-.
    repeat (eexists; split; [eassumption || (split_and!; eassumption)|]). done.
Qed.

(** ** Concrete options *)

Definition sample_creation : val :=
  vobj [("challenge", vstr "AAEC"); ("rp", vobj [("name", vstr "Bank")]);
        ("user", vobj [("id", vstr "_w"); ("name", vstr "alice"); ("displayName", vstr "Alice")]);
        ("pubKeyCredParams", varr [vobj [("type", vstr "public-key"); ("alg", vnum (-7))]])]%string.
Example sample_creation_converts :
  exists pk, toNativeCreationOptions sample_creation = Ok pk /\ c_challenge pk = [0; 1; 2] /\
    user_id (c_user pk) = [255].
Proof. eexists. split; [vm_compute; reflexivity|]. vm_compute. done. Qed.

(** The words of the authenticator selection are tested after conversion to a
    string, the value itself is passed on: an array holding one permitted word is
    accepted, and the native request then carries the array, not a word. *)
Theorem selection_word_not_string :
  exists n, toNativeAuthenticatorSelection (vobj [("residentKey", varr [vstr "required"])]%string) = Ok n /\
    ns_residentKey n = Some (varr [vstr "required"]).
Proof. eexists. split; [vm_compute; reflexivity|]. done. Qed.
