(* ===== verification/WebCredentials.v ===== *)
(** * packages/web/src/index.ts: credentials and the two ceremonies

    Serialisation of browser credentials, the environment and mode tests, and
    [createPasskey] / [getPasskey].  A property of a host object is modelled by
    the outcome of reading it, the same at every read. *)

From S2P Require Import Prelude JsNumber Regex JsValue WebEncoding WebOptions.
Open Scope js_scope.

(** ** Host objects *)

Definition MAX_WEBAUTHN_CREDENTIAL_ID_LENGTH : Z := 2048.

(** A response object; [r_getTransports] is [None] when it is not a function,
    else the outcome of calling it. *)
Record WebAuthnResponse := {
  r_is_record : bool;
  r_clientDataJSON : web val;
  r_attestationObject : web val;
  r_getTransports : web (option (web val));
  r_authenticatorData : web val;
  r_signature : web val;
  r_userHandle : web val;
}.
Record WebAuthnCredential := {
  k_id : web val;
  k_rawId : web val;
  k_type : web val;
  k_response : web WebAuthnResponse;
  k_authenticatorAttachment : web val;
  k_getClientExtensionResults : web val;
}.
(** A function-valued slot: the outcome of [typeof x === "function"]. *)
Record WebAuthnCredentialApi := { a_create : web bool; a_get : web bool }.
Record WebAuthnEnvironment := {
  e_isSecureContext : web val;
  e_hasPublicKeyCredential : web val;
  e_credentials : web (option WebAuthnCredentialApi);
}.

(** ToBoolean. *)
Definition to_boolean (v : val) : bool :=
  match v with
  | VUndef | VNull => false
  | VBool b => b
  | VNum NaN => false
  | VNum n => negb (num_eqb n (num 0))
  | VStr s => match s with [] => false | _ => true end
  | VBigInt z => negb (z =? 0)
  | _ => true
  end.
Definition isArrayBuffer (v : val) : bool := match v with VBuf _ => true | _ => false end.

(** ** Serialisation *)

Definition encodedCredentialBinary (value : val) (field : jsstr) : web jsstr :=
  let bad := client invalid_credential (js "WebAuthn " ++ field ++ js " is too large or invalid") in
  match value with
  | VBuf bytes =>
      if MAX_WEBAUTHN_BINARY_BYTES <? len bytes then bad
      else encodeBase64Url (BArrayBuffer bytes)
  | _ => bad
  end.

Definition bad_extensions {A} : web A :=
  client invalid_credential (js "WebAuthn extension results are invalid").
(** [copyRecord(..)!] on a record never yields undefined. *)
Definition extensionResults (credential : WebAuthnCredential) : web val :=
  match k_getClientExtensionResults credential with
  | Throw _ => bad_extensions
  | Ok value =>
      if negb (is_record value) then bad_extensions else
      default VUndef <$> copyRecord value (js "WebAuthn extension results") invalid_credential
  end.

(** [b_attachment] is absent when the credential has none. *)
Record base_credential := {
  b_id : jsstr;
  b_rawId : jsstr;
  b_attachment : option val;
  b_extensions : val;
}.
Definition bad_credential {A} : web A := client invalid_credential (js "WebAuthn credential is invalid").
Definition baseCredential (credential : WebAuthnCredential) : web base_credential :=
  id ← k_id credential;
  match id with
  | VStr id =>
      if (len id =? 0) || (MAX_WEBAUTHN_CREDENTIAL_ID_LENGTH <? len id) then bad_credential else
      type ← k_type credential;
      if negb (eq_str type (js "public-key")) then bad_credential else
      raw ← k_rawId credential;
      if negb (isArrayBuffer raw) then bad_credential else
      rawId ← encodedCredentialBinary raw (js "credential rawId");
      extensions ← extensionResults credential;
      attachment ← k_authenticatorAttachment credential;
      if negb (is_undefined attachment || is_null attachment || eq_str attachment (js "platform")
               || eq_str attachment (js "cross-platform"))
      then client invalid_credential (js "WebAuthn authenticator attachment is invalid")
      else Ok {| b_id := id; b_rawId := rawId; b_extensions := extensions;
                 b_attachment := if is_undefined attachment then None else Some attachment |}
  | _ => bad_credential
  end.

Record SerializedRegistrationCredential := {
  sr_base : base_credential;
  sr_clientDataJSON : jsstr;
  sr_attestationObject : jsstr;
  sr_transports : option (list val);
}.
Record SerializedAssertionCredential := {
  sa_base : base_credential;
  sa_clientDataJSON : jsstr;
  sa_authenticatorData : jsstr;
  sa_signature : jsstr;
  sa_userHandle : option jsstr;     (* [null] is [None] *)
}.

(** The [catch] of the two serialisers. *)
Definition or_invalid_credential {A} (m : web A) : web A :=
  try_catch m (fun error =>
    Throw (normalizeWebAuthnError error invalid_credential (js "WebAuthn credential is invalid"))).

(** [isArrayBuffer(o.k)] in a [||] chain. *)
Definition buffer_field (read : web val) (message : jsstr) : web val :=
  v ← read; if isArrayBuffer v then Ok v else client invalid_credential message.

Definition serializeRegistrationCredential (credential : WebAuthnCredential)
    : web SerializedRegistrationCredential :=
  or_invalid_credential (
    response ← k_response credential;
    let bad := js "WebAuthn registration response is invalid" in
    if negb (r_is_record response) then client invalid_credential bad else
    clientData ← buffer_field (r_clientDataJSON response) bad;
    attestation ← buffer_field (r_attestationObject response) bad;
    base ← baseCredential credential;
    clientDataJSON ← encodedCredentialBinary clientData (js "clientDataJSON");
    attestationObject ← encodedCredentialBinary attestation (js "attestationObject");
    getTransports ← r_getTransports response;
    match getTransports with
    | None =>
        Ok {| sr_base := base; sr_clientDataJSON := clientDataJSON;
              sr_attestationObject := attestationObject; sr_transports := None |}
    | Some call =>
        transports ← call;
        let bad := client invalid_credential (js "WebAuthn registration transports are invalid") in
        match transports with
        | VArr slots =>
            if (5 <? len slots) || existsb (fun t => negb (includes_str WORDS_TRANSPORT t)) (present slots).*2
            then bad
            else Ok {| sr_base := base; sr_clientDataJSON := clientDataJSON;
                       sr_attestationObject := attestationObject;
                       sr_transports := Some (iterated slots) |}
        | _ => bad
        end
    end).

Definition serializeAssertionCredential (credential : WebAuthnCredential)
    : web SerializedAssertionCredential :=
  or_invalid_credential (
    response ← k_response credential;
    let bad := js "WebAuthn assertion response is invalid" in
    if negb (r_is_record response) then client invalid_credential bad else
    clientData ← buffer_field (r_clientDataJSON response) bad;
    authenticator ← buffer_field (r_authenticatorData response) bad;
    sig ← buffer_field (r_signature response) bad;
    handle ← r_userHandle response;
    if negb (is_null handle || isArrayBuffer handle) then client invalid_credential bad else
    base ← baseCredential credential;
    clientDataJSON ← encodedCredentialBinary clientData (js "clientDataJSON");
    authenticatorData ← encodedCredentialBinary authenticator (js "authenticatorData");
    signature ← encodedCredentialBinary sig (js "signature");
    userHandle ← (if is_null handle then Ok None
                  else Some <$> encodedCredentialBinary handle (js "userHandle"));
    Ok {| sa_base := base; sa_clientDataJSON := clientDataJSON;
          sa_authenticatorData := authenticatorData; sa_signature := signature;
          sa_userHandle := userHandle |}).

(** ** Environment and mode *)

Inductive WebAuthnSupportReason :=
  | reason_insecure_context | reason_public_key_api_unavailable | reason_credential_api_unavailable.
Record WebAuthnSupport := { available : bool; reason : option WebAuthnSupportReason }.

(** The globals the default environment reads; [g_credentials] is
    [navigator?.credentials]. *)
Record browser := {
  g_isSecureContext : web val;
  g_PublicKeyCredential : web bool;
  g_credentials : web (option WebAuthnCredentialApi);
}.
Definition getDefaultWebAuthnEnvironment (b : browser) : WebAuthnEnvironment :=
  let env : web WebAuthnEnvironment :=
    container ← g_credentials b;
    credentials ← match container with
                  | None => Ok None
                  | Some api =>
                      c ← a_create api;
                      if negb c then Ok None else
                      g ← a_get api;
                      Ok (if g : bool then Some {| a_create := Ok true; a_get := Ok true |} else None)
                  end;
    secure ← g_isSecureContext b;
    has ← g_PublicKeyCredential b;
    Ok {| e_isSecureContext := Ok (VBool (eq_bool secure true));
          e_hasPublicKeyCredential := Ok (VBool has);
          e_credentials := Ok credentials |} in
  match env with
  | Ok e => e
  | Throw _ => {| e_isSecureContext := Ok (VBool false);
                  e_hasPublicKeyCredential := Ok (VBool false); e_credentials := Ok None |}
  end.

Definition unsupported_for (r : WebAuthnSupportReason) : WebAuthnSupport :=
  {| available := false; reason := Some r |}.
Definition detectWebAuthnSupport (environment : WebAuthnEnvironment) : WebAuthnSupport :=
  let tests : web WebAuthnSupport :=
    secure ← e_isSecureContext environment;
    if negb (to_boolean secure) then Ok (unsupported_for reason_insecure_context) else
    has ← e_hasPublicKeyCredential environment;
    if negb (to_boolean has) then Ok (unsupported_for reason_public_key_api_unavailable) else
    credentials ← e_credentials environment;
    match credentials with
    | None => Ok (unsupported_for reason_credential_api_unavailable)
    | Some api =>
        c ← a_create api;
        if negb c then Ok (unsupported_for reason_credential_api_unavailable) else
        g ← a_get api;
        if negb g then Ok (unsupported_for reason_credential_api_unavailable) else
        Ok {| available := true; reason := None |}
    end in
  match tests with
  | Ok support => support
  | Throw _ => unsupported_for reason_credential_api_unavailable
  end.

Definition assertWebAuthnMode (mode : val) (environment : WebAuthnEnvironment)
    (lowerAssuranceFallbackAcknowledged : val) : web unit :=
  if negb (eq_str mode (js "passkey")) && negb (eq_str mode (js "custom-keypad-fallback"))
  then client invalid_mode (js "WebAuthn mode is invalid") else
  if eq_str mode (js "custom-keypad-fallback") then
    if negb (to_boolean lowerAssuranceFallbackAcknowledged)
    then client fallback_not_acknowledged
           (js "The lower-assurance web keypad fallback requires explicit acknowledgement") else
    let isSecureContext :=
      match e_isSecureContext environment with Ok v => eq_bool v true | Throw _ => false end in
    if negb isSecureContext
    then client insecure_context (js "A secure context is required for web keypad fallback")
    else Ok tt
  else
    let support := detectWebAuthnSupport environment in
    if available support then Ok tt else
    client (match reason support with
            | Some reason_insecure_context => insecure_context
            | _ => unsupported
            end) (js "Passkey WebAuthn is unavailable in this environment").

(** ** The two ceremonies *)

Definition aborted_message : jsstr := js "WebAuthn credential operation was aborted".
(** [signal?.aborted] as one reading of it. *)
Definition throwIfAborted (reading : web val) : web unit :=
  v ← reading; if to_boolean v then client aborted aborted_message else Ok tt.

(** What the host does in one ceremony: the answer of the credential API to the
    request, and [signal?.aborted] when read before the call, after it, and in the
    [catch] block. *)
Record ceremony_host P := {
  answer : P -> web (option WebAuthnCredential);
  aborted_before : web val;
  aborted_after : web val;
  aborted_in_catch : web val;
}.
Arguments answer {_} _.
Arguments aborted_before {_} _.
Arguments aborted_after {_} _.
Arguments aborted_in_catch {_} _.

Section ceremony.
Context {P S : Type} (toNative : val -> web P) (serialize : WebAuthnCredential -> web S).

(** The request handed to the credential API, if it was called, and the
    settlement of the returned promise. *)
Definition ceremony (options : val) (environment : WebAuthnEnvironment) (host : ceremony_host P)
    : option P * web S :=
  match _ ← assertWebAuthnMode (vstr "passkey") environment (VBool false);
        throwIfAborted (aborted_before host) with
  | Throw e => (None, Throw e)
  | Ok _ =>
      let failed e := _ ← throwIfAborted (aborted_in_catch host);
        Throw (normalizeWebAuthnError e credential_api_failure (js "WebAuthn credential operation failed")) in
      match toNative options with
      | Throw e => (None, failed e)
      | Ok publicKey =>
          (Some publicKey,
           match credential ← answer host publicKey;
                 _ ← throwIfAborted (aborted_after host);
                 match credential with
                 | None => client no_credential (js "WebAuthn did not return a credential")
                 | Some c => serialize c
                 end with
           | Ok s => Ok s
           | Throw e => failed e
           end)
      end
  end.
End ceremony.

Definition createPasskey := ceremony toNativeCreationOptions serializeRegistrationCredential.
Definition getPasskey := ceremony toNativeRequestOptions serializeAssertionCredential.

(** ** What they send and how they end *)

From S2P Require Import WebEncodingProps WebOptionsProps WebOptionsSpec.

(** ** The server decodes what the authenticator produced *)

(** The bytes a host buffer holds are bytes. *)
Definition holds_bytes (read : web val) : Prop :=
  forall bytes, read = Ok (VBuf bytes) -> Forall is_byte bytes.
Record byte_credential (c : WebAuthnCredential) : Prop := {
  bc_raw : holds_bytes (k_rawId c);
  bc_response : forall r, k_response c = Ok r ->
    holds_bytes (r_clientDataJSON r) /\ holds_bytes (r_attestationObject r) /\
    holds_bytes (r_authenticatorData r) /\ holds_bytes (r_signature r) /\ holds_bytes (r_userHandle r);
}.
(** A string field of the envelope decodes to the buffer read from the host. *)
Definition carries (s : jsstr) (read : web val) : Prop :=
  exists bytes, read = Ok (VBuf bytes) /\
    decodeBase64Url (VStr s) (vnum MAX_WEBAUTHN_BINARY_BYTES) = Ok bytes.

Lemma encodedCredentialBinary_carries read v field s :
  holds_bytes read -> read = Ok v -> encodedCredentialBinary v field = Ok s -> carries s read.
Proof.
  intros Hb -> He. destruct v as [| | | | | | | | | |bytes]; try done.
  exists bytes. split; [done|]. unfold encodedCredentialBinary in He.
  destruct (Z.ltb_spec MAX_WEBAUTHN_BINARY_BYTES (len bytes)); [done|].
  apply base64url_decode; [done|]. split_and!; [by apply Hb|done|done].
Qed.

Lemma or_invalid_Ok {A} (m : web A) a : or_invalid_credential m = Ok a -> m = Ok a.
Proof. by destruct m. Qed.
Lemma buffer_field_Ok read message v : buffer_field read message = Ok v -> read = Ok v.
Proof. unfold buffer_field. destruct read as [w|]; [|done]. cbn. destruct (isArrayBuffer w); [congruence|done]. Qed.

(** The fields shared by the two envelopes. *)
Record Base (c : WebAuthnCredential) (b : base_credential) : Prop := {
  base_id : k_id c = Ok (VStr (b_id b)) /\ 0 < len (b_id b) <= MAX_WEBAUTHN_CREDENTIAL_ID_LENGTH;
  base_type : k_type c = Ok (vstr "public-key");
  base_raw : carries (b_rawId b) (k_rawId c);
  base_attachment : exists a, k_authenticatorAttachment c = Ok a /\
    match b_attachment b with
    | None => a = VUndef
    | Some w => w = a /\ (a = VNull \/ a = vstr "platform" \/ a = vstr "cross-platform")
    end;
  base_extensions : exists v, k_getClientExtensionResults c = Ok v /\ is_record v = true /\
    ext_ok 0 v = true /\ b_extensions b = ext_norm v;
}.

Lemma extensionResults_Ok c w :
  extensionResults c = Ok w -> exists v, k_getClientExtensionResults c = Ok v /\
    is_record v = true /\ ext_ok 0 v = true /\ w = ext_norm v.
Proof.
  unfold extensionResults. destruct (k_getClientExtensionResults c) as [v|]; [|done].
  destruct (is_record v) eqn:Er; cbn [negb]; [|done].
  rewrite fmap_Ok. intros ([x|] & Hx & ->).
  - apply copyRecord_spec in Hx as (? & ? & _ & ->). by exists v.
  - apply copyRecord_spec in Hx as ->. done.
Qed.

Lemma baseCredential_Ok c b : holds_bytes (k_rawId c) -> baseCredential c = Ok b -> Base c b.
Proof.
  intros Hb. unfold baseCredential. destruct (k_id c) as [[| | | |id| | | | | |]|] eqn:Ei; try done.
  cbn [mbind result_bind].
  destruct (Z.eqb_spec (len id) 0) as [|Hne], (Z.ltb_spec MAX_WEBAUTHN_CREDENTIAL_ID_LENGTH (len id)) as [|Hle]; try done.
  cbn [orb]. intros HH. apply bind_Ok in HH as (ty & Hty & HH). rename HH into H.
  destruct (eq_str ty (js "public-key")) eqn:Ety; [|done]. apply eq_str_spec in Ety as ->.
  cbn [negb] in H. apply bind_Ok in H as (raw & Hraw & H).
  destruct (isArrayBuffer raw) eqn:Ea; [|done]. cbn [negb] in H.
  apply bind_Ok in H as (rawId & He & H). apply bind_Ok in H as (ex & Hex & H).
  apply bind_Ok in H as (att & Hatt & H).
  destruct (negb _) eqn:En; [done|]. injection H as <-.
  constructor; cbn [b_id b_rawId b_attachment b_extensions].
  - split; [done|]. unfold len in *. lia.
  - done.
  - by eapply encodedCredentialBinary_carries.
  - exists att. split; [done|]. apply negb_false_iff in En.
    destruct (is_undefined att) eqn:Eu; [by apply is_undefined_spec|].
    cbn [orb] in En. rewrite !orb_true_iff, !eq_str_spec in En. split; [done|].
    destruct En as [[En| ->]| ->]; [left|by right; left|by right; right]. by destruct att.
  - by apply extensionResults_Ok.
Qed.

(** Registration: a serialised credential is the browser's, field for field. The
    identifier is unchanged and bounded, the type is public-key, every base64url
    field decodes to exactly the buffer the authenticator returned, the extension
    results are the bounded copy, and the transports are known words. *)
Theorem serializeRegistrationCredential_faithful c s :
  byte_credential c -> serializeRegistrationCredential c = Ok s ->
  Base c (sr_base s) /\ exists r, k_response c = Ok r /\
    carries (sr_clientDataJSON s) (r_clientDataJSON r) /\
    carries (sr_attestationObject s) (r_attestationObject r) /\
    match sr_transports s with
    | None => r_getTransports r = Ok None
    | Some ts => exists slots, r_getTransports r = Ok (Some (Ok (VArr slots))) /\
        ts = iterated slots /\ len slots <= 5 /\
        Forall (fun t => includes_str WORDS_TRANSPORT t = true) (present slots).*2
    end.
Proof.
  intros [Hraw Hresp] H. unfold serializeRegistrationCredential in H. apply or_invalid_Ok in H.
  apply bind_Ok in H as (r & Hr & H). destruct (Hresp r Hr) as (Hcd & Hao & _).
  destruct (r_is_record r); [|done]. cbn [negb] in H.
  apply bind_Ok in H as (cd & Ecd & H). apply bind_Ok in H as (ao & Eao & H).
  apply bind_Ok in H as (base & Ebase & H). apply bind_Ok in H as (cds & Ecds & H).
  apply bind_Ok in H as (aos & Eaos & H). apply bind_Ok in H as (gt & Egt & H).
  apply buffer_field_Ok in Ecd, Eao. apply baseCredential_Ok in Ebase; [|done].
  pose proof (encodedCredentialBinary_carries _ _ _ _ Hcd Ecd Ecds).
  pose proof (encodedCredentialBinary_carries _ _ _ _ Hao Eao Eaos).
  destruct gt as [call|].
  - apply bind_Ok in H as (ts & Ets & H). destruct ts as [| | | | | | | |slots| |]; try done.
    destruct (_ || _) eqn:Et in H; [done|]. injection H as <-.
    apply orb_false_iff in Et as [?%Z.ltb_ge ?%existsb_negb_false].
    split; [done|]. exists r. split_and!; [done..|]. cbn. subst call. by exists slots.
  - injection H as <-. split; [done|]. exists r. done.
Qed.

(** Authentication: likewise for assertions; a null user handle is carried as null. *)
Lemma serializeAssertionCredential_faithful c s :
  byte_credential c -> serializeAssertionCredential c = Ok s ->
  Base c (sa_base s) /\ exists r, k_response c = Ok r /\
    carries (sa_clientDataJSON s) (r_clientDataJSON r) /\
    carries (sa_authenticatorData s) (r_authenticatorData r) /\
    carries (sa_signature s) (r_signature r) /\
    match sa_userHandle s with
    | None => r_userHandle r = Ok VNull
    | Some h => carries h (r_userHandle r)
    end.
Proof.
  intros [Hraw Hresp] H. unfold serializeAssertionCredential in H. apply or_invalid_Ok in H.
  apply bind_Ok in H as (r & Hr & H). destruct (Hresp r Hr) as (Hcd & _ & Had & Hsg & Huh).
  destruct (r_is_record r); [|done]. cbn [negb] in H.
  apply bind_Ok in H as (cd & Ecd & H). apply bind_Ok in H as (ad & Ead & H).
  apply bind_Ok in H as (sg & Esg & H). apply bind_Ok in H as (uh & Euh & H).
  destruct (is_null uh || isArrayBuffer uh) eqn:Ek; cbn [negb] in H; [|done].
  apply bind_Ok in H as (base & Ebase & H). apply bind_Ok in H as (cds & Ecds & H).
  apply bind_Ok in H as (ads & Eads & H). apply bind_Ok in H as (sgs & Esgs & H).
  apply bind_Ok in H as (uhs & Euhs & H). injection H as <-.
  apply buffer_field_Ok in Ecd, Ead, Esg. apply baseCredential_Ok in Ebase; [|done].
  cbn. split; [done|]. exists r.
  split_and!; [done|by eapply encodedCredentialBinary_carries..|].
  destruct (is_null uh) eqn:En.
  - injection Euhs as <-. by destruct uh.
  - apply fmap_Ok in Euhs as (x & Hx & ->). by eapply encodedCredentialBinary_carries.
Qed.

Definition sample_response : WebAuthnResponse := {|
  r_is_record := true; r_clientDataJSON := Ok (VBuf [123; 125]); r_attestationObject := Ok (VBuf [160]);
  r_getTransports := Ok (Some (Ok (varr [vstr "internal"])));
  r_authenticatorData := Ok (VBuf [1; 2; 3]); r_signature := Ok (VBuf [48]); r_userHandle := Ok VNull |}.
Definition sample_credential : WebAuthnCredential := {|
  k_id := Ok (vstr "_w"); k_rawId := Ok (VBuf [255]); k_type := Ok (vstr "public-key");
  k_response := Ok sample_response; k_authenticatorAttachment := Ok (vstr "platform");
  k_getClientExtensionResults := Ok (vobj []) |}.
Lemma sample_byte_credential : byte_credential sample_credential.
Proof.
  assert (H : forall bytes, Forall is_byte bytes -> holds_bytes (Ok (VBuf bytes)))
    by (intros bytes Hb ? [= <-]; done).
  constructor; [|intros r [= <-]; split_and!; try done]; apply H;
    repeat (constructor; [unfold is_byte; lia|]); constructor.
Qed.

Lemma serializeRegistrationCredential_faithful_witness :
  exists s, serializeRegistrationCredential sample_credential = Ok s /\
    carries (b_rawId (sr_base s)) (Ok (VBuf [255])).
Proof.
  eexists. split; [vm_compute; reflexivity|].
  refine (base_raw _ _ (proj1 (serializeRegistrationCredential_faithful sample_credential _
    sample_byte_credential _))). vm_compute. reflexivity.
Defined.
Lemma serializeAssertionCredential_faithful_witness :
  exists s, serializeAssertionCredential sample_credential = Ok s /\
    carries (b_rawId (sa_base s)) (Ok (VBuf [255])).
Proof.
  eexists. split; [vm_compute; reflexivity|].
  refine (base_raw _ _ (proj1 (serializeAssertionCredential_faithful sample_credential _
    sample_byte_credential _))). vm_compute. reflexivity.
Defined.
