(* ===== verification/WebErrors.v ===== *)
(** * The errors and the gate of the two ceremonies

    Every rejection of [createPasskey] and [getPasskey] is the package's own error
    with a message of the source text: no option value, host exception or
    credential byte reaches it. *)

From S2P Require Import Prelude JsNumber Regex JsValue WebEncoding WebOptions WebCredentials.
Open Scope js_scope.

(** ** The messages of the source *)

Definition fixed_messages : list jsstr := map js
  ["Binary WebAuthn data is invalid"; "WebAuthn binary data is too large";
   "Base64url WebAuthn data is invalid"; "Base64url WebAuthn data is not canonical";
   "WebAuthn options are invalid"; "WebAuthn timeout is invalid";
   "WebAuthn authenticatorSelection is invalid"; "WebAuthn hints are invalid";
   "WebAuthn attestation is invalid"; "WebAuthn userVerification is invalid";
   "WebAuthn pubKeyCredParams is invalid"; "WebAuthn challenge is invalid";
   "WebAuthn rp.name is invalid"; "WebAuthn rp.id is invalid"; "WebAuthn rp.icon is invalid";
   "WebAuthn user.id is invalid"; "WebAuthn user.name is invalid";
   "WebAuthn user.displayName is invalid"; "WebAuthn user.icon is invalid";
   "WebAuthn rpId is invalid"; "WebAuthn excludeCredentials is invalid";
   "WebAuthn allowCredentials is invalid"; "WebAuthn extensions is invalid";
   "extensions is too complex"; "extensions is too large"; "extensions is invalid";
   "extensions has too many keys"; "extensions has an invalid key";
   "WebAuthn extension results are invalid"; "WebAuthn WebAuthn extension results is invalid";
   "WebAuthn extension results is too complex"; "WebAuthn extension results is too large";
   "WebAuthn extension results is invalid"; "WebAuthn extension results has too many keys";
   "WebAuthn extension results has an invalid key"; "WebAuthn credential is invalid";
   "WebAuthn credential rawId is too large or invalid";
   "WebAuthn clientDataJSON is too large or invalid";
   "WebAuthn attestationObject is too large or invalid";
   "WebAuthn authenticatorData is too large or invalid";
   "WebAuthn signature is too large or invalid"; "WebAuthn userHandle is too large or invalid";
   "WebAuthn authenticator attachment is invalid"; "WebAuthn registration response is invalid";
   "WebAuthn registration transports are invalid"; "WebAuthn assertion response is invalid";
   "WebAuthn credential operation was aborted"; "WebAuthn credential operation failed";
   "WebAuthn did not return a credential"; "Passkey WebAuthn is unavailable in this environment"]%string.

(** A constant, or a constant around the index of a credential descriptor. *)
Inductive source_message : jsstr -> Prop :=
  | fixed_message m : m ∈ fixed_messages -> source_message m
  | indexed_message list_name i part :
      list_name ∈ map js ["excludeCredentials"; "allowCredentials"]%string ->
      part ∈ map js [""; ".id"; ".transports"]%string ->
      source_message (webauthn_invalid (list_name ++ js "[" ++ dec_nat i ++ js "]" ++ part)).

Definition stable (e : web_error) : Prop :=
  match e with ClientError _ m => source_message m | _ => True end.
(** All the errors a computation may throw are stable. *)
Definition throws_stable {A} (m : web A) : Prop := forall e, m = Throw e -> stable e.

(** ** Composition *)

Lemma throws_Ok {A} (a : A) : throws_stable (Ok a).
Proof. done. Qed.
Lemma throws_client {A} code m : source_message m -> throws_stable (client (A:=A) code m).
Proof. by intros ? ? [= <-]. Qed.
Lemma throws_bind {A B} (m : web A) (f : A -> web B) :
  throws_stable m -> (forall a, throws_stable (f a)) -> throws_stable (m ≫= f).
Proof. intros Hm Hf e. destruct m as [a|e']; cbn; [apply Hf|]. intros [= <-]. by apply Hm. Qed.
Lemma throws_bind_eq {A B} (m : web A) (f : A -> web B) :
  throws_stable m -> (forall a, m = Ok a -> throws_stable (f a)) -> throws_stable (m ≫= f).
Proof. intros Hm Hf e. destruct m as [a|e']; cbn; [by apply Hf|]. intros [= <-]. by apply Hm. Qed.
Lemma throws_fmap {A B} (m : web A) (f : A -> B) : throws_stable m -> throws_stable (f <$> m).
Proof. intros Hm e. destruct m as [a|e']; cbn; [done|]. intros [= <-]. by apply Hm. Qed.
Lemma throws_lift {A} (m : result jserr A) : throws_stable (lift m).
Proof. intros e. destruct m; cbn; [done|]. by intros [= <-]. Qed.
Lemma throws_if {A} (b : bool) (m n : web A) : throws_stable m -> throws_stable n -> throws_stable (if b then m else n).
Proof. by destruct b. Qed.

Lemma fixed_check m : bool_decide (m ∈ fixed_messages) = true -> source_message m.
Proof. intros H%bool_decide_eq_true. by constructor. Qed.

Create HintDb throws discriminated.
#[export] Hint Resolve throws_Ok throws_client throws_bind throws_fmap throws_lift throws_if : throws.
#[export] Hint Extern 5 (source_message _) => (apply fixed_check; vm_compute; reflexivity) : throws.

(** ** Each operation *)

Lemma throws_requiredString v field m :
  source_message (webauthn_invalid field) -> throws_stable (requiredString v field m).
Proof. intros H. unfold requiredString, invalidOptions. destruct v; auto with throws. Qed.
Lemma throws_optionalString v field m :
  source_message (webauthn_invalid field) -> throws_stable (optionalString v field m).
Proof.
  intros H. unfold optionalString.
  destruct v; auto using throws_requiredString with throws.
Qed.
Lemma throws_binaryOption v field :
  source_message (webauthn_invalid field) -> throws_stable (binaryOption v field).
Proof.
  intros H. unfold binaryOption, invalidOptions. apply throws_bind; [by apply throws_requiredString|].
  intros s. destruct (decodeBase64Url _ _); auto with throws.
Qed.
Lemma throws_boundedTimeout v : throws_stable (boundedTimeout v).
Proof. unfold boundedTimeout, invalidOptions. destruct v; auto with throws. Qed.
Lemma throws_checked_field v test : throws_stable (checked_field v test).
Proof. unfold checked_field, bad_selection, invalidOptions. destruct v; auto with throws. Qed.
Lemma throws_selection v : throws_stable (optional_selection v).
Proof.
  unfold optional_selection, toNativeAuthenticatorSelection, bad_selection, invalidOptions.
  destruct v; auto 12 using throws_checked_field with throws.
Qed.
Lemma throws_hints v : throws_stable (optional_hints v).
Proof. unfold optional_hints, invalidOptions. destruct v; auto with throws. Qed.
Lemma throws_word v words field :
  source_message (webauthn_invalid field) -> throws_stable (optional_word v words field).
Proof. intros H. unfold optional_word, invalidOptions. destruct v; auto with throws. Qed.
Lemma throws_parameter v : throws_stable (credential_parameter v).
Proof. unfold credential_parameter, invalidOptions. auto with throws. Qed.
#[export] Hint Resolve throws_requiredString throws_optionalString throws_binaryOption
  throws_boundedTimeout throws_selection throws_hints throws_word throws_parameter : throws.

Lemma throws_map_slots {A} (f : nat -> val -> web A) i l :
  (forall i v, throws_stable (f i v)) -> throws_stable (map_slots f i l).
Proof. intros Hf. revert i; induction l as [|[v|] l IH]; intros i; cbn [map_slots]; auto with throws. Qed.

Lemma throws_descriptor v list_name i :
  list_name ∈ map js ["excludeCredentials"; "allowCredentials"]%string ->
  throws_stable (toNativeDescriptor v (list_name ++ js "[" ++ dec_nat i ++ js "]")).
Proof.
  intros Hn. set (field := list_name ++ _).
  assert (Hpart : forall part, part ∈ map js [""; ".id"; ".transports"]%string ->
    source_message (webauthn_invalid (field ++ part))).
  { intros part Hp. unfold field. rewrite <- !app_assoc. by constructor. }
  assert (Hin : forall k, k ∈ ["";".id";".transports"]%string -> source_message (webauthn_invalid (field ++ js k)))
    by (intros; by apply Hpart, list_elem_of_fmap_2).
  assert (Hp0 : source_message (webauthn_invalid field)).
  { rewrite <- (app_nil_r field). apply (Hin ""%string). set_solver. }
  assert (Hp1 : source_message (webauthn_invalid (field ++ js ".id"))) by (apply Hin; set_solver).
  assert (Hp2 : source_message (webauthn_invalid (field ++ js ".transports"))) by (apply Hin; set_solver).
  unfold toNativeDescriptor, invalidOptions.
  apply throws_if; [auto with throws|]. apply throws_bind; [auto with throws|]. intros id.
  destruct (get v _); auto 8 with throws.
Qed.
Lemma throws_credentials v list_name :
  list_name ∈ map js ["excludeCredentials"; "allowCredentials"]%string ->
  source_message (webauthn_invalid list_name) -> throws_stable (toNativeCredentials v list_name).
Proof.
  intros Hn Hm. unfold toNativeCredentials, invalidOptions.
  destruct v; auto using throws_map_slots, throws_descriptor with throws.
Qed.

Section copy.
Context (field : jsstr) (code : WebAuthnClientErrorCode).
Context (Hfield : Forall (fun what => source_message (field ++ js what))
  [" is too complex"; " is too large"; " is invalid"; " has too many keys"; " has an invalid key"]%string).

Lemma complain_stable {A} k what :
  [" is too complex"; " is too large"; " is invalid"; " has too many keys"; " has an invalid key"]%string !! k
    = Some what -> throws_stable (complain (A:=A) field code (js what)).
Proof. intros Hk. apply throws_client. by apply (Forall_lookup_1 _ _ k what Hfield). Qed.

Lemma throws_copy v : forall d n, throws_stable (copyBoundedExtensionValue field code v d n).
Proof.
  induction v as [| |b|x|s|z|sy|src r _|l IH|ps IH|bytes] using val_nested_ind; intros d n;
    cbn [copyBoundedExtensionValue]; (apply throws_if; [by apply (complain_stable 0)|]);
    try (by apply (complain_stable 2)); auto with throws.
  - apply throws_if; [done|by apply (complain_stable 2)].
  - apply throws_if; [by apply (complain_stable 1)|done].
  - apply throws_if; [by apply (complain_stable 1)|]. apply throws_bind; [|done].
    generalize (n + 1). induction IH as [|[v|] l Hv _ IH]; intros m; cbn [copy_entries]; auto with throws.
  - apply throws_if; [by apply (complain_stable 3)|]. apply throws_bind; [|done].
    generalize (n + 1). induction IH as [|[k v] ps Hv _ IH]; intros m; cbn [copy_members]; [done|].
    apply throws_if; [by apply (complain_stable 4)|]. auto with throws.
Qed.
Lemma throws_copyRecord v : source_message (webauthn_invalid field) -> throws_stable (copyRecord v field code).
Proof. intros H. unfold copyRecord. destruct v; auto using throws_copy with throws. Qed.
End copy.

Lemma throws_extensions v :
  throws_stable (copyRecord v (js "extensions") invalid_options).
Proof. apply throws_copyRecord; [repeat constructor|]; auto with throws. Qed.
Lemma throws_results v :
  throws_stable (copyRecord v (js "WebAuthn extension results") invalid_credential).
Proof. apply throws_copyRecord; [repeat constructor|]; auto with throws. Qed.
#[export] Hint Resolve throws_extensions throws_results : throws.

Lemma list_name_exclude : js "excludeCredentials" ∈ map js ["excludeCredentials"; "allowCredentials"]%string.
Proof. left. Qed.
Lemma list_name_allow : js "allowCredentials" ∈ map js ["excludeCredentials"; "allowCredentials"]%string.
Proof. right. left. Qed.

(** Walks a chain of binds, solving each step from the database. *)
Ltac throws_auto :=
  repeat first
    [ solve [auto 4 with throws]
    | solve [apply throws_credentials; auto with throws]
    | solve [apply throws_map_slots; auto with throws]
    | apply throws_bind; [|intros ?] ].

Lemma throws_creation o : throws_stable (toNativeCreationOptions o).
Proof.
  pose proof list_name_exclude.
  unfold toNativeCreationOptions, native_rp_of, native_user_of, invalidOptions, default_message.
  apply throws_if; [auto with throws|]. cbv zeta. apply throws_if; [auto with throws|].
  destruct (get o (js "pubKeyCredParams")); auto 2 with throws.
  apply throws_if; [auto with throws|].
  throws_auto.
Qed.
Lemma throws_request o : throws_stable (toNativeRequestOptions o).
Proof.
  pose proof list_name_allow.
  unfold toNativeRequestOptions, invalidOptions, default_message.
  apply throws_if; [auto with throws|].
  throws_auto.
Qed.

(** ** Serialisation *)

(** A host read may throw anything but the package's own error. *)
Definition host_read {A} (m : web A) : Prop := forall e, m = Throw e -> isWebAuthnClientError e = false.
Lemma host_read_stable {A} (m : web A) : host_read m -> throws_stable m.
Proof. intros H e He. apply H in He. by destruct e. Qed.
#[export] Hint Resolve host_read_stable : throws.

Record host_response (r : WebAuthnResponse) : Prop := {
  hr_clientDataJSON : host_read (r_clientDataJSON r);
  hr_attestationObject : host_read (r_attestationObject r);
  hr_getTransports : host_read (r_getTransports r);
  hr_transports : forall call, r_getTransports r = Ok (Some call) -> host_read call;
  hr_authenticatorData : host_read (r_authenticatorData r);
  hr_signature : host_read (r_signature r);
  hr_userHandle : host_read (r_userHandle r);
}.
Record host_credential (c : WebAuthnCredential) : Prop := {
  hc_id : host_read (k_id c);
  hc_rawId : host_read (k_rawId c);
  hc_type : host_read (k_type c);
  hc_response : host_read (k_response c);
  hc_response_fields : forall r, k_response c = Ok r -> host_response r;
  hc_attachment : host_read (k_authenticatorAttachment c);
}.

Lemma throws_encode bytes : throws_stable (encodeBase64Url (BArrayBuffer bytes)).
Proof. unfold encodeBase64Url, bytesOf. auto with throws. Qed.
Lemma throws_encoded v field :
  source_message (js "WebAuthn " ++ field ++ js " is too large or invalid") ->
  throws_stable (encodedCredentialBinary v field).
Proof. intros H. unfold encodedCredentialBinary. destruct v; auto using throws_encode with throws. Qed.
Lemma throws_buffer read m : throws_stable read -> source_message m -> throws_stable (buffer_field read m).
Proof. intros. unfold buffer_field. auto with throws. Qed.
Lemma throws_extensionResults c : throws_stable (extensionResults c).
Proof. unfold extensionResults, bad_extensions. destruct (k_getClientExtensionResults c); auto with throws. Qed.
#[export] Hint Resolve throws_encoded throws_buffer throws_extensionResults : throws.

Lemma throws_base c : host_credential c -> throws_stable (baseCredential c).
Proof.
  intros []. unfold baseCredential, bad_credential.
  apply throws_bind; [auto with throws|]. intros id. destruct id; auto with throws.
  apply throws_if; [auto with throws|]. apply throws_bind; [auto with throws|]. intros ty.
  apply throws_if; [auto with throws|]. apply throws_bind; [auto with throws|]. intros raw.
  apply throws_if; [auto with throws|]. throws_auto.
Qed.

Lemma normalize_stable e code m :
  stable e -> source_message m -> stable (normalizeWebAuthnError e code m).
Proof.
  intros He Hm. unfold normalizeWebAuthnError. destruct (isWebAuthnClientError e); [done|].
  destruct (isAbortError e); cbn; auto with throws.
Qed.
Lemma throws_or_invalid {A} (m : web A) : throws_stable m -> throws_stable (or_invalid_credential m).
Proof.
  intros Hm e. unfold or_invalid_credential, try_catch. destruct m as [a|e'] eqn:E; [done|].
  intros [= <-]. apply normalize_stable; [by apply Hm|auto with throws].
Qed.

Lemma throws_registration c : host_credential c -> throws_stable (serializeRegistrationCredential c).
Proof.
  intros Hc. pose proof Hc as []. unfold serializeRegistrationCredential. apply throws_or_invalid.
  apply throws_bind_eq; [auto with throws|]. intros r Hr. destruct (hc_response_fields0 r Hr).
  apply throws_if; [auto with throws|].
  apply throws_bind; [auto with throws|intros ?]. apply throws_bind; [auto with throws|intros ?].
  apply throws_bind; [by apply throws_base|intros ?].
  apply throws_bind; [auto with throws|intros ?]. apply throws_bind; [auto with throws|intros ?].
  apply throws_bind_eq; [auto with throws|]. intros [call|] Hcall; [|auto with throws].
  apply throws_bind; [by apply host_read_stable, hr_transports0|].
  intros ts. destruct ts; auto with throws.
Qed.
Lemma throws_assertion c : host_credential c -> throws_stable (serializeAssertionCredential c).
Proof.
  intros Hc. pose proof Hc as []. unfold serializeAssertionCredential. apply throws_or_invalid.
  apply throws_bind_eq; [auto with throws|]. intros r Hr. destruct (hc_response_fields0 r Hr).
  apply throws_if; [auto with throws|].
  do 4 (apply throws_bind; [auto with throws|intros ?]). apply throws_if; [auto with throws|].
  apply throws_bind; [by apply throws_base|intros ?]. throws_auto. 
Qed.

(** ** The ceremonies *)

(** The host reports the abort flag without throwing, and throws only its own
    values from the credential API and the credential. *)
Record polite_host {P} (host : ceremony_host P) : Prop := {
  ph_before : is_ok (aborted_before host) = true;
  ph_after : is_ok (aborted_after host) = true;
  ph_catch : is_ok (aborted_in_catch host) = true;
  ph_answer : forall pk, host_read (answer host pk);
  ph_credential : forall pk c, answer host pk = Ok (Some c) -> host_credential c;
}.

Lemma throws_abort reading : is_ok reading = true -> throws_stable (throwIfAborted reading).
Proof. unfold throwIfAborted, aborted_message. destruct reading; [|done]. cbn. auto with throws. Qed.
Lemma client_abort reading e : is_ok reading = true -> throwIfAborted reading = Throw e ->
  isWebAuthnClientError e = true.
Proof. unfold throwIfAborted. destruct reading as [v|]; [|done]. cbn. destruct (to_boolean v); [by intros _ [= <-]|done]. Qed.
Lemma throws_mode env : throws_stable (assertWebAuthnMode (vstr "passkey") env (VBool false)).
Proof.
  unfold assertWebAuthnMode. change (eq_str (vstr "passkey") (js "passkey")) with true.
  change (eq_str (vstr "passkey") (js "custom-keypad-fallback")) with false. cbn [negb andb].
  auto with throws.
Qed.
Lemma client_mode mode env ack e :
  assertWebAuthnMode mode env ack = Throw e -> isWebAuthnClientError e = true.
Proof.
  unfold assertWebAuthnMode. intros H.
  repeat match type of H with (if ?b then _ else _) = _ => destruct b end;
    try done; by injection H as <-.
Qed.
Lemma client_normalize e code m : isWebAuthnClientError (normalizeWebAuthnError e code m) = true.
Proof. unfold normalizeWebAuthnError. destruct (isWebAuthnClientError e) eqn:E; [done|]. by destruct (isAbortError e). Qed.

Section stable_ceremony.
Context {P S : Type} (toNative : val -> web P) (serialize : WebAuthnCredential -> web S).
Context (HtoNative : forall o, throws_stable (toNative o)).
Context (Hserialize : forall c, host_credential c -> throws_stable (serialize c)).

Lemma ceremony_stable o env host e :
  polite_host host -> (ceremony toNative serialize o env host).2 = Throw e ->
  exists code m, e = ClientError code m /\ source_message m.
Proof.
  intros [] H. enough (stable e /\ isWebAuthnClientError e = true) as [? ?]
    by (destruct e; try done; eauto).
  unfold ceremony in H.
  destruct (assertWebAuthnMode _ _ _) as [[]|e0] eqn:Em; cbn [mbind result_bind] in H.
  2: { injection H as <-. split; [by apply (throws_mode env)|by eapply client_mode]. }
  destruct (throwIfAborted (aborted_before host)) as [[]|e0] eqn:Eb; cbn [mbind result_bind] in H.
  2: { injection H as <-. split; [exact (throws_abort _ ph_before0 _ Eb)|exact (client_abort _ _ ph_before0 Eb)]. }
  assert (Hfail : forall e1, stable e1 ->
    (_ ← throwIfAborted (aborted_in_catch host);
     Throw (normalizeWebAuthnError e1 credential_api_failure (js "WebAuthn credential operation failed")))
      = Throw (A:=S) e -> stable e /\ isWebAuthnClientError e = true).
  { intros e1 He1. destruct (throwIfAborted (aborted_in_catch host)) as [[]|e2] eqn:Ec; cbn.
    - intros [= <-]. split; [|apply client_normalize]. apply normalize_stable; [done|auto with throws].
    - intros [= <-]. split; [exact (throws_abort _ ph_catch0 _ Ec)|exact (client_abort _ _ ph_catch0 Ec)]. }
  destruct (toNative o) as [pk|e1] eqn:En; cbn [snd] in H; [|exact (Hfail e1 (HtoNative _ _ En) H)].
  match type of H with match ?m with _ => _ end = _ => destruct m as [s|e1] eqn:Er end; [done|].
  apply Hfail in H; [done|]. clear H. revert Er. apply throws_bind_eq; [auto with throws|]. intros credential Hc.
  apply throws_bind; [by apply throws_abort|]. intros []. destruct credential as [c|]; [|auto with throws].
  by eapply Hserialize, ph_credential0.
Qed.
End stable_ceremony.

(** ** Claims *)

(** Whatever the options, the environment and the host do, a rejection of
    [createPasskey] or [getPasskey] is a [WebAuthnClientError] whose message is one
    of the source's own: no option value, exception text or credential byte is in it. *)
Theorem ceremonies_reject_stably o env :
  (forall host e, polite_host host -> (createPasskey o env host).2 = Throw e ->
     exists code m, e = ClientError code m /\ source_message m) /\
  (forall host e, polite_host host -> (getPasskey o env host).2 = Throw e ->
     exists code m, e = ClientError code m /\ source_message m).
Proof.
  split; intros host e; apply ceremony_stable;
    auto using throws_creation, throws_registration, throws_request, throws_assertion.
Qed.

(* a credential API that rejects with an exception text of its own *)
Definition failing_host {P} : ceremony_host P := {|
  answer := fun _ => Throw (HostThrown (vstr "device secret 1234") (Ok VUndef));
  aborted_before := Ok VUndef; aborted_after := Ok VUndef; aborted_in_catch := Ok VUndef |}.
Definition secure_environment : WebAuthnEnvironment := {|
  e_isSecureContext := Ok (VBool true); e_hasPublicKeyCredential := Ok (VBool true);
  e_credentials := Ok (Some {| a_create := Ok true; a_get := Ok true |}) |}.
Definition sample_request_options : val := vobj [("challenge", vstr "AAEC")]%string.
Lemma failing_polite {P} : polite_host (P:=P) failing_host.
Proof. constructor; try done. by intros pk e [= <-]. Qed.
Lemma ceremonies_reject_stably_witness :
  exists code m, (getPasskey sample_request_options secure_environment failing_host).2
    = Throw (ClientError code m) /\ source_message m.
Proof.
  destruct (proj2 (ceremonies_reject_stably sample_request_options secure_environment) failing_host
    (ClientError credential_api_failure (js "WebAuthn credential operation failed")) failing_polite)
    as (code & m & He & Hm); [vm_compute; reflexivity|].
  exists code, m. split; [|exact Hm]. rewrite <- He. vm_compute. reflexivity.
Defined.

(** ** Support, mode and gate *)

Lemma available_exact env :
  available (detectWebAuthnSupport env) = true <->
  (exists s, e_isSecureContext env = Ok s /\ to_boolean s = true) /\
  (exists h, e_hasPublicKeyCredential env = Ok h /\ to_boolean h = true) /\
  (exists api, e_credentials env = Ok (Some api) /\ a_create api = Ok true /\ a_get api = Ok true).
Proof.
  unfold detectWebAuthnSupport. split.
  - destruct (e_isSecureContext env) as [s|]; [|done]. cbn [mbind result_bind].
    destruct (to_boolean s) eqn:Es; [|done]. cbn [negb].
    destruct (e_hasPublicKeyCredential env) as [h|]; [|done]. cbn [mbind result_bind].
    destruct (to_boolean h) eqn:Eh; [|done]. cbn [negb].
    destruct (e_credentials env) as [[api|]|]; [|done..]. cbn [mbind result_bind].
    destruct (a_create api) as [[]|] eqn:Ec; [|done..]. cbn [mbind result_bind negb].
    destruct (a_get api) as [[]|] eqn:Eg; [|done..]. eauto 10.
  - intros ((s & -> & Hs) & (h & -> & Hh) & (api & -> & Hc & Hg)). cbn [mbind result_bind].
    rewrite Hs, Hh, Hc. cbn [negb mbind result_bind]. by rewrite Hg.
Qed.

(** The mode test passes exactly for the passkey mode in an available environment, or
    for the lower-assurance fallback when it was acknowledged and the context is
    secure; an environment whose getters throw is never available. *)
Lemma assertWebAuthnMode_exact mode env ack :
  assertWebAuthnMode mode env ack = Ok tt <->
  (mode = vstr "passkey" /\ available (detectWebAuthnSupport env) = true) \/
  (mode = vstr "custom-keypad-fallback" /\ to_boolean ack = true /\
   e_isSecureContext env = Ok (VBool true)).
Proof.
  unfold assertWebAuthnMode. destruct (eq_str mode (js "passkey")) eqn:Ep; cbn [negb andb].
  - apply eq_str_spec in Ep as ->. change (eq_str (VStr (js "passkey")) (js "custom-keypad-fallback")) with false.
    cbn iota. destruct (available _); split; try done.
    + intros _. by left.
    + intros [[_ ?]|[[=] _]]; done.
  - destruct (eq_str mode (js "custom-keypad-fallback")) eqn:Ef; cbn [negb].
    + apply eq_str_spec in Ef as ->. destruct (to_boolean ack); cbn [negb].
      * destruct (e_isSecureContext env) as [v|]; [destruct (eq_bool v true) eqn:Eb|]; cbn [negb].
        -- apply eq_bool_spec in Eb as ->. split; [intros _; by right|done].
        -- split; [done|]. intros [[[=] _]|(_ & _ & [= ->])]; done.
        -- split; [done|]. intros [[[=] _]|(_ & _ & [=])].
      * split; [done|]. intros [[[=] _]|(_ & ? & _)]; done.
    + split; [done|]. intros [[-> _]|(-> & _)]; [done|].
      by rewrite (proj2 (eq_str_spec (vstr "custom-keypad-fallback") _)) in Ef.
Qed.

Definition not_aborted (reading : web val) : Prop := exists v, reading = Ok v /\ to_boolean v = false.
Lemma not_aborted_spec reading : throwIfAborted reading = Ok tt <-> not_aborted reading.
Proof.
  unfold throwIfAborted, not_aborted. destruct reading as [v|]; [|split; [done|by intros (? & ? & _)]].
  cbn. destruct (to_boolean v) eqn:E; split; try done.
  - intros (v' & [= <-] & H). congruence.
  - by exists v.
Qed.

Section gate.
Context {P S : Type} (toNative : val -> web P) (serialize : WebAuthnCredential -> web S).
(** What is known when a ceremony has called the credential API. *)
Record Gate (o : val) (env : WebAuthnEnvironment) (host : ceremony_host P) (pk : P) (r : web S) : Prop := {
  gate_options : toNative o = Ok pk;
  gate_available : available (detectWebAuthnSupport env) = true;
  gate_signal : not_aborted (aborted_before host);
  gate_result : forall s, r = Ok s -> exists c, answer host pk = Ok (Some c) /\
    serialize c = Ok s /\ not_aborted (aborted_after host);
}.
Lemma ceremony_gate o env host called r :
  ceremony toNative serialize o env host = (called, r) ->
  match called with Some pk => Gate o env host pk r | None => is_ok r = false end.
Proof.
  unfold ceremony. destruct (assertWebAuthnMode _ _ _) as [[]|] eqn:Em; cbn [mbind result_bind];
    [|by intros [= <- <-]].
  destruct (throwIfAborted (aborted_before host)) as [[]|] eqn:Eb; cbn [mbind result_bind];
    [|by intros [= <- <-]].
  assert (Hav : available (detectWebAuthnSupport env) = true).
  { revert Em. unfold assertWebAuthnMode. change (eq_str (vstr "passkey") (js "passkey")) with true.
    change (eq_str (vstr "passkey") (js "custom-keypad-fallback")) with false. cbn [negb andb].
    by destruct (available _). }
  destruct (toNative o) as [pk|e] eqn:En.
  2: { intros [= <- <-]. by destruct (throwIfAborted (aborted_in_catch host)) as [[]|]. }
  intros [= <- <-]. constructor; [done|done|by apply not_aborted_spec|].
  intros s Hs. match type of Hs with match ?m with _ => _ end = _ => destruct m as [s'|e] eqn:Er end;
    [|by destruct (throwIfAborted (aborted_in_catch host)) as [[]|]].
  injection Hs as ->. apply bind_Ok in Er as ([c|] & Hc & Er);
    apply bind_Ok in Er as ([] & Ha%not_aborted_spec & Er); [|done]. eauto.
Qed.
End gate.

(** C5. The credential API is called only in an available environment with a request
    the options convert to and an unaborted signal; a ceremony resolves only with the
    serialisation of the credential that very call returned, the signal still
    unaborted, and without the call it rejects. *)
Theorem passkey_gate o env :
  (forall host called r, createPasskey o env host = (called, r) ->
     match called with
     | Some pk => Gate toNativeCreationOptions serializeRegistrationCredential o env host pk r
     | None => is_ok r = false
     end) /\
  (forall host called r, getPasskey o env host = (called, r) ->
     match called with
     | Some pk => Gate toNativeRequestOptions serializeAssertionCredential o env host pk r
     | None => is_ok r = false
     end).
Proof. split; intros host called r; apply ceremony_gate. Qed.

Lemma passkey_gate_witness :
  exists pk r, getPasskey sample_request_options secure_environment failing_host = (Some pk, r) /\
    Gate toNativeRequestOptions serializeAssertionCredential sample_request_options
      secure_environment failing_host pk r.
Proof.
  eexists _, _. split; [vm_compute; reflexivity|].
  refine (proj2 (passkey_gate sample_request_options secure_environment) failing_host (Some _) _ _).
  vm_compute. reflexivity.
Defined.
