(* ===== verification/WebController.v ===== *)
(** * packages/web/src/index.ts: createPasskeyController

    The presentation controller as an executable transition system.  A host call
    ([run], [cancel], [subscribe], the settlement of the work) and each promise
    reaction registered by [run] is one action; [activeOperation] may be replaced
    while the reactions of an earlier operation are still queued, so every
    operation keeps its own promise states. *)

From S2P Require Import Prelude JsNumber Regex JsValue WebEncoding WebOptions WebCredentials.
Open Scope js_scope.

(** ** Presentation state *)

Inductive PasskeyPresentationOperation := registration | authentication.
#[export] Instance PasskeyPresentationOperation_eq_dec : EqDecision PasskeyPresentationOperation.
Proof. solve_decision. Defined.

Inductive PasskeyPresentationPhase := idle | pending | success | error.
#[export] Instance PasskeyPresentationPhase_eq_dec : EqDecision PasskeyPresentationPhase.
Proof. solve_decision. Defined.

Record PasskeyPresentationState := {
  phase : PasskeyPresentationPhase;
  operation : option PasskeyPresentationOperation;
  errorCode : option WebAuthnClientErrorCode;
}.
#[export] Instance PasskeyPresentationState_eq_dec : EqDecision PasskeyPresentationState.
Proof. solve_decision. Defined.

Definition presentationState (phase : PasskeyPresentationPhase)
    (operation : option PasskeyPresentationOperation)
    (errorCode : option WebAuthnClientErrorCode) : PasskeyPresentationState :=
  {| phase := phase; operation := operation; errorCode := errorCode |}.

Definition presentationError (error : web_error) : web_error :=
  if isWebAuthnClientError error then error
  else if isAbortError error
  then ClientError aborted aborted_message
  else ClientError credential_api_failure (js "WebAuthn credential operation failed").

Definition code_of (error : web_error) : option WebAuthnClientErrorCode :=
  match error with ClientError code _ => Some code | _ => None end.
Definition aborted_error : web_error := ClientError aborted aborted_message.

Section controller.
(** [R] is what the work resolves to. *)
Context {R : Type}.

(** One call of [run] that was admitted: the fields of [ActiveOperation] and the
    states of its promises. A promise is [None] while pending. *)
Record ActiveOperation := {
  op_operation : PasskeyPresentationOperation;
  op_aborted : bool;              (* abortController.signal.aborted *)
  op_cancelled : bool;
  op_work : option (web R);       (* workPromise *)
  op_cleared : bool;              (* its first reaction has run *)
  op_race : option (web R);       (* Promise.race([workPromise, cancellation]) *)
  op_then : option (web R);       (* .then(..) *)
  op_result : option (web R);     (* .catch(..), the promise run returns *)
}.

Record controller := {
  state : PasskeyPresentationState;
  activeOperation : option nat;   (* an index of [operations] *)
  operations : list ActiveOperation;
  listeners : list nat;
  deliveries : list (nat * PasskeyPresentationState);   (* latest last *)
  published : list PasskeyPresentationState;            (* latest last *)
}.

Definition initial_controller : controller := {|
  state := presentationState idle None None; activeOperation := None; operations := [];
  listeners := []; deliveries := []; published := [] |}.

(** Every listener of the snapshot is called; what it throws is dropped. *)
Definition publish (nextState : PasskeyPresentationState) (c : controller) : controller := {|
  state := nextState; activeOperation := activeOperation c; operations := operations c;
  listeners := listeners c;
  deliveries := deliveries c ++ map (fun l => (l, nextState)) (listeners c);
  published := published c ++ [nextState] |}.

Definition with_operations (ops : list ActiveOperation) (c : controller) : controller := {|
  state := state c; activeOperation := activeOperation c; operations := ops;
  listeners := listeners c; deliveries := deliveries c; published := published c |}.
Definition with_active (a : option nat) (c : controller) : controller := {|
  state := state c; activeOperation := a; operations := operations c;
  listeners := listeners c; deliveries := deliveries c; published := published c |}.
Definition with_listeners (ls : list nat) (c : controller) : controller := {|
  state := state c; activeOperation := activeOperation c; operations := operations c;
  listeners := ls; deliveries := deliveries c; published := published c |}.
Definition update (i : nat) (f : ActiveOperation -> ActiveOperation) (c : controller) : controller :=
  with_operations (alter f i (operations c)) c.

(** *** Host calls *)

Definition new_operation (k : PasskeyPresentationOperation) : ActiveOperation := {|
  op_operation := k; op_aborted := false; op_cancelled := false; op_work := None;
  op_cleared := false; op_race := None; op_then := None; op_result := None |}.

(** [run]: the index of the admitted operation, or the rejection. *)
Definition run (k : PasskeyPresentationOperation) (c : controller) : controller * (nat + web_error) :=
  match activeOperation c with
  | Some _ => (c, inr (ClientError operation_in_progress
                         (js "A passkey operation is already in progress")))
  | None =>
      let i := length (operations c) in
      (publish (presentationState pending (Some k) None)
         (with_active (Some i) (with_operations (operations c ++ [new_operation k]) c)), inl i)
  end.

Definition mark_cancelled (o : ActiveOperation) : ActiveOperation := {|
  op_operation := op_operation o; op_aborted := true; op_cancelled := true; op_work := op_work o;
  op_cleared := op_cleared o; op_race := op_race o; op_then := op_then o; op_result := op_result o |}.
Definition cancel (c : controller) : controller :=
  match activeOperation c with
  | None => c
  | Some i =>
      if negb (bool_decide (phase (state c) = pending)) then c else
      match operations c !! i with
      | None => c
      | Some o => publish (presentationState error (Some (op_operation o)) (Some aborted))
                    (update i mark_cancelled c)
      end
  end.

(** *** Promise reactions *)

Definition set_work (w : web R) (o : ActiveOperation) : ActiveOperation := {|
  op_operation := op_operation o; op_aborted := op_aborted o; op_cancelled := op_cancelled o;
  op_work := Some w; op_cleared := op_cleared o; op_race := op_race o; op_then := op_then o;
  op_result := op_result o |}.
Definition set_cleared (o : ActiveOperation) : ActiveOperation := {|
  op_operation := op_operation o; op_aborted := op_aborted o; op_cancelled := op_cancelled o;
  op_work := op_work o; op_cleared := true; op_race := op_race o; op_then := op_then o;
  op_result := op_result o |}.
Definition set_race (w : web R) (o : ActiveOperation) : ActiveOperation := {|
  op_operation := op_operation o; op_aborted := op_aborted o; op_cancelled := op_cancelled o;
  op_work := op_work o; op_cleared := op_cleared o; op_race := Some w; op_then := op_then o;
  op_result := op_result o |}.
Definition set_then (w : web R) (o : ActiveOperation) : ActiveOperation := {|
  op_operation := op_operation o; op_aborted := op_aborted o; op_cancelled := op_cancelled o;
  op_work := op_work o; op_cleared := op_cleared o; op_race := op_race o; op_then := Some w;
  op_result := op_result o |}.
Definition set_result (w : web R) (o : ActiveOperation) : ActiveOperation := {|
  op_operation := op_operation o; op_aborted := op_aborted o; op_cancelled := op_cancelled o;
  op_work := op_work o; op_cleared := op_cleared o; op_race := op_race o; op_then := op_then o;
  op_result := Some w |}.

(** [if (activeOperation === active) activeOperation = undefined], on either outcome. *)
Definition clear_reaction (i : nat) (c : controller) : controller :=
  update i set_cleared
    (if bool_decide (activeOperation c = Some i) then with_active None c else c).

(** [.then((result) => ..)]; a rejection passes through. *)
Definition then_reaction (i : nat) (o : ActiveOperation) (outcome : web R) (c : controller) : controller :=
  match outcome with
  | Throw e => update i (set_then (Throw e)) c
  | Ok result =>
      if op_cancelled o then update i (set_then (Throw aborted_error)) c
      else update i (set_then (Ok result))
             (publish (presentationState success (Some (op_operation o)) None) c)
  end.

(** [.catch((error) => ..)]; a value passes through. *)
Definition catch_reaction (i : nat) (o : ActiveOperation) (outcome : web R) (c : controller) : controller :=
  match outcome with
  | Ok result => update i (set_result (Ok result)) c
  | Throw e =>
      let normalized := if op_cancelled o then aborted_error else presentationError e in
      update i (set_result (Throw normalized))
        (if op_cancelled o then c
         else publish (presentationState error (Some (op_operation o)) (code_of normalized)) c)
  end.

(** ** Actions *)

Inductive action :=
  | ARun (k : PasskeyPresentationOperation)
  | ACancel
  | ASubscribe (l : nat)
  | AUnsubscribe (l : nat)
  | AWork (i : nat) (w : web R)       (* the work promise settles *)
  | AClear (i : nat)
  | ARaceWork (i : nat)               (* the race takes the work's outcome *)
  | ARaceCancel (i : nat)             (* the race takes the cancellation *)
  | AThen (i : nat)
  | ACatch (i : nat).

(** [None]: the action is not enabled. The reactions of one promise run in the
    order they were registered, so the race hears of the work after the clearing. *)
Definition perform (a : action) (c : controller) : option controller :=
  match a with
  | ARun k => Some (run k c).1
  | ACancel => Some (cancel c)
  | ASubscribe l => Some (with_listeners (set_add l (listeners c)) c)
  | AUnsubscribe l => Some (with_listeners (filter (fun l' => l' <> l) (listeners c)) c)
  | AWork i w =>
      o ← operations c !! i;
      match op_work o with None => Some (update i (set_work w) c) | Some _ => None end
  | AClear i =>
      o ← operations c !! i;
      match op_work o, op_cleared o with
      | Some _, false => Some (clear_reaction i c)
      | _, _ => None
      end
  | ARaceWork i =>
      o ← operations c !! i;
      match op_work o, op_cleared o, op_race o with
      | Some w, true, None => Some (update i (set_race w) c)
      | _, _, _ => None
      end
  | ARaceCancel i =>
      o ← operations c !! i;
      match op_cancelled o, op_race o with
      | true, None => Some (update i (set_race (Throw aborted_error)) c)
      | _, _ => None
      end
  | AThen i =>
      o ← operations c !! i;
      match op_race o, op_then o with
      | Some w, None => Some (then_reaction i o w c)
      | _, _ => None
      end
  | ACatch i =>
      o ← operations c !! i;
      match op_then o, op_result o with
      | Some w, None => Some (catch_reaction i o w c)
      | _, _ => None
      end
  end.

Fixpoint perform_all (l : list action) (c : controller) : option controller :=
  match l with [] => Some c | a :: l' => c' ← perform a c; perform_all l' c' end.

Inductive reachable_controller : controller -> Prop :=
  | rc_init : reachable_controller initial_controller
  | rc_step c a c' : reachable_controller c -> perform a c = Some c' -> reachable_controller c'.

Lemma perform_all_reachable l c c' :
  reachable_controller c -> perform_all l c = Some c' -> reachable_controller c'.
Proof.
  revert c; induction l as [|a l IH]; intros c Hc; cbn; [by intros [= <-]|].
  destruct (perform a c) as [c1|] eqn:E; [|done]. cbn. apply IH. by econstructor.
Qed.
End controller.
Arguments action : clear implicits.
Arguments controller : clear implicits.
Arguments ActiveOperation : clear implicits.
