(* ===== verification/WebControllerProps.v ===== *)
(** * Properties of the presentation controller *)

From S2P Require Import Prelude JsNumber Regex JsValue WebEncoding WebOptions WebCredentials.
From S2P Require Import WebController.
Open Scope js_scope.

Section props.
Context {R : Type}.
Implicit Types (c : controller R) (o : ActiveOperation R) (w : web R).

(** ** Invariant *)

(** One operation's promise states, apart from the controller. *)
Record op_inv o : Prop := {
  oi_cleared : op_cleared o = true -> is_Some (op_work o);
  oi_race : forall w, op_race o = Some w ->
    (op_work o = Some w /\ op_cleared o = true) \/ (op_cancelled o = true /\ w = Throw aborted_error);
  oi_then : forall w, op_then o = Some w -> is_Some (op_race o) /\
    (op_cancelled o = true -> exists e, w = Throw e) /\
    (forall r, w = Ok r -> op_race o = Some (Ok r) /\ op_cancelled o = false);
  oi_result : forall w, op_result o = Some w -> is_Some (op_then o) /\
    (op_cancelled o = true -> w = Throw aborted_error) /\
    (forall r, w = Ok r -> op_then o = Some (Ok r));
  oi_aborted : op_aborted o = op_cancelled o;
}.
(** An operation that is not cancelled and whose race is decided is cleared. *)
Definition settled_cleared o : Prop :=
  is_Some (op_race o) -> op_cancelled o = false -> op_cleared o = true.

Record ctl_inv c : Prop := {
  ci_ops : Forall op_inv (operations c);
  ci_active : forall i, activeOperation c = Some i <->
    exists o, operations c !! i = Some o /\ op_cleared o = false;
  ci_success : forall i o r, operations c !! i = Some o -> op_then o = Some (Ok r) ->
    presentationState success (Some (op_operation o)) None ∈ published c;
}.

Lemma new_operation_inv k : op_inv (new_operation (R:=R) k).
Proof. by constructor. Qed.

(** Changing one operation without touching the active slot. *)
Lemma update_inv i f c :
  ctl_inv c ->
  (forall o, operations c !! i = Some o -> op_inv o ->
     op_inv (f o) /\ op_cleared (f o) = op_cleared o /\ op_operation (f o) = op_operation o /\
     (forall r, op_then (f o) = Some (Ok r) -> op_then o = Some (Ok r) \/
        presentationState success (Some (op_operation o)) None ∈ published c)) ->
  ctl_inv (update i f c).
Proof.
  intros [Hops Hact Hsuc] Hf. rewrite Forall_lookup in Hops. constructor; cbn.
  - apply Forall_lookup. intros j o Hj. destruct (decide (i = j)) as [<-|Hij].
    + rewrite list_lookup_alter_eq in Hj. apply fmap_Some in Hj as (o' & Ho' & ->).
      by apply (Hf o' Ho'), (Hops i).
    + rewrite list_lookup_alter_ne in Hj by done. by apply (Hops j).
  - intros j. rewrite Hact. destruct (decide (i = j)) as [<-|Hij].
    + rewrite list_lookup_alter_eq. destruct (operations c !! i) as [o'|] eqn:E; cbn; [|naive_solver].
      destruct (Hf o' eq_refl (Hops i o' E)) as (_ & Hc & _). split.
      * intros (o & [= <-] & Ho). exists (f o'). split; [done|congruence].
      * intros (o & [= <-] & Ho). exists o'. split; [done|congruence].
    + by rewrite list_lookup_alter_ne.
  - intros j o r Hj Ht. destruct (decide (i = j)) as [<-|Hij].
    + rewrite list_lookup_alter_eq in Hj. apply fmap_Some in Hj as (o' & Ho' & ->).
      destruct (Hf o' Ho' (Hops i o' Ho')) as (_ & _ & -> & Hth).
      destruct (Hth r Ht) as [Ht'|]; [|done]. by apply (Hsuc i o' r).
    + rewrite list_lookup_alter_ne in Hj by done. by apply (Hsuc j o r).
Qed.

Lemma publish_inv s c : ctl_inv c -> ctl_inv (publish s c).
Proof.
  intros [Hops Hact Hsuc]. constructor; cbn; [done|done|].
  intros i o r Hi Ht. apply elem_of_app. left. by eapply Hsuc.
Qed.

Lemma run_inv k c : ctl_inv c -> ctl_inv (run k c).1.
Proof.
  intros Hc. unfold run. destruct (activeOperation c) as [i|] eqn:Ea; cbn [fst]; [done|].
  apply publish_inv. destruct Hc as [Hops Hact Hsuc]. constructor; cbn.
  - apply Forall_app. split; [done|]. constructor; [apply new_operation_inv|done].
  - intros i. split.
    + intros [= <-]. exists (new_operation k). split; [|done].
      rewrite lookup_app_r by lia. by rewrite Nat.sub_diag.
    + intros (o & Ho & Hcl). apply lookup_app_Some in Ho as [Ho|[Hlen Ho]].
      * assert (activeOperation c = Some i) by (apply Hact; eauto). congruence.
      * apply list_lookup_singleton_Some in Ho as [? _]. f_equal. lia.
  - intros i o r Ho Ht. apply lookup_app_Some in Ho as [Ho|[_ Ho]]; [by eapply Hsuc|].
    apply list_lookup_singleton_Some in Ho as [_ <-]. done.
Qed.

Lemma cancel_inv c : ctl_inv c -> ctl_inv (cancel c).
Proof.
  intros Hc. unfold cancel. destruct (activeOperation c) as [i|] eqn:Ea; [|done].
  destruct (bool_decide _); cbn [negb]; [|done].
  destruct (operations c !! i) as [o|] eqn:Eo; [|done]. apply publish_inv, update_inv; [done|].
  intros o' Ho' Hinv. rewrite Ho' in Eo. injection Eo as ->.
  assert (Hcl : op_cleared o = false).
  { apply ci_active in Ea as (o1 & Ho1 & ?); [|done]. congruence. }
  split_and!; [|done|done|by left].
  destruct Hinv as [I1 I2 I3 I4 I5]. constructor; cbn; try done.
  - intros w [[? ?]|[? ?]]%I2; [congruence|by right].
  - intros w Hw. destruct (I3 w Hw) as (Hr & H1 & H2). split_and!; [done| |].
    + intros _. destruct w as [r|e]; [|eauto]. destruct (H2 r eq_refl) as [Hr2 _].
      destruct (I2 _ Hr2) as [[_ ?]|[_ ?]]; congruence.
    + intros r ->. destruct (H2 r eq_refl) as [Hr2 _].
      destruct (I2 _ Hr2) as [[_ ?]|[_ ?]]; congruence.
  - intros w Hw. destruct (I4 w Hw) as (Ht & H1 & H2). split_and!; [done| |done].
    intros _. apply H1.
    destruct Ht as [t Ht]. destruct (I3 t Ht) as ([x Hx] & _).
    destruct (I2 x Hx) as [[_ ?]|[? _]]; congruence.
Qed.

Lemma update_publish i f s c : update i f (publish s c) = publish s (update i f c).
Proof. done. Qed.

(** The clearing reaction empties the active slot exactly when it held this operation. *)
Lemma clear_inv i c o :
  ctl_inv c -> operations c !! i = Some o -> is_Some (op_work o) -> op_cleared o = false ->
  ctl_inv (clear_reaction i c).
Proof.
  intros [Hops Hact Hsuc] Ho Hw Hcl.
  assert (Ha : activeOperation c = Some i) by (apply Hact; eauto).
  rewrite Forall_lookup in Hops. unfold clear_reaction. rewrite bool_decide_eq_true_2 by done.
  constructor; cbn.
  - apply Forall_lookup. intros j o' Hj. destruct (decide (i = j)) as [<-|Hij].
    + rewrite list_lookup_alter_eq, Ho in Hj. injection Hj as <-.
      destruct (Hops i o Ho) as [I1 I2 I3 I4 I5]. constructor; cbn; try done.
      intros w Hr. destruct (I2 w Hr) as [[? ?]|?]; [by left|by right].
    + rewrite list_lookup_alter_ne in Hj by done. by apply (Hops j).
  - intros j. split; [done|]. intros (o' & Hj & Hc').
    destruct (decide (i = j)) as [<-|Hij].
    + rewrite list_lookup_alter_eq, Ho in Hj. injection Hj as <-. done.
    + rewrite list_lookup_alter_ne in Hj by done.
      assert (activeOperation c = Some j) by (apply Hact; eauto). congruence.
  - intros j o' r Hj Ht. destruct (decide (i = j)) as [<-|Hij].
    + rewrite list_lookup_alter_eq, Ho in Hj. injection Hj as <-. by apply (Hsuc i o r).
    + rewrite list_lookup_alter_ne in Hj by done. by apply (Hsuc j o' r).
Qed.

Lemma then_inv i o w c :
  ctl_inv c -> operations c !! i = Some o -> op_race o = Some w -> op_then o = None ->
  ctl_inv (then_reaction i o w c).
Proof.
  intros Hc Ho Hr Ht. unfold then_reaction.
  assert (Hres : forall o', operations c !! i = Some o' -> o' = o) by (intros; congruence).
  assert (Hnores : op_inv o -> op_result o = None).
  { intros [_ _ _ I4 _]. destruct (op_result o) as [x|]; [|done].
    destruct (I4 x eq_refl) as ([y ?] & _). congruence. }
  destruct w as [r|e]; [destruct (op_cancelled o) eqn:Ec|].
  - apply update_inv; [done|]. intros o' ->%Hres Hinv. specialize (Hnores Hinv).
    destruct Hinv as [I1 I2 I3 I4 I5]. split_and!; [|done|done|by intros ? [=]].
    constructor; cbn; try done; [|by rewrite Hnores].
    intros x [= <-]. split_and!; [by eexists|by eexists|by intros ? [=]].
  - apply update_inv; [by apply publish_inv|]. intros o' ->%Hres Hinv. specialize (Hnores Hinv).
    destruct Hinv as [I1 I2 I3 I4 I5]. split_and!; [|done|done|].
    + constructor; cbn; try done; [|by rewrite Hnores].
      intros x [= <-]. split_and!; [by eexists|congruence|]. intros r' [= <-]. done.
    + intros r' _. right. cbn. apply elem_of_app. right. left.
  - apply update_inv; [done|]. intros o' ->%Hres Hinv. specialize (Hnores Hinv).
    destruct Hinv as [I1 I2 I3 I4 I5]. split_and!; [|done|done|by intros ? [=]].
    constructor; cbn; try done; [|by rewrite Hnores].
    intros x [= <-]. split_and!; [by eexists|by eexists|by intros ? [=]].
Qed.

Lemma catch_inv i o w c :
  ctl_inv c -> operations c !! i = Some o -> op_then o = Some w -> op_result o = None ->
  ctl_inv (catch_reaction i o w c).
Proof.
  intros Hc Ho Ht Hr. unfold catch_reaction.
  assert (Hres : forall o', operations c !! i = Some o' -> o' = o) by (intros; congruence).
  destruct w as [r|e].
  - apply update_inv; [done|]. intros o' ->%Hres [I1 I2 I3 I4 I5].
    split_and!; [|done|done|by left]. constructor; cbn; try done.
    intros x [= <-]. split_and!; [by eexists| |by intros ? [= <-]].
    intros Hcan. destruct (I3 _ Ht) as (_ & H1 & _). by destruct (H1 Hcan).
  - apply update_inv; [destruct (op_cancelled o); [done|by apply publish_inv]|].
    intros o' Ho'. assert (o' = o) as -> by (destruct (op_cancelled o); cbn in Ho'; congruence).
    intros [I1 I2 I3 I4 I5]. split_and!; [|done|done|by left]. constructor; cbn; try done.
    intros x [= <-]. split_and!; [by eexists| |by intros ? [=]]. by intros ->.
Qed.

Lemma ctl_inv_reachable c : reachable_controller c -> ctl_inv c.
Proof.
  induction 1 as [|c a c' _ Hc Hp].
  { constructor; cbn; [done| |]; intros; [split; [done|by intros (? & ? & _)]|done]. }
  destruct a as [k| |l|l|i w|i|i|i|i|i]; cbn in Hp;
    try (destruct (operations c !! i) as [o|] eqn:Eo; cbn in Hp; [|done]).
  - injection Hp as <-. by apply run_inv.
  - injection Hp as <-. by apply cancel_inv.
  - injection Hp as <-. by destruct Hc.
  - injection Hp as <-. by destruct Hc.
  - destruct (op_work o) eqn:Ew; [done|]. injection Hp as <-. apply update_inv; [done|].
    intros o' Ho' [I1 I2 I3 I4 I5]. rewrite Eo in Ho'. injection Ho' as <-.
    split_and!; [|done|done|by left]. constructor; cbn; try done.
    intros x [[? ?]|?]%I2; [congruence|by right].
  - destruct (op_work o) eqn:Ew, (op_cleared o) eqn:Ecl; try done. injection Hp as <-.
    apply (clear_inv i c o); [done|done|by eexists|done].
  - destruct (op_work o) as [w|] eqn:Ew, (op_cleared o) eqn:Ecl, (op_race o) eqn:Er; try done.
    injection Hp as <-. apply update_inv; [done|].
    intros o' Ho' [I1 I2 I3 I4 I5]. rewrite Eo in Ho'. injection Ho' as <-.
    split_and!; [|done|done|by left]. constructor; cbn; try done.
    + intros x [= <-]. by left.
    + intros x Hx. destruct (I3 x Hx) as ([y ?] & _). congruence.
  - destruct (op_cancelled o) eqn:Ecan, (op_race o) eqn:Er; try done.
    injection Hp as <-. apply update_inv; [done|].
    intros o' Ho' [I1 I2 I3 I4 I5]. rewrite Eo in Ho'. injection Ho' as <-.
    split_and!; [|done|done|by left]. constructor; cbn; try done.
    + intros x [= <-]. by right.
    + intros x Hx. destruct (I3 x Hx) as ([y ?] & _). congruence.
  - destruct (op_race o) eqn:Er, (op_then o) eqn:Et; try done. injection Hp as <-. by apply then_inv.
  - destruct (op_then o) eqn:Er, (op_result o) eqn:Et; try done. injection Hp as <-. by apply catch_inv.
Qed.

(** ** The reactions drain *)

Definition is_reaction (a : action R) : bool :=
  match a with AClear _ | ARaceWork _ | ARaceCancel _ | AThen _ | ACatch _ => true | _ => false end.
Definition open_ {A} (p : option A) : nat := match p with None => 1 | Some _ => 0 end.
(** Reactions an operation still has to run. *)
Definition remaining o : nat :=
  ((if op_cleared o then 0 else 1) + open_ (op_race o) + open_ (op_then o) + open_ (op_result o))%nat.
Definition pending_reactions c : nat := list_sum (map remaining (operations c)).

Lemma remaining_alter i f o (l : list (ActiveOperation R)) :
  l !! i = Some o -> (remaining (f o) < remaining o)%nat ->
  (list_sum (map remaining (alter f i l)) < list_sum (map remaining l))%nat.
Proof.
  intros Hi Hlt. revert i Hi; induction l as [|x l IH]; intros [|i]; try done.
  - intros [= ->]. change (remaining (f o) + list_sum (map remaining l) < remaining o + list_sum (map remaining l))%nat. lia.
  - intros Hi%IH. change (remaining x + list_sum (map remaining (alter f i l)) < remaining x + list_sum (map remaining l))%nat. lia.
Qed.
Lemma pending_update i f c c' o :
  operations c !! i = Some o -> operations c' = alter f i (operations c) ->
  (remaining (f o) < remaining o)%nat -> (pending_reactions c' < pending_reactions c)%nat.
Proof. intros Ho Hc' Hlt. unfold pending_reactions. rewrite Hc'. by apply (remaining_alter i f o). Qed.

Lemma reaction_decreases a c c' :
  is_reaction a = true -> perform a c = Some c' -> (pending_reactions c' < pending_reactions c)%nat.
Proof.
  destruct a as [k| |l|l|i w|i|i|i|i|i]; try done; intros _; cbn;
    (destruct (operations c !! i) as [o|] eqn:Eo; cbn; [|done]).
  - destruct (op_work o), (op_cleared o) eqn:Ec; try done. intros [= <-]. unfold clear_reaction.
    case_bool_decide; (eapply (pending_update i _ _ _ o); [done|done|]; unfold remaining; cbn; rewrite Ec; lia).
  - destruct (op_work o), (op_cleared o) eqn:Ec, (op_race o) eqn:Er; try done. intros [= <-].
    eapply (pending_update i _ _ _ o); [done|done|]. unfold remaining; cbn. rewrite Er. cbn. lia.
  - destruct (op_cancelled o), (op_race o) eqn:Er; try done. intros [= <-].
    eapply (pending_update i _ _ _ o); [done|done|]. unfold remaining; cbn. rewrite Er. cbn. lia.
  - destruct (op_race o) as [[r|e]|] eqn:Er, (op_then o) eqn:Et; try done; intros [= <-]; unfold then_reaction;
      [destruct (op_cancelled o)|]; 
      (eapply (pending_update i _ _ _ o); [done|done|]; unfold remaining; cbn; rewrite Et; cbn; lia).
  - destruct (op_then o) as [[r|e]|] eqn:Er, (op_result o) eqn:Et; try done; intros [= <-]; unfold catch_reaction;
      [|destruct (op_cancelled o)]; 
      (eapply (pending_update i _ _ _ o); [done|done|]; unfold remaining; cbn; rewrite Et; cbn; lia).
Qed.

Definition reactions_of (i : nat) : list (action R) :=
  [AClear i; ARaceWork i; ARaceCancel i; AThen i; ACatch i].
Definition enabled c : list (action R) :=
  filter (fun a => is_Some (perform a c)) (flat_map reactions_of (seq 0 (length (operations c)))).

(** Nothing left to run for an operation whose work settled or that was cancelled. *)
Definition finished o : Prop :=
  is_Some (op_work o) \/ op_cancelled o = true -> is_Some (op_result o).

Lemma quiescent_finished c i o :
  enabled c = [] -> operations c !! i = Some o -> finished o.
Proof.
  intros He Ho Hd.
  assert (Hno : forall a, a ∈ reactions_of i -> perform a c = None).
  { intros a Ha. destruct (perform a c) as [c'|] eqn:Ep; [|done]. exfalso.
    assert (a ∈ enabled c) as Hin; [|by rewrite He in Hin; apply not_elem_of_nil in Hin].
    unfold enabled. apply list_elem_of_filter. split; [by eexists|].
    apply list_elem_of_In, in_flat_map. exists i. split; [|by apply list_elem_of_In].
    apply in_seq. apply lookup_lt_Some in Ho. lia. }
  pose proof (Hno (AClear i) ltac:(set_solver)) as H1.
  pose proof (Hno (ARaceWork i) ltac:(set_solver)) as H2.
  pose proof (Hno (ARaceCancel i) ltac:(set_solver)) as H3.
  pose proof (Hno (AThen i) ltac:(set_solver)) as H4.
  pose proof (Hno (ACatch i) ltac:(set_solver)) as H5.
  cbn in H1, H2, H3, H4, H5. rewrite Ho in *. cbn in *.
  destruct (op_result o); [done|].
  destruct (op_then o); [done|]. destruct (op_race o); [done|].
  destruct Hd as [[w Hw]|Hc]; [|by rewrite Hc in H3].
  rewrite Hw in *. by destruct (op_cleared o).
Qed.

Lemma enabled_is_reaction c a : a ∈ enabled c -> is_reaction a = true /\ is_Some (perform a c).
Proof.
  unfold enabled. rewrite list_elem_of_filter. intros [? Ha]. split; [|done].
  apply list_elem_of_In, in_flat_map in Ha as (i & _ & Ha).
  cbn in Ha. by destruct_or! Ha; subst.
Qed.

Lemma drain c : exists l c',
  Forall (fun a => is_reaction a = true) l /\ perform_all l c = Some c' /\ enabled c' = [] /\
  (length l <= pending_reactions c)%nat.
Proof.
  remember (pending_reactions c) as n eqn:Hn. revert c Hn.
  induction n as [n IH] using lt_wf_ind; intros c Hn.
  destruct (enabled c) as [|a l] eqn:He.
  - exists [], c. split_and!; [done..|cbn; lia].
  - destruct (enabled_is_reaction c a) as [Ha [c1 Hp]]; [rewrite He; left|].
    pose proof (reaction_decreases a c c1 Ha Hp) as Hlt.
    destruct (IH (pending_reactions c1) ltac:(lia) c1 eq_refl) as (l' & c' & Hl & Hp' & He' & Hlen).
    exists (a :: l'), c'. split_and!; [by constructor| |done|cbn; lia].
    cbn. by rewrite Hp.
Qed.

(** ** Claims *)

(** C4. In every reachable state and for every admitted operation: a promise that resolves
    does so with exactly what the work resolved to, the operation was not cancelled,
    and its success was published; once cancelled, it can only reject with the
    generic aborted error, whatever the work does. *)
Theorem controller_outcomes c i o w :
  reachable_controller c -> operations c !! i = Some o -> op_result o = Some w ->
  (op_cancelled o = true -> w = Throw aborted_error) /\
  (forall r, w = Ok r -> op_work o = Some (Ok r) /\ op_cancelled o = false /\
     presentationState success (Some (op_operation o)) None ∈ published c).
Proof.
  intros [Hops Hact Hsuc]%ctl_inv_reachable Ho Hw. rewrite Forall_lookup in Hops.
  destruct (Hops i o Ho) as [I1 I2 I3 I4 I5]. destruct (I4 w Hw) as (_ & Hcan & Hok).
  split; [done|]. intros r ->. specialize (Hok r eq_refl).
  destruct (I3 _ Hok) as (_ & _ & Hr). destruct (Hr r eq_refl) as [Hrace Hnc].
  split_and!; [|done|by eapply Hsuc]. by destruct (I2 _ Hrace) as [[? _]|[? [=]]].
Qed.

(** C32. One ceremony at a time: in every reachable state the active slot holds exactly
    the operation whose work has not been seen to settle, so there is at most one;
    while there is one, [run] rejects with operation-in-progress and changes nothing. *)
Theorem controller_single_flight c :
  reachable_controller c ->
  (forall i j o o', operations c !! i = Some o -> operations c !! j = Some o' ->
     op_cleared o = false -> op_cleared o' = false -> i = j /\ activeOperation c = Some i) /\
  (forall i o k, operations c !! i = Some o -> op_cleared o = false ->
     run k c = (c, inr (ClientError operation_in_progress
                          (js "A passkey operation is already in progress")))).
Proof.
  intros [_ Hact _]%ctl_inv_reachable. split.
  - intros i j o o' Hi Hj Ho Ho'.
    assert (activeOperation c = Some i) by (apply Hact; eauto).
    assert (activeOperation c = Some j) by (apply Hact; eauto). split; congruence.
  - intros i o k Hi Ho. assert (Ha : activeOperation c = Some i) by (apply Hact; eauto).
    unfold run. by rewrite Ha.
Qed.

(** C33. The promises settle: from every reachable state some finite run of queued
    reactions, no longer than the number still open, reaches a state with none
    enabled, and there every operation whose work settled or that was cancelled has
    settled its own promise; each reaction strictly decreases what is open, so every
    order of running them ends. *)
Theorem controller_drains c :
  reachable_controller c ->
  (exists l c', Forall (fun a => is_reaction a = true) l /\ perform_all l c = Some c' /\
     reachable_controller c' /\ (length l <= pending_reactions c)%nat /\
     Forall finished (operations c')) /\
  (forall a c', is_reaction a = true -> perform a c = Some c' ->
     (pending_reactions c' < pending_reactions c)%nat).
Proof.
  intros Hc. split; [|intros a c'; apply reaction_decreases].
  destruct (drain c) as (l & c' & Hl & Hp & He & Hlen). exists l, c'.
  split_and!; [done|done|by eapply perform_all_reachable|done|].
  apply Forall_lookup. intros i o. by apply quiescent_finished.
Qed.
End props.

(** ** Concrete runs *)

Definition cancelled_run : list (action Z) :=
  [ARun registration; ACancel; AWork 0 (Ok 7); AClear 0; ARaceWork 0; AThen 0; ACatch 0].
Definition resolved_run : list (action Z) :=
  [ASubscribe 1; ARun registration; AWork 0 (Ok 7); AClear 0; ARaceWork 0; AThen 0; ACatch 0].

Lemma run_reachable l (c : controller Z) : perform_all l initial_controller = Some c -> reachable_controller c.
Proof. apply perform_all_reachable, rc_init. Qed.

Lemma controller_outcomes_witness :
  exists c o, perform_all resolved_run initial_controller = Some c /\ operations c !! 0%nat = Some o /\
    op_result o = Some (Ok 7) /\ op_work o = Some (Ok 7) /\
    deliveries c = [(1%nat, presentationState pending (Some registration) None);
                    (1%nat, presentationState success (Some registration) None)].
Proof.
  eexists _, _. split; [vm_compute; reflexivity|]. split; [vm_compute; reflexivity|].
  split; [vm_compute; reflexivity|]. split; [|vm_compute; reflexivity].
  refine (proj1 (proj2 (controller_outcomes _ 0 _ (Ok 7) (run_reachable resolved_run _ _) _ _) 7 eq_refl));
    vm_compute; reflexivity.
Defined.
Lemma controller_single_flight_witness :
  exists c : controller Z, perform_all [ARun registration] initial_controller = Some c /\
    (run authentication c).2 = inr (ClientError operation_in_progress
       (js "A passkey operation is already in progress")).
Proof.
  exists (run registration (initial_controller (R:=Z))).1. split; [reflexivity|].
  rewrite (proj2 (controller_single_flight (R:=Z) _ (run_reachable [ARun registration] _ eq_refl))
    0%nat (new_operation registration) authentication eq_refl eq_refl). reflexivity.
Defined.
Lemma controller_drains_witness :
  exists c : controller Z, perform_all [ARun registration; ACancel] initial_controller = Some c /\
    exists l c', perform_all l c = Some c' /\ Forall finished (operations c').
Proof.
  eexists. split; [vm_compute; reflexivity|].
  destruct (proj1 (controller_drains (R:=Z) _ (run_reachable [ARun registration; ACancel] _ eq_refl)))
    as (l & c' & _ & Hp & _ & _ & Hf). exists l, c'. split; [exact Hp|exact Hf].
Defined.

(** A success is published by a reaction that runs after the active slot was
    emptied: when another operation starts in between, the state says success while
    that operation is in flight, and [cancel] then does nothing to it. *)
Theorem stale_success_blocks_cancel :
  exists c : controller Z, reachable_controller c /\
    activeOperation c = Some 1%nat /\
    state c = presentationState success (Some registration) None /\
    (exists o, operations c !! 1%nat = Some o /\ op_work o = None /\ op_cancelled o = false) /\
    cancel c = c.
Proof.
  eexists. split.
  - apply (run_reachable [ARun registration; AWork 0 (Ok 7); AClear 0; ARun authentication;
      ARaceWork 0; AThen 0]). vm_compute. reflexivity.
  - split; [vm_compute; reflexivity|]. split; [vm_compute; reflexivity|].
    split; [eexists; vm_compute; done|]. vm_compute. reflexivity.
Qed.
