(* ===== verification/JsText.v ===== *)
(** * Text: string operations, UTF-8 decoding and POSIX paths

    [join], [split], [includes], [startsWith] and [trim] of the language, the UTF-8
    decoder behind [Buffer.toString], and the functions of [node:path] (POSIX) that the
    release scripts use.  Theorems about paths are in PathProps. *)

From S2P Require Import Prelude JsNumber JsValue.

(** ** Strings *)

(** [l.join(sep)] *)
Fixpoint join (sep : jsstr) (l : list jsstr) : jsstr :=
  match l with [] => [] | [s] => s | s :: l' => s ++ sep ++ join sep l' end.
(** [s.split(sep)] for a separator of one unit. *)
Fixpoint split (sep : Z) (s : jsstr) : list jsstr :=
  match s with
  | [] => [[]]
  | c :: s' =>
      if c =? sep then [] :: split sep s'
      else match split sep s' with h :: t => (c :: h) :: t | [] => [[c]] end
  end.
Fixpoint startsWith (s prefix : list Z) : bool :=
  match prefix, s with
  | [], _ => true
  | c :: p, x :: s' => (x =? c) && startsWith s' p
  | _ :: _, [] => false
  end.
(** [s.includes(sub)], also of a Buffer. *)
Fixpoint includes (s sub : list Z) : bool :=
  startsWith s sub || match s with [] => false | _ :: s' => includes s' sub end.
(** White space and line terminators, what [trim] removes and [\s] matches. *)
Definition space_ranges : list (Z * Z) :=
  [(9, 13); (32, 32); (160, 160); (5760, 5760); (8192, 8202); (8232, 8233); (8239, 8239); (8287, 8287);
   (12288, 12288); (65279, 65279)].
Definition is_space (c : Z) : bool := existsb (fun '(a, b) => (a <=? c) && (c <=? b)) space_ranges.
(** [s.trim().length > 0] *)
Definition has_text (s : jsstr) : bool := existsb (fun c => negb (is_space c)) s.

Fixpoint drop_while (f : Z -> bool) (s : jsstr) : jsstr :=
  match s with [] => [] | c :: s' => if f c then drop_while f s' else s end.
(** [s.trim()] *)
Definition trim (s : jsstr) : jsstr := rev (drop_while is_space (rev (drop_while is_space s))).

(** [a < b] on strings: order of code units. *)
Fixpoint str_ltb (a b : jsstr) : bool :=
  match a, b with
  | _, [] => false
  | [], _ :: _ => true
  | x :: a', y :: b' => if x =? y then str_ltb a' b' else x <? y
  end.
(** [Number(s)] of a string of decimal digits. *)
Definition digits_value (s : jsstr) : Z := foldl (fun n c => n * 10 + (c - 48)) 0 s.
Definition Number_digits (s : jsstr) : jsnum := round53 (digits_value s) 0.

(** ** UTF-8 decoding, malformed sequences replaced *)

Definition code_units (cp : Z) : jsstr :=
  if cp <=? 0xffff then [cp] else [0xD800 + (cp - 0x10000) / 1024; 0xDC00 + (cp - 0x10000) mod 1024].
(** The state is what a started sequence still needs: the count, the bounds of its
    next byte and the value so far. *)
Fixpoint utf8_decode_from (st : option (nat * Z * Z * Z)) (bs : list Z) : jsstr :=
  match bs with
  | [] => match st with Some _ => [0xFFFD] | None => [] end
  | b :: bs' =>
      let start :=
        if b <=? 0x7f then b :: utf8_decode_from None bs'
        else if (0xC2 <=? b) && (b <=? 0xDF) then utf8_decode_from (Some (1%nat, 0x80, 0xBF, b - 0xC0)) bs'
        else if (0xE0 <=? b) && (b <=? 0xEF) then
          utf8_decode_from (Some (2%nat, if b =? 0xE0 then 0xA0 else 0x80, if b =? 0xED then 0x9F else 0xBF,
                                  b - 0xE0)) bs'
        else if (0xF0 <=? b) && (b <=? 0xF4) then
          utf8_decode_from (Some (3%nat, if b =? 0xF0 then 0x90 else 0x80, if b =? 0xF4 then 0x8F else 0xBF,
                                  b - 0xF0)) bs'
        else 0xFFFD :: utf8_decode_from None bs' in
      match st with
      | None => start
      | Some (n, lo, hi, cp) =>
          if (lo <=? b) && (b <=? hi) then
            let cp := cp * 64 + (b - 0x80) in
            match n with
            | S ((S _) as n') => utf8_decode_from (Some (n', 0x80, 0xBF, cp)) bs'
            | _ => code_units cp ++ utf8_decode_from None bs'
            end
          else 0xFFFD :: start
      end
  end.
Definition utf8_decode : list Z -> jsstr := utf8_decode_from None.

Example utf8_decode_ex :
  utf8_decode (utf8_encode [65; 0xE9; 0xD55C; 0xD83D; 0xDE00]) = [65; 0xE9; 0xD55C; 0xD83D; 0xDE00] /\
  utf8_decode [0xE2; 0x82; 0x41; 0xC0; 0xED; 0xA0] = [0xFFFD; 0x41; 0xFFFD; 0xFFFD; 0xFFFD].
Proof. vm_compute. done. Qed.

(** ** Paths *)

Definition slash : Z := 47.
Definition sep : jsstr := js "/".
Definition isAbsolute (p : jsstr) : bool := match p with c :: _ => c =? slash | [] => false end.
(** Drops empty and dot components; a double dot removes what precedes it. *)
Definition collapse (components : list jsstr) : list jsstr :=
  foldl (fun acc c =>
    if str_eqb c [] || str_eqb c (js ".") then acc
    else if str_eqb c (js "..") then removelast acc else acc ++ [c]) [] components.
Definition abspath (components : list jsstr) : jsstr := sep ++ join sep components.
(** [path.resolve(a)] and [path.resolve(a, b)] in the working directory [cwd]. *)
Definition resolve1 (cwd a : jsstr) : jsstr :=
  abspath (collapse (split slash (if isAbsolute a then a else cwd ++ sep ++ a))).
Definition resolve2 (cwd a b : jsstr) : jsstr :=
  if isAbsolute b then resolve1 cwd b
  else match a with [] => resolve1 cwd b | _ => resolve1 cwd (a ++ sep ++ b) end.
Definition dirname (p : jsstr) : jsstr :=
  match p with
  | [] => js "."
  | c0 :: rest =>
      let hasRoot := c0 =? slash in
      match drop_while (fun c => negb (c =? slash)) (drop_while (fun c => c =? slash) (rev rest)) with
      | [] => if hasRoot then sep else js "."
      | _ :: r => let head := c0 :: rev r in
                  if hasRoot && (length head =? 1)%nat then js "//" else head
      end
  end.
Fixpoint strip_common (a b : list jsstr) : list jsstr * list jsstr :=
  match a, b with
  | x :: a', y :: b' => if str_eqb x y then strip_common a' b' else (a, b)
  | _, _ => (a, b)
  end.
(** [path.relative(from, to)] *)
Definition relative (cwd from to : jsstr) : jsstr :=
  let components p := collapse (split slash (resolve1 cwd p)) in
  let '(up, down) := strip_common (components from) (components to) in
  join sep (map (fun _ => js "..") up ++ down).

Example path_ex :
  resolve2 (js "/w") (js "/r/e") (js "a//b/../c") = js "/r/e/a/c" /\
  resolve2 (js "/w") (js "r") (js "../x") = js "/w/x" /\ resolve1 (js "/w") (js "/../..") = js "/" /\
  dirname (js "/a/b") = js "/a" /\ dirname (js "/a") = js "/" /\ dirname (js "/") = js "/" /\
  dirname (js "a/b//") = js "a" /\ dirname (js "//a") = js "//" /\ dirname (js "x") = js "." /\
  relative (js "/w") (js "/a/b") (js "/a/c/d") = js "../c/d" /\ relative (js "/w") (js "/a") (js "/a") = [] /\
  relative (js "/w") (js "/a/b") (js "/a") = js "..".
Proof. vm_compute. done. Qed.
(** [l.filter(Boolean)] on strings. *)
Definition nonempty (l : list jsstr) : list jsstr := filter (fun s => s <> []) l.
(** [path.join(a, b)] *)
Definition normalize_parts (above : bool) (components : list jsstr) : list jsstr :=
  foldl (fun acc c =>
    if str_eqb c [] || str_eqb c (js ".") then acc
    else if str_eqb c (js "..") then
      match rev acc with
      | last :: _ => if str_eqb last (js "..") then acc ++ [c] else removelast acc
      | [] => if above then [c] else []
      end
    else acc ++ [c]) [] components.
Definition normalize (p : jsstr) : jsstr :=
  match p with
  | [] => js "."
  | _ =>
      let absolute := isAbsolute p in
      let trailing := match rev p with c :: _ => c =? slash | [] => false end in
      let body := join sep (normalize_parts (negb absolute) (split slash p)) in
      match body with
      | [] => if absolute then sep else if trailing then js "./" else js "."
      | _ => (if absolute then sep else []) ++ body ++ (if trailing then sep else [])
      end
  end.
Definition path_join (a b : jsstr) : jsstr := normalize (join sep (nonempty [a; b])).
Example path_join_ex :
  map (fun '(a, b) => path_join a b)
    [(js "/s", js "a/b"); (js "/s/", js "./a//b/"); (js "", js "x"); (js "..", js "../x"); (js "a", js "../.."); (js "/a", js "../../b")] =
  map js ["/s/a/b"; "/s/a/b/"; "x"; "../../x"; ".."; "/b"]%string.
Proof. vm_compute. done. Qed.

(** ** Lines *)

(** [contents.split(/\r?\n/)]: the last piece keeps its carriage return. *)
Definition drop_return (piece : jsstr) : jsstr := match rev piece with c :: r => if c =? 13 then rev r else piece | [] => [] end.
Fixpoint drop_returns (pieces : list jsstr) : list jsstr :=
  match pieces with
  | piece :: (_ :: _) as rest => drop_return piece :: drop_returns rest
  | _ => pieces
  end.
Definition split_lines (contents : jsstr) : list jsstr := drop_returns (split 10 contents).
