(* ===== verification/ReactNative.v ===== *)
(** * packages/react-native/src/index.ts

    The JavaScript boundary of the React Native view: prop validation, the
    allowlist of native props, and the fail-closed event boundary.  The native
    view, React and the application's callbacks are host code. *)

From S2P Require Import Prelude JsNumber Regex JsValue JsText Contracts.
Open Scope js_scope.

Definition SECURE_KEYPAD_NATIVE_VIEW_NAME : jsstr := js "SecureKeypadView".

(** ** Events *)

(** [keys.length === expected.length && keys.every(..)]; own keys are distinct. *)
Definition hasExactKeys (value : val) (expected : list jsstr) : bool :=
  (length (keys value) =? length expected)%nat && forallb (fun key => str_in key expected) (keys value).

Definition validateMaskedStateEvent (value : val) : ValidationResult :=
  if negb (isRecord value) then reject (js "masked state event must be an object") else
  if negb (hasExactKeys value [js "nativeEvent"])
  then reject (js "masked state event contains an unsupported field") else
  validateMaskedState value.["nativeEvent"].
Definition validateResultEvent (value : val) : ValidationResult :=
  if negb (isRecord value) then reject (js "result event must be an object") else
  if negb (hasExactKeys value [js "nativeEvent"])
  then reject (js "result event contains an unsupported field") else
  Contracts.validateResultEvent value.["nativeEvent"].

(** Calls of the application's callbacks, in order. *)
Inductive callback := CallMaskedState (event : val) | CallResult (event : val).

(** [{ nativeEvent: { type: "result", code: "error" } }] *)
Definition error_event : val :=
  vobj [("nativeEvent", vobj [("type", vstr "result"); ("code", vstr "error")])]%string.

(** The two handlers, given which callbacks the application supplied. *)
Section handlers.
Context (has_masked has_result : bool).
Definition emitGenericError : list callback := if has_result then [CallResult error_event] else [].
Definition handleMaskedStateChange (event : val) : list callback :=
  if negb (valid (validateMaskedStateEvent event)) then emitGenericError
  else if has_masked then [CallMaskedState event] else [].
Definition handleResult (event : val) : list callback :=
  if negb (valid (validateResultEvent event)) then emitGenericError
  else if has_result then [CallResult event] else [].
End handlers.

(** ** Props *)

Definition ALLOWED_PROP_NAMES : list jsstr := map js
  ["style"; "layout"; "theme"; "inputPolicy"; "mode"; "securityMode"; "acknowledgeLowerAssurance";
   "maxTokens"; "timeoutMs"; "cancelRequest"; "headlessKeyPress"; "onMaskedStateChange";
   "onResult"]%string.
Definition hasOnlyAllowedProps (value : val) : bool :=
  forallb (fun key => str_in key ALLOWED_PROP_NAMES) (keys value).

(** This file's own [isBoundedInteger]: no finiteness test of its own. *)
Definition isBoundedInteger (value : val) (minimum maximum : Z) : bool :=
  match value with
  | VNum n => is_integer n && num_leb (num minimum) n && num_leb n (num maximum)
  | _ => false
  end.

Definition validateHeadlessKeyPress (value : val) : bool :=
  isRecord value
  && ((length (keys value) =? 2)%nat
      && forallb (fun key => str_eqb key (js "token") || str_eqb key (js "keyId")) (keys value)
      && isBoundedInteger value.["token"] 0 MAX_SAFE_INTEGER
      && is_pattern KEY_ID_PATTERN value.["keyId"]).

Definition policy_of (v : val) : InputPolicy :=
  if eq_str v (js "ascii") then ascii else if eq_str v (js "hangul") then hangul else numeric.
(** [value.mode ?? "secure-native"] *)
Definition mode_of (v : val) : val := match v with VUndef | VNull => vstr "secure-native" | _ => v end.
(** [v !== undefined && !ok] *)
Definition present_bad (v : val) (ok : bool) : bool := negb (is_undefined v) && negb ok.

Definition validateSecureKeypadProps (value : val) : result jserr ValidationResult :=
  if negb (isRecord value) then Ok (reject (js "props must be an object")) else
  let errors := [] in
  let errors := push_if (negb (hasOnlyAllowedProps value)) (js "props contains an unsupported field") errors in
  let policy := value.["inputPolicy"] in
  let layoutResult := validateLayoutForPolicy value.["layout"] (policy_of policy) in
  let errors := if valid layoutResult then errors else errors ++ JsValue.errors layoutResult in
  themeResult ← validateTheme value.["theme"];
  let errors := if valid themeResult then errors else errors ++ JsValue.errors themeResult in
  let errors := push_if (present_bad policy (eq_str policy (js "numeric") || eq_str policy (js "ascii")
      || eq_str policy (js "hangul"))) (js "props.inputPolicy is invalid") errors in
  let mode := mode_of value.["mode"] in
  let ack := value.["acknowledgeLowerAssurance"] in
  let errors := push_if (negb (eq_str mode (js "secure-native")) && negb (eq_str mode (js "headless-host")))
      (js "props.mode is invalid") errors in
  let errors := push_if (present_bad ack (is_boolean ack)) (js "props.acknowledgeLowerAssurance is invalid") errors in
  let errors := push_if (eq_str mode (js "headless-host") && negb (eq_bool ack true))
      (js "headless-host mode requires explicit lower-assurance acknowledgement") errors in
  let errors := push_if (eq_str mode (js "secure-native") && eq_bool ack true)
      (js "lower-assurance acknowledgement requires headless-host mode") errors in
  let security := value.["securityMode"] in
  let errors := push_if (present_bad security (eq_str security (js "standard") || eq_str security (js "strict")))
      (js "props.securityMode is invalid") errors in
  let press := value.["headlessKeyPress"] in
  let errors := push_if (present_bad press (validateHeadlessKeyPress press))
      (js "props.headlessKeyPress is invalid") errors in
  let errors := push_if (negb (is_undefined press) && negb (eq_str mode (js "headless-host")))
      (js "headlessKeyPress requires headless-host mode") errors in
  let errors := push_if (present_bad value.["maxTokens"] (isBoundedInteger value.["maxTokens"] 1 MAX_RENDERED_LENGTH))
      (js "props.maxTokens is invalid") errors in
  let errors := push_if (present_bad value.["timeoutMs"] (isBoundedInteger value.["timeoutMs"] 1 86400000))
      (js "props.timeoutMs is invalid") errors in
  let errors := push_if (present_bad value.["cancelRequest"]
        match value.["cancelRequest"] with
        | VNum n => is_safe_integer n && negb (num_ltb n (num 0))
        | _ => false
        end) (js "props.cancelRequest is invalid") errors in
  let errors := push_if (present_bad value.["onMaskedStateChange"] (is_function value.["onMaskedStateChange"]))
      (js "props.onMaskedStateChange is invalid") errors in
  let errors := push_if (present_bad value.["onResult"] (is_function value.["onResult"]))
      (js "props.onResult is invalid") errors in
  Ok (finish errors).

(** Why the assertion throws: the validator itself, or the [TypeError] it builds. *)
Inductive assert_error := ValidatorThrew (e : jserr) | InvalidProps (message : jsstr).
Definition assertSecureKeypadProps (value : val) : result assert_error unit :=
  match validateSecureKeypadProps value with
  | Throw e => Throw (ValidatorThrew e)
  | Ok r => if negb (valid r) then Throw (InvalidProps (join (js "; ") (errors r))) else Ok tt
  end.

(** [...(v === undefined ? {} : { k: v })] *)
Definition spread (k : jsstr) (v : val) : list (jsstr * val) :=
  if is_undefined v then [] else [(k, v)].
Definition OPTIONAL_NATIVE_PROPS : list jsstr := map js
  ["style"; "inputPolicy"; "mode"; "securityMode"; "acknowledgeLowerAssurance"; "maxTokens";
   "timeoutMs"; "cancelRequest"; "headlessKeyPress"]%string.
Definition getSecureKeypadNativeProps (props : val) : result assert_error (list (jsstr * val)) :=
  _ ← assertSecureKeypadProps props;
  Ok ([(js "layout", props.["layout"]); (js "theme", props.["theme"])]
      ++ flat_map (fun k => spread k (get props k)) OPTIONAL_NATIVE_PROPS).

(** ** The view *)

(** What one render of the wrapper does: callback calls, and the element's native
    props with the presence of the application's callbacks its handlers close over. *)
Record native_element := {
  el_props : list (jsstr * val);
  el_has_masked : bool;
  el_has_result : bool;
}.
Definition render (props : val) : list callback * option native_element :=
  match getSecureKeypadNativeProps props with
  | Throw _ =>
      (if is_function props.["onResult"] then [CallResult error_event] else [], None)
  | Ok nativeProps =>
      ([], Some {| el_props := nativeProps;
                   el_has_masked := negb (is_undefined props.["onMaskedStateChange"]);
                   el_has_result := negb (is_undefined props.["onResult"]) |})
  end.

(** [getSecureKeypadView]: the module's memo, and how often the native component
    was required. [resolve] requires the native component and wraps it with
    [forwardRef]; either may throw. *)
Section view.
Context {Component : Type} (resolve : jsstr -> result jserr Component).
Record view_module := { secureKeypadComponent : option Component; requires : nat }.
Definition getSecureKeypadView (m : view_module) : view_module * result jserr Component :=
  match secureKeypadComponent m with
  | Some c => (m, Ok c)
  | None =>
      match resolve SECURE_KEYPAD_NATIVE_VIEW_NAME with
      | Throw e => ({| secureKeypadComponent := None; requires := S (requires m) |}, Throw e)
      | Ok native => ({| secureKeypadComponent := Some native; requires := S (requires m) |}, Ok native)
      end
  end.
End view.
