(* ===== verification/ReactNativeProps.v ===== *)
(** * Properties of the React Native boundary *)

From S2P Require Import Prelude JsNumber Regex JsValue Contracts ContractsSpec ContractsProps.
From S2P Require Import ReactNative.
Open Scope js_scope.

(** ** Props *)

Record Press_wf (v : val) : Prop := {
  press_record : is_record v = true;
  press_keys : length (keys v) = 2%nat /\ keys_within v (map js ["token"; "keyId"]%string);
  press_token : integer_within 0 MAX_SAFE_INTEGER v.["token"];
  press_id : matching KEY_ID_PATTERN v.["keyId"];
}.

(** The two renderers: the host-rendered one needs the acknowledgement, and only it
    takes host key presses. *)
Definition Secure_native (v : val) : Prop :=
  (v.["mode"] = VUndef \/ v.["mode"] = VNull \/ v.["mode"] = vstr "secure-native") /\
  (v.["acknowledgeLowerAssurance"] = VUndef \/ v.["acknowledgeLowerAssurance"] = VBool false) /\
  v.["headlessKeyPress"] = VUndef.
Definition Headless_host (v : val) : Prop :=
  v.["mode"] = vstr "headless-host" /\ v.["acknowledgeLowerAssurance"] = VBool true /\
  optional Press_wf v.["headlessKeyPress"].

Record Props_wf (v : val) : Prop := {
  props_record : is_record v = true;
  props_fields : keys_within v ALLOWED_PROP_NAMES;
  props_policy : optional (one_of (map js ["numeric"; "ascii"; "hangul"]%string)) v.["inputPolicy"];
  props_layout : Layout_wf v.["layout"] /\
    Forall (input_key_canonical (policy_of v.["inputPolicy"])) (rows_keys (v.["layout"]).["rows"]);
  props_theme : Theme_wf v.["theme"];
  props_mode : Secure_native v \/ Headless_host v;
  props_security : optional (one_of (map js ["standard"; "strict"]%string)) v.["securityMode"];
  props_tokens : optional (integer_within 1 4096) v.["maxTokens"];
  props_timeout : optional (integer_within 1 86400000) v.["timeoutMs"];
  props_cancel : optional (integer_within 0 MAX_SAFE_INTEGER) v.["cancelRequest"];
  props_masked : optional (fun w => is_function w = true) v.["onMaskedStateChange"];
  props_result : optional (fun w => is_function w = true) v.["onResult"];
}.

Lemma present_bad_spec v ok P :
  (ok = true <-> P v) -> present_bad v ok = false <-> optional P v.
Proof.
  intros H. unfold present_bad, optional. rewrite andb_false_iff, !negb_false_iff, is_undefined_spec, H. tauto.
Qed.
Lemma isBoundedInteger_within lo hi v : ReactNative.isBoundedInteger v lo hi = true <-> integer_within lo hi v.
Proof.
  unfold ReactNative.isBoundedInteger, integer_within.
  destruct v as [| | |n| | | | | | |]; try (split; [done|by intros (? & ? & ? & _)]).
  rewrite !andb_true_iff, is_integer_spec. split.
  - intros [[[z Hz] H1] H2]. exists n, z.
    rewrite (num_leb_toZ _ _ _ _ (num_toZ_num lo) Hz), Z.leb_le in H1.
    rewrite (num_leb_toZ _ _ _ _ Hz (num_toZ_num hi)), Z.leb_le in H2. done.
  - intros (n' & z & [= <-] & Hz & ? & ?).
    rewrite (num_leb_toZ _ _ _ _ (num_toZ_num lo) Hz), (num_leb_toZ _ _ _ _ Hz (num_toZ_num hi)), !Z.leb_le.
    eauto.
Qed.
Lemma cancel_within v :
  match v with VNum n => is_safe_integer n && negb (num_ltb n (num 0)) | _ => false end = true <->
  integer_within 0 MAX_SAFE_INTEGER v.
Proof.
  unfold integer_within. destruct v as [| | |n| | | | | | |]; try (split; [done|by intros (? & ? & ? & _)]).
  rewrite andb_true_iff, negb_true_iff, is_safe_integer_spec. split.
  - intros [(z & Hz & Hb) H]. rewrite (num_ltb_toZ _ _ _ _ Hz (num_toZ_num 0)), Z.ltb_ge in H.
    exists n, z. split_and!; [done..|lia|lia].
  - intros (n' & z & [= <-] & Hz & ?). rewrite (num_ltb_toZ _ _ _ _ Hz (num_toZ_num 0)), Z.ltb_ge.
    split; [|lia]. exists z. split; [done|lia].
Qed.
Lemma words2 v a b : (eq_str v a || eq_str v b = true) <-> one_of [a; b] v.
Proof.
  rewrite orb_true_iff, !eq_str_spec. unfold one_of. setoid_rewrite elem_of_cons. 
  setoid_rewrite list_elem_of_singleton. naive_solver.
Qed.
Lemma words3 v a b c : (eq_str v a || eq_str v b || eq_str v c = true) <-> one_of [a; b; c] v.
Proof.
  rewrite !orb_true_iff, !eq_str_spec. unfold one_of. setoid_rewrite elem_of_cons. setoid_rewrite elem_of_cons.
  setoid_rewrite list_elem_of_singleton. naive_solver.
Qed.
Lemma press_spec v : validateHeadlessKeyPress v = true <-> Press_wf v.
Proof.
  unfold validateHeadlessKeyPress, isRecord. rewrite !andb_true_iff, Nat.eqb_eq, isBoundedInteger_within.
  assert (Hk : forallb (fun key => str_eqb key (js "token") || str_eqb key (js "keyId")) (keys v) = true <->
    keys_within v (map js ["token"; "keyId"]%string)).
  { rewrite forallb_Forall, Forall_forall. unfold keys_within. apply forall_proper. intros k.
    rewrite orb_true_iff, !str_eqb_eq. cbn [map]. rewrite elem_of_cons, list_elem_of_singleton. done. }
  rewrite Hk, is_pattern_spec. split; [intros (? & (? & ?) & ?); by constructor|intros []; tauto].
Qed.

Lemma mode_rules v mode ack press :
  mode = mode_of v.["mode"] -> ack = v.["acknowledgeLowerAssurance"] -> press = v.["headlessKeyPress"] ->
  (negb (eq_str mode (js "secure-native")) && negb (eq_str mode (js "headless-host")) = false /\
   present_bad ack (is_boolean ack) = false /\
   eq_str mode (js "headless-host") && negb (eq_bool ack true) = false /\
   eq_str mode (js "secure-native") && eq_bool ack true = false /\
   present_bad press (validateHeadlessKeyPress press) = false /\
   negb (is_undefined press) && negb (eq_str mode (js "headless-host")) = false) <->
  Secure_native v \/ Headless_host v.
Proof.
  intros -> -> ->. unfold Secure_native, Headless_host.
  rewrite (present_bad_spec _ _ _ (press_spec _)), (present_bad_spec _ _ _ (is_boolean_spec _)).
  rewrite !andb_false_iff, !negb_false_iff, is_undefined_spec, !eq_str_spec.
  assert (Hsec : mode_of v.["mode"] = VStr (js "secure-native") <->
    v.["mode"] = VUndef \/ v.["mode"] = VNull \/ v.["mode"] = vstr "secure-native")
    by (unfold mode_of, vstr; destruct (get v (js "mode")); naive_solver).
  assert (Hhead : mode_of v.["mode"] = VStr (js "headless-host") <-> v.["mode"] = vstr "headless-host")
    by (unfold mode_of, vstr; destruct (get v (js "mode")); naive_solver).
  rewrite <- Hsec, <- Hhead, eq_bool_spec. clear Hsec Hhead.
  set (mode := mode_of _). set (ack := get v (js "acknowledgeLowerAssurance")).
  set (press := get v (js "headlessKeyPress")).
  assert (Hne : mode = VStr (js "secure-native") -> mode <> VStr (js "headless-host")) by (intros ->; discriminate).
  assert (Hs : eq_str mode (js "secure-native") = false <-> mode <> VStr (js "secure-native"))
    by (rewrite <- not_true_iff_false, eq_str_spec; done).
  assert (Hh : eq_str mode (js "headless-host") = false <-> mode <> VStr (js "headless-host"))
    by (rewrite <- not_true_iff_false, eq_str_spec; done).
  assert (Ha : eq_bool ack true = false <-> ack <> VBool true)
    by (rewrite <- not_true_iff_false, eq_bool_spec; done).
  rewrite Hs, Hh, Ha. unfold optional, boolean_val. split.
  - intros ([H1|H1] & H2 & H3 & H4 & H5 & H6).
    + left. split; [done|]. split.
      * destruct H2 as [?|[[] ?]]; [by left| |by right]. destruct H4; [done|congruence].
      * destruct H6; [done|]. by destruct (Hne H1).
    + right. destruct H3; done.
  - intros [(H1 & H2 & H3)|(H1 & H2 & H3)].
    + split_and!; [by left|destruct H2; eauto|left; auto|right; destruct H2; congruence|by left|by left].
    + split_and!; [by right|right; eauto|by right|left; intros ?; by apply Hne|done|by right].
Qed.

Lemma join_errors (b : ValidationResult) es :
  (valid b = true <-> errors b = []) ->
  (if valid b then es else es ++ errors b) = [] <-> es = [] /\ valid b = true.
Proof.
  intros H. destruct (valid b) eqn:E; [tauto|]. split; [|by intros [_ ?]].
  intros [_ He]%app_eq_nil. apply H in He. done.
Qed.
Lemma finish_reject_errors r : r = finish (errors r) -> valid r = true <-> errors r = [].
Proof. intros ->. by rewrite finish_valid. Qed.
Lemma layout_valid_errors v p :
  valid (validateLayoutForPolicy v p) = true <-> errors (validateLayoutForPolicy v p) = [].
Proof. unfold validateLayoutForPolicy. by rewrite finish_valid. Qed.
Lemma theme_valid_errors v r : validateTheme v = Ok r -> valid r = true <-> errors r = [].
Proof.
  unfold validateTheme. destruct (isRecord v); cbn [negb]; [|by intros [= <-]].
  intros (es & _ & [= <-])%bind_Ok. by rewrite finish_valid.
Qed.

Lemma validateSecureKeypadProps_wf v :
  (exists r, validateSecureKeypadProps v = Ok r /\ valid r = true) <-> Props_wf v.
Proof.
  unfold validateSecureKeypadProps, isRecord. destruct (is_record v) eqn:Hr; cbn [negb].
  2: { split; [intros (r & [= <-] & ?); done|]. intros []. congruence. }
  transitivity (keys_within v ALLOWED_PROP_NAMES /\
    valid (validateLayoutForPolicy v.["layout"] (policy_of v.["inputPolicy"])) = true /\
    (exists r, validateTheme v.["theme"] = Ok r /\ valid r = true) /\
    optional (one_of (map js ["numeric"; "ascii"; "hangul"]%string)) v.["inputPolicy"] /\
    (Secure_native v \/ Headless_host v) /\
    optional (one_of (map js ["standard"; "strict"]%string)) v.["securityMode"] /\
    optional (integer_within 1 4096) v.["maxTokens"] /\
    optional (integer_within 1 86400000) v.["timeoutMs"] /\
    optional (integer_within 0 MAX_SAFE_INTEGER) v.["cancelRequest"] /\
    optional (fun w => is_function w = true) v.["onMaskedStateChange"] /\
    optional (fun w => is_function w = true) v.["onResult"]).
  2: { rewrite validateLayoutForPolicy_wf, validateTheme_wf. split; [intros; destruct_and!; by constructor|].
       intros []. tauto. }
  rewrite <- (mode_rules v _ _ _ eq_refl eq_refl eq_refl). cbn [map].
  rewrite <- (present_bad_spec _ _ _ (words3 v.["inputPolicy"] _ _ _)).
  rewrite <- (present_bad_spec _ _ _ (words2 v.["securityMode"] _ _)).
  rewrite <- (present_bad_spec _ _ _ (isBoundedInteger_within 1 4096 _)),
    <- (present_bad_spec _ _ _ (isBoundedInteger_within 1 86400000 _)).
  rewrite <- (present_bad_spec _ _ _ (cancel_within v.["cancelRequest"])).
  rewrite <- (present_bad_spec v.["onMaskedStateChange"] _ _ (iff_refl (is_function _ = true))).
  rewrite <- (present_bad_spec v.["onResult"] _ _ (iff_refl (is_function _ = true))).
  assert (Hal : hasOnlyAllowedProps v = true <-> keys_within v ALLOWED_PROP_NAMES) by apply hasOnlyKeys_spec.
  rewrite <- Hal, <- negb_false_iff.
  pose proof (layout_valid_errors v.["layout"] (policy_of v.["inputPolicy"])) as Hlay.
  generalize dependent (validateLayoutForPolicy v.["layout"] (policy_of v.["inputPolicy"])). intros lay Hlay.
  assert (Hes : forall th es, validateTheme v.["theme"] = Ok th ->
    (let es1 := if valid lay then es else es ++ errors lay in
     if valid th then es1 else es1 ++ errors th) = [] <-> es = [] /\ valid lay = true /\ valid th = true).
  { intros th es Hth. cbv zeta. rewrite (join_errors th), (join_errors lay) by eauto using theme_valid_errors. tauto. }
  split.
  - intros (r & (th & Hth & [= <-])%bind_Ok & Hv). revert Hv. rewrite finish_valid, !push_if_nil, (Hes th _ Hth).
    rewrite push_if_nil. intros. destruct_and!. split_and!; try done. by exists th.
  - intros (? & ? & (th & Hth & ?) & ?). rewrite Hth. eexists. split; [reflexivity|].
    rewrite finish_valid, !push_if_nil, (Hes th _ Hth), push_if_nil. destruct_and!. split_and!; done.
Qed.

(** The prop validator accepts exactly the records whose layout, theme, policy,
    bounds and callbacks are well formed and that are either in the secure native
    mode, without acknowledgement or host key press, or in the acknowledged
    host-rendered one. *)
Theorem validateSecureKeypadProps_correct v :
  (exists r, validateSecureKeypadProps v = Ok r /\ valid r = true) <-> Props_wf v.
Proof. exact (validateSecureKeypadProps_wf v). Qed.

(** ** Native props *)

Lemma assertSecureKeypadProps_ok v : assertSecureKeypadProps v = Ok tt <-> Props_wf v.
Proof.
  rewrite <- validateSecureKeypadProps_wf. unfold assertSecureKeypadProps.
  destruct (validateSecureKeypadProps v) as [r|e]; [|split; [done|by intros (? & [=] & _)]].
  destruct (valid r) eqn:E; cbn [negb]; (split; [|try done]).
  - eauto.
  - done.
  - intros (r' & [= <-] & ?). congruence.
Qed.
Lemma getSecureKeypadNativeProps_ok p np :
  getSecureKeypadNativeProps p = Ok np <->
  Props_wf p /\ np = [(js "layout", p.["layout"]); (js "theme", p.["theme"])]
    ++ flat_map (fun k => spread k (get p k)) OPTIONAL_NATIVE_PROPS.
Proof.
  unfold getSecureKeypadNativeProps. rewrite bind_Ok, <- assertSecureKeypadProps_ok.
  split; [intros ([] & ? & [= <-]); done|intros [? ->]; by exists tt].
Qed.
Lemma spread_elem k k' v w : (k', w) ∈ spread k v <-> k' = k /\ w = v /\ v <> VUndef.
Proof.
  unfold spread. destruct (is_undefined v) eqn:E.
  - apply is_undefined_spec in E. split; [by intros ?%not_elem_of_nil|tauto].
  - rewrite list_elem_of_singleton. apply not_true_iff_false in E. rewrite is_undefined_spec in E. naive_solver.
Qed.
Lemma native_props_elem p k w :
  Props_wf p ->
  (k, w) ∈ [(js "layout", p.["layout"]); (js "theme", p.["theme"])]
    ++ flat_map (fun k => spread k (get p k)) OPTIONAL_NATIVE_PROPS <->
  k ∈ js "layout" :: js "theme" :: OPTIONAL_NATIVE_PROPS /\ w = get p k /\ w <> VUndef.
Proof.
  intros Hp. assert (Hl : p.["layout"] <> VUndef /\ p.["theme"] <> VUndef).
  { pose proof (layout_record _ (proj1 (props_layout p Hp))) as Hl. pose proof (theme_record _ (props_theme p Hp)) as Ht.
    split; intros E.
    - by rewrite E in Hl.
    - by rewrite E in Ht. }
  rewrite elem_of_app, elem_of_flat_map, !elem_of_cons. setoid_rewrite spread_elem.
  rewrite elem_of_nil. naive_solver.
Qed.

(** C35. The native map exists exactly for well-formed props; it then holds exactly
    the defined ones among [layout], [theme] and the nine optional native props, with
    their values unchanged - never a callback, a ref or an unknown prop. *)
Theorem native_props_allowlist p :
  ((exists np, getSecureKeypadNativeProps p = Ok np) <-> Props_wf p) /\
  forall np k w, getSecureKeypadNativeProps p = Ok np ->
    ((k, w) ∈ np <-> k ∈ js "layout" :: js "theme" :: OPTIONAL_NATIVE_PROPS /\ w = get p k /\ w <> VUndef) /\
    (k ∈ np.*1 -> k <> js "onMaskedStateChange" /\ k <> js "onResult").
Proof.
  split.
  - setoid_rewrite getSecureKeypadNativeProps_ok. naive_solver.
  - intros np k w [Hp ->]%getSecureKeypadNativeProps_ok. split; [by apply native_props_elem|].
    intros ([k' w'] & -> & [Hk _]%native_props_elem)%list_elem_of_fmap; [|done]. cbn [fst].
    assert (Hd : Forall (fun k => k <> js "onMaskedStateChange" /\ k <> js "onResult")
      (js "layout" :: js "theme" :: OPTIONAL_NATIVE_PROPS)) by (repeat constructor; discriminate).
    rewrite Forall_forall in Hd. by apply Hd.
Qed.

Definition sample_props : val := vobj
  [("layout", DEFAULT_NUMERIC_LAYOUT); ("theme", DEFAULT_THEME); ("mode", vstr "headless-host");
   ("acknowledgeLowerAssurance", VBool true); ("onResult", VFun [] None)]%string.
Lemma native_props_allowlist_witness :
  exists np, getSecureKeypadNativeProps sample_props = Ok np /\ (js "mode", vstr "headless-host") ∈ np.
Proof.
  assert (H : is_ok (getSecureKeypadNativeProps sample_props) = true) by (vm_compute; reflexivity).
  destruct (getSecureKeypadNativeProps sample_props) as [np|] eqn:E; [|discriminate].
  exists np. split; [reflexivity|].
  apply (proj1 (proj2 (native_props_allowlist sample_props) np _ _ E)).
  split; [|split; [reflexivity|discriminate]]. apply (bool_decide_unpack _). vm_compute. exact I.
Defined.

(** ** Events *)

Definition Event_wf (payload : val -> Prop) (e : val) : Prop :=
  is_record e = true /\ length (keys e) = 1%nat /\ keys_within e [js "nativeEvent"] /\ payload e.["nativeEvent"].
Definition callback_wf (c : callback) : Prop :=
  match c with
  | CallMaskedState e => Event_wf MaskedState_wf e
  | CallResult e => Event_wf ResultEvent_wf e
  end.

Lemma hasExactKeys_spec v ks :
  hasExactKeys v ks = true <-> length (keys v) = length ks /\ keys_within v ks.
Proof.
  unfold hasExactKeys, keys_within. rewrite andb_true_iff, Nat.eqb_eq, forallb_Forall, Forall_forall.
  by setoid_rewrite str_in_elem.
Qed.
Lemma event_wf_spec e :
  (valid (validateMaskedStateEvent e) = true <-> Event_wf MaskedState_wf e) /\
  (valid (validateResultEvent e) = true <-> Event_wf ResultEvent_wf e).
Proof.
  unfold validateMaskedStateEvent, validateResultEvent, isRecord, Event_wf.
  destruct (event_validators_wf e.["nativeEvent"]) as [Hm Hr].
  destruct (is_record e) eqn:He; cbn [negb]; [|split; (split; [done|by intros (? & _)])].
  pose proof (hasExactKeys_spec e [js "nativeEvent"]) as Hk. cbn [length] in Hk.
  destruct (hasExactKeys e _) eqn:E; cbn [negb].
  - rewrite Hm, Hr. tauto.
  - assert (~ (length (keys e) = 1%nat /\ keys_within e [js "nativeEvent"])) by (intros ?%Hk; done).
    split; (split; [done|tauto]).
Qed.
Lemma error_event_wf : Event_wf ResultEvent_wf error_event.
Proof. apply event_wf_spec. reflexivity. Qed.

(** C34. Native events fail closed: whatever the props and whatever values the native
    side sends, every call of an application callback carries a well-formed event; a
    malformed payload only ever produces the canonical error result, and a well-formed
    one is passed on unchanged. *)
Theorem events_fail_closed has_masked has_result e :
  Forall callback_wf (handleMaskedStateChange has_masked has_result e) /\
  Forall callback_wf (handleResult has_result e) /\
  (Event_wf MaskedState_wf e ->
    handleMaskedStateChange has_masked has_result e = if has_masked then [CallMaskedState e] else []) /\
  (Event_wf ResultEvent_wf e ->
    handleResult has_result e = if has_result then [CallResult e] else []) /\
  (~ Event_wf MaskedState_wf e ->
    handleMaskedStateChange has_masked has_result e = if has_result then [CallResult error_event] else []) /\
  (~ Event_wf ResultEvent_wf e ->
    handleResult has_result e = if has_result then [CallResult error_event] else []).
Proof.
  unfold handleMaskedStateChange, handleResult, emitGenericError.
  destruct (event_wf_spec e) as [Hm Hr]. pose proof error_event_wf as He.
  destruct (valid (validateMaskedStateEvent e)), (valid (validateResultEvent e)); cbn [negb];
    destruct has_masked, has_result; split_and!; repeat (apply Forall_cons_2 || apply Forall_nil_2); cbn [callback_wf]; intuition congruence.
Qed.

Lemma events_fail_closed_witness :
  let forged := vobj [("nativeEvent", vobj [("type", vstr "result"); ("code", vstr "1234")])]%string in
  handleResult true forged = [CallResult error_event] /\ handleResult true error_event = [CallResult error_event].
Proof.
  intros forged. split.
  - destruct (events_fail_closed true true forged) as (_ & _ & _ & _ & _ & H). apply H.
    intros Hf%event_wf_spec. revert Hf. vm_compute. discriminate.
  - destruct (events_fail_closed true true error_event) as (_ & _ & _ & H & _ & _). apply H.
    apply event_wf_spec. reflexivity.
Defined.

Lemma function_present v : optional (fun w => is_function w = true) v -> negb (is_undefined v) = is_function v.
Proof. intros [->|H]; [done|]. by destruct v. Qed.

(** A render produces the native element exactly for well-formed props, with the
    allowlisted native map and handlers for exactly the supplied callbacks, and calls
    nothing; for any other props it renders nothing and calls at most [onResult], once,
    with the canonical error. *)
Theorem render_fail_closed p :
  (Props_wf p /\ exists np, getSecureKeypadNativeProps p = Ok np /\
    render p = ([], Some {| el_props := np;
      el_has_masked := is_function p.["onMaskedStateChange"]; el_has_result := is_function p.["onResult"] |})) \/
  (~ Props_wf p /\ (render p).2 = None /\ Forall callback_wf (render p).1 /\
    (render p).1 = if is_function p.["onResult"] then [CallResult error_event] else []).
Proof.
  unfold render. destruct (getSecureKeypadNativeProps p) as [np|e] eqn:E.
  - left. pose proof (proj1 (proj1 (getSecureKeypadNativeProps_ok p np) E)) as Hp. split; [done|].
    exists np. split; [done|]. do 3 f_equal.
    + exact (function_present _ (props_masked p Hp)).
    + exact (function_present _ (props_result p Hp)).
  - right. split; [|split; [done|split; [|done]]].
    + intros Hp. pose proof (proj2 (getSecureKeypadNativeProps_ok p _) (conj Hp eq_refl)). congruence.
    + cbn [fst]. destruct (is_function _); repeat (apply Forall_cons_2 || apply Forall_nil_2). apply error_event_wf.
Qed.
