(* ===== verification/JsDate.v ===== *)
(** * ECMAScript dates

    Time values are integers of milliseconds since 1970-01-01T00:00:00Z.  The
    definitions follow the specification's calendar functions.  [Date_parse] knows
    the full date-time format [toISOString] writes; every other string, among them
    those the standard leaves to the implementation, goes to a parameter.
    Writing and reading are inverse. *)

From S2P Require Import Prelude JsNumber JsValue.

(** ** Calendar *)

Definition msPerDay : Z := 86400000.
Definition MAX_TIME : Z := 8640000000000000.
Definition DayFromYear (y : Z) : Z :=
  365 * (y - 1970) + (y - 1969) / 4 - (y - 1901) / 100 + (y - 1601) / 400.
Definition InLeapYear (y : Z) : bool :=
  (y mod 4 =? 0) && (negb (y mod 100 =? 0) || (y mod 400 =? 0)).
(** The year a day lies in: an estimate from the mean length, then one correction. *)
Definition YearFromDay (d : Z) : Z :=
  let y := 1970 + (d * 400) / 146097 in
  if d <? DayFromYear y then y - 1 else if DayFromYear (y + 1) <=? d then y + 1 else y.
Definition month_starts : list Z := [0; 31; 59; 90; 120; 151; 181; 212; 243; 273; 304; 334; 365].
(** The day of the year on which month [m] (from 1) starts. *)
Definition MonthStart (leap : bool) (m : Z) : Z :=
  nth (Z.to_nat (m - 1)) month_starts 365 + (if leap && (2 <? m) then 1 else 0).
Definition DaysInMonth (leap : bool) (m : Z) : Z := MonthStart leap (m + 1) - MonthStart leap m.
(** The month of a day of the year: the number of months started. *)
Definition MonthFromDay (leap : bool) (n : Z) : Z :=
  Z.of_nat (length (filter (fun m => MonthStart leap m <= n) (seqZ 1 12))).
Definition MakeDay (y m d : Z) : Z := DayFromYear y + MonthStart (InLeapYear y) m + (d - 1).
Definition MakeTime (h mi s ms : Z) : Z := ((h * 60 + mi) * 60 + s) * 1000 + ms.
Definition TimeClip (t : Z) : option Z := if Z.abs t <=? MAX_TIME then Some t else None.

(** ** toISOString *)

(** The decimal digits of [z], exactly [n] of them. *)
Fixpoint pad (n : nat) (z : Z) : jsstr :=
  match n with O => [] | S n' => pad n' (z / 10) ++ [48 + z mod 10] end.
Definition iso_year (y : Z) : jsstr :=
  if (0 <=? y) && (y <=? 9999) then pad 4 y
  else (if y <? 0 then js "-" else js "+") ++ pad 6 (Z.abs y).
Definition iso_day (d : Z) : jsstr :=
  let y := YearFromDay d in
  let leap := InLeapYear y in
  let n := d - DayFromYear y in
  let m := MonthFromDay leap n in
  iso_year y ++ js "-" ++ pad 2 m ++ js "-" ++ pad 2 (n - MonthStart leap m + 1).
Definition iso_time (r : Z) : jsstr :=
  pad 2 (r / 3600000) ++ js ":" ++ pad 2 (r / 60000 mod 60) ++ js ":" ++ pad 2 (r / 1000 mod 60)
  ++ js "." ++ pad 3 (r mod 1000).
Definition iso_string (t : Z) : jsstr :=
  iso_day (t / msPerDay) ++ js "T" ++ iso_time (t mod msPerDay) ++ js "Z".
(** [toISOString] of a time value, [None] being [NaN]. *)
Definition toISOString (t : option Z) : result jserr jsstr :=
  match t with Some t => Ok (iso_string t) | None => Throw RangeError end.

(** ** Date.parse *)

Fixpoint read_digits (n : nat) (acc : Z) (s : jsstr) : option (Z * jsstr) :=
  match n, s with
  | O, _ => Some (acc, s)
  | S n', c :: s' => if (48 <=? c) && (c <=? 57) then read_digits n' (acc * 10 + (c - 48)) s' else None
  | S _, [] => None
  end.
Definition read_char (c : Z) (s : jsstr) : option jsstr :=
  match s with x :: s' => if x =? c then Some s' else None | [] => None end.
Definition read_year (s : jsstr) : option (Z * jsstr) :=
  match s with
  | 43 :: s' => read_digits 6 0 s'
  | 45 :: s' => '(y, s'') ← read_digits 6 0 s'; if y =? 0 then None else Some (- y, s'')
  | _ => read_digits 4 0 s
  end.
Definition parse_iso (s : jsstr) : option Z :=
  '(y, s) ← read_year s; s ← read_char 45 s;
  '(m, s) ← read_digits 2 0 s; s ← read_char 45 s;
  '(d, s) ← read_digits 2 0 s; s ← read_char 84 s;
  '(h, s) ← read_digits 2 0 s; s ← read_char 58 s;
  '(mi, s) ← read_digits 2 0 s; s ← read_char 58 s;
  '(sec, s) ← read_digits 2 0 s; s ← read_char 46 s;
  '(ms, s) ← read_digits 3 0 s; s ← read_char 90 s;
  if (1 <=? m) && (m <=? 12) && (1 <=? d) && (d <=? DaysInMonth (InLeapYear y) m)
     && ((h <=? 23) || ((h =? 24) && (mi =? 0) && (sec =? 0) && (ms =? 0)))
     && (mi <=? 59) && (sec <=? 59) && match s with [] => true | _ => false end
  then Some (MakeDay y m d * msPerDay + MakeTime h mi sec ms) else None.

Section parse.
  (** Date.parse on the strings that are not in the format above. *)
  Context (other_format : jsstr -> option Z).
Definition Date_parse (s : jsstr) : option Z :=
  match parse_iso s with Some t => TimeClip t | None => t ← other_format s; TimeClip t end.
(** [new Date(s).toISOString()] *)
Definition reformat (s : jsstr) : result jserr jsstr := toISOString (Date_parse s).
End parse.

Example iso_examples :
  map iso_string [0; 951782400123; -1; 253402300799999; -62167219200001; MAX_TIME] =
  map js ["1970-01-01T00:00:00.000Z"; "2000-02-29T00:00:00.123Z"; "1969-12-31T23:59:59.999Z";
          "9999-12-31T23:59:59.999Z"; "-000001-12-31T23:59:59.999Z"; "+275760-09-13T00:00:00.000Z"]%string /\
  map parse_iso (map js ["2000-02-29T00:00:00.123Z"; "2001-02-29T00:00:00.123Z"; "2000-01-01T24:00:00.000Z";
    "-000001-12-31T23:59:59.999Z"; "-000000-12-31T23:59:59.999Z"]%string) =
  [Some 951782400123; None; Some 946771200000; Some (-62167219200001); None].
Proof. vm_compute. done. Qed.

(** ** Writing and reading are inverse

    [new Date(s).toISOString() === s] holds exactly for the strings that
    [toISOString] writes, whatever the implementation does with other formats. *)

(** ** Digits *)

Lemma read_digits_app m n acc a s :
  read_digits (m + n) acc (a ++ s) =
  if (length a =? m)%nat then '(z, r) ← read_digits m acc a; read_digits n z s else read_digits (m + n) acc (a ++ s).
Proof.
  destruct (Nat.eqb_spec (length a) m) as [<-|]; [|done]. revert acc; induction a as [|c a IH]; intros acc; [done|].
  cbn. destruct (_ && _); [|done]. rewrite IH. done.
Qed.
Lemma pad_length n z : length (pad n z) = n.
Proof. revert z; induction n as [|n IH]; intros z; cbn; [done|]. rewrite length_app, IH. cbn. lia. Qed.
Lemma read_digits_pad n acc z s :
  0 <= z < 10 ^ Z.of_nat n -> read_digits n acc (pad n z ++ s) = Some (acc * 10 ^ Z.of_nat n + z, s).
Proof.
  revert acc z s; induction n as [|n IH]; intros acc z s Hz.
  - cbn in *. do 2 f_equal. lia.
  - rewrite Nat2Z.inj_succ, Z.pow_succ_r in * by lia.
    pose proof (Z.div_mod z 10 ltac:(lia)). pose proof (Z.mod_pos_bound z 10 ltac:(lia)).
    change (pad (S n) z) with (pad n (z / 10) ++ [48 + z mod 10]). rewrite <- app_assoc.
    replace (S n) with (n + 1)%nat by lia. rewrite read_digits_app, pad_length, Nat.eqb_refl.
    rewrite <- (app_nil_r (pad n (z / 10))), IH by lia. cbn [mbind option_bind app read_digits].
    replace (48 <=? 48 + z mod 10) with true by lia. replace (48 + z mod 10 <=? 57) with true by lia.
    cbn [andb]. do 2 f_equal. lia.
Qed.

(** ** Calendar *)

Lemma year_length y : DayFromYear (y + 1) = DayFromYear y + 365 + (if InLeapYear y then 1 else 0).
Proof.
  unfold DayFromYear, InLeapYear.
  destruct (Z.eqb_spec (y mod 4) 0), (Z.eqb_spec (y mod 100) 0), (Z.eqb_spec (y mod 400) 0); cbn [andb orb negb];
    Z.to_euclidean_division_equations; lia.
Qed.
Lemma DayFromYear_bounds y :
  -1200 <= 400 * DayFromYear y - 146097 * (y - 1970) <= 1200.
Proof.
  unfold DayFromYear.
  pose proof (Z.div_mod (y - 1969) 4 ltac:(lia)). pose proof (Z.mod_pos_bound (y - 1969) 4 ltac:(lia)).
  pose proof (Z.div_mod (y - 1901) 100 ltac:(lia)). pose proof (Z.mod_pos_bound (y - 1901) 100 ltac:(lia)).
  pose proof (Z.div_mod (y - 1601) 400 ltac:(lia)). pose proof (Z.mod_pos_bound (y - 1601) 400 ltac:(lia)).
  lia.
Qed.
Lemma YearFromDay_spec d :
  DayFromYear (YearFromDay d) <= d < DayFromYear (YearFromDay d + 1).
Proof.
  unfold YearFromDay. set (y := 1970 + _ / _).
  assert (H : DayFromYear (y - 1) <= d < DayFromYear (y + 2)).
  { pose proof (DayFromYear_bounds (y - 1)). pose proof (DayFromYear_bounds (y + 2)).
    pose proof (Z.div_mod (d * 400) 146097 ltac:(lia)). pose proof (Z.mod_pos_bound (d * 400) 146097 ltac:(lia)).
    unfold y in *. lia. }
  destruct (Z.ltb_spec d (DayFromYear y)); [rewrite Z.sub_add; lia|].
  destruct (Z.leb_spec (DayFromYear (y + 1)) d); [|lia]. replace (y + 1 + 1) with (y + 2) by lia. lia.
Qed.
Lemma MonthFromDay_spec (leap : bool) n :
  0 <= n < 365 + (if leap then 1 else 0) ->
  1 <= MonthFromDay leap n <= 12 /\
  MonthStart leap (MonthFromDay leap n) <= n < MonthStart leap (MonthFromDay leap n + 1).
Proof.
  intros Hn.
  set (f := fun leap n => (1 <=? MonthFromDay leap n) && (MonthFromDay leap n <=? 12)
    && (MonthStart leap (MonthFromDay leap n) <=? n) && (n <? MonthStart leap (MonthFromDay leap n + 1))).
  assert (H : f leap n = true).
  { destruct leap.
    - apply (range_check (f true) 0 366 n); [vm_compute; reflexivity|lia].
    - apply (range_check (f false) 0 365 n); [vm_compute; reflexivity|lia]. }
  unfold f in H.
  breflect_in H. lia.
Qed.

(** The civil date of a day, and back. *)
Lemma day_fields d :
  let y := YearFromDay d in let n := d - DayFromYear y in
  let m := MonthFromDay (InLeapYear y) n in let dm := n - MonthStart (InLeapYear y) m + 1 in
  1 <= m <= 12 /\ 1 <= dm <= DaysInMonth (InLeapYear y) m /\ dm <= 99 /\ MakeDay y m dm = d.
Proof.
  cbv zeta. pose proof (YearFromDay_spec d) as Hy. rewrite year_length in Hy.
  destruct (MonthFromDay_spec (InLeapYear (YearFromDay d)) (d - DayFromYear (YearFromDay d)) ltac:(lia)) as [Hm Hd].
  set (m := MonthFromDay _ _) in *. unfold DaysInMonth, MakeDay. split; [done|]. split; [lia|]. split; [|lia].
  assert (MonthStart (InLeapYear (YearFromDay d)) (m + 1) - MonthStart (InLeapYear (YearFromDay d)) m <= 31); [|lia].
  assert (Hc : forall l, (MonthStart l (m + 1) - MonthStart l m <=? 31) = true).
  { intros l. apply (range_check (fun m => MonthStart l (m + 1) - MonthStart l m <=? 31) 1 12 m); [by destruct l|lia]. }
  specialize (Hc (InLeapYear (YearFromDay d))). lia.
Qed.
Lemma year_bounds t : Z.abs t <= MAX_TIME -> -999999 <= YearFromDay (t / msPerDay) <= 999999.
Proof.
  intros Ht. pose proof (YearFromDay_spec (t / msPerDay)) as H.
  assert (-100000000 <= t / msPerDay <= 100000000).
  { unfold MAX_TIME, msPerDay in *. Z.to_euclidean_division_equations. lia. }
  pose proof (DayFromYear_bounds (YearFromDay (t / msPerDay))).
  pose proof (DayFromYear_bounds (YearFromDay (t / msPerDay) + 1)). lia.
Qed.

(** ** Reading back what was written *)

Lemma read_year_iso y s : -999999 <= y <= 999999 -> read_year (iso_year y ++ js "-" ++ s) = Some (y, js "-" ++ s).
Proof.
  intros Hy. unfold iso_year. destruct (Z.leb_spec 0 y), (Z.leb_spec y 9999); cbn [andb].
  - assert (Hd : read_year (pad 4 y ++ js "-" ++ s) = read_digits 4 0 (pad 4 y ++ js "-" ++ s)).
    { cbn [pad app]. pose proof (Z.mod_pos_bound (y / 10 / 10 / 10) 10 ltac:(lia)). unfold read_year.
      repeat case_match; try done; lia. }
    rewrite Hd, read_digits_pad by (cbn; lia). done.
  - replace (y <? 0) with false by lia. rewrite <- app_assoc. cbn [js]. 
    change (read_digits 6 0 (pad 6 (Z.abs y) ++ js "-" ++ s) = Some (y, js "-" ++ s)).
    rewrite read_digits_pad by (cbn; lia). do 2 f_equal. lia.
  - replace (y <? 0) with true by lia. rewrite <- app_assoc.
    change (('(y, s'') ← read_digits 6 0 (pad 6 (Z.abs y) ++ js "-" ++ s); if y =? 0 then None else Some (- y, s''))
      = Some (y, js "-" ++ s)).
    rewrite read_digits_pad by (cbn; lia). cbn [mbind option_bind]. replace (_ =? 0) with false by (cbn; lia).
    do 2 f_equal. lia.
  - lia.
Qed.
Lemma time_fields r :
  0 <= r < msPerDay ->
  0 <= r / 3600000 <= 23 /\ 0 <= r / 60000 mod 60 <= 59 /\ 0 <= r / 1000 mod 60 <= 59 /\ 0 <= r mod 1000 <= 999 /\
  MakeTime (r / 3600000) (r / 60000 mod 60) (r / 1000 mod 60) (r mod 1000) = r.
Proof. unfold msPerDay, MakeTime. intros. Z.to_euclidean_division_equations. lia. Qed.

(** Reads one separator and the digits that follow it. *)
Ltac iso_field := cbn [js app mbind option_bind];
  match goal with |- context [read_char ?c (js ?k ++ ?s)] => change (read_char c (js k ++ s)) with (Some s) end;
  cbn [mbind option_bind]; rewrite ?read_digits_pad by (cbn; lia); cbn [mbind option_bind].

Lemma parse_iso_string t : Z.abs t <= MAX_TIME -> parse_iso (iso_string t) = Some t.
Proof.
  intros Ht. pose proof (year_bounds t Ht) as Hy. destruct (day_fields (t / msPerDay)) as (Hm & Hd & Hd99 & HD).
  destruct (time_fields (t mod msPerDay)) as (Hh & Hmi & Hs & Hms & HT);
    [apply Z.mod_pos_bound; unfold msPerDay; lia|].
  unfold iso_string, iso_day, iso_time. cbv zeta.
  set (y := YearFromDay _) in *. set (m := MonthFromDay _ _) in *. set (d := _ - MonthStart _ m + 1) in *.
  set (h := _ / 3600000) in *. set (mi := _ / 60000 mod 60) in *. set (sec := _ / 1000 mod 60) in *.
  set (ms := _ mod 1000) in *. rewrite <- !app_assoc. unfold parse_iso.
  rewrite read_year_iso by done. cbn [mbind option_bind].
  do 6 iso_field.
  change (read_char 90 (js "Z")) with (Some ([] : jsstr)). cbn [mbind option_bind]. rewrite !Z.mul_0_l, !Z.add_0_l.
  replace (1 <=? m) with true by lia. replace (m <=? 12) with true by lia. replace (1 <=? d) with true by lia.
  replace (d <=? _) with true by lia. replace (h <=? 23) with true by lia. replace (mi <=? 59) with true by lia.
  replace (sec <=? 59) with true by lia. cbn [andb orb]. f_equal. rewrite HD, HT.
  pose proof (Z.div_mod t msPerDay). unfold msPerDay in *. lia.
Qed.

(** The instants [toISOString] writes. *)
Definition is_instant (s : jsstr) : Prop := exists t, Z.abs t <= MAX_TIME /\ s = iso_string t.
Lemma reformat_instant other s r : reformat other s = Ok r -> is_instant r.
Proof.
  unfold reformat, Date_parse. assert (Hc : forall t, toISOString (TimeClip t) = Ok r -> is_instant r).
  { intros t. unfold TimeClip. destruct (Z.leb_spec (Z.abs t) MAX_TIME); [|done]. intros [= <-]. by exists t. }
  destruct (parse_iso s); [eauto|]. destruct (other s); [eauto|done].
Qed.
Lemma reformat_fixed other s : reformat other s = Ok s <-> is_instant s.
Proof.
  split; [apply reformat_instant|]. intros (t & Ht & ->). unfold reformat, Date_parse.
  rewrite parse_iso_string by done. unfold TimeClip. by replace (Z.abs t <=? MAX_TIME) with true by lia.
Qed.
