(* ===== verification/PlatformSupport.v ===== *)
(** * scripts/platform-support.mjs

    The support policy docs/PLATFORM-SUPPORT.json and the check of a device record
    against it.  Date.parse on formats other than toISOString's is the parameter
    [other_format]. *)

From S2P Require Import Prelude JsNumber Regex JsValue JsDate JsText.
Open Scope js_scope.

(** docs/PLATFORM-SUPPORT.json *)
Definition PLATFORM_SUPPORT_POLICY : val := vobj
  [("schemaVersion", vnum 1);
   ("policyId", vstr "secure-keypad-platform-support-v1");
   ("effectiveDate", vstr "2026-08-22");
   ("platforms", vobj
     [("ios", vobj
        [("minimumOsVersion", vstr "15.1");
         ("securityPatchFormat", vstr "dot-version");
         ("minimumSecurityPatchLevel", vstr "15.1")]);
      ("android", vobj
        [("minimumApiLevel", vnum 24);
         ("securityPatchFormat", vstr "iso-date");
         ("minimumSecurityPatchLevel", vstr "2026-01-01")])]);
   ("verifiedCiTargets", vobj
     [("iosSimulatorOsVersion", vstr "26.5");
      ("androidApiLevel", vnum 35)])]%string.

Definition digit : Z * Z := (48, 57).
(** [/^\d{4}-\d{2}-\d{2}$/] *)
Definition ISO_DATE : re :=
  rtimes 4 (RCls [digit]) (RSeq (rchr 45) (rtimes 2 (RCls [digit]) (RSeq (rchr 45) (rexactly 2 (RCls [digit]))))).
(** [/^\d+(?:\.\d+){1,3}$/] *)
Definition DOT_VERSION : re :=
  RSeq (rplus (RCls [digit])) (rbetween 1 3 (RSeq (rchr 46) (rplus (RCls [digit])))).

(** The loop over the longer of the two part lists; a missing part is 0. *)
Fixpoint compare_parts (fuel : nat) (left right : list jsnum) : jsnum :=
  match fuel with
  | O => num 0
  | S fuel' =>
      let leftPart := default (num 0) (head left) in
      let rightPart := default (num 0) (head right) in
      if negb (num_eqb leftPart rightPart) then num_sub leftPart rightPart
      else compare_parts fuel' (tail left) (tail right)
  end.
Definition compareDotVersions (left right : jsstr) : jsnum :=
  let leftParts := map Number_digits (split 46 left) in
  let rightParts := map Number_digits (split 46 right) in
  compare_parts (Nat.max (length leftParts) (length rightParts)) leftParts rightParts.

(** [RE.test(v)] of a value that is a string. *)
Definition is_matching (p : re) (v : val) : bool :=
  match v with VStr s => re_match p s | _ => false end.

Section support.
Context (other_format : jsstr -> option Z).

Definition isValidCalendarDate (value : jsstr) : result jserr bool :=
  if negb (re_match ISO_DATE value) then Ok false else
  s ← reformat other_format (value ++ js "T00:00:00.000Z");
  Ok (str_eqb (take 10 s) value).
(** [typeof v !== "string" || !isValidCalendarDate(v)] *)
Definition bad_date (v : val) : result jserr bool :=
  match v with VStr s => ok ← isValidCalendarDate s; Ok (negb ok) | _ => Ok true end.
Definition is_safe (v : val) : bool := match v with VNum n => is_safe_integer n | _ => false end.
Definition below (v : val) (minimum : val) : bool :=
  match v, minimum with VNum n, VNum m => num_ltb n m | _, _ => false end.

Definition validatePlatformSupportPolicy (policy : val) : result jserr (list jsstr) :=
  let findings := [] in
  let findings := push_if (negb (eq_int policy.["schemaVersion"] 1)) (js "schemaVersion must be 1") findings in
  let findings := push_if (negb (eq_str policy.["policyId"] (js "secure-keypad-platform-support-v1")))
      (js "policyId must identify the supported platform policy") findings in
  bad ← bad_date policy.["effectiveDate"];
  let findings := push_if bad (js "effectiveDate must be a canonical calendar date") findings in
  let ios := (policy.["platforms"]).["ios"] in
  let findings := push_if (negb (eq_str ios.["minimumOsVersion"] (js "15.1")))
      (js "ios minimumOsVersion must be 15.1") findings in
  let findings := push_if (negb (eq_str ios.["securityPatchFormat"] (js "dot-version")))
      (js "ios securityPatchFormat must be dot-version") findings in
  let findings := push_if (negb (is_matching DOT_VERSION ios.["minimumSecurityPatchLevel"]))
      (js "ios minimumSecurityPatchLevel must be a dotted version") findings in
  let android := (policy.["platforms"]).["android"] in
  let findings := push_if (negb (is_safe android.["minimumApiLevel"]) || below android.["minimumApiLevel"] (vnum 24))
      (js "android minimumApiLevel must be an integer of at least 24") findings in
  let findings := push_if (negb (eq_str android.["securityPatchFormat"] (js "iso-date")))
      (js "android securityPatchFormat must be iso-date") findings in
  bad ← bad_date android.["minimumSecurityPatchLevel"];
  let findings := push_if bad (js "android minimumSecurityPatchLevel must be a calendar date") findings in
  target ← String_ (policy.["verifiedCiTargets"]).["iosSimulatorOsVersion"];
  let findings := push_if (negb (re_match DOT_VERSION target))
      (js "verifiedCiTargets.iosSimulatorOsVersion must be a dotted version") findings in
  let findings := push_if (negb (is_safe (policy.["verifiedCiTargets"]).["androidApiLevel"]))
      (js "verifiedCiTargets.androidApiLevel must be an integer") findings in
  Ok findings.

(** A string field against a dotted minimum: the finding for its shape, else the one
    for being below. *)
Definition dotted_floor (v minimum : val) (shape low : jsstr) (findings : list jsstr) : list jsstr :=
  match v, minimum with
  | VStr s, VStr m =>
      if negb (re_match DOT_VERSION s) then findings ++ [shape]
      else push_if (num_ltb (compareDotVersions s m) (num 0)) low findings
  | _, _ => findings ++ [shape]
  end.

Definition validatePlatformSupportDevice (platform device : val) : result jserr (list jsstr) :=
  policyFindings ← validatePlatformSupportPolicy PLATFORM_SUPPORT_POLICY;
  if (0 <? length policyFindings)%nat
  then Ok (map (fun finding => js "platform policy: " ++ finding) policyFindings) else
  let ios := (PLATFORM_SUPPORT_POLICY.["platforms"]).["ios"] in
  let android := (PLATFORM_SUPPORT_POLICY.["platforms"]).["android"] in
  if eq_str platform (js "ios") then
    Ok (dotted_floor device.["securityPatchLevel"] ios.["minimumSecurityPatchLevel"]
          (js "device.securityPatchLevel: must be a dotted iOS security version")
          (js "device.securityPatchLevel: is below the iOS security patch floor")
       (dotted_floor device.["osVersion"] ios.["minimumOsVersion"]
          (js "device.osVersion: must be a dotted iOS version")
          (js "device.osVersion: is below the supported iOS minimum") []))
  else if eq_str platform (js "android") then
    let findings := if negb (is_safe device.["apiLevel"])
      then [js "device.apiLevel: must be an integer Android API level"]
      else push_if (below device.["apiLevel"] android.["minimumApiLevel"])
             (js "device.apiLevel: is below the supported Android API minimum") [] in
    bad ← bad_date device.["securityPatchLevel"];
    Ok (if (bad : bool) then findings ++ [js "device.securityPatchLevel: must be an ISO calendar date"]
        else push_if
          match device.["securityPatchLevel"], android.["minimumSecurityPatchLevel"] with
          | VStr s, VStr m => str_ltb s m
          | _, _ => false
          end (js "device.securityPatchLevel: is below the Android security patch floor") findings)
  else Ok [].
End support.
