(* ===== verification/PlatformSupportProps.v ===== *)
(** * Properties of the platform support check *)

From S2P Require Import Prelude JsNumber Regex JsValue JsDate JsText.
From S2P Require Import ContractsSpec PlatformSupport.
Open Scope js_scope.

(** ** Order of calendar dates *)

Lemma str_ltb_app a b s t :
  length a = length b -> str_ltb (a ++ s) (b ++ t) = if decide (a = b) then str_ltb s t else str_ltb a b.
Proof.
  revert b; induction a as [|x a IH]; intros [|y b] Hl; try done; cbn [app str_ltb].
  injection Hl as Hl. destruct (Z.eqb_spec x y) as [->|Hne].
  - rewrite IH by done. destruct (decide (a = b)) as [->|]; [by rewrite decide_True|]. rewrite decide_False; [done|congruence].
  - rewrite decide_False; [done|congruence].
Qed.
Lemma str_ltb_irrefl s : str_ltb s s = false.
Proof. induction s as [|x s IH]; cbn; [done|]. by rewrite Z.eqb_refl. Qed.
Lemma pad_inj n a b : 0 <= a < 10 ^ Z.of_nat n -> 0 <= b < 10 ^ Z.of_nat n -> pad n a = pad n b -> a = b.
Proof.
  intros Ha Hb H. pose proof (read_digits_pad n 0 a [] Ha) as Ra. pose proof (read_digits_pad n 0 b [] Hb) as Rb.
  rewrite H, Rb in Ra. injection Ra as Ra. lia.
Qed.
Lemma pad_ltb n a b :
  0 <= a < 10 ^ Z.of_nat n -> 0 <= b < 10 ^ Z.of_nat n -> str_ltb (pad n a) (pad n b) = (a <? b).
Proof.
  revert a b; induction n as [|n IH]; intros a b Ha Hb; [cbn in *; lia|].
  rewrite Nat2Z.inj_succ, Z.pow_succ_r in Ha, Hb by lia.
  pose proof (Z.div_mod a 10). pose proof (Z.mod_pos_bound a 10). pose proof (Z.div_mod b 10).
  pose proof (Z.mod_pos_bound b 10). cbn [pad]. rewrite str_ltb_app by by rewrite !pad_length.
  destruct (decide _) as [E|E].
  - apply pad_inj in E; [|lia..]. cbn [str_ltb]. destruct (Z.eqb_spec (48 + a mod 10) (48 + b mod 10)); lia.
  - rewrite IH by lia. assert (a / 10 <> b / 10) by congruence. lia.
Qed.
(** Fields of fixed width compare one after the other. *)
Lemma pad_ltb_app n a b s t :
  0 <= a < 10 ^ Z.of_nat n -> 0 <= b < 10 ^ Z.of_nat n ->
  str_ltb (pad n a ++ s) (pad n b ++ t) = (a <? b) || ((a =? b) && str_ltb s t).
Proof.
  intros Ha Hb. rewrite str_ltb_app by by rewrite !pad_length. destruct (decide _) as [E|E].
  - apply pad_inj in E as ->; [|done..]. by rewrite Z.ltb_irrefl, Z.eqb_refl.
  - rewrite pad_ltb by done. destruct (Z.eqb_spec a b) as [->|]; [done|]. by rewrite orb_false_r.
Qed.
Lemma str_ltb_char c s t : str_ltb (js c ++ s) (js c ++ t) = str_ltb s t.
Proof. rewrite str_ltb_app, decide_True by done. done. Qed.

Lemma DayFromYear_mono y z : y < z -> DayFromYear (y + 1) <= DayFromYear z.
Proof.
  intros H. replace z with (y + 1 + Z.of_nat (Z.to_nat (z - y - 1))) by lia.
  generalize (Z.to_nat (z - y - 1)). intros n. induction n as [|n IH]; [by rewrite Z.add_0_r|].
  replace (y + 1 + Z.of_nat (S n)) with (y + 1 + Z.of_nat n + 1) by lia. rewrite (year_length (y + 1 + _)).
  destruct (InLeapYear _); lia.
Qed.
Definition year4 (d : Z) : Prop := 0 <= YearFromDay d <= 9999.
Lemma month_starts_mono leap m m' : 1 <= m -> m < m' <= 12 -> MonthStart leap (m + 1) <= MonthStart leap m'.
Proof.
  intros H1 H2.
  assert (Hc : forallb (fun m => forallb (fun m' => negb (m <? m') || (MonthStart leap (m + 1) <=? MonthStart leap m'))
    (seqZ 1 12)) (seqZ 1 12) = true) by by destruct leap.
  pose proof (range_check _ 1 12 m Hc ltac:(lia)) as Hm. cbv beta in Hm.
  pose proof (range_check _ 1 12 m' Hm ltac:(lia)) as Hm'. cbv beta in Hm'. lia.
Qed.
Lemma iso_day_ltb a b : year4 a -> year4 b -> str_ltb (iso_day a) (iso_day b) = (a <? b).
Proof.
  unfold year4. intros Ha Hb. unfold iso_day, iso_year. cbv zeta.
  destruct (day_fields a) as (Hm & Hd & Hd99 & HA). destruct (day_fields b) as (Hm' & Hd' & Hd99' & HB).
  unfold MakeDay in HA, HB. pose proof (YearFromDay_spec a) as Ya. pose proof (YearFromDay_spec b) as Yb.
  unfold DaysInMonth in Hd, Hd'.
  set (y := YearFromDay a) in *. set (z := YearFromDay b) in *.
  set (m := MonthFromDay (InLeapYear y) _) in *. set (m' := MonthFromDay (InLeapYear z) _) in *.
  set (d := a - _ - _ + 1) in *. set (d' := b - _ - _ + 1) in *.
  replace ((0 <=? y) && (y <=? 9999)) with true by lia. replace ((0 <=? z) && (z <=? 9999)) with true by lia.
  rewrite pad_ltb_app, str_ltb_char, pad_ltb_app, str_ltb_char, pad_ltb by (cbn; lia).
  destruct (Z.ltb_spec y z) as [Hyz|Hyz]; cbn [orb].
  { pose proof (DayFromYear_mono y z Hyz). lia. }
  destruct (Z.eqb_spec y z) as [Hyz'|Hyz']; cbn [andb].
  2: { pose proof (DayFromYear_mono z y ltac:(lia)). lia. }
  rewrite <- Hyz' in *.
  destruct (Z.ltb_spec m m') as [Hmm|Hmm]; cbn [orb].
  { pose proof (month_starts_mono (InLeapYear y) m m' ltac:(lia) ltac:(lia)). lia. }
  destruct (Z.eqb_spec m m') as [Hmm'|Hmm']; cbn [andb].
  2: { pose proof (month_starts_mono (InLeapYear y) m' m ltac:(lia) ltac:(lia)). lia. }
  rewrite <- Hmm' in *. lia.
Qed.

(** ** Calendar dates *)

Lemma iso_day_length d : year4 d -> length (iso_day d) = 10%nat.
Proof.
  unfold year4, iso_day, iso_year. intros H. cbv zeta.
  replace ((0 <=? _) && (_ <=? 9999)) with true by lia. rewrite !length_app, !pad_length. done.
Qed.
Lemma iso_day_head d : ~ year4 d -> head (iso_day d) = Some 43 \/ head (iso_day d) = Some 45.
Proof.
  unfold year4, iso_day, iso_year. intros H. cbv zeta.
  replace ((0 <=? _) && (_ <=? 9999)) with false by lia. destruct (_ <? 0); cbn; eauto.
Qed.
Lemma digit_class c : in_cls [digit] c = true <-> 48 <= c <= 57.
Proof. cbn. lia. Qed.
Lemma pad_digits n z : Forall (fun c => in_cls [digit] c = true) (pad n z).
Proof.
  revert z; induction n as [|n IH]; intros z; cbn [pad]; [constructor|].
  apply Forall_app. split; [done|]. constructor; [|constructor]. apply digit_class.
  pose proof (Z.mod_pos_bound z 10). lia.
Qed.
Lemma iso_date_shape s :
  matches ISO_DATE s <-> exists a b c, s = a ++ js "-" ++ b ++ js "-" ++ c /\
    length a = 4%nat /\ length b = 2%nat /\ length c = 2%nat /\
    Forall (fun c => in_cls [digit] c = true) (a ++ b ++ c).
Proof.
  unfold ISO_DATE. rewrite matches_times_cls. setoid_rewrite matches_seq. setoid_rewrite matches_chr.
  setoid_rewrite matches_times_cls. setoid_rewrite matches_seq. setoid_rewrite matches_chr.
  setoid_rewrite matches_exactly_cls. split.
  - intros (a & ? & -> & Ha & Fa & ? & ? & -> & -> & b & ? & -> & Hb & Fb & ? & c & -> & -> & Hc & Fc).
    exists a, b, c. split_and!; try done. rewrite !Forall_app. done.
  - intros (a & b & c & -> & Ha & Hb & Hc & Hf). rewrite !Forall_app in Hf. destruct Hf as (Fa & Fb & Fc).
    exists a, (js "-" ++ b ++ js "-" ++ c). split_and!; try done.
    exists (js "-"), (b ++ js "-" ++ c). split_and!; try done.
    exists b, (js "-" ++ c). split_and!; try done. by exists (js "-"), c.
Qed.

(** The calendar dates of four-digit years. *)
Definition is_date (s : jsstr) : Prop := exists d, year4 d /\ s = iso_day d.

Lemma iso_string_midnight d : iso_string (d * msPerDay) = iso_day d ++ js "T00:00:00.000Z".
Proof. unfold iso_string. rewrite Z.div_mul, Z.mod_mul by (unfold msPerDay; lia). done. Qed.
Lemma year4_time d : year4 d -> Z.abs (d * msPerDay) <= MAX_TIME.
Proof.
  unfold year4, MAX_TIME, msPerDay. intros H. pose proof (YearFromDay_spec d).
  pose proof (DayFromYear_bounds (YearFromDay d)). pose proof (DayFromYear_bounds (YearFromDay d + 1)). lia.
Qed.
Lemma is_date_shape s : is_date s -> matches ISO_DATE s.
Proof.
  intros (d & Hy & ->). apply iso_date_shape. unfold year4 in Hy. unfold iso_day, iso_year. cbv zeta.
  replace ((0 <=? _) && (_ <=? 9999)) with true by lia. do 3 eexists. split; [reflexivity|].
  rewrite !pad_length. split_and!; [done..|]. rewrite !Forall_app. auto using pad_digits.
Qed.
Lemma isValidCalendarDate_spec other v : isValidCalendarDate other v = Ok true <-> is_date v.
Proof.
  unfold isValidCalendarDate. split.
  - destruct (re_match ISO_DATE v) eqn:E; cbn [negb]; [|done]. apply re_match_correct, iso_date_shape in E.
    intros (r & Hr & [= Hv])%bind_Ok. apply str_eqb_eq in Hv. apply reformat_instant in Hr as (t & Ht & ->).
    exists (t / msPerDay). unfold iso_string in Hv. assert (Hy : year4 (t / msPerDay)).
    { destruct (decide (year4 (t / msPerDay))) as [?|Hn]; [done|exfalso].
      destruct E as ([|c a] & b & c' & -> & Ha & _ & _ & Hf); [done|].
      apply Forall_cons in Hf as [Hc%digit_class _].
      destruct (iso_day (t / msPerDay)) as [|x l] eqn:E; [by destruct (iso_day_head _ Hn) as [H|H]; rewrite E in H|].
      destruct (iso_day_head _ Hn) as [H|H]; rewrite E in H; injection H as ->; injection Hv as <- _; lia. }
    split; [done|]. rewrite take_app_length' in Hv by (symmetry; by apply iso_day_length). done.
  - intros Hd. pose proof (is_date_shape v Hd) as Hm. apply re_match_correct in Hm as ->. cbn [negb].
    destruct Hd as (d & Hy & ->).
    assert (Hi : reformat other (iso_day d ++ js "T00:00:00.000Z") = Ok (iso_day d ++ js "T00:00:00.000Z")).
    { apply reformat_fixed. exists (d * msPerDay). split; [by apply year4_time|]. by rewrite iso_string_midnight. }
    rewrite Hi. cbn [mbind result_bind]. f_equal. apply str_eqb_eq.
    apply take_app_length'. symmetry. by apply iso_day_length.
Qed.
Lemma bad_date_spec other v : bad_date other v = Ok false <-> exists s, v = VStr s /\ is_date s.
Proof.
  destruct v as [| | | |s| | | | | |]; cbn; try (split; [done|by intros (? & ? & _)]).
  rewrite bind_Ok. setoid_rewrite <- isValidCalendarDate_spec with (other := other). split.
  - intros (ok & H & [= E]). exists s. split; [done|]. by destruct ok.
  - intros (s' & [= <-] & H). exists true. done.
Qed.

(** ** Dotted versions *)

(** Numeric order of part lists, a missing part counting as 0. *)
Fixpoint version_ltb (fuel : nat) (l r : list Z) : bool :=
  match fuel with
  | O => false
  | S fuel' =>
      let a := default 0 (head l) in let b := default 0 (head r) in
      (a <? b) || ((a =? b) && version_ltb fuel' (tail l) (tail r))
  end.
Definition version_numbers (s : jsstr) : list Z := map digits_value (split 46 s).

Lemma compare_parts_ltb fuel l r :
  Forall (fun z => 0 <= z) l -> Forall (fun z => 0 <= z <= 2 ^ 52) r ->
  num_ltb (compare_parts fuel (map (fun z => round53 z 0) l) (map (fun z => round53 z 0) r)) (num 0)
    = version_ltb fuel l r.
Proof.
  revert l r; induction fuel as [|fuel IH]; intros l r Hl Hr; [done|]. cbn [compare_parts version_ltb].
  assert (Ha : exists a, default (num 0) (head (map (fun z => round53 z 0) l)) = round53 a 0 /\
    default 0 (head l) = a /\ 0 <= a).
  { destruct Hl as [|a l Ha _]; [by exists 0|by exists a]. }
  assert (Hb : exists b, default (num 0) (head (map (fun z => round53 z 0) r)) = round53 b 0 /\
    default 0 (head r) = b /\ 0 <= b <= 2 ^ 52).
  { destruct Hr as [|b r Hb _]; [exists 0; done|by exists b]. }
  destruct Ha as (a & -> & -> & Ha), Hb as (b & -> & -> & Hb).
  destruct (round53_compare a (round53 b 0) b Ha ltac:(apply round53_exact; lia) Hb) as [E1 E2].
  rewrite E1. destruct (Z.eqb_spec a b) as [->|Hne]; cbn [negb]; [|by rewrite E2, orb_false_r].
  rewrite Z.ltb_irrefl. cbn [orb andb].
  rewrite <- IH; [|destruct Hl; by constructor || done|destruct Hr; by constructor || done].
  by destruct l, r.
Qed.
Lemma digits_value_nonneg s : Forall (fun c => in_cls [digit] c = true) s -> 0 <= digits_value s.
Proof.
  unfold digits_value. intros H. assert (Hg : forall n, 0 <= n -> 0 <= foldl (fun n c => n * 10 + (c - 48)) n s); [|by apply Hg].
  induction H as [|c s Hc H IH]; intros n Hn; [done|]. apply digit_class in Hc. cbn. apply IH. lia.
Qed.
Lemma split_nodot a s :
  Forall (fun c => in_cls [digit] c = true) a -> split 46 (a ++ 46 :: s) = a :: split 46 s /\ split 46 a = [a].
Proof.
  induction 1 as [|c a Hc H IH]; [done|]. apply digit_class in Hc. destruct IH as [IH1 IH2].
  cbn [app split]. replace (c =? 46) with false by lia. by rewrite IH1, IH2.
Qed.
Lemma dot_tail_split n a s :
  Forall (fun c => in_cls [digit] c = true) a ->
  matches (rupto n (RSeq (rchr 46) (rplus (RCls [digit])))) s ->
  exists ps, split 46 (a ++ s) = a :: ps /\ Forall (Forall (fun c => in_cls [digit] c = true)) ps.
Proof.
  revert a s; induction n as [|n IH]; intros a s Ha; cbn [rupto].
  - rewrite matches_eps. intros ->. rewrite app_nil_r. exists []. split; [by apply (split_nodot a [])|constructor].
  - rewrite matches_opt, matches_seq. intros [->|(u & w & -> & Hu & Hw)].
    + rewrite app_nil_r. exists []. split; [by apply (split_nodot a [])|constructor].
    + apply matches_seq in Hu as (d & b & -> & ->%matches_chr & [_ Hb]%matches_plus_cls).
      destruct (IH b w Hb Hw) as (ps & Hps & Hf). exists (b :: ps). split; [|by constructor].
      cbn [app]. by rewrite (proj1 (split_nodot a _ Ha)), Hps.
Qed.
Lemma dot_version_numbers s :
  matches DOT_VERSION s -> exists a b rest, version_numbers s = a :: b :: rest /\ Forall (fun z => 0 <= z) (a :: b :: rest).
Proof.
  unfold DOT_VERSION, rbetween, version_numbers. cbn [rtimes Nat.sub]. rewrite matches_seq.
  intros (a & s' & -> & [_ Ha]%matches_plus_cls & Hs).
  apply matches_seq in Hs as (u & w & -> & Hu & Hw).
  apply matches_seq in Hu as (d & b & -> & ->%matches_chr & [_ Hb]%matches_plus_cls).
  destruct (dot_tail_split 2 b w Hb Hw) as (ps & Hps & Hf). cbn [app].
  rewrite (proj1 (split_nodot a _ Ha)), Hps. cbn [map]. do 3 eexists. split; [reflexivity|].
  repeat constructor; [by apply digits_value_nonneg..|]. apply Forall_map.
  eapply Forall_impl; [exact Hf|]. apply digits_value_nonneg.
Qed.

(** A dotted version not below [x.y]. *)
Definition version_from (x y : Z) (s : jsstr) : Prop :=
  matches DOT_VERSION s /\ exists a b rest, version_numbers s = a :: b :: rest /\ (x < a \/ (a = x /\ y <= b)).
Lemma version_ltb_nil fuel l : Forall (fun z => 0 <= z) l -> version_ltb fuel l [] = false.
Proof.
  revert l; induction fuel as [|fuel IH]; intros l Hl; [done|]. cbn. destruct Hl as [|z l Hz Hl]; cbn.
  - by rewrite IH.
  - rewrite (IH l) by done. lia.
Qed.
Lemma compare_15_1 s :
  matches DOT_VERSION s -> num_ltb (compareDotVersions s (js "15.1")) (num 0) = false <-> version_from 15 1 s.
Proof.
  intros Hm. destruct (dot_version_numbers s Hm) as (a & b & rest & Hv & Hp).
  unfold compareDotVersions. rewrite !length_map.
  change (split 46 (js "15.1")) with [js "15"; js "1"].
  assert (Hmap : map Number_digits (split 46 s) = map (fun z => round53 z 0) (a :: b :: rest))
    by (rewrite <- Hv; unfold version_numbers; by rewrite map_map).
  assert (Hlen : length (split 46 s) = S (S (length rest)))
    by (transitivity (length (version_numbers s)); [by unfold version_numbers; rewrite length_map|by rewrite Hv]).
  rewrite Hmap, Hlen. change (map Number_digits [js "15"; js "1"]) with (map (fun z => round53 z 0) [15; 1]).
  rewrite compare_parts_ltb; [|done|repeat constructor; lia].
  replace (Nat.max (S (S (length rest))) (length [js "15"; js "1"])) with (S (S (length rest))) by (cbn; lia).
  cbn [version_ltb head tail default]. rewrite version_ltb_nil by (by inversion Hp as [|? ? ? Hq]; inversion Hq).
  unfold version_from. rewrite Hv. split.
  - intros H. split; [done|]. exists a, b, rest. split; [done|]. cbn in H. lia.
  - intros (_ & a' & b' & r' & [= <- <- <-] & H). cbn. lia.
Qed.

(** ** The policy *)

Lemma is_matching_spec p v : is_matching p v = true <-> matching p v.
Proof.
  unfold matching. destruct v; cbn; try (split; [done|by intros (? & ? & _)]). rewrite re_match_correct. naive_solver.
Qed.
Lemma is_safe_within v lo :
  - MAX_SAFE_INTEGER <= lo ->
  negb (is_safe v) || below v (vnum lo) = false <-> integer_within lo MAX_SAFE_INTEGER v.
Proof.
  intros Hlo. rewrite orb_false_iff, negb_false_iff. unfold is_safe, below, vnum, integer_within.
  destruct v as [| | |n| | | | | | |]; try (split; [by intros [? _]|by intros (? & ? & ? & _)]).
  rewrite is_safe_integer_spec. split.
  - intros [(z & Hz & Hb) H]. rewrite (num_ltb_toZ _ _ _ _ Hz (num_toZ_num lo)) in H.
    exists n, z. split_and!; [done..|lia|lia].
  - intros (n' & z & [= <-] & Hz & ? & ?). rewrite (num_ltb_toZ _ _ _ _ Hz (num_toZ_num lo)).
    split; [|lia]. exists z. split; [done|lia].
Qed.
Definition date_val (v : val) : Prop := exists s, v = VStr s /\ is_date s.

Record Policy_wf (p : val) : Prop := {
  policy_version : eq_int p.["schemaVersion"] 1 = true;
  policy_id : p.["policyId"] = vstr "secure-keypad-platform-support-v1";
  policy_effective : date_val p.["effectiveDate"];
  policy_ios_minimum : ((p.["platforms"]).["ios"]).["minimumOsVersion"] = vstr "15.1";
  policy_ios_format : ((p.["platforms"]).["ios"]).["securityPatchFormat"] = vstr "dot-version";
  policy_ios_patch : matching DOT_VERSION ((p.["platforms"]).["ios"]).["minimumSecurityPatchLevel"];
  policy_android_api : integer_within 24 MAX_SAFE_INTEGER ((p.["platforms"]).["android"]).["minimumApiLevel"];
  policy_android_format : ((p.["platforms"]).["android"]).["securityPatchFormat"] = vstr "iso-date";
  policy_android_patch : date_val ((p.["platforms"]).["android"]).["minimumSecurityPatchLevel"];
  policy_ci_ios : exists s, String_ (p.["verifiedCiTargets"]).["iosSimulatorOsVersion"] = Ok s /\ matches DOT_VERSION s;
  policy_ci_android : is_safe (p.["verifiedCiTargets"]).["androidApiLevel"] = true;
}.

(** The policy validator accepts exactly the policies whose identity, iOS and
    Android floors and CI targets are well formed; dates must be days of the calendar. *)
Lemma validatePlatformSupportPolicy_correct other p :
  validatePlatformSupportPolicy other p = Ok [] <-> Policy_wf p.
Proof.
  unfold validatePlatformSupportPolicy. cbv zeta. rewrite bind_Ok. setoid_rewrite bind_Ok. setoid_rewrite bind_Ok. split.
  - intros (b1 & H1 & b2 & H2 & s & Hs & [= H]). rewrite !push_if_nil, !negb_false_iff in H.
    destruct H as (Hci & Hsim & -> & Haf & Hapi & Hip & Hif & Him & -> & Hid & Hv & _).
    apply bad_date_spec in H1, H2. apply is_safe_within in Hapi; [|unfold MAX_SAFE_INTEGER; lia].
    apply eq_str_spec in Haf, Hif, Him, Hid. apply is_matching_spec in Hip. apply re_match_correct in Hsim.
    constructor; eauto.
  - intros [Hv Hid Hd Him Hif Hip Hapi Haf Had (s & Hs & Hm) Hci].
    apply bad_date_spec with (other := other) in Hd, Had. exists false. split; [done|]. exists false. split; [done|].
    exists s. split; [done|]. f_equal. rewrite !push_if_nil, !negb_false_iff.
    apply is_safe_within in Hapi; [|unfold MAX_SAFE_INTEGER; lia].
    split_and!; try done; first [by apply eq_str_spec|by apply is_matching_spec|by apply re_match_correct].
Qed.

(** ** Devices *)

Definition Ios_supported (device : val) : Prop :=
  (exists s, device.["osVersion"] = VStr s /\ version_from 15 1 s) /\
  (exists s, device.["securityPatchLevel"] = VStr s /\ version_from 15 1 s).
(** The day 2026-01-01. *)
Definition patch_floor : Z := 20454.
Definition Android_supported (device : val) : Prop :=
  integer_within 24 MAX_SAFE_INTEGER device.["apiLevel"] /\
  exists d, device.["securityPatchLevel"] = VStr (iso_day d) /\ year4 d /\ patch_floor <= d.

Lemma policy_accepted other : validatePlatformSupportPolicy other PLATFORM_SUPPORT_POLICY = Ok [].
Proof. vm_compute. reflexivity. Qed.
Lemma dotted_floor_nil v shape low es :
  dotted_floor v (vstr "15.1") shape low es = [] <-> es = [] /\ exists s, v = VStr s /\ version_from 15 1 s.
Proof.
  assert (Happ : forall m : jsstr, es ++ [m] = [] <-> False) by (intros m; split; [by intros [_ ?]%app_eq_nil|done]).
  destruct v as [| | | |s| | | | | |]; cbn [dotted_floor vstr];
    try (rewrite Happ; split; [done|by intros (_ & ? & ? & _)]).
  destruct (re_match DOT_VERSION s) eqn:E; cbn [negb].
  - apply re_match_correct in E. rewrite push_if_nil, (compare_15_1 s E). naive_solver.
  - rewrite Happ. split; [done|]. intros (_ & s' & [= <-] & Hm & _). apply re_match_correct in Hm. congruence.
Qed.
Lemma validatePlatformSupportDevice_wf other platform device :
  validatePlatformSupportDevice other platform device = Ok [] <->
  (platform = vstr "ios" -> Ios_supported device) /\ (platform = vstr "android" -> Android_supported device).
Proof.
  unfold validatePlatformSupportDevice. rewrite policy_accepted. cbn [mbind result_bind length]. cbn [Nat.ltb Nat.leb].
  destruct (eq_str platform (js "ios")) eqn:Ei.
  { apply eq_str_spec in Ei as ->. split.
    - intros [= H]. apply dotted_floor_nil in H as [H Hp]. apply dotted_floor_nil in H as [_ Ho]. done.
    - intros [H _]. destruct (H eq_refl) as [Ho Hp]. f_equal. apply dotted_floor_nil. split; [|done].
      by apply dotted_floor_nil. }
  assert (Hni : platform <> vstr "ios") by (intros ->; discriminate).
  destruct (eq_str platform (js "android")) eqn:Ea.
  2: { assert (platform <> vstr "android") by (intros ->; discriminate). naive_solver. }
  apply eq_str_spec in Ea as ->. transitivity (Android_supported device); [|naive_solver].
  pose proof (is_safe_within device.["apiLevel"] 24 ltac:(unfold MAX_SAFE_INTEGER; lia)) as Hapi.
  unfold Android_supported. rewrite <- Hapi. clear Hapi Hni Ei.
  change ((PLATFORM_SUPPORT_POLICY.["platforms"]).["android"]).["minimumApiLevel"] with (vnum 24).
  change ((PLATFORM_SUPPORT_POLICY.["platforms"]).["android"]).["minimumSecurityPatchLevel"]
    with (VStr (iso_day patch_floor)).
  set (api := if negb (is_safe _) then _ else _).
  assert (Ha : api = [] <-> negb (is_safe device.["apiLevel"]) || below device.["apiLevel"] (vnum 24) = false).
  { unfold api. destruct (is_safe _); cbn [negb orb]; [|done]. rewrite push_if_nil. naive_solver. }
  rewrite <- Ha, bind_Ok. split.
  - intros ([] & Hd & [= H]); [by apply app_eq_nil in H as [_ ?]|]. apply push_if_nil in H as [H ->].
    apply bad_date_spec in Hd as (s & Hs & d & Hy & ->). rewrite Hs in H |- *. rewrite iso_day_ltb in H by done.
    split; [done|]. exists d. split; [done|]. split; [done|lia].
  - intros (Hnil & d & Hs & Hy & Hf). exists false. split.
    + apply bad_date_spec. rewrite Hs. exists (iso_day d). split; [done|]. by exists d.
    + rewrite Hs, Hnil. f_equal. apply push_if_nil. rewrite iso_day_ltb by done. split; [lia|done].
Qed.

(** Against the shipped policy a device record is accepted exactly when, on iOS,
    both its versions are dotted versions numerically from 15.1 on, and, on Android, its
    API level is a safe integer from 24 on and its patch level is a day of the calendar
    from 2026-01-01 on - the string comparison is the order of days. *)
Theorem validatePlatformSupportDevice_correct other platform device :
  validatePlatformSupportDevice other platform device = Ok [] <->
  (platform = vstr "ios" -> Ios_supported device) /\ (platform = vstr "android" -> Android_supported device).
Proof. exact (validatePlatformSupportDevice_wf other platform device). Qed.

(** A well-shaped date that is no day makes the check throw instead of reporting. *)
Lemma invalid_patch_date_throws :
  validatePlatformSupportDevice (fun _ => None) (vstr "android")
    (vobj [("apiLevel", vnum 35); ("securityPatchLevel", vstr "2026-13-01")]%string) = Throw RangeError.
Proof. vm_compute. reflexivity. Qed.
