(* ===== verification/Host.v ===== *)
(** * The host of the release scripts

    The calls the scripts make outside the language: the file system, SHA-256,
    Ed25519 and Date.parse on implementation-defined formats.  A failing call throws
    an error of which only the message is used.  The file system does not change
    during a run.  The link scan of scripts/evidence-path.mjs is at the end. *)

From S2P Require Import Prelude JsNumber JsValue.
From S2P Require Import JsText.

Record FileStats := { isFile : bool; size : Z }.

Class Host := {
  cwd : jsstr;
  realpathSync : jsstr -> result jsstr jsstr;
  (** [lstatSync(path).isSymbolicLink()] *)
  lstat_isSymbolicLink : jsstr -> result jsstr bool;
  statSync : jsstr -> result jsstr FileStats;
  readFileSync : jsstr -> result jsstr (list Z);
  (** [createHash("sha256").update(bytes).digest("hex")] *)
  sha256 : list Z -> jsstr;
  JSON_parse : jsstr -> result jsstr val;
  (** [createPublicKey({ key, format: "der", type: "spki" }).asymmetricKeyType] *)
  public_key_type : list Z -> result jsstr jsstr;
  (** [verify(null, data, createPublicKey(key), signature)] *)
  verify : list Z -> list Z -> list Z -> result jsstr bool;
  other_format : jsstr -> option Z;
  (** The message of an error the language throws. *)
  error_message : jserr -> jsstr;
}.

(** ** scripts/evidence-path.mjs *)

Section evidence_path.
Context {host : Host}.

(** The loop: from the path upwards while it lies below the root.  A failing [lstat]
    is ignored. *)
Fixpoint symlink_scan (fuel : nat) (realRoot cursor : jsstr) : bool :=
  match fuel with
  | O => false
  | S fuel' =>
      if negb (str_eqb cursor realRoot) && startsWith cursor (realRoot ++ sep) then
        match lstat_isSymbolicLink cursor with
        | Ok true => true
        | _ => symlink_scan fuel' realRoot (dirname cursor)
        end
      else false
  end.
Definition pathHasSymlinkComponent (root absolutePath : jsstr) : result jsstr bool :=
  realRoot ← realpathSync root;
  let cursor := resolve1 cwd absolutePath in
  Ok (symlink_scan (S (length cursor)) realRoot cursor).
End evidence_path.
