(* ===== verification/PathProps.v ===== *)
(** * Properties of paths and of the symbolic-link scan *)

From S2P Require Import Prelude JsNumber JsValue JsText Host.

(** ** Splitting and joining *)

Lemma startsWith_spec s p : startsWith s p = true <-> exists r, s = p ++ r.
Proof.
  revert s; induction p as [|c p IH]; intros s.
  - split; [intros _; by exists s|by destruct s].
  - destruct s as [|x s]; [split; [done|by intros [r [=]]]|]. cbn [startsWith].
    rewrite andb_true_iff, Z.eqb_eq, IH. split; [intros [-> [r ->]]; by exists r|intros [r [= -> ->]]; eauto].
Qed.
Lemma split_join s : join sep (split slash s) = s.
Proof.
  induction s as [|c s IH]; [done|]. cbn [split]. destruct (split slash s) as [|h t] eqn:E.
  - destruct s; cbn in E; [done|]. destruct (z =? slash); [done|]. by destruct (split slash s).
  - destruct (Z.eqb_spec c slash) as [->|].
    + change (join sep ([] :: h :: t)) with (sep ++ join sep (h :: t)). by rewrite IH.
    + rewrite <- IH. by destruct t.
Qed.
Lemma split_slash_free s : Forall (fun c => slash ∉ c) (split slash s).
Proof.
  induction s as [|c s IH]; cbn [split]; [by repeat constructor; apply not_elem_of_nil|].
  destruct (Z.eqb_spec c slash).
  - constructor; [apply not_elem_of_nil|done].
  - destruct IH as [|h t Hh Ht]; (constructor; [|by try constructor]).
    + rewrite list_elem_of_singleton. congruence.
    + rewrite elem_of_cons. intros [?|?]; congruence.
Qed.

(** A component of a normalised path. *)
Definition component (c : jsstr) : Prop := c <> [] /\ slash ∉ c.
Definition proper (c : jsstr) : Prop := component c /\ c <> js "." /\ c <> js "..".
Lemma split_cons_free c s : slash ∉ c -> split slash (c ++ slash :: s) = c :: split slash s /\ split slash c = [c].
Proof.
  induction c as [|x c IH]; [done|]. rewrite not_elem_of_cons. intros [Hx Hc]. destruct (IH Hc) as [E1 E2].
  cbn [app split]. replace (x =? slash) with false by lia. by rewrite E1, E2.
Qed.
Lemma join_cons s c l : l <> [] -> join s (c :: l) = c ++ s ++ join s l.
Proof. by destruct l. Qed.
Lemma split_join_comps l : l <> [] -> Forall component l -> split slash (join sep l) = l.
Proof.
  induction l as [|c l IH]; [done|]. intros _ [[_ Hc] Hl]%Forall_cons. destruct l as [|d l].
  - apply (split_cons_free c []), Hc.
  - rewrite join_cons by done. change (sep ++ join sep (d :: l)) with (slash :: join sep (d :: l)).
    rewrite (proj1 (split_cons_free c _ Hc)), IH; done.
Qed.
Lemma collapse_proper l acc :
  Forall proper l ->
  foldl (fun acc c => if str_eqb c [] || str_eqb c (js ".") then acc
    else if str_eqb c (js "..") then removelast acc else acc ++ [c]) acc l = acc ++ l.
Proof.
  intros H. revert acc; induction H as [|c l [[Hc _] [H1 H2]] H IH]; intros acc; cbn; [by rewrite app_nil_r|].
  assert (E : forall w, c <> w -> str_eqb c w = false)
    by (intros w Hw; apply not_true_iff_false; rewrite str_eqb_eq; done).
  rewrite !E by done. cbn. by rewrite IH, <- app_assoc.
Qed.
Lemma split_abspath l : Forall component l -> split slash (abspath l) = match l with [] => [[]; []] | _ => [] :: l end.
Proof.
  intros Hl. change (abspath l) with (slash :: join sep l). cbn [split]. rewrite Z.eqb_refl.
  destruct l as [|c l]; [done|]. by rewrite split_join_comps.
Qed.
Lemma proper_component l : Forall proper l -> Forall component l.
Proof. intros H. eapply Forall_impl; [exact H|]. by intros ? []. Qed.
Lemma collapse_abspath l : Forall proper l -> collapse (split slash (abspath l)) = l.
Proof.
  intros Hl. rewrite split_abspath by by apply proper_component. unfold collapse.
  destruct l as [|c l]; [done|]. exact (collapse_proper (c :: l) [] Hl).
Qed.
Lemma resolve1_abspath w l : Forall proper l -> resolve1 w (abspath l) = abspath l.
Proof. intros Hl. unfold resolve1. change (isAbsolute (abspath l)) with true. cbn iota. by rewrite collapse_abspath. Qed.
(** Resolving a proper relative path against a normalised root appends its components. *)
Lemma split_app_sep l c : Forall component l -> Forall component c -> c <> [] ->
  split slash (abspath l ++ sep ++ join sep c) = match l with [] => [[]; []] | _ => [] :: l end ++ c.
Proof.
  intros Hl Hc Hne. destruct l as [|x l].
  - change (abspath [] ++ sep ++ join sep c) with (slash :: slash :: join sep c). cbn [split]. rewrite Z.eqb_refl.
    by rewrite split_join_comps.
  - change (abspath (x :: l) ++ sep ++ join sep c) with (slash :: join sep (x :: l) ++ sep ++ join sep c).
    cbn [split]. rewrite Z.eqb_refl. cbn [app]. f_equal.
    assert (Hj : join sep (x :: l) ++ sep ++ join sep c = join sep ((x :: l) ++ c)).
    { clear Hl. revert x; induction l as [|y l IH]; intros x.
      - change ([x] ++ c) with (x :: c). rewrite (join_cons sep x c) by done. done.
      - change ((x :: y :: l) ++ c) with (x :: (y :: l) ++ c). rewrite (join_cons sep x (y :: l)), (join_cons sep x ((y :: l) ++ c)) by done.
        by rewrite <- !app_assoc, <- IH. }
    rewrite Hj, split_join_comps; [done|done|]. apply Forall_app. done.
Qed.
Lemma resolve2_proper w l c :
  Forall proper l -> Forall proper c -> c <> [] -> resolve2 w (abspath l) (join sep c) = abspath (l ++ c).
Proof.
  intros Hl Hc Hne. unfold resolve2.
  assert (Ha : isAbsolute (join sep c) = false).
  { destruct Hc as [|x c [[Hx0 Hx] _] Hc]; [done|]. destruct x as [|u x]; [done|].
    assert (u <> slash) by (intros ->; apply Hx; left). destruct c; cbn; lia. }
  rewrite Ha. change (abspath l) with (slash :: join sep l) at 1. cbn iota. unfold resolve1.
  change (isAbsolute (abspath l ++ sep ++ join sep c)) with true. cbn iota.
  rewrite split_app_sep by (try apply proper_component; done). unfold collapse. f_equal.
  rewrite foldl_app. match goal with |- foldl _ (foldl ?f [] ?m) _ = _ => assert (E : foldl f [] m = l) end.
  { destruct l as [|x l]; [done|]. exact (collapse_proper (x :: l) [] Hl). }
  rewrite E. by apply collapse_proper.
Qed.

(** ** Parent directories *)

Lemma join_snoc l c : l <> [] -> join sep (l ++ [c]) = join sep l ++ slash :: c.
Proof.
  induction l as [|x l IH]; [done|]. intros _. destruct l as [|y l]; [done|].
  change ((x :: y :: l) ++ [c]) with (x :: (y :: l) ++ [c]).
  rewrite join_cons, (join_cons sep x (y :: l)), IH, <- !app_assoc by done. done.
Qed.
Lemma join_nonempty l : l <> [] -> Forall component l -> join sep l <> [].
Proof. intros Hne H. destruct H as [|[|u x] l' [Hx _] _]; [done|done|]. by destruct l'. Qed.
Lemma drop_while_app f a b : Forall (fun c => f c = true) a -> drop_while f (a ++ b) = drop_while f b.
Proof. induction 1 as [|c a Hc H IH]; [done|]. cbn. by rewrite Hc. Qed.
Lemma component_units c : slash ∉ c -> Forall (fun u => negb (u =? slash) = true) (rev c).
Proof.
  intros Hc. apply Forall_rev, Forall_forall. intros u Hu. destruct (Z.eqb_spec u slash) as [->|]; done.
Qed.
Lemma dirname_abspath l c : Forall component l -> component c -> dirname (abspath (l ++ [c])) = abspath l.
Proof.
  intros Hl [Hc0 Hc]. change (abspath (l ++ [c])) with (slash :: join sep (l ++ [c])). unfold dirname. rewrite Z.eqb_refl.
  assert (Hskip : forall s, drop_while (fun c => c =? slash) (rev c ++ s) = rev c ++ s).
  { intros s. pose proof (component_units c Hc) as Hu. destruct (rev c) as [|u v] eqn:E.
    - apply (f_equal (@rev Z)) in E. rewrite rev_involutive in E. done.
    - inversion Hu as [|? ? Hn _]; subst. cbn. by apply negb_true_iff in Hn as ->. }
  destruct (decide (l = [])) as [->|Hne].
  - cbn [app join]. rewrite <- (app_nil_r (rev c)), Hskip, drop_while_app by by apply component_units. done.
  - rewrite join_snoc, rev_app_distr by done. cbn [rev]. rewrite <- !app_assoc, Hskip, drop_while_app by by apply component_units.
    cbn [app drop_while]. rewrite Z.eqb_refl. cbn [negb]. rewrite rev_involutive. cbn [andb length].
    destruct (join sep l) eqn:E; [by apply join_nonempty in E|]. change (abspath l) with (slash :: join sep l). by rewrite E.
Qed.
(** Going up shortens every path below a root, so the scan terminates. *)
Lemma drop_while_length f s : (length (drop_while f s) <= length s)%nat.
Proof. induction s as [|c s IH]; cbn; [done|]. destruct (f c); cbn; lia. Qed.
Lemma dirname_shorter p : (2 <= length p)%nat -> (length (dirname p) < length p)%nat.
Proof.
  intros Hp. destruct p as [|c0 rest]; [done|]. cbn [length] in Hp |- *. unfold dirname.
  set (r1 := drop_while (fun c => c =? slash) (rev rest)).
  assert (H1 : (length r1 <= length rest)%nat)
    by (rewrite <- (length_rev rest); apply drop_while_length).
  destruct (drop_while (fun c => negb (c =? slash)) r1) as [|u r2] eqn:E.
  - destruct (c0 =? slash); [change (length sep) with 1%nat|change (length (js ".")) with 1%nat]; lia.
  - assert (H2 : (S (length r2) < length r1)%nat).
    { assert (Hh : match r1 with [] => True | c :: _ => (c =? slash) = false end).
      { unfold r1. clear. induction (rev rest) as [|c s IH]; cbn; [done|]. by destruct (c =? slash) eqn:?. }
      destruct r1 as [|c r1']; [done|]. cbn [drop_while] in E. rewrite Hh in E. cbn [negb] in E.
      pose proof (drop_while_length (fun c => negb (c =? slash)) r1') as Hl. rewrite E in Hl. cbn in *. lia. }
    destruct (_ && _); [change (length (js "//")) with 2%nat; lia|]. cbn [length]. rewrite length_rev. lia.
Qed.

(** ** The scan *)

Lemma abspath_inj a b : Forall component a -> Forall component b -> abspath a = abspath b -> a = b.
Proof.
  intros Ha Hb H. apply (f_equal (split slash)) in H. rewrite !split_abspath in H by done.
  destruct Ha as [|x a [Hx _] Ha], Hb as [|y b [Hy _] Hb]; try congruence.
Qed.

Lemma startsWith_root a c : Forall component a -> component c ->
  startsWith (abspath (a ++ [c])) (abspath a ++ sep) = match a with [] => false | _ => true end.
Proof.
  intros Ha Hc. apply eq_true_iff_eq. rewrite startsWith_spec. destruct a as [|x a].
  - split; [|done]. intros [r Hr]. destruct Hc as [Hc0 Hc]. destruct c as [|u c]; [done|].
    injection Hr as -> _. destruct Hc. left.
  - split; [done|]. intros _. exists c. change (abspath ((x :: a) ++ [c])) with (slash :: join sep ((x :: a) ++ [c])).
    rewrite join_snoc by done. change (abspath (x :: a)) with (slash :: join sep (x :: a)).
    by rewrite <- !app_assoc.
Qed.
Lemma startsWith_below a b c : Forall component (a ++ b ++ [c]) -> a <> [] ->
  startsWith (abspath (a ++ b ++ [c])) (abspath a ++ sep) = true.
Proof.
  intros Hf Hne. apply startsWith_spec. revert c Hf; induction b as [|d b IH] using rev_ind; intros c Hf.
  - apply startsWith_spec. cbn [app] in *. apply Forall_app in Hf as [Ha Hc]. inversion Hc; subst.
    rewrite startsWith_root by done. by destruct a.
  - rewrite <- app_assoc in Hf. destruct (IH d) as [r Hr].
    { rewrite !app_assoc in *. apply Forall_app in Hf as [Hf _]. done. }
    exists (r ++ slash :: c). rewrite (app_assoc (abspath a ++ sep)), <- Hr.
    change (abspath (a ++ (b ++ [d]) ++ [c])) with (slash :: join sep (a ++ (b ++ [d]) ++ [c])).
    rewrite app_assoc, join_snoc; [done|]. by destruct a.
Qed.

Lemma abspath_length r c : Forall component (r ++ c) -> (length c <= length (abspath (r ++ c)))%nat.
Proof.
  intros H. assert (Hj : forall l, Forall component l -> (length l <= length (join sep l))%nat).
  { induction 1 as [|x l [Hx _] Hl IH]; [done|]. destruct l as [|y l]; [destruct x; [done|cbn; lia]|].
    rewrite join_cons, !length_app by done. destruct x; [done|]. cbn [length] in *. lia. }
  specialize (Hj _ H). rewrite length_app in Hj. change (abspath (r ++ c)) with (slash :: join sep (r ++ c)). cbn [length]. lia.
Qed.
Lemma join_inj a b : a <> [] -> b <> [] -> Forall component a -> Forall component b -> join sep a = join sep b -> a = b.
Proof. intros ? ? Ha Hb H. apply (f_equal (split slash)) in H. by rewrite !split_join_comps in H. Qed.

Section scan.
Context {host : Host}.

(** Fuel beyond the length of the path changes nothing: the loop ends. *)
Lemma symlink_scan_fuel n m root p :
  root <> [] -> (length p < n)%nat -> (length p < m)%nat -> symlink_scan n root p = symlink_scan m root p.
Proof.
  intros Hr. revert m p; induction n as [|n IH]; intros m p Hn Hm; [lia|]. destruct m as [|m]; [lia|]. cbn [symlink_scan].
  destruct (negb _ && startsWith p (root ++ sep)) eqn:E; [|done]. apply andb_true_iff in E as [_ [r Hp]%startsWith_spec].
  assert (2 <= length p)%nat.
  { rewrite Hp, !length_app. destruct root; [done|]. change (length sep) with 1%nat. cbn. lia. }
  pose proof (dirname_shorter p ltac:(done)). rewrite (IH m) by lia. done.
Qed.
(** Below a root other than [/], the scan finds exactly the symbolic links among the
    components; below [/] it looks at nothing. *)
Lemma symlink_scan_spec fuel r c :
  Forall component (r ++ c) -> (length c < fuel)%nat ->
  symlink_scan fuel (abspath r) (abspath (r ++ c)) = true <->
  r <> [] /\ exists k, (0 < k <= length c)%nat /\ lstat_isSymbolicLink (abspath (r ++ take k c)) = Ok true.
Proof.
  revert fuel; induction c as [|x c IH] using rev_ind; intros fuel Hf Hl; (destruct fuel as [|fuel]; [lia|]); cbn [symlink_scan].
  - rewrite app_nil_r, str_eqb_refl. cbn [negb andb]. split; [done|]. intros (_ & k & ? & _). cbn in *. lia.
  - rewrite length_app in *. cbn [length] in *.
    assert (Hne : str_eqb (abspath (r ++ c ++ [x])) (abspath r) = false).
    { apply not_true_iff_false. rewrite str_eqb_eq. intros H%abspath_inj; [|done|by apply Forall_app in Hf as [? _]].
      apply (f_equal length) in H. rewrite !length_app in H. cbn in H. lia. }
    rewrite Hne. cbn [negb andb].
    destruct (decide (r = [])) as [->|Hr].
    { cbn [app] in *. assert (Hs : startsWith (abspath (c ++ [x])) (abspath [] ++ sep) = false).
      { apply not_true_iff_false. rewrite startsWith_spec. intros [s Hs].
        destruct (c ++ [x]) as [|[|u d] l] eqn:E; [by destruct c| |];
          apply Forall_cons in Hf as [[Hd0 Hd] _]; [done|].
        change (slash :: join sep ((u :: d) :: l) = slash :: slash :: s) in Hs. destruct l; injection Hs as -> _; destruct Hd; left. }
      rewrite Hs. split; [done|by intros [? _]]. }
    rewrite (startsWith_below r c x) by done. rewrite app_assoc in *.
    pose proof Hf as Hf'. apply Forall_app in Hf as [Hf Hx]. inversion Hx; subst.
    rewrite dirname_abspath by done.
    specialize (IH fuel Hf ltac:(lia)).
    assert (Hgoal : (exists k, (0 < k <= length c + 1)%nat /\ lstat_isSymbolicLink (abspath (r ++ take k (c ++ [x]))) = Ok true) <->
      lstat_isSymbolicLink (abspath ((r ++ c) ++ [x])) = Ok true \/
      exists k, (0 < k <= length c)%nat /\ lstat_isSymbolicLink (abspath (r ++ take k c)) = Ok true).
    { split.
      - intros (k & Hk & Hs). destruct (decide (k = (length c + 1)%nat)) as [->|].
        + left. by rewrite take_ge, app_assoc in Hs by (rewrite length_app; cbn; lia).
        + right. exists k. rewrite take_app_le in Hs by lia. split; [lia|done].
      - intros [Hs|(k & Hk & Hs)].
        + exists (length c + 1)%nat. rewrite take_ge, app_assoc by (rewrite length_app; cbn; lia). split; [lia|done].
        + exists k. rewrite take_app_le by lia. split; [lia|done]. }
    rewrite Hgoal. destruct (lstat_isSymbolicLink (abspath ((r ++ c) ++ [x]))) as [[]|]; naive_solver.
Qed.
End scan.
