(* ===== verification/DeviceEvidence.v ===== *)
(** * scripts/check-device-evidence.mjs: the record validator

    [validateDeviceEvidence] and its helpers, phase by phase.  The collections the
    validator fills are passed explicitly: the findings, the paths referenced by
    evidence files, the paths a test case may cite and the artifact kind of each
    path.  The file checks are in DeviceFiles. *)

From S2P Require Import Prelude JsNumber Regex JsValue JsDate JsText Host PlatformSupport.
Open Scope js_scope.

Definition lower_hex : list (Z * Z) := [(97, 102); (48, 57)].
(** [/^[a-f0-9]{64}$/], [/^[a-f0-9]{40}$/] *)
Definition SHA256 : re := rexactly 64 (RCls lower_hex).
Definition COMMIT : re := rexactly 40 (RCls lower_hex).
(** [/^\d{4}-\d{2}-\d{2}T\d{2}:\d{2}:\d{2}\.\d{3}Z$/] *)
Definition digits_then (n : nat) (c : Z) (k : re) : re := rtimes n (RCls [digit]) (RSeq (rchr c) k).
Definition ISO_TIMESTAMP : re :=
  digits_then 4 45 (digits_then 2 45 (digits_then 2 84 (digits_then 2 58 (digits_then 2 58 (digits_then 2 46
    (digits_then 3 90 REps)))))).
Definition NATIVE_TESTS : list jsstr := map js
  ["maskedStateOnly"; "captureAndBackground"; "screenshotsAndBackgroundSnapshots"; "autofillAndClipboard";
   "accessibility"; "crashReportReview"; "lifecycleAndZeroization"; "serverReplayRateLimit"; "protocolDowngrade"]%string.
Definition WEB_TESTS : list jsstr := map js
  ["passkeySecureContext"; "originAndRpId"; "boundedOptions"; "fallbackWarning"]%string.
Definition REQUIRED_PHYSICAL_NATIVE_ARTIFACT_KINDS : list jsstr := map js
  ["screen-capture"; "background-snapshot"; "accessibility-report"; "autofill-clipboard-report";
   "crash-report-review"; "platform-security-patch"; "native-checksum"]%string.
(** [OBJ[key] ?? []] for a constant table. *)
Definition table (t : list (String.string * list String.string)) (key : jsstr) : list jsstr :=
  match find (fun kv => str_eqb key (js kv.1)) t with Some kv => map js kv.2 | None => [] end.
Definition REQUIRED_TEST_EVIDENCE_ARTIFACT_KINDS : jsstr -> list jsstr := table
  [("captureAndBackground", ["screen-capture"; "background-snapshot"]);
   ("screenshotsAndBackgroundSnapshots", ["screen-capture"; "background-snapshot"]);
   ("autofillAndClipboard", ["autofill-clipboard-report"]);
   ("accessibility", ["accessibility-report"]);
   ("crashReportReview", ["crash-report-review"])]%string.
Definition ALLOWED_FRAMEWORKS : jsstr -> list jsstr := table
  [("ios", ["native"; "react-native"; "flutter"]);
   ("android", ["native"; "react-native"; "flutter"]);
   ("web", ["web"])]%string.
Definition REQUIRED_NATIVE_HOST_MODES : list jsstr := map js ["react-native"; "flutter"]%string.
Definition DEVICE_RELEASE_GATES : list (jsstr * val) :=
  [(js "ios-device-matrix", vstr "ios"); (js "android-device-matrix", vstr "android");
   (js "web-browser-matrix", vstr "web")].
(** [/password|secret|..|input(?:Value|Text|Bytes)|^value$/i] *)
Definition FORBIDDEN_KEYS (key : jsstr) : bool :=
  re_search (ralts (map rlit_ci (map js
    ["password"; "secret"; "passphrase"; "sentinel"; "plaintext"; "credentialValue"; "inputValue"; "inputText";
     "inputBytes"]%string))) key
  || re_match (rlit_ci (js "value")) key.

Definition isRecord : val -> bool := is_record.
Definition nonEmptyString (v : val) : bool :=
  match v with
  | VStr s => (length s <=? 120)%nat && negb (existsb (fun c => (c =? 13) || (c =? 10)) s) && has_text s
  | _ => false
  end.
Definition isSafeRelativePath (v : val) : bool :=
  match v with
  | VStr s =>
      (0 <? length s)%nat && negb (isAbsolute s) && negb (includes s [92])
      && forallb (fun component =>
           (0 <? length component)%nat && negb (str_eqb component (js ".")) && negb (str_eqb component (js "..")))
         (split slash s)
  | _ => false
  end.
(** [findings.push(`${pathName}: ${detail}`)] *)
Definition add (findings : list jsstr) (pathName detail : jsstr) : list jsstr :=
  findings ++ [pathName ++ js ": " ++ detail].
Definition add_if (c : bool) (pathName detail : jsstr) (findings : list jsstr) : list jsstr :=
  if c then add findings pathName detail else findings.
(** [`${p}.${k}`], [`${p}[${i}]`] *)
Definition dot (p k : jsstr) : jsstr := p ++ js "." ++ k.
Definition nth_of (p : jsstr) (i : nat) : jsstr := p ++ js "[" ++ dec_nat i ++ js "]".

Fixpoint rejectSecretKeys (value : val) (pathName : jsstr) (findings : list jsstr) : list jsstr :=
  match value with
  | VArr l =>
      (fix items (index : nat) (l : list (option val)) findings :=
         match l with
         | [] => findings
         | None :: l' => items (S index) l' findings
         | Some item :: l' => items (S index) l' (rejectSecretKeys item (nth_of pathName index) findings)
         end) O l findings
  | VObj ps =>
      (fix members (ps : list (jsstr * val)) findings :=
         match ps with
         | [] => findings
         | (key, child) :: ps' =>
             let childPath := dot pathName key in
             let findings := add_if (FORBIDDEN_KEYS key) childPath
               (js "secret-bearing evidence fields are forbidden") findings in
             members ps' (rejectSecretKeys child childPath findings)
         end) ps findings
  | _ => findings
  end.

Definition validateTests (testCases : val) (required findings : list jsstr) : list jsstr :=
  if negb (isRecord testCases) then add findings (js "testCases") (js "must be an object") else
  foldl (fun findings name => add_if (negb (eq_str (get testCases name) (js "pass")))
    (js "testCases." ++ name) (js "must be exactly 'pass'") findings) findings required.

(** A map from artifact paths to kinds: the last [set] of a path counts. *)
Definition kind_map := list (jsstr * jsstr).
Definition kind_get (m : kind_map) (path : val) : option jsstr :=
  match path with VStr p => option_map snd (find (fun kv => str_eqb p kv.1) m) | _ => None end.
Definition kind_set (m : kind_map) (path kind : jsstr) : kind_map := (path, kind) :: m.

Section validator.
Context {host : Host}.

Definition evidence_path (availablePaths : list jsstr) (field : jsstr)
    (st : list jsstr * list jsstr) (entry : nat * val) : list jsstr * list jsstr :=
  let '(findings, uniquePaths) := st in
  let '(index, evidencePath) := entry in
  if negb (isSafeRelativePath evidencePath)
  then (add findings (nth_of field index) (js "must be a safe relative path"), uniquePaths) else
  match evidencePath with
  | VStr p =>
      if set_has p uniquePaths
      then (add findings (nth_of field index) (js "must not repeat a path within one test case"), uniquePaths)
      else (add_if (negb (set_has p availablePaths)) (nth_of field index)
              (js "must reference the aggregate log, a host log, or a declared artifact") findings,
            set_add p uniquePaths)
  | _ => st
  end.
Definition test_case (testEvidence : val) (availablePaths : list jsstr) (artifactKindsByPath : kind_map)
    (findings : list jsstr) (name : jsstr) : list jsstr :=
  let field := js "testEvidence." ++ name in
  match get testEvidence name with
  | VArr paths =>
      if (length paths =? 0)%nat || (8 <? length paths)%nat
      then add findings field (js "must contain one to eight declared evidence paths") else
      let '(findings, _) := foldl (evidence_path availablePaths field) (findings, []) (indexed (iterated paths)) in
      foldl (fun findings kind =>
        add_if (negb (existsb (fun ip => bool_decide (kind_get artifactKindsByPath ip.2 = Some kind)) (present paths)))
          field (js "must reference artifact kind " ++ kind) findings)
        findings (REQUIRED_TEST_EVIDENCE_ARTIFACT_KINDS name)
  | _ => add findings field (js "must contain one to eight declared evidence paths")
  end.
Definition validateTestEvidence (testEvidence : val) (required availablePaths : list jsstr)
    (artifactKindsByPath : kind_map) (findings : list jsstr) : list jsstr :=
  if negb (isRecord testEvidence)
  then add findings (js "testEvidence") (js "must map every physical test case to declared evidence paths") else
  let findings := foldl (fun findings name => add_if (negb (str_in name required)) (js "testEvidence." ++ name)
    (js "is not a supported test case") findings) findings (keys testEvidence) in
  foldl (test_case testEvidence availablePaths artifactKindsByPath) findings required.

(** Reports a path that is unsafe or already referenced, else references it. *)
Definition reference_path (v : val) (field unsafe : jsstr) (st : list jsstr * list jsstr) : list jsstr * list jsstr :=
  let '(findings, referencedPaths) := st in
  match v with
  | VStr p =>
      if negb (isSafeRelativePath v) then (add findings field unsafe, referencedPaths)
      else if set_has p referencedPaths
      then (add findings field (js "must be unique across evidence files"), referencedPaths)
      else (findings, set_add p referencedPaths)
  | _ => (add findings field unsafe, referencedPaths)
  end.
Definition unknown_keys (v : val) (allowed : list jsstr) (field detail : jsstr) (findings : list jsstr) : list jsstr :=
  foldl (fun findings key => add_if (negb (str_in key allowed)) (dot field key) detail findings) findings (keys v).
Definition digest_field (v : val) (field : jsstr) (findings : list jsstr) : list jsstr :=
  add_if (negb (is_matching SHA256 v)) field (js "must be a lowercase SHA-256 digest") findings.

Definition validateHostModeEvidence (evidence : val) (field : jsstr) (required : bool)
    (st : list jsstr * list jsstr) : list jsstr * list jsstr :=
  let '(findings, referencedPaths) := st in
  if negb (isRecord evidence)
  then (add_if required field (js "must contain a host-mode log path and digest") findings, referencedPaths) else
  let findings := unknown_keys evidence (map js ["logPath"; "logSha256"]%string) field
    (js "unsupported host-mode evidence field") findings in
  let '(findings, referencedPaths) := reference_path evidence.["logPath"] (dot field (js "logPath"))
    (js "must be a relative, non-parent path") (findings, referencedPaths) in
  (digest_field evidence.["logSha256"] (dot field (js "logSha256")) findings, referencedPaths).

(** ToPropertyKey; a symbol is no string key. *)
Definition to_property_key (v : val) : result jserr (option jsstr) :=
  match v with VSym _ => Ok None | _ => s ← to_string v; Ok (Some s) end.
(** [isRecord(versions) && typeof versions[k] === "string" && v !== versions[k]] *)
Definition version_mismatch (versions framework version : val) : result jserr bool :=
  if negb (isRecord versions) then Ok false else
  k ← to_property_key framework;
  Ok match k with
     | Some k => match get versions k with VStr s => negb (eq_str version s) | _ => false end
     | None => false
     end.

Definition HOST_MODE_FIELDS : list jsstr := map js ["framework"; "frameworkVersion"; "status"; "evidence"]%string.
(** The three field checks of a host mode that are more than one condition. *)
Definition host_mode_framework (framework : val) (field : jsstr) (st : list jsstr * list jsstr) : list jsstr * list jsstr :=
  let '(findings, frameworks) := st in
  match framework with
  | VStr f =>
      if negb (str_in f (ALLOWED_FRAMEWORKS (js "ios"))) && negb (str_in f (ALLOWED_FRAMEWORKS (js "android")))
      then (add findings (dot field (js "framework")) (js "must be a supported native host mode"), frameworks)
      else if set_has f frameworks
      then (add findings (dot field (js "framework")) (js "must not be duplicated"), frameworks)
      else (findings, set_add f frameworks)
  | _ => (add findings (dot field (js "framework")) (js "must be a supported native host mode"), frameworks)
  end.
Definition host_mode_version (expectedVersions framework version : val) (field : jsstr) (findings : list jsstr)
    : result jserr (list jsstr) :=
  if negb (nonEmptyString version)
  then Ok (add findings (dot field (js "frameworkVersion")) (js "must be non-empty"))
  else bad ← version_mismatch expectedVersions framework version;
       Ok (add_if bad (dot field (js "frameworkVersion")) (js "must match the manifest toolchain version") findings).
Definition host_mode_evidence (required : bool) (evidence : val) (field : jsstr) (st : list jsstr * list jsstr)
    : list jsstr * list jsstr :=
  if negb (is_undefined evidence) || required
  then validateHostModeEvidence evidence (dot field (js "evidence")) required st else st.
Definition host_mode (required : bool) (expectedVersions : val)
    (st : list jsstr * list jsstr * list jsstr) (entry : nat * val) : result jserr (list jsstr * list jsstr * list jsstr) :=
  let '(findings, referencedPaths, frameworks) := st in
  let '(index, hostMode) := entry in
  let field := nth_of (js "hostModes") index in
  if negb (isRecord hostMode)
  then Ok (add findings field (js "must be an object"), referencedPaths, frameworks) else
  let findings := unknown_keys hostMode HOST_MODE_FIELDS field (js "unsupported host-mode field") findings in
  let '(findings, frameworks) := host_mode_framework hostMode.["framework"] field (findings, frameworks) in
  findings ← host_mode_version expectedVersions hostMode.["framework"] hostMode.["frameworkVersion"] field findings;
  let findings := add_if (negb (eq_str hostMode.["status"] (js "pass"))) (dot field (js "status"))
    (js "must be exactly 'pass'") findings in
  let '(findings, referencedPaths) :=
    host_mode_evidence required hostMode.["evidence"] field (findings, referencedPaths) in
  Ok (findings, referencedPaths, frameworks).

(** A loop whose body may throw. *)
Fixpoint foldM {E S A} (f : S -> A -> result E S) (st : S) (l : list A) : result E S :=
  match l with [] => Ok st | x :: l' => st ← f st x; foldM f st l' end.

Definition validateNativeHostModes (hostModes : val) (required : bool) (expectedVersions : val)
    (st : list jsstr * list jsstr) : result jserr (list jsstr * list jsstr) :=
  let '(findings, referencedPaths) := st in
  match hostModes with
  | VArr slots =>
      if (length slots =? 0)%nat || (3 <? length slots)%nat
      then Ok (add findings (js "hostModes") (js "must contain one to three host-mode records"), referencedPaths) else
      '(findings, referencedPaths, frameworks) ←
        foldM (host_mode required expectedVersions) (findings, referencedPaths, []) (indexed (iterated slots));
      Ok (if required
          then foldl (fun findings framework => add_if (negb (set_has framework frameworks)) (js "hostModes")
                 (js "must contain " ++ framework) findings) findings REQUIRED_NATIVE_HOST_MODES
          else findings, referencedPaths)
  | _ => Ok (add findings (js "hostModes") (js "must contain one to three host-mode records"), referencedPaths)
  end.
End validator.

(** ** The record *)

Record Options := {
  requirePhysicalDevice : bool;
  requireNativeHostModes : bool;
  requirePlatformSupport : bool;
  expectedCommit : val;
  expectedGate : val;
  expectedHostModeVersions : val;
}.
(** [expected !== undefined && s !== expected] for a string [s]. *)
Definition differs (expected : val) (s : jsstr) : bool := negb (is_undefined expected) && negb (eq_str expected s).

Section record.
Context {host : Host} (options : Options) (evidence : val).

Definition isNativePlatform : bool := eq_str evidence.["platform"] (js "ios") || eq_str evidence.["platform"] (js "android").
(** [options.requirePhysicalDevice === true && (platform is ios or android)] *)
Definition physicalNative : bool := requirePhysicalDevice options && isNativePlatform.
Definition hostModesRequired : bool := requireNativeHostModes options || physicalNative.

Definition check_commit (findings : list jsstr) : result jserr (list jsstr) :=
  let findings :=
    match evidence.["commit"] with
    | VStr s =>
        if negb (re_match COMMIT s)
        then add findings (js "commit") (js "must be a 40-character lowercase commit SHA")
        else add_if (differs (expectedCommit options) s) (js "commit") (js "must match the expected checkout commit") findings
    | _ => add findings (js "commit") (js "must be a 40-character lowercase commit SHA")
    end in
  if is_undefined (expectedCommit options) then Ok findings else
  s ← String_ (expectedCommit options);
  Ok (add_if (negb (re_match COMMIT s)) (js "expectedCommit") (js "must be a 40-character lowercase commit SHA") findings).
Definition check_gate (findings : list jsstr) : list jsstr :=
  match evidence.["gate"] with
  | VStr g =>
      match assoc g DEVICE_RELEASE_GATES with
      | None => add findings (js "gate") (js "must be a supported device release gate")
      | Some _ => add_if (differs (expectedGate options) g) (js "gate") (js "must match the expected release gate") findings
      end
  | _ => add findings (js "gate") (js "must be a supported device release gate")
  end.
(** [DEVICE_RELEASE_GATES[gate] !== platform], own keys only holding strings. *)
Definition gate_platform_mismatch : bool :=
  match evidence.["gate"] with
  | VStr g => match assoc g DEVICE_RELEASE_GATES, evidence.["platform"] with
              | Some (VStr p), VStr q => negb (str_eqb p q)
              | _, _ => true
              end
  | _ => false
  end.
Definition check_platform (findings : list jsstr) : result jserr (list jsstr) :=
  k ← to_property_key evidence.["platform"];
  Ok match k with
     | Some k =>
         match ALLOWED_FRAMEWORKS k with
         | [] => add findings (js "platform") (js "must be ios, android, or web")
         | frameworks =>
             if negb (includes_str frameworks evidence.["framework"])
             then add findings (js "framework") (js "is not supported for the selected platform")
             else add_if gate_platform_mismatch (js "gate") (js "must match the evidence platform") findings
         end
     | None => add findings (js "platform") (js "must be ios, android, or web")
     end.

(** [for (const hostMode of evidence.hostModes)]: the values an iteration yields. *)
Definition iterate (v : val) : result jserr (list val) :=
  match v with
  | VArr slots => Ok (iterated slots)
  | VStr s => Ok (map (fun c => VStr (code_units c)) (code_points s))
  | _ => Throw TypeError
  end.
Definition host_mode_path (hostMode : val) (available : list jsstr) : list jsstr :=
  let e := hostMode.["evidence"] in
  if isRecord e && isSafeRelativePath e.["logPath"]
  then match e.["logPath"] with VStr p => set_add p available | _ => available end
  else available.
(** Findings, referenced paths and available evidence paths after the host modes. *)
Definition check_hosts (findings : list jsstr) : result jserr (list jsstr * list jsstr * list jsstr) :=
  if isNativePlatform && negb (is_undefined evidence.["hostModes"]) then
    '(findings, referencedPaths) ← validateNativeHostModes evidence.["hostModes"] hostModesRequired
      (expectedHostModeVersions options) (findings, []);
    hostModes ← iterate evidence.["hostModes"];
    Ok (findings, referencedPaths, foldl (fun available hostMode => host_mode_path hostMode available) [] hostModes)
  else Ok (add_if (isNativePlatform && hostModesRequired) (js "hostModes")
             (js "must contain both react-native and flutter host modes") findings, [], []).

(** [!nonEmptyString(v) || !ISO_TIMESTAMP.test(v) || new Date(v).toISOString() !== v] *)
Definition bad_timestamp (v : val) : result jserr bool :=
  match v with
  | VStr s =>
      if negb (nonEmptyString v) || negb (re_match ISO_TIMESTAMP s) then Ok true else
      r ← reformat other_format s; Ok (negb (str_eqb r s))
  | _ => Ok true
  end.
Definition check_physical (findings : list jsstr) : list jsstr :=
  let v := evidence.["physicalDevice"] in
  add_if (physicalNative && negb (eq_bool v true)) (js "physicalDevice")
    (js "must be true for the physical-device release gate")
    (add_if (negb (is_boolean v)) (js "physicalDevice") (js "must be boolean") findings).
Definition non_empty_fields (device : val) (fields findings : list jsstr) : list jsstr :=
  foldl (fun findings field => add_if (negb (nonEmptyString (get device field))) (js "device." ++ field)
    (js "must be non-empty") findings) findings fields.
Definition check_device (findings : list jsstr) : result jserr (list jsstr) :=
  let device := evidence.["device"] in
  if negb (isRecord device) then Ok (add findings (js "device") (js "must be an object"))
  else if eq_str evidence.["platform"] (js "web") then
    Ok (add_if (negb (eq_bool device.["secureContext"] true)) (js "device.secureContext") (js "must be true")
          (non_empty_fields device (map js ["browser"; "browserVersion"; "osVersion"]%string) findings))
  else
    let findings := non_empty_fields device (map js ["model"; "osVersion"; "osBuild"]%string) findings in
    if requirePlatformSupport options
    then more ← validatePlatformSupportDevice other_format evidence.["platform"] device; Ok (findings ++ more)
    else Ok findings.

Record artifact_state := {
  a_findings : list jsstr;
  a_referenced : list jsstr;
  a_available : list jsstr;
  a_kinds_by_path : kind_map;
  a_kinds : list jsstr;
}.
Definition CANONICAL_PATH : jsstr := js "must be a canonical relative path without empty, dot, or parent components".
(** The kind of a physical-device artifact: non-empty and unique. *)
Definition artifact_kind (kind : val) (artifactPath : jsstr) (st : list jsstr * list jsstr) : list jsstr * list jsstr :=
  let '(findings, artifactKinds) := st in
  if negb physicalNative then st else
  match kind with
  | VStr k =>
      if negb (nonEmptyString kind)
      then (add findings (dot artifactPath (js "kind"))
              (js "must be a non-empty artifact kind for a physical-device gate"), artifactKinds)
      else if set_has k artifactKinds
      then (add findings (dot artifactPath (js "kind")) (js "must be unique for a physical-device gate"), artifactKinds)
      else (findings, set_add k artifactKinds)
  | _ => (add findings (dot artifactPath (js "kind"))
            (js "must be a non-empty artifact kind for a physical-device gate"), artifactKinds)
  end.
(** [availableEvidencePaths.add(path)] in the branch that references the path. *)
Definition artifact_available (path : val) (referenced available : list jsstr) : list jsstr :=
  match path with
  | VStr p => if isSafeRelativePath path && negb (set_has p referenced) then set_add p available else available
  | _ => available
  end.
Definition artifact_pair (path kind : val) (m : kind_map) : kind_map :=
  match path, kind with
  | VStr p, VStr k => if isSafeRelativePath path && nonEmptyString kind then kind_set m p k else m
  | _, _ => m
  end.
Definition with_findings (findings : list jsstr) (st : artifact_state) : artifact_state :=
  {| a_findings := findings; a_referenced := a_referenced st; a_available := a_available st;
     a_kinds_by_path := a_kinds_by_path st; a_kinds := a_kinds st |}.
Definition check_artifact (st : artifact_state) (entry : nat * val) : artifact_state :=
  let '(index, artifact) := entry in
  let artifactPath := nth_of (js "artifacts") index in
  if negb (isRecord artifact)
  then with_findings (add (a_findings st) artifactPath (js "must be an object")) st else
  let '(findings, referenced) :=
    reference_path artifact.["path"] (dot artifactPath (js "path")) CANONICAL_PATH (a_findings st, a_referenced st) in
  let findings := digest_field artifact.["sha256"] (dot artifactPath (js "sha256")) findings in
  let '(findings, kinds) := artifact_kind artifact.["kind"] artifactPath (findings, a_kinds st) in
  {| a_findings := findings; a_referenced := referenced;
     a_available := artifact_available artifact.["path"] (a_referenced st) (a_available st);
     a_kinds_by_path := artifact_pair artifact.["path"] artifact.["kind"] (a_kinds_by_path st);
     a_kinds := kinds |}.
Definition check_artifacts (st : artifact_state) : artifact_state :=
  match evidence.["artifacts"] with
  | VArr ((_ :: _) as slots) =>
      let st := foldl check_artifact st (present slots) in
      with_findings (if physicalNative
        then foldl (fun findings kind => add_if (negb (set_has kind (a_kinds st))) (js "artifacts")
               (js "must contain physical-device artifact kind " ++ kind) findings) (a_findings st)
               REQUIRED_PHYSICAL_NATIVE_ARTIFACT_KINDS
        else a_findings st) st
  | _ => with_findings (add (a_findings st) (js "artifacts") (js "must contain at least one hashed artifact")) st
  end.

(** From the test cases on: the log, the artifacts and the test evidence. *)
Definition check_evidence_files (findings referencedPaths available : list jsstr) : list jsstr :=
  let available :=
    match evidence.["logPath"] with
    | VStr p => if isSafeRelativePath (VStr p) then set_add p available else available
    | _ => available
    end in
  let findings := validateTests evidence.["testCases"]
    (if eq_str evidence.["platform"] (js "web") then WEB_TESTS else NATIVE_TESTS) findings in
  let findings := add_if (negb (eq_bool evidence.["sanitizedLogs"] true)) (js "sanitizedLogs") (js "must be true") findings in
  let '(findings, referencedPaths) :=
    reference_path evidence.["logPath"] (js "logPath") CANONICAL_PATH (findings, referencedPaths) in
  let findings := digest_field evidence.["logSha256"] (js "logSha256") findings in
  let st := check_artifacts {| a_findings := findings; a_referenced := referencedPaths; a_available := available;
                               a_kinds_by_path := []; a_kinds := [] |} in
  if physicalNative
  then validateTestEvidence evidence.["testEvidence"] NATIVE_TESTS (a_available st) (a_kinds_by_path st) (a_findings st)
  else a_findings st.

Definition validateDeviceEvidence : result jserr (list jsstr) :=
  if negb (isRecord evidence) then Ok [js "root: must be an object"] else
  let findings := rejectSecretKeys evidence (js "root") [] in
  let findings := add_if (negb (eq_int evidence.["schemaVersion"] 1)) (js "schemaVersion") (js "must be 1") findings in
  let findings := add_if (negb (eq_str evidence.["status"] (js "pass"))) (js "status") (js "must be exactly 'pass'") findings in
  findings ← check_commit findings;
  findings ← check_platform (check_gate findings);
  let findings := add_if (negb (nonEmptyString evidence.["frameworkVersion"])) (js "frameworkVersion")
    (js "must be non-empty") findings in
  '(findings, referencedPaths, available) ← check_hosts findings;
  bad ← bad_timestamp evidence.["recordedAt"];
  let findings := add_if bad (js "recordedAt") (js "must be an ISO-8601 UTC timestamp") findings in
  findings ← check_device (check_physical findings);
  Ok (check_evidence_files findings referencedPaths available).
End record.
