(* ===== verification/EvidenceSpec.v ===== *)
(** * Well-formed evidence

    The vocabulary of the evidence specifications - digests, safe paths, bounded
    text, timestamps, objects free of secret fields - and the lemmas that the scripts'
    tests decide it. *)

From S2P Require Import Prelude JsNumber Regex JsValue JsDate JsText Host.
From S2P Require Import PathProps ContractsSpec PlatformSupport PlatformSupportProps DeviceEvidence.
Open Scope js_scope.

(** ** Findings *)

Lemma add_nil es p d : add es p d = [] <-> False.
Proof. unfold add. split; [by intros [_ ?]%app_eq_nil|done]. Qed.
Lemma add_if_nil c p d es : add_if c p d es = [] <-> c = false /\ es = [].
Proof. unfold add_if. destruct c; [rewrite add_nil|]; naive_solver. Qed.
Lemma foldl_add_if_nil {A} (c : A -> bool) (p d : A -> jsstr) (l : list A) es :
  foldl (fun es x => add_if (c x) (p x) (d x) es) es l = [] <-> es = [] /\ Forall (fun x => c x = false) l.
Proof.
  revert es; induction l as [|x l IH]; intros es; cbn [foldl].
  - rewrite Forall_nil. tauto.
  - rewrite IH, add_if_nil, Forall_cons. tauto.
Qed.
#[export] Hint Rewrite add_nil add_if_nil : js.

(** ** Loops *)

(** An invariant of a loop, indexed by what the loop has consumed. *)
Lemma foldM_inv {E S A} (f : S -> A -> result E S) (P : list A -> S -> Prop) l st st' :
  P [] st -> (forall done x s s', P done s -> f s x = Ok s' -> P (done ++ [x]) s') ->
  foldM f st l = Ok st' -> P l st'.
Proof.
  intros H0 Hstep. change l with ([] ++ l) at 2. revert st H0. generalize (@nil A).
  induction l as [|x l IH]; intros pre s Hs; cbn [foldM].
  - intros <-%Ok_inj. by rewrite app_nil_r.
  - intros (s1 & H1 & H)%bind_Ok. replace (pre ++ x :: l) with ((pre ++ [x]) ++ l) by by rewrite <- app_assoc. eauto.
Qed.

(** ** Values *)

(** A relative path without empty, dot or parent components and without backslash. *)
Definition safe_path (p : jsstr) : Prop :=
  exists cs, cs <> [] /\ Forall proper cs /\ p = join sep cs /\ 92 ∉ p.
Definition path_val (v : val) : Prop := exists p, v = VStr p /\ safe_path p.
(** A visible single-line string of at most 120 units. *)
Definition text (s : jsstr) : Prop :=
  (length s <= 120)%nat /\ ~ (13 ∈ s) /\ ~ (10 ∈ s) /\ exists c, c ∈ s /\ is_space c = false.
Definition text_val (v : val) : Prop := exists s, v = VStr s /\ text s.
(** The rendering of an instant with a four-digit year. *)
Definition timestamp (v : val) : Prop := exists s, v = VStr s /\ matches ISO_TIMESTAMP s /\ is_instant s.
Definition sha_val : val -> Prop := matching SHA256.

(** [u] is [v] or nested in it. *)
Inductive inside (u : val) : val -> Prop :=
  | inside_here : inside u u
  | inside_item l w : Some w ∈ l -> inside u w -> inside u (VArr l)
  | inside_member ps k w : (k, w) ∈ ps -> inside u w -> inside u (VObj ps).
Definition free_of (bad : jsstr -> bool) (v : val) : Prop :=
  forall ps, inside (VObj ps) v -> Forall (fun kv => bad kv.1 = false) ps.

Lemma free_of_obj bad ps :
  free_of bad (VObj ps) <-> Forall (fun kv => bad kv.1 = false /\ free_of bad kv.2) ps.
Proof.
  unfold free_of. rewrite Forall_forall. split.
  - intros H [k w] Hkw. cbn. split.
    + pose proof (H ps (inside_here _)) as Hps. rewrite Forall_forall in Hps. by apply (Hps (k, w)).
    + intros qs Hq. apply H. by eapply inside_member.
  - intros H qs Hq. inversion Hq as [|? ? ? ?|? k w Hkw Hw]; subst.
    + apply Forall_forall. intros kv Hkv. by apply H.
    + by apply (H (k, w) Hkw).
Qed.
Lemma free_of_arr bad l : free_of bad (VArr l) <-> Forall (from_option (free_of bad) True) l.
Proof.
  unfold free_of. rewrite Forall_forall. split.
  - intros H [w|] Hw; cbn; [|done]. intros qs Hq. apply H. by eapply inside_item.
  - intros H qs Hq. inversion Hq as [|? w Hw Hi|]; subst. by apply (H (Some w) Hw).
Qed.
Lemma free_of_leaf bad v : match v with VArr _ | VObj _ => False | _ => True end -> free_of bad v.
Proof. intros Hv ps Hi. destruct v; try done; inversion Hi. Qed.

Lemma rejectSecretKeys_nil v p es : rejectSecretKeys v p es = [] <-> es = [] /\ free_of FORBIDDEN_KEYS v.
Proof.
  revert p es; induction v as [| | | | | | | | l IH|ps IH|] using val_nested_ind; intros p es;
    try (cbn; pose proof (free_of_leaf FORBIDDEN_KEYS) as Hf; split; [intros; split; [done|by apply Hf]|by intros [? _]]).
  - rewrite free_of_arr. cbn [rejectSecretKeys]. generalize O. revert es.
    induction IH as [|[w|] l Hw IH IHl]; intros es i; [rewrite Forall_nil; tauto| |].
    + rewrite IHl, Forall_cons, (Hw (nth_of p i)). cbn. tauto.
    + rewrite IHl, Forall_cons. cbn. tauto.
  - rewrite free_of_obj. cbn [rejectSecretKeys]. revert es.
    induction IH as [|[k w] ps Hw IH IHl]; intros es; [rewrite Forall_nil; tauto|].
    rewrite IHl, Forall_cons, Hw, add_if_nil. cbn. tauto.
Qed.

(** ** Tests *)

Lemma isSafeRelativePath_spec v : isSafeRelativePath v = true <-> path_val v.
Proof.
  unfold path_val. destruct v as [| | | |s| | | | | |]; cbn [isSafeRelativePath]; try (split; [done|by intros (? & ? & _)]).
  transitivity (safe_path s); [|naive_solver]. rewrite !andb_true_iff, !negb_true_iff. split.
  - intros (((Hl & Ha) & Hb) & Hf). exists (split slash s).
    assert (Hn : split slash s <> []) by (destruct s as [|c s]; cbn; [done|]; destruct (c =? slash); [done|];
      by destruct (split slash s)).
    rewrite split_join. split_and!; [done| |done|].
    + rewrite forallb_Forall in Hf. pose proof (split_slash_free s) as Hs.
      rewrite Forall_forall in *. intros c Hc. specialize (Hf c Hc). specialize (Hs c Hc).
      rewrite !andb_true_iff, !negb_true_iff, Nat.ltb_lt in Hf. destruct Hf as [[Hf1 Hf2] Hf3].
      rewrite <- not_true_iff_false, str_eqb_eq in Hf2, Hf3. split_and!; try done. by destruct c; [cbn in Hf1; lia|].
    + intros H. apply not_true_iff_false in Hb. apply Hb. clear -H. induction s as [|c s IH]; [by apply not_elem_of_nil in H|].
      cbn [includes startsWith]. apply elem_of_cons in H as [<-|H]; [by destruct s|]. rewrite IH by done. by rewrite orb_true_r.
  - intros (cs & Hne & Hp & -> & Hb). rewrite split_join_comps by (done || by apply proper_component). split_and!.
    + destruct (join sep cs) eqn:E; [by apply join_nonempty in E; [|done|apply proper_component]|cbn; lia].
    + destruct Hp as [|c cs [[Hc0 Hc] _] Hp]; [done|]. destruct c as [|u c]; [done|].
      assert (u <> slash) by (intros ->; apply Hc; left). destruct cs; cbn; lia.
    + apply not_true_iff_false. intros H. apply Hb. clear -H. induction (join sep cs) as [|c s IH]; [done|].
      cbn [includes startsWith] in H. rewrite orb_true_iff, andb_true_iff, Z.eqb_eq in H.
      destruct H as [[-> _]|H]; [left|right; by apply IH].
    + apply forallb_Forall. eapply Forall_impl; [exact Hp|]. intros c ((Hc0 & _) & H1 & H2). cbn.
      rewrite !andb_true_iff, !negb_true_iff, <- !not_true_iff_false, !str_eqb_eq. split_and!; try done.
      destruct c; [done|]. cbn. lia.
Qed.
Lemma nonEmptyString_spec v : nonEmptyString v = true <-> text_val v.
Proof.
  unfold text_val. destruct v as [| | | |s| | | | | |]; cbn [nonEmptyString]; try (split; [done|by intros (? & ? & _)]).
  transitivity (text s); [|naive_solver]. unfold text, has_text.
  rewrite !andb_true_iff, negb_true_iff, Nat.leb_le, existsb_false_Forall, existsb_Exists, Exists_exists, Forall_forall.
  setoid_rewrite negb_true_iff. split.
  - intros [[Hl Hn] Hs]. split_and!; [done| | |done]; intros H; apply Hn, orb_false_iff in H as [H1 H2]; discriminate.
  - intros (Hl & H13 & H10 & Hs). split; [split; [done|]|done]. intros u Hu. apply orb_false_iff.
    split; apply Z.eqb_neq; intros ->; done.
Qed.
Lemma bad_timestamp_spec {host : Host} v : bad_timestamp v = Ok false <-> text_val v /\ timestamp v.
Proof.
  destruct v as [| | | |s| | | | | |]; cbn [bad_timestamp]; try (split; [done|by intros [_ (? & ? & _)]]).
  rewrite <- nonEmptyString_spec. unfold timestamp.
  destruct (nonEmptyString (VStr s)); cbn [negb orb]; [|split; [done|by intros [? _]]].
  destruct (re_match ISO_TIMESTAMP s) eqn:E; cbn [negb].
  - apply re_match_correct in E. rewrite bind_Ok. split.
    + intros (r & Hr & [= H]). apply negb_false_iff, str_eqb_eq in H as ->. split; [done|]. exists s.
      split_and!; [done..|]. by apply reformat_fixed in Hr.
    + intros [_ (s' & [= <-] & _ & Hi)]. exists s. split; [by apply reformat_fixed|]. by rewrite str_eqb_refl.
  - split; [done|]. intros [_ (s' & [= <-] & Hm & _)]. apply re_match_correct in Hm. congruence.
Qed.
Lemma digest_field_nil v f es : digest_field v f es = [] <-> es = [] /\ sha_val v.
Proof. unfold digest_field. rewrite add_if_nil, negb_false_iff, is_matching_spec. unfold sha_val. tauto. Qed.
Lemma unknown_keys_nil v ks f d es : unknown_keys v ks f d es = [] <-> es = [] /\ keys_within v ks.
Proof.
  unfold unknown_keys. rewrite foldl_add_if_nil, Forall_forall. unfold keys_within.
  setoid_rewrite negb_false_iff. by setoid_rewrite str_in_elem.
Qed.
Lemma reference_path_nil v f u es refs refs' :
  reference_path v f u (es, refs) = ([], refs') <->
  es = [] /\ exists p, v = VStr p /\ safe_path p /\ (p ∉ refs) /\ refs' = refs ++ [p].
Proof.
  pose proof (isSafeRelativePath_spec v) as Hs.
  destruct v as [| | | |s| | | | | |]; cbn [reference_path];
    try (split; [intros [= H _]; by apply add_nil in H|by intros (_ & ? & ? & _)]).
  destruct (isSafeRelativePath (VStr s)); cbn [negb].
  - assert (Hsafe : safe_path s) by (destruct (proj1 Hs eq_refl) as (p & [= <-] & Hp); done).
    unfold set_has at 1. case_bool_decide as Hin.
    + split; [intros [= H _]; by apply add_nil in H|]. intros (_ & p & [= <-] & _ & ? & _). done.
    + rewrite set_add_new by done. split.
      * intros [= -> <-]. split; [done|]. by exists s.
      * intros (-> & p & [= <-] & _ & _ & ->). done.
  - split; [intros [= H _]; by apply add_nil in H|]. intros (_ & p & [= <-] & Hp & _).
    discriminate (proj2 Hs). by exists s.
Qed.
