(* ===== verification/DeviceEvidenceProps.v ===== *)
(** * What the device-evidence validator accepts *)

From S2P Require Import Prelude JsNumber Regex JsValue JsDate JsText Host.
From S2P Require Import PathProps ContractsSpec ContractsProps PlatformSupport PlatformSupportProps DeviceEvidence EvidenceSpec.
Open Scope js_scope.

(** The string a value is, if it is one. *)
Definition str_of (v : val) : list jsstr := match v with VStr s => [s] | _ => [] end.

(** ** Host modes *)

Definition HostEvidence_wf (required : bool) (e : val) : Prop :=
  (is_record e = false /\ required = false) \/
  (is_record e = true /\ keys_within e (map js ["logPath"; "logSha256"]%string) /\
   path_val e.["logPath"] /\ sha_val e.["logSha256"]).
(** The pinned version, where the expected versions name one as a string. *)
Definition version_pinned (versions framework version : val) : Prop :=
  is_record versions = true -> forall f s, framework = VStr f -> get versions f = VStr s -> version = VStr s.
Record HostMode_wf (required : bool) (versions hm : val) : Prop := {
  hm_record : is_record hm = true;
  hm_fields : keys_within hm HOST_MODE_FIELDS;
  hm_framework : one_of (map js ["native"; "react-native"; "flutter"]%string) hm.["framework"];
  hm_version : text_val hm.["frameworkVersion"];
  hm_pinned : version_pinned versions hm.["framework"] hm.["frameworkVersion"];
  hm_status : hm.["status"] = vstr "pass";
  hm_evidence : HostEvidence_wf required hm.["evidence"];
}.
Definition host_log (hm : val) : list jsstr := str_of (hm.["evidence"]).["logPath"].
Definition host_framework (hm : val) : list jsstr := str_of hm.["framework"].



Section props.
Context {host : Host}.

Lemma validateHostModeEvidence_nil e f req es refs refs' :
  validateHostModeEvidence e f req (es, refs) = ([], refs') <->
  es = [] /\ HostEvidence_wf req e /\ unseen refs (str_of e.["logPath"]) /\ refs' = refs ++ str_of e.["logPath"].
Proof.
  unfold validateHostModeEvidence, isRecord, HostEvidence_wf. destruct (is_record e) eqn:E; cbn [negb].
  - destruct (reference_path _ _ _ _) as [es1 refs1] eqn:Er. split.
    + intros [= H ->]. apply digest_field_nil in H as [-> Hd].
      apply reference_path_nil in Er as (Hk & p & -> & Hp & Hf & ->). apply unknown_keys_nil in Hk as [-> Hk].
      split; [done|]. split; [right; split_and!; [done..| |done]; by exists p|]. split; [by apply unseen_single|done].
    + intros (-> & [[? _]|(_ & Hk & (p & Hp & Hs) & Hd)] & Hf & ->); [done|]. rewrite Hp in *. cbn [str_of] in *.
      assert (Er' : (es1, refs1) = ([], refs ++ [p])).
      { rewrite <- Er. apply reference_path_nil. split; [by apply unknown_keys_nil|]. exists p.
        split_and!; [done..|by apply unseen_single|done]. }
      injection Er' as -> ->. f_equal. by apply digest_field_nil.
  - assert (Hn : get e (js "logPath") = VUndef) by by destruct e. rewrite Hn. cbn [str_of].
    rewrite app_nil_r. split.
    + intros [= H ->]. apply add_if_nil in H as [? ->]. split_and!; [done|by left|apply unseen_nil|done].
    + intros (-> & [[_ ->]|[? _]] & _ & ->); done.
Qed.

Lemma version_mismatch_spec versions f version :
  version_mismatch versions (VStr f) version = Ok false <-> version_pinned versions (VStr f) version.
Proof.
  unfold version_mismatch, version_pinned, isRecord. destruct (is_record versions); cbn; [|naive_solver].
  destruct (get versions f) eqn:E; try (split; [intros _ _ f' s' [= <-] H; congruence|done]).
  split.
  - intros [= H] _ f' s' [= <-] H'. apply negb_false_iff, eq_str_spec in H. congruence.
  - intros H. f_equal. rewrite (H eq_refl f s eq_refl E). cbn. by rewrite str_eqb_refl.
Qed.

Lemma host_mode_framework_nil v f es fws fws' :
  host_mode_framework v f (es, fws) = ([], fws') <->
  es = [] /\ one_of (map js ["native"; "react-native"; "flutter"]%string) v /\
  unseen fws (str_of v) /\ fws' = fws ++ str_of v.
Proof.
  unfold host_mode_framework, one_of.
  destruct v as [| | | |s| | | | | |];
    try (split; [intros [= H _]; by apply add_nil in H|by intros (_ & (? & ? & _) & _)]).
  change (ALLOWED_FRAMEWORKS (js "ios")) with (map js ["native"; "react-native"; "flutter"]%string).
  change (ALLOWED_FRAMEWORKS (js "android")) with (map js ["native"; "react-native"; "flutter"]%string).
  rewrite andb_diag. cbn [str_of]. rewrite unseen_single.
  destruct (str_in s _) eqn:E; cbn [negb].
  - apply str_in_elem in E. unfold set_has. case_bool_decide as Hin.
    + split; [intros [= H _]; by apply add_nil in H|]. by intros (_ & _ & ? & _).
    + rewrite set_add_new by done. split; [intros [= -> <-]; naive_solver|]. by intros (-> & _ & _ & ->).
  - split; [intros [= H _]; by apply add_nil in H|]. intros (_ & (s' & [= <-] & Hs) & _).
    apply str_in_elem in Hs. congruence.
Qed.
Lemma host_mode_version_nil versions f v fd es :
  one_of (map js ["native"; "react-native"; "flutter"]%string) f ->
  host_mode_version versions f v fd es = Ok [] <-> es = [] /\ text_val v /\ version_pinned versions f v.
Proof.
  intros (s & -> & _). unfold host_mode_version. rewrite <- nonEmptyString_spec, <- version_mismatch_spec.
  destruct (nonEmptyString v); cbn [negb].
  - rewrite bind_Ok. split.
    + intros (b & Hb & [= H]). apply add_if_nil in H as [-> ->]. done.
    + intros (-> & _ & H). by exists false.
  - split; [intros [= H]; by apply add_nil in H|]. by intros (_ & ? & _).
Qed.
Lemma host_mode_version_keeps versions f v fd es : host_mode_version versions f v fd es = Ok [] -> es = [].
Proof.
  unfold host_mode_version. destruct (negb _); [intros [= H]; by apply add_nil in H|].
  by intros (b & _ & [= [_ ?]%add_if_nil])%bind_Ok.
Qed.
Lemma host_mode_evidence_nil req e f es refs refs' :
  host_mode_evidence req e f (es, refs) = ([], refs') <->
  es = [] /\ HostEvidence_wf req e /\ unseen refs (str_of e.["logPath"]) /\ refs' = refs ++ str_of e.["logPath"].
Proof.
  unfold host_mode_evidence. destruct (_ || _) eqn:E; [apply validateHostModeEvidence_nil|].
  apply orb_false_iff in E as [->%negb_false_iff%is_undefined_spec ->]. cbn [get str_of]. rewrite app_nil_r.
  split; [intros [= -> ->]; split_and!; [done|by left|apply unseen_nil|done]|]. by intros (-> & _ & _ & ->).
Qed.
Lemma host_mode_nil req versions es refs fws i hm refs' fws' :
  host_mode req versions (es, refs, fws) (i, hm) = Ok ([], refs', fws') <->
  es = [] /\ HostMode_wf req versions hm /\ unseen refs (host_log hm) /\ unseen fws (host_framework hm) /\
  refs' = refs ++ host_log hm /\ fws' = fws ++ host_framework hm.
Proof.
  unfold host_mode, isRecord. destruct (is_record hm) eqn:Hr; cbn [negb].
  2: { split; [intros [= H _ _]; by apply add_nil in H|]. intros (_ & [] & _). congruence. }
  destruct (host_mode_framework _ _ _) as [es1 fws1] eqn:Ef. rewrite bind_Ok. split.
  - intros (es2 & Hv & H). destruct (host_mode_evidence _ _ _ _) as [es3 refs3] eqn:Ee.
    injection H as -> -> ->. apply host_mode_evidence_nil in Ee as (H & He & Hfr & ->).
    apply add_if_nil in H as [Hs%negb_false_iff%eq_str_spec ->].
    pose proof (host_mode_version_keeps _ _ _ _ _ Hv) as ->.
    apply host_mode_framework_nil in Ef as (Hk & Hf & Hff & ->). apply unknown_keys_nil in Hk as [-> Hk].
    apply host_mode_version_nil in Hv as (_ & Ht & Hp); [|done]. split; [done|]. split; [by constructor|]. done.
  - intros (-> & [_ Hk Hf Ht Hp Hs He] & Hlog & Hfw & -> & ->). exists [].
    assert (E : (es1, fws1) = ([], fws ++ host_framework hm)).
    { rewrite <- Ef. apply host_mode_framework_nil. split; [by apply unknown_keys_nil|done]. }
    injection E as -> ->. split; [by apply host_mode_version_nil|]. rewrite Hs. cbn [eq_str vstr].
    rewrite str_eqb_refl. cbn [negb add_if].
    assert (E : host_mode_evidence req hm.["evidence"] (nth_of (js "hostModes") i) ([], refs) = ([], refs ++ host_log hm))
      by by apply host_mode_evidence_nil.
    by rewrite E.
Qed.
Lemma host_modes_nil req versions l i es refs fws refs' fws' :
  foldM (host_mode req versions) (es, refs, fws) (indexed_from i l) = Ok ([], refs', fws') <->
  es = [] /\ Forall (HostMode_wf req versions) l /\ unseen refs (flat_map host_log l) /\
  unseen fws (flat_map host_framework l) /\
  refs' = refs ++ flat_map host_log l /\ fws' = fws ++ flat_map host_framework l.
Proof.
  revert i es refs fws; induction l as [|hm l IH]; intros i es refs fws; cbn [indexed_from foldM flat_map].
  - rewrite !app_nil_r. split; [intros [= -> -> ->]; split_and!; eauto using unseen_nil|]. by intros (-> & _ & _ & _ & -> & ->).
  - rewrite bind_Ok, Forall_cons, !unseen_app. split.
    + intros ([[es1 refs1] fws1] & H1 & H2). apply IH in H2 as (-> & Hl & Hr & Hf & -> & ->).
      apply host_mode_nil in H1 as (-> & Hh & Hr1 & Hf1 & -> & ->). rewrite !app_assoc. done.
    + intros (-> & [Hh Hl] & [Hr1 Hr] & [Hf1 Hf] & -> & ->).
      exists ([], refs ++ host_log hm, fws ++ host_framework hm). split; [by apply host_mode_nil|].
      apply IH. rewrite !app_assoc. done.
Qed.

(** One to three well-formed records, no log and no framework twice, and both
    required frameworks where they are. *)
Definition HostModes_wf (required : bool) (versions v : val) : Prop :=
  exists slots, v = VArr slots /\ (1 <= length slots <= 3)%nat /\
    Forall (HostMode_wf required versions) (iterated slots) /\
    NoDup (flat_map host_log (iterated slots)) /\ NoDup (flat_map host_framework (iterated slots)) /\
    (required = true -> forall f, f ∈ REQUIRED_NATIVE_HOST_MODES -> f ∈ flat_map host_framework (iterated slots)).
Definition host_logs (v : val) : list jsstr := flat_map host_log (iterated (slots_of v)).

Lemma set_has_elem (x : jsstr) s : set_has x s = true <-> x ∈ s.
Proof. unfold set_has. by rewrite bool_decide_eq_true. Qed.
Lemma validateNativeHostModes_nil v req versions es refs' :
  validateNativeHostModes v req versions (es, []) = Ok ([], refs') <->
  es = [] /\ HostModes_wf req versions v /\ refs' = host_logs v.
Proof.
  unfold validateNativeHostModes, HostModes_wf, host_logs.
  destruct v as [| | | | | | | |slots| |];
    try (split; [intros [= H _]; by apply add_nil in H|by intros (_ & (? & ? & _) & _)]).
  destruct (_ || _) eqn:El.
  - split; [intros [= H _]; by apply add_nil in H|]. intros (_ & (s & [= <-] & Hl & _) & _).
    apply orb_true_iff in El as [El|El]; breflect_in El; lia.
  - assert (Hl : (1 <= length slots <= 3)%nat) by (apply orb_false_iff in El as [E1 E2]; breflect_in E1; breflect_in E2; lia).
    cbn [slots_of]. rewrite bind_Ok. split.
    + intros ([[es1 refs1] fws] & H1 & [H ->]%Ok_pair).
      assert (es1 = [] /\ (req = true -> forall f, f ∈ REQUIRED_NATIVE_HOST_MODES -> f ∈ fws)) as [-> Hreq].
      { destruct req; [|done]. apply foldl_add_if_nil in H as [-> Hf]. split; [done|]. intros _ f Hf'.
        rewrite Forall_forall in Hf. specialize (Hf f Hf'). by apply negb_false_iff, set_has_elem in Hf. }
      apply host_modes_nil in H1 as (-> & Hw & Hr & Hf & -> & ->). cbn [app] in *.
      apply unseen_empty in Hr, Hf. split; [done|]. split; [|done]. by exists slots.
    + intros (-> & (s & [= <-] & _ & Hw & Hr & Hf & Hreq) & ->).
      eexists ([], _, _). split; [apply host_modes_nil; rewrite !unseen_empty; done|]. cbn [app]. do 2 f_equal.
      destruct req; [|done]. apply foldl_add_if_nil. split; [done|]. apply Forall_forall. intros f Hf'.
      apply negb_false_iff, set_has_elem. by apply Hreq.
Qed.

(** ** Test evidence *)

Lemma evidence_paths_nil A f i l es u u' :
  foldl (evidence_path A f) (es, u) (indexed_from i l) = ([], u') <->
  es = [] /\ exists ps, l = map VStr ps /\ Forall safe_path ps /\ unseen u ps /\ (forall p, p ∈ ps -> p ∈ A) /\ u' = u ++ ps.
Proof.
  revert i es u; induction l as [|v l IH]; intros i es u; cbn [indexed_from foldl].
  - split.
    + intros [= -> ->]. split; [done|]. exists []. rewrite app_nil_r.
      split_and!; [done|constructor|apply unseen_nil|by intros ? ?%not_elem_of_nil|done].
    + intros (-> & ps & Hps & _ & _ & _ & ->). destruct ps; [|done]. by rewrite app_nil_r.
  - destruct (evidence_path A f (es, u) (i, v)) as [es1 u1] eqn:E. rewrite IH.
    assert (Hstep : es1 = [] <-> es = [] /\ exists p, v = VStr p /\ safe_path p /\ ~ (p ∈ u) /\ p ∈ A).
    { cbn [evidence_path] in E. pose proof (isSafeRelativePath_spec v) as Hs. unfold path_val in Hs.
      destruct (isSafeRelativePath v); cbn [negb] in E.
      2: { injection E as <- <-. rewrite add_nil. split; [done|]. intros (_ & p & Hv & Hp & _).
           discriminate (proj2 Hs). by exists p. }
      destruct (proj1 Hs eq_refl) as (p & -> & Hp). unfold set_has at 1 in E. case_bool_decide as Hin.
      - injection E as <- <-. rewrite add_nil. naive_solver.
      - injection E as <- <-. rewrite add_if_nil, negb_false_iff, set_has_elem. naive_solver. }
    assert (Hu : es1 = [] -> forall p, v = VStr p -> p ∉ u -> u1 = u ++ [p]).
    { intros -> p -> Hin. cbn [evidence_path] in E. destruct (negb _); [injection E as E _; by apply add_nil in E|].
      unfold set_has at 1 in E. rewrite bool_decide_eq_false_2 in E by done. injection E as _ <-. by apply set_add_new. }
    split.
    + intros (H1 & ps & -> & Hsafe & Hf & HA & ->). pose proof (Hu H1) as Hu1.
      apply Hstep in H1 as (-> & p & -> & Hp & Hin & HpA). rewrite (Hu1 p eq_refl Hin) in *. split; [done|].
      exists (p :: ps). split_and!; [done|by constructor| |naive_solver set_solver|by rewrite <- app_assoc].
      apply (unseen_app u [p] ps). split; [by apply unseen_single|done].
    + intros (-> & ps & Hps & Hsafe & Hf & HA & ->). destruct ps as [|p ps]; [done|]. injection Hps as -> ->.
      apply (unseen_app u [p] ps) in Hf as [Hp%unseen_single Hf]. apply Forall_cons in Hsafe as [Hp1 Hsafe].
      assert (H1 : es1 = []) by (apply Hstep; split; [done|]; exists p; split_and!; [done..|apply HA; left]).
      rewrite (Hu H1 p eq_refl Hp) in *. split; [done|]. exists ps.
      split_and!; [done..| |by rewrite <- app_assoc]. intros q Hq. apply HA. by right.
Qed.

Lemma iterated_strings slots ps : iterated slots = map VStr ps <-> slots = map (fun p => Some (VStr p)) ps.
Proof.
  revert ps; induction slots as [|o l IH]; intros [|p ps]; cbn; try (split; congruence).
  split; [|intros [= -> ->]; f_equal; by apply IH].
  intros [= Ho Hl]. apply IH in Hl as ->. by destruct o; cbn in Ho; subst.
Qed.
Definition Test_wf (A : list jsstr) (M : kind_map) (te : val) (name : jsstr) : Prop :=
  exists ps, get te name = VArr (map (fun p => Some (VStr p)) ps) /\ (1 <= length ps <= 8)%nat /\
    Forall safe_path ps /\ NoDup ps /\ (forall p, p ∈ ps -> p ∈ A) /\
    forall kind, kind ∈ REQUIRED_TEST_EVIDENCE_ARTIFACT_KINDS name ->
      exists p, p ∈ ps /\ kind_get M (VStr p) = Some kind.
Lemma test_case_nil te A M es name : test_case te A M es name = [] <-> es = [] /\ Test_wf A M te name.
Proof.
  unfold test_case, Test_wf. destruct (get te name) as [| | | | | | | |slots| |];
    try (rewrite add_nil; split; [done|by intros (_ & ? & ? & _)]).
  destruct (_ || _) eqn:El.
  { rewrite add_nil. split; [done|]. intros (_ & ps & [= ->] & Hl & _). rewrite length_map in El.
    apply orb_true_iff in El as [El|El]; breflect_in El; lia. }
  destruct (foldl _ _ _) as [es1 u1] eqn:E. rewrite foldl_add_if_nil, Forall_forall.
  assert (Hk : forall ps, slots = map (fun p => Some (VStr p)) ps -> forall kind,
    negb (existsb (fun ip => bool_decide (kind_get M ip.2 = Some kind)) (present slots)) = false <->
    exists p, p ∈ ps /\ kind_get M (VStr p) = Some kind).
  { intros ps -> kind. rewrite negb_false_iff, existsb_Exists, Exists_exists. split.
    - intros ([j v] & Hin%present_elem & Hv%bool_decide_eq_true). rewrite list_lookup_fmap in Hin.
      destruct (ps !! j) as [p|] eqn:Ep; [|done]. injection Hin as <-. exists p. split; [by eapply list_elem_of_lookup_2|done].
    - intros (p & [j Hj]%list_elem_of_lookup & Hv). exists (j, VStr p). split; [|by apply bool_decide_eq_true].
      apply present_elem. by rewrite list_lookup_fmap, Hj. }
  assert (Hl : (1 <= length slots <= 8)%nat) by (apply orb_false_iff in El as [E1 E2]; breflect_in E1; breflect_in E2; lia).
  split.
  - intros [-> Hkinds]. apply evidence_paths_nil in E as (-> & ps & Hps & Hs & Hf%unseen_empty & HA & _).
    apply iterated_strings in Hps as ->. rewrite length_map in Hl. split; [done|]. exists ps. split_and!; try (done || lia).
    intros kind Hkind. apply (Hk ps eq_refl). by apply Hkinds.
  - intros (-> & ps & [= ->] & _ & Hs & Hf & HA & Hkinds).
    assert (E' : (es1, u1) = ([], ps)).
    { rewrite <- E. apply evidence_paths_nil. split; [done|]. exists ps.
      split_and!; [by apply iterated_strings|done|by apply unseen_empty|done|done]. }
    injection E' as -> ->. split; [done|]. intros kind Hkind. apply (Hk ps eq_refl). by apply Hkinds.
Qed.
Lemma validateTestEvidence_nil te required A M es :
  validateTestEvidence te required A M es = [] <->
  es = [] /\ is_record te = true /\ keys_within te required /\ Forall (Test_wf A M te) required.
Proof.
  unfold validateTestEvidence, isRecord. destruct (is_record te) eqn:E; cbn [negb].
  2: { rewrite add_nil. split; [done|]. by intros (_ & ? & _). }
  assert (Hf : forall l es', foldl (test_case te A M) es' l = [] <-> es' = [] /\ Forall (Test_wf A M te) l).
  { induction l as [|n l IH]; intros es'; cbn [foldl]; [rewrite Forall_nil; tauto|].
    rewrite IH, test_case_nil, Forall_cons. tauto. }
  rewrite Hf, foldl_add_if_nil, Forall_forall. unfold keys_within. setoid_rewrite negb_false_iff.
  setoid_rewrite str_in_elem. tauto.
Qed.

(** ** Artifacts *)

Definition art_path (a : val) : list jsstr := str_of a.["path"].
Definition art_kind (a : val) : list jsstr := str_of a.["kind"].
Definition art_pairs (a : val) : kind_map :=
  match a.["path"], a.["kind"] with
  | VStr p, VStr k => if nonEmptyString (VStr k) then [(p, k)] else []
  | _, _ => []
  end.
Definition Artifact_wf (physical : bool) (a : val) : Prop :=
  is_record a = true /\ path_val a.["path"] /\ sha_val a.["sha256"] /\
  (physical = true -> text_val a.["kind"]).

(** What a clean pass over artifacts leaves. *)
Record artifacts_after (physical : bool) (st : artifact_state) (l : list val) (st' : artifact_state) : Prop := {
  after_findings : a_findings st' = [];
  after_referenced : a_referenced st' = a_referenced st ++ flat_map art_path l;
  after_available : forall x, x ∈ a_available st' <-> x ∈ a_available st \/ x ∈ flat_map art_path l;
  after_pairs : a_kinds_by_path st' = rev (flat_map art_pairs l) ++ a_kinds_by_path st;
  after_kinds : a_kinds st' = a_kinds st ++ (if physical then flat_map art_kind l else []);
}.
Definition Artifacts_ok (physical : bool) (st : artifact_state) (l : list val) : Prop :=
  Forall (Artifact_wf physical) l /\ unseen (a_referenced st) (flat_map art_path l) /\
  (physical = true -> unseen (a_kinds st) (flat_map art_kind l)).

Section artifacts.
Context (options : Options) (evidence : val).
Notation physical := (physicalNative options evidence).
Notation step := (check_artifact options evidence).

Lemma artifact_kind_nil v f es ks ks' :
  artifact_kind options evidence v f (es, ks) = ([], ks') <->
  es = [] /\ (physical = true -> text_val v /\ unseen ks (str_of v)) /\ ks' = ks ++ (if physical then str_of v else []).
Proof.
  unfold artifact_kind. destruct physical; cbn [negb].
  2: { rewrite app_nil_r. split; [intros [= -> ->]; done|]. by intros (-> & _ & ->). }
  pose proof (nonEmptyString_spec v) as Ht.
  destruct v as [| | | |k| | | | | |];
    try (split; [intros [= H _]; by apply add_nil in H|intros (_ & H & _); by destruct (H eq_refl) as [(? & ? & _) _]]).
  cbn [str_of]. rewrite unseen_single. destruct (nonEmptyString (VStr k)); cbn [negb].
  - unfold set_has. case_bool_decide as Hin.
    + split; [intros [= H _]; by apply add_nil in H|]. intros (_ & H & _). by destruct (H eq_refl).
    + rewrite set_add_new by done. split; [intros [= -> <-]; naive_solver|]. by intros (-> & _ & ->).
  - split; [intros [= H _]; by apply add_nil in H|]. intros (_ & H & _). destruct (H eq_refl) as [H1 _].
    apply Ht in H1. done.
Qed.
Lemma check_artifact_nil st i a :
  a_findings (step st (i, a)) = [] ->
  a_findings st = [] /\ Artifacts_ok physical st [a] /\ artifacts_after physical st [a] (step st (i, a)).
Proof.
  unfold check_artifact, isRecord, Artifacts_ok, Artifact_wf. destruct (is_record a) eqn:Hr; cbn [negb].
  2: { cbn [with_findings a_findings]. by intros ?%add_nil. }
  destruct (reference_path _ _ _ _) as [es refs] eqn:Er.
  destruct (artifact_kind _ _ _ _ _) as [es' ks] eqn:Ek. cbn [a_findings]. intros ->.
  apply artifact_kind_nil in Ek as (Hd & Hk & ->). apply digest_field_nil in Hd as [-> Hd].
  apply reference_path_nil in Er as (-> & p & Hp & Hs & Hf & ->). cbn [flat_map]. rewrite !app_nil_r.
  unfold art_path, art_kind. rewrite Hp. cbn [str_of]. split; [done|].
  assert (Hsafe : isSafeRelativePath (VStr p) = true) by (apply isSafeRelativePath_spec; by exists p). split.
  - split_and!; [|by apply unseen_single|intros H; by apply Hk].
    apply Forall_singleton. split_and!; [done|rewrite Hp; by exists p|done|intros H; by apply Hk].
  - constructor; cbn [flat_map a_findings a_referenced a_available a_kinds_by_path a_kinds];
      unfold art_path, art_kind, art_pairs; rewrite ?Hp, ?app_nil_r; cbn [str_of]; [done|done| | |done].
    + intros x. unfold artifact_available. rewrite Hsafe. unfold set_has at 1. rewrite bool_decide_eq_false_2 by done.
      cbn [andb negb]. rewrite elem_of_set_add, list_elem_of_singleton. tauto.
    + unfold artifact_pair. rewrite Hsafe. destruct (a.["kind"]); try done. cbn [andb]. by destruct (nonEmptyString _).
Qed.
Lemma check_artifact_ok st i a :
  a_findings st = [] -> Artifacts_ok physical st [a] -> a_findings (step st (i, a)) = [].
Proof.
  intros Hes (Hw & Hf & Hk). apply Forall_singleton in Hw as (Hr & (p & Hp & Hs) & Hd & Ht).
  cbn [flat_map] in *. rewrite app_nil_r in *. unfold art_path, art_kind in *. rewrite Hp in *. cbn [str_of] in *.
  apply unseen_single in Hf. unfold check_artifact, isRecord. rewrite Hr, Hp, Hes. cbn [negb].
  destruct (reference_path _ _ _ _) as [es refs] eqn:Er.
  assert (E : (es, refs) = ([], a_referenced st ++ [p]))
    by (rewrite <- Er; apply reference_path_nil; split; [done|]; by exists p). injection E as -> ->.
  destruct (artifact_kind _ _ _ _ _) as [es' ks] eqn:Ek.
  assert (E : (es', ks) = ([], a_kinds st ++ (if physical then str_of a.["kind"] else []))).
  { rewrite <- Ek. apply artifact_kind_nil. split_and!; [by apply digest_field_nil|auto|done]. }
  by injection E as -> ->.
Qed.
Lemma artifacts_after_cons physical' st a l st1 st2 :
  artifacts_after physical' st [a] st1 -> artifacts_after physical' st1 l st2 -> artifacts_after physical' st (a :: l) st2.
Proof.
  intros [_ r1 v1 p1 k1] [f2 r2 v2 p2 k2]. cbn [flat_map] in *. rewrite !app_nil_r in *. constructor; cbn [flat_map].
  - done.
  - by rewrite r2, r1, app_assoc.
  - intros x. rewrite v2, v1, elem_of_app. tauto.
  - by rewrite p2, p1, rev_app_distr, app_assoc.
  - rewrite k2, k1, <- app_assoc. by destruct physical'.
Qed.
Lemma Artifacts_ok_cons physical' st st1 a l :
  artifacts_after physical' st [a] st1 -> Artifacts_ok physical' st [a] ->
  Artifacts_ok physical' st1 l <-> Artifacts_ok physical' st (a :: l).
Proof.
  intros [_ r1 _ _ k1] (Hw & Hf & Hk). unfold Artifacts_ok. rewrite r1, k1. cbn [flat_map] in *. rewrite !app_nil_r in *.
  rewrite Forall_singleton in Hw. rewrite Forall_cons, !unseen_app.
  destruct physical'; intuition congruence.
Qed.
Lemma check_artifacts_fold st l :
  (a_findings (foldl step st l) = [] <-> a_findings st = [] /\ Artifacts_ok physical st l.*2) /\
  (a_findings (foldl step st l) = [] -> artifacts_after physical st l.*2 (foldl step st l)).
Proof.
  revert st; induction l as [|[i a] l IH]; intros st; cbn [foldl].
  - change (([] : list (nat * val)).*2) with (@nil val). split.
    + split; [|by intros [? _]]. intros H. split; [done|]. unfold Artifacts_ok. cbn. split_and!; [done|apply unseen_nil|intros; apply unseen_nil].
    + intros H. constructor; cbn [flat_map rev app]; rewrite ?app_nil_r; try done.
      * intros x. rewrite elem_of_nil. tauto.
      * by destruct physical; rewrite app_nil_r.
  - change (((i, a) :: l).*2) with (a :: l.*2). destruct (IH (step st (i, a))) as [IH1 IH2]. split.
    + rewrite IH1. split.
      * intros [(Hes & Ho & Ha)%check_artifact_nil Hl]. split; [done|]. by apply (Artifacts_ok_cons _ _ _ _ _ Ha Ho).
      * intros [Hes Hall]. assert (Ho : Artifacts_ok physical st [a]).
        { destruct Hall as (Hw & Hf & Hk). cbn [flat_map] in *. apply Forall_cons in Hw as [Hw _].
          apply unseen_app in Hf as [Hf _]. unfold Artifacts_ok. cbn [flat_map]. rewrite !app_nil_r.
          split_and!; [by apply Forall_singleton|done|]. intros Hp. by apply Hk, unseen_app in Hp as [? _]. }
        pose proof (check_artifact_ok st i a Hes Ho) as H1. split; [done|].
        destruct (check_artifact_nil st i a H1) as (_ & _ & Ha). by apply (Artifacts_ok_cons _ _ _ _ _ Ha Ho).
    + intros H. pose proof (proj1 IH1 H) as [H1 _]. destruct (check_artifact_nil st i a H1) as (_ & _ & Ha).
      eapply artifacts_after_cons; [exact Ha|by apply IH2].
Qed.
End artifacts.
End props.
