(* ===== verification/DeviceRecord.v ===== *)
(** * Correctness of [validateDeviceEvidence]

    The validator reports nothing exactly on the well-formed records of the release
    gate it is asked about. *)

From S2P Require Import Prelude JsNumber Regex JsValue JsDate JsText Host.
From S2P Require Import PathProps ContractsSpec ContractsProps PlatformSupport PlatformSupportProps.
From S2P Require Import DeviceEvidence EvidenceSpec DeviceEvidenceProps.
Open Scope js_scope.

(** One to eight distinct safe paths of known evidence files, among them one artifact
    of every kind the test case needs. *)
Definition Test_ok (citable : list jsstr) (pairs : kind_map) (te : val) (name : jsstr) : Prop :=
  exists ps, get te name = VArr (map (fun p => Some (VStr p)) ps) /\ (1 <= length ps <= 8)%nat /\
    Forall safe_path ps /\ NoDup ps /\ (forall p, p ∈ ps -> p ∈ citable) /\
    forall kind, kind ∈ REQUIRED_TEST_EVIDENCE_ARTIFACT_KINDS name -> exists p, p ∈ ps /\ (p, kind) ∈ pairs.

Section spec.
Context {host : Host} (options : Options) (ev : val).

Definition artifacts : list val := (present (slots_of ev.["artifacts"])).*2.
Definition logs : list jsstr :=
  if isNativePlatform ev && negb (is_undefined ev.["hostModes"]) then host_logs ev.["hostModes"] else [].
(** Every evidence file the record names: host logs, the aggregate log, artifacts. *)
Definition evidence_files : list jsstr := logs ++ str_of ev.["logPath"] ++ flat_map art_path artifacts.

Definition Device_wf : Prop :=
  is_record ev.["device"] = true /\
  if eq_str ev.["platform"] (js "web")
  then Forall (fun k => text_val (get ev.["device"] k)) (map js ["browser"; "browserVersion"; "osVersion"]%string) /\
       (ev.["device"]).["secureContext"] = VBool true
  else Forall (fun k => text_val (get ev.["device"] k)) (map js ["model"; "osVersion"; "osBuild"]%string) /\
       (requirePlatformSupport options = true ->
         (ev.["platform"] = vstr "ios" -> Ios_supported ev.["device"]) /\
         (ev.["platform"] = vstr "android" -> Android_supported ev.["device"])).
Definition Hosts_wf : Prop :=
  isNativePlatform ev = true ->
  (ev.["hostModes"] = VUndef /\ hostModesRequired options ev = false) \/
  HostModes_wf (hostModesRequired options ev) (expectedHostModeVersions options) ev.["hostModes"].
Definition Physical_wf : Prop :=
  ev.["physicalDevice"] = VBool true /\
  NoDup (flat_map art_kind artifacts) /\
  (forall kind, kind ∈ REQUIRED_PHYSICAL_NATIVE_ARTIFACT_KINDS -> kind ∈ flat_map art_kind artifacts) /\
  is_record ev.["testEvidence"] = true /\ keys_within ev.["testEvidence"] NATIVE_TESTS /\
  Forall (Test_ok evidence_files (flat_map art_pairs artifacts) ev.["testEvidence"]) NATIVE_TESTS.

Record Evidence_wf : Prop := {
  ev_record : is_record ev = true;
  ev_no_secret : free_of FORBIDDEN_KEYS ev;
  ev_version : eq_int ev.["schemaVersion"] 1 = true;
  ev_status : ev.["status"] = vstr "pass";
  ev_commit : exists c, ev.["commit"] = VStr c /\ matches COMMIT c /\
    (expectedCommit options = VUndef \/ expectedCommit options = VStr c);
  ev_gate : exists g p, ev.["gate"] = VStr g /\ ev.["platform"] = VStr p /\
    assoc g DEVICE_RELEASE_GATES = Some (VStr p) /\ one_of (ALLOWED_FRAMEWORKS p) ev.["framework"] /\
    (expectedGate options = VUndef \/ expectedGate options = VStr g);
  ev_framework_version : text_val ev.["frameworkVersion"];
  ev_hosts : Hosts_wf;
  ev_recorded : text_val ev.["recordedAt"] /\ timestamp ev.["recordedAt"];
  ev_physical_flag : boolean_val ev.["physicalDevice"];
  ev_device : Device_wf;
  ev_tests : is_record ev.["testCases"] = true /\
    Forall (fun n => get ev.["testCases"] n = vstr "pass")
      (if eq_str ev.["platform"] (js "web") then WEB_TESTS else NATIVE_TESTS);
  ev_sanitized : ev.["sanitizedLogs"] = VBool true;
  ev_log : path_val ev.["logPath"] /\ sha_val ev.["logSha256"];
  ev_artifacts : (exists s l, ev.["artifacts"] = VArr (s :: l)) /\
    Forall (Artifact_wf (physicalNative options ev)) artifacts;
  ev_files_distinct : NoDup evidence_files;
  ev_physical : physicalNative options ev = true -> Physical_wf;
}.

(** ** Phases *)

Lemma differs_false expected s : differs expected s = false <-> expected = VUndef \/ expected = VStr s.
Proof.
  unfold differs. rewrite andb_false_iff, !negb_false_iff, is_undefined_spec, eq_str_spec. done.
Qed.
Lemma check_commit_nil es :
  check_commit options ev es = Ok [] <-> es = [] /\ exists c, ev.["commit"] = VStr c /\ matches COMMIT c /\
    (expectedCommit options = VUndef \/ expectedCommit options = VStr c).
Proof.
  unfold check_commit. match goal with |- context [if is_undefined _ then Ok ?e else _] => set (es1 := e) end.
  assert (H1 : es1 = [] <-> es = [] /\ exists c, ev.["commit"] = VStr c /\ matches COMMIT c /\
    (expectedCommit options = VUndef \/ expectedCommit options = VStr c)).
  { unfold es1. destruct (ev.["commit"]) as [| | | |c| | | | | |];
      try (rewrite add_nil; split; [done|by intros (_ & ? & ? & _)]).
    setoid_rewrite <- re_match_correct. destruct (re_match COMMIT c) eqn:E; cbn [negb].
    - rewrite add_if_nil, differs_false. naive_solver.
    - rewrite add_nil. split; [done|]. intros (_ & c' & [= <-] & Hm & _). congruence. }
  destruct (is_undefined (expectedCommit options)) eqn:Eu.
  - rewrite <- H1. split; congruence.
  - split.
    + intros (s & _ & [= H])%bind_Ok. apply add_if_nil in H as [_ H]. by apply H1.
    + intros Hr. pose proof (proj2 H1 Hr) as ->. destruct Hr as (_ & c & _ & Hm & [He|He]); rewrite He in *; [done|].
      change (String_ (VStr c)) with (@Ok jserr _ c). cbn [mbind result_bind].
      apply re_match_correct in Hm. by rewrite Hm.
Qed.

Lemma check_gate_nil es : check_gate options ev es = [] -> es = [].
Proof.
  unfold check_gate. destruct (ev.["gate"]); try by intros ?%add_nil.
  destruct (assoc _ _); [by intros [_ ?]%add_if_nil|by intros ?%add_nil].
Qed.
Lemma allowed_platforms k : ALLOWED_FRAMEWORKS k <> [] -> k = js "ios" \/ k = js "android" \/ k = js "web".
Proof.
  unfold ALLOWED_FRAMEWORKS, table. cbn [find fst].
  destruct (str_eqb k (js "ios")) eqn:E1; [left; by apply str_eqb_eq|].
  destruct (str_eqb k (js "android")) eqn:E2; [right; left; by apply str_eqb_eq|].
  destruct (str_eqb k (js "web")) eqn:E3; [right; right; by apply str_eqb_eq|done].
Qed.
Lemma gate_of_assoc g p : assoc g DEVICE_RELEASE_GATES = Some p -> exists s, p = VStr s /\ ALLOWED_FRAMEWORKS s <> [].
Proof.
  unfold DEVICE_RELEASE_GATES. cbn [assoc]. destruct (str_eqb g _); [intros [= <-]; by eexists|].
  destruct (str_eqb g _); [intros [= <-]; by eexists|]. destruct (str_eqb g _); [intros [= <-]; by eexists|done].
Qed.
Lemma check_platform_nil es :
  check_platform ev (check_gate options ev es) = Ok [] <-> es = [] /\
  exists g p, ev.["gate"] = VStr g /\ ev.["platform"] = VStr p /\
    assoc g DEVICE_RELEASE_GATES = Some (VStr p) /\ one_of (ALLOWED_FRAMEWORKS p) ev.["framework"] /\
    (expectedGate options = VUndef \/ expectedGate options = VStr g).
Proof.
  unfold check_platform. rewrite bind_Ok. split.
  - intros ([k|] & Hk & [= H]); [|by apply add_nil in H].
    destruct (ALLOWED_FRAMEWORKS k) as [|f fs] eqn:Ea; [by apply add_nil in H|].
    destruct (includes_str (f :: fs) ev.["framework"]) eqn:Ef; cbn [negb] in H; [|by apply add_nil in H].
    apply add_if_nil in H as [Hm Hg]. pose proof (check_gate_nil _ Hg) as ->. split; [done|].
    unfold check_gate in Hg. unfold gate_platform_mismatch in Hm.
    destruct (ev.["gate"]) as [| | | |g| | | | | |]; try by apply add_nil in Hg.
    destruct (assoc g DEVICE_RELEASE_GATES) as [w|] eqn:Eg; [|by apply add_nil in Hg].
    destruct (gate_of_assoc _ _ Eg) as (p & -> & Hp). apply add_if_nil in Hg as [Hd%differs_false _].
    destruct (ev.["platform"]) as [| | | |q| | | | | |]; try done. cbn in Hk. injection Hk as <-.
    apply negb_false_iff, str_eqb_eq in Hm as ->. exists g, q. split_and!; try done.
    rewrite Ea. by apply includes_str_spec.
  - intros (-> & g & p & Hg & Hp & Ha & Hf & Hd). exists (Some p). unfold to_property_key. rewrite Hp. split; [done|].
    f_equal. destruct (gate_of_assoc _ _ Ha) as (p' & [= <-] & Hne). apply includes_str_spec in Hf.
    destruct (ALLOWED_FRAMEWORKS p) as [|f fs] eqn:Ea; [done|]. rewrite Hf. cbn [negb]. apply add_if_nil.
    unfold gate_platform_mismatch, check_gate. rewrite Hg, Hp, Ha, str_eqb_refl. split; [done|].
    apply add_if_nil. split; [by apply differs_false|done].
Qed.

Lemma native_undefined v : is_undefined v = false <-> v <> VUndef.
Proof. by destruct v. Qed.
Lemma host_paths req versions l avail :
  Forall (HostMode_wf req versions) l ->
  forall x, x ∈ foldl (fun available hm => host_mode_path hm available) avail l <-> x ∈ avail \/ x ∈ flat_map host_log l.
Proof.
  intros H. revert avail; induction H as [|hm l Hhm Hl IH]; intros avail x; cbn [foldl flat_map].
  - rewrite elem_of_nil. tauto.
  - rewrite IH, elem_of_app. enough (x ∈ host_mode_path hm avail <-> x ∈ avail \/ x ∈ host_log hm) by tauto.
    unfold host_mode_path, host_log, isRecord. destruct (hm_evidence _ _ _ Hhm) as [[He _]|(He & _ & (p & Hp & Hs) & _)].
    + rewrite He. cbn [andb]. assert (Hn : get hm.["evidence"] (js "logPath") = VUndef) by by destruct (hm.["evidence"]).
      rewrite Hn. cbn [str_of]. rewrite elem_of_nil. tauto.
    + assert (Hsafe : isSafeRelativePath (VStr p) = true) by (apply isSafeRelativePath_spec; by exists p).
      rewrite He, Hp, Hsafe. cbn [andb str_of]. rewrite elem_of_set_add, list_elem_of_singleton. tauto.
Qed.
Lemma check_hosts_nil es refs avail :
  check_hosts options ev es = Ok ([], refs, avail) <->
  es = [] /\ Hosts_wf /\ refs = logs /\ check_hosts options ev [] = Ok ([], logs, avail).
Proof.
  unfold check_hosts, Hosts_wf, logs. destruct (isNativePlatform ev) eqn:En; cbn [andb].
  2: { cbn [add_if]. split; [intros [= -> -> ->]; done|]. intros (-> & _ & -> & ?). done. }
  destruct (is_undefined ev.["hostModes"]) eqn:Eu; cbn [negb].
  - apply is_undefined_spec in Eu. rewrite Eu. split.
    + intros [[[Hr ->]%add_if_nil ->]%pair_equal_spec <-]%Ok_pair. cbn [andb] in Hr. rewrite Hr. split_and!; [done|by left|done|done].
    + by intros (-> & H & -> & H').
  - apply native_undefined in Eu. split.
    + intros ([es1 r1] & H1 & H)%bind_Ok. apply bind_Ok in H as (l & Hl & [[-> ->]%pair_equal_spec <-]%Ok_pair).
      pose proof H1 as H1'. apply validateNativeHostModes_nil in H1 as (-> & Hw & ->).
      split_and!; [done|by right|done|]. rewrite H1'. cbn [mbind result_bind]. by rewrite Hl.
    + intros (-> & _ & -> & H). done.
Qed.
Lemma hosts_available avail :
  Hosts_wf -> check_hosts options ev [] = Ok ([], logs, avail) -> forall x, x ∈ avail <-> x ∈ logs.
Proof.
  unfold check_hosts, Hosts_wf, logs. destruct (isNativePlatform ev) eqn:En; cbn [andb].
  2: { intros _ [= <-]. done. }
  destruct (is_undefined ev.["hostModes"]) eqn:Eu; cbn [negb].
  - intros _ [= _ <-]. done.
  - apply native_undefined in Eu. intros [[? _]|Hw]; [done..|].
    intros ([es1 r1] & H1 & H)%bind_Ok. apply bind_Ok in H as (l & Hl & [_ <-]%Ok_pair).
    destruct Hw as (slots & Hs & _ & Hw & _). rewrite Hs in *. cbn in Hl. injection Hl as <-.
    intros x. rewrite (host_paths _ _ _ _ Hw), elem_of_nil. unfold host_logs. cbn [slots_of]. tauto.
Qed.
Lemma hosts_run : Hosts_wf -> exists avail, check_hosts options ev [] = Ok ([], logs, avail).
Proof.
  unfold check_hosts, Hosts_wf, logs. destruct (isNativePlatform ev) eqn:En; cbn [andb]; [|by eexists].
  intros H. specialize (H eq_refl). destruct (is_undefined ev.["hostModes"]) eqn:Eu; cbn [negb].
  - apply is_undefined_spec in Eu. exists []. destruct H as [[_ ->]|(s & Hs & _)]; [done|congruence].
  - apply native_undefined in Eu. destruct H as [[? _]|Hw]; [done|].
    pose proof Hw as (slots & Hs & _). eexists. rewrite (proj2 (validateNativeHostModes_nil _ _ _ _ _) (conj eq_refl (conj Hw eq_refl))).
    cbn [mbind result_bind]. rewrite Hs. reflexivity.
Qed.

Lemma check_physical_nil es :
  check_physical options ev es = [] <-> es = [] /\ boolean_val ev.["physicalDevice"] /\
    (physicalNative options ev = true -> ev.["physicalDevice"] = VBool true).
Proof.
  unfold check_physical. rewrite !add_if_nil, andb_false_iff, !negb_false_iff, eq_bool_spec, is_boolean_spec.
  destruct (physicalNative options ev); naive_solver.
Qed.
Lemma non_empty_fields_nil device fields es :
  non_empty_fields device fields es = [] <-> es = [] /\ Forall (fun k => text_val (get device k)) fields.
Proof.
  unfold non_empty_fields. rewrite foldl_add_if_nil, !Forall_forall. setoid_rewrite negb_false_iff.
  by setoid_rewrite nonEmptyString_spec.
Qed.
Lemma check_device_nil es : check_device options ev es = Ok [] <-> es = [] /\ Device_wf.
Proof.
  unfold check_device, Device_wf, isRecord. destruct (is_record ev.["device"]); cbn [negb].
  2: { split; [intros [= H]; by apply add_nil in H|by intros (_ & ? & _)]. }
  destruct (eq_str ev.["platform"] (js "web")).
  - set (es1 := non_empty_fields _ _ _). pose proof (non_empty_fields_nil ev.["device"]
      (map js ["browser"; "browserVersion"; "osVersion"]%string) es) as H1. fold es1 in H1. clearbody es1.
    transitivity (add_if (negb (eq_bool (ev.["device"]).["secureContext"] true)) (js "device.secureContext")
      (js "must be true") es1 = []); [split; [by intros [=]|by intros ->]|].
    rewrite add_if_nil, negb_false_iff, eq_bool_spec, H1. tauto.
  - set (es1 := non_empty_fields _ _ _). pose proof (non_empty_fields_nil ev.["device"]
      (map js ["model"; "osVersion"; "osBuild"]%string) es) as H1. fold es1 in H1. clearbody es1.
    destruct (requirePlatformSupport options).
    + rewrite bind_Ok, <- (validatePlatformSupportDevice_wf other_format). split.
      * intros (more & Hm & [= [-> ->]%app_eq_nil]). destruct (proj1 H1 eq_refl) as [He Hf].
        split; [exact He|]. split; [reflexivity|]. split; [exact Hf|]. intros _. exact Hm.
      * intros (-> & _ & Hf & Hs). exists []. split; [exact (Hs eq_refl)|]. by rewrite (proj2 H1 (conj eq_refl Hf)).
    + transitivity (es1 = []); [split; [by intros [=]|by intros ->]|]. rewrite H1. naive_solver.
Qed.
Lemma validateTests_nil tests required es :
  validateTests tests required es = [] <->
  es = [] /\ is_record tests = true /\ Forall (fun n => get tests n = vstr "pass") required.
Proof.
  unfold validateTests, isRecord. destruct (is_record tests); cbn [negb].
  - rewrite foldl_add_if_nil, !Forall_forall. setoid_rewrite negb_false_iff. setoid_rewrite eq_str_spec. tauto.
  - rewrite add_nil. split; [done|by intros (_ & ? & _)].
Qed.

(** The map of artifact kinds, read through the pairs it was filled with. *)
Lemma art_pairs_fst a : (art_pairs a).*1 = [] \/ (art_pairs a).*1 = art_path a.
Proof.
  unfold art_pairs, art_path. destruct (a.["path"]); try by left.
  destruct (a.["kind"]); try by left. destruct (nonEmptyString _); [by right|by left].
Qed.
Lemma pairs_NoDup l : NoDup (flat_map art_path l) -> NoDup (flat_map art_pairs l).*1.
Proof.
  assert (Hsub : forall l x, x ∈ (flat_map art_pairs l).*1 -> x ∈ flat_map art_path l).
  { clear l. induction l as [|a l IH]; intros x; [done|]. cbn [flat_map]. rewrite fmap_app, !elem_of_app.
    intros [H|H]; [left|right; by apply IH]. by destruct (art_pairs_fst a) as [E|E]; rewrite E in H; [apply not_elem_of_nil in H|]. }
  induction l as [|a l IH]; cbn [flat_map]; [constructor|]. rewrite fmap_app, !NoDup_app. intros (Ha & Hd & Hl).
  split_and!; [|intros x Hx Hl'|by apply IH].
  - destruct (art_pairs_fst a) as [->| ->]; [constructor|done].
  - apply Hsub in Hl'. destruct (art_pairs_fst a) as [E|E]; rewrite E in Hx; [by apply not_elem_of_nil in Hx|].
    by apply (Hd x).
Qed.
Lemma kind_get_pairs (m : kind_map) p k : NoDup m.*1 -> kind_get (rev m) (VStr p) = Some k <-> (p, k) ∈ m.
Proof.
  intros Hn. unfold kind_get. assert (Hn' : NoDup (rev m).*1) by (by rewrite <- (Permutation_rev m)).
  assert (Hin : (p, k) ∈ m <-> (p, k) ∈ rev m) by (rewrite !list_elem_of_In; apply in_rev).
  rewrite Hin. clear Hin Hn. revert Hn'. generalize (rev m). clear m. intros m.
  induction m as [|[q j] m IH]; cbn [find fst]; [rewrite elem_of_nil; done|]. intros [Hq Hm]%NoDup_cons.
  rewrite elem_of_cons. destruct (str_eqb p q) eqn:E.
  - apply str_eqb_eq in E as ->. cbn. split; [intros [= ->]; by left|]. intros [[= ->]|H]; [done|].
    destruct Hq. apply list_elem_of_fmap. by exists (q, k).
  - rewrite IH by done. split; [by right|]. intros [[= -> ->]|H]; [|done]. by rewrite str_eqb_refl in E.
Qed.
Lemma Test_wf_ok A M B N te name :
  (forall x, x ∈ A <-> x ∈ B) -> (forall p k, kind_get M (VStr p) = Some k <-> (p, k) ∈ N) ->
  Test_wf A M te name <-> Test_ok B N te name.
Proof.
  intros HA HM. unfold Test_wf, Test_ok. setoid_rewrite HA. by setoid_rewrite HM.
Qed.

(** ** The evidence files *)

Lemma check_artifacts_nil st :
  a_findings (check_artifacts options ev st) = [] <->
  a_findings st = [] /\ (exists s l, ev.["artifacts"] = VArr (s :: l)) /\
  Artifacts_ok (physicalNative options ev) st artifacts /\
  (physicalNative options ev = true -> forall kind, kind ∈ REQUIRED_PHYSICAL_NATIVE_ARTIFACT_KINDS ->
     kind ∈ a_kinds st ++ flat_map art_kind artifacts).
Proof.
  unfold check_artifacts, artifacts.
  destruct (ev.["artifacts"]) as [| | | | | | | |[|s l]| |] eqn:Ea;
    try (cbn [with_findings a_findings]; rewrite add_nil; split; [done|by intros (_ & (? & ? & ?) & _)]).
  cbn [slots_of]. destruct (check_artifacts_fold options ev st (present (s :: l))) as [Hf Ha].
  revert Hf Ha. generalize (foldl (check_artifact options ev) st (present (s :: l))). intros st' Hf Ha.
  cbn [with_findings a_findings]. destruct (physicalNative options ev) eqn:Ep.
  - rewrite foldl_add_if_nil, Forall_forall. setoid_rewrite negb_false_iff. setoid_rewrite set_has_elem.
    split.
    + intros [Hn Hk]. pose proof (after_kinds _ _ _ _ (Ha Hn)) as Hks. rewrite Hks in Hk. apply Hf in Hn as [? ?].
      split_and!; [done|by eexists _, _|done|done].
    + intros (Hn & _ & Ho & Hk). assert (Hn' : a_findings st' = []) by by apply Hf. split; [done|].
      rewrite (after_kinds _ _ _ _ (Ha Hn')). by apply Hk.
  - rewrite Hf. split; [intros [? ?]; split_and!; [done|by eexists _, _|done|done]|]. by intros (? & _ & ? & _).
Qed.
Lemma check_artifacts_after st :
  a_findings (check_artifacts options ev st) = [] ->
  artifacts_after (physicalNative options ev) st artifacts (check_artifacts options ev st).
Proof.
  unfold check_artifacts, artifacts.
  destruct (ev.["artifacts"]) as [| | | | | | | |[|s l]| |] eqn:Ea;
    try (cbn [with_findings a_findings]; by intros ?%add_nil).
  cbn [slots_of]. destruct (check_artifacts_fold options ev st (present (s :: l))) as [_ Ha].
  revert Ha. generalize (foldl (check_artifact options ev) st (present (s :: l))). intros st' Ha.
  cbn [with_findings a_findings]. intros H. assert (Hn : a_findings st' = []).
  { destruct (physicalNative options ev); [by apply foldl_add_if_nil in H as [? _]|done]. }
  destruct (Ha Hn). by constructor.
Qed.
Definition Files_wf : Prop :=
  (is_record ev.["testCases"] = true /\
    Forall (fun n => get ev.["testCases"] n = vstr "pass")
      (if eq_str ev.["platform"] (js "web") then WEB_TESTS else NATIVE_TESTS)) /\
  ev.["sanitizedLogs"] = VBool true /\ (path_val ev.["logPath"] /\ sha_val ev.["logSha256"]) /\
  ((exists s l, ev.["artifacts"] = VArr (s :: l)) /\ Forall (Artifact_wf (physicalNative options ev)) artifacts) /\
  unseen logs (str_of ev.["logPath"] ++ flat_map art_path artifacts) /\
  (physicalNative options ev = true ->
    NoDup (flat_map art_kind artifacts) /\
    (forall kind, kind ∈ REQUIRED_PHYSICAL_NATIVE_ARTIFACT_KINDS -> kind ∈ flat_map art_kind artifacts) /\
    is_record ev.["testEvidence"] = true /\ keys_within ev.["testEvidence"] NATIVE_TESTS /\
    Forall (Test_ok evidence_files (flat_map art_pairs artifacts) ev.["testEvidence"]) NATIVE_TESTS).

Lemma test_evidence_nil avail p st :
  ev.["logPath"] = VStr p -> (forall x, x ∈ avail <-> x ∈ logs) -> NoDup (flat_map art_path artifacts) ->
  artifacts_after (physicalNative options ev) {| a_findings := []; a_referenced := logs ++ [p];
    a_available := set_add p avail; a_kinds_by_path := []; a_kinds := [] |} artifacts st ->
  validateTestEvidence ev.["testEvidence"] NATIVE_TESTS (a_available st) (a_kinds_by_path st) (a_findings st) = [] <->
  is_record ev.["testEvidence"] = true /\ keys_within ev.["testEvidence"] NATIVE_TESTS /\
  Forall (Test_ok evidence_files (flat_map art_pairs artifacts) ev.["testEvidence"]) NATIVE_TESTS.
Proof.
  intros Hp Hav Hn [Hf _ Ha Hm _]. cbn in Ha, Hm. rewrite app_nil_r in Hm. rewrite validateTestEvidence_nil, Hf.
  assert (Hiff : Forall (Test_wf (a_available st) (a_kinds_by_path st) ev.["testEvidence"]) NATIVE_TESTS <->
    Forall (Test_ok evidence_files (flat_map art_pairs artifacts) ev.["testEvidence"]) NATIVE_TESTS).
  { apply Forall_proper; [|done]. intros n. apply Test_wf_ok.
    - intros x. rewrite Ha, elem_of_set_add, Hav. unfold evidence_files. rewrite Hp. cbn [str_of].
      rewrite !elem_of_app, list_elem_of_singleton. tauto.
    - intros q k. rewrite Hm. apply kind_get_pairs. by apply pairs_NoDup. }
  rewrite Hiff. tauto.
Qed.
Definition log_available (avail : list jsstr) : list jsstr :=
  match ev.["logPath"] with
  | VStr p => if isSafeRelativePath (VStr p) then set_add p avail else avail
  | _ => avail
  end.
Lemma log_available_safe avail p : ev.["logPath"] = VStr p -> safe_path p -> log_available avail = set_add p avail.
Proof.
  intros Hp Hs. unfold log_available. rewrite Hp.
  by rewrite (proj2 (isSafeRelativePath_spec (VStr p)) (ex_intro _ p (conj eq_refl Hs))).
Qed.
Lemma check_evidence_files_keeps es refs avail : check_evidence_files options ev es refs avail = [] -> es = [].
Proof.
  unfold check_evidence_files. fold (log_available avail). destruct (reference_path _ _ _ _) as [es1 refs1] eqn:Er.
  set (st0 := Build_artifact_state _ _ _ _ _). intros H. assert (Hn : a_findings (check_artifacts options ev st0) = []).
  { destruct (physicalNative options ev); [|done]. by apply validateTestEvidence_nil in H as [? _]. }
  apply check_artifacts_nil in Hn as [Hd _]. apply digest_field_nil in Hd as [-> _].
  apply reference_path_nil in Er as [Hs _]. apply add_if_nil in Hs as [_ Ht]. by apply validateTests_nil in Ht as [-> _].
Qed.
Lemma files_forward es avail :
  (forall x, x ∈ avail <-> x ∈ logs) -> check_evidence_files options ev es logs avail = [] -> es = [] /\ Files_wf.
Proof.
  intros Hav. unfold check_evidence_files, Files_wf. fold (log_available avail).
  destruct (reference_path _ _ _ _) as [es1 refs] eqn:Er. set (st0 := Build_artifact_state _ _ _ _ _). intros H.
  assert (Hn : a_findings (check_artifacts options ev st0) = []).
  { destruct (physicalNative options ev); [|done]. by apply validateTestEvidence_nil in H as [? _]. }
  pose proof (check_artifacts_after _ Hn) as Hafter. apply check_artifacts_nil in Hn as (Hd & Harr & (Hw & Hf & Hk) & Hreq).
  apply digest_field_nil in Hd as [-> Hd]. apply reference_path_nil in Er as (Hs & p & Hp & Hsafe & Hlog & ->).
  apply add_if_nil in Hs as [Hs%negb_false_iff%eq_bool_spec Ht]. apply validateTests_nil in Ht as (-> & Ht).
  assert (Hlp : path_val ev.["logPath"]) by by exists p.
  assert (Hfr : unseen logs (str_of ev.["logPath"] ++ flat_map art_path artifacts)).
  { rewrite Hp. apply unseen_app. split; [by apply unseen_single|done]. }
  do 6 (split; [done|]). intros Hphys. rewrite Hphys in H.
  split; [by apply unseen_empty, Hk|]. split; [by apply Hreq|]. revert H.
  assert (E : st0 = {| a_findings := []; a_referenced := logs ++ [p]; a_available := set_add p avail;
                       a_kinds_by_path := []; a_kinds := [] |}).
  { unfold st0. by rewrite (proj2 (digest_field_nil _ _ _) (conj eq_refl Hd)), (log_available_safe _ p Hp Hsafe). }
  rewrite E in Hafter |- *. apply (test_evidence_nil avail p); [done|done|by destruct Hf|done].
Qed.
Lemma files_backward avail :
  (forall x, x ∈ avail <-> x ∈ logs) -> Files_wf -> check_evidence_files options ev [] logs avail = [].
Proof.
  intros Hav (Ht & Hs & [Hlp Hd] & [Harr Hw] & Hfr & Hphys). destruct Hlp as (p & Hp & Hsafe).
  unfold check_evidence_files. fold (log_available avail).
  rewrite (proj2 (validateTests_nil _ _ _) (conj eq_refl Ht)), Hs. cbn [eq_bool Bool.eqb negb add_if].
  rewrite Hp in Hfr. cbn [str_of] in Hfr. apply unseen_app in Hfr as [Hlog%unseen_single Hf].
  assert (Er : reference_path ev.["logPath"] (js "logPath") CANONICAL_PATH ([], logs) = ([], logs ++ [p]))
    by (apply reference_path_nil; split; [done|]; by exists p).
  rewrite Er, (proj2 (digest_field_nil _ _ _) (conj eq_refl Hd)), (log_available_safe _ p Hp Hsafe).
  set (st0 := Build_artifact_state _ _ _ _ _).
  assert (Hn : a_findings (check_artifacts options ev st0) = []).
  { apply check_artifacts_nil. split; [done|]. split; [done|]. split.
    - split_and!; [done|exact Hf|]. intros H. apply unseen_empty. by apply Hphys.
    - intros H. by apply Hphys. }
  destruct (physicalNative options ev) eqn:Ep; [|done].
  apply (test_evidence_nil avail p); [done|done|by destruct Hf| |by apply Hphys].
  by apply check_artifacts_after.
Qed.
End spec.

Lemma NoDup_fresh (a b : list jsstr) : NoDup a -> NoDup (a ++ b) <-> unseen a b.
Proof. intros Ha. unfold unseen. rewrite NoDup_app. split; [|intros [? H]; split_and!; [done|intros x ? ?; by apply (H x)|done]].
  intros (_ & Hd & Hb). split; [done|]. intros x Hx Hx'. by apply (Hd x). Qed.

Section correct.
Context {host : Host} (options : Options) (ev : val).

Lemma logs_NoDup : Hosts_wf options ev -> NoDup (logs ev).
Proof.
  unfold Hosts_wf, logs. destruct (isNativePlatform ev); cbn [andb]; [|constructor]. intros H. specialize (H eq_refl).
  destruct (is_undefined ev.["hostModes"]) eqn:Eu; cbn [negb]; [constructor|]. apply native_undefined in Eu.
  destruct H as [[? _]|(slots & Hs & _ & _ & Hn & _)]; [done|]. unfold host_logs. by rewrite Hs.
Qed.
Lemma Evidence_wf_phases :
  Evidence_wf options ev <->
  is_record ev = true /\ free_of FORBIDDEN_KEYS ev /\ eq_int ev.["schemaVersion"] 1 = true /\
  ev.["status"] = vstr "pass" /\
  (exists c, ev.["commit"] = VStr c /\ matches COMMIT c /\
    (expectedCommit options = VUndef \/ expectedCommit options = VStr c)) /\
  (exists g p, ev.["gate"] = VStr g /\ ev.["platform"] = VStr p /\
    assoc g DEVICE_RELEASE_GATES = Some (VStr p) /\ one_of (ALLOWED_FRAMEWORKS p) ev.["framework"] /\
    (expectedGate options = VUndef \/ expectedGate options = VStr g)) /\
  text_val ev.["frameworkVersion"] /\ Hosts_wf options ev /\
  (text_val ev.["recordedAt"] /\ timestamp ev.["recordedAt"]) /\
  (boolean_val ev.["physicalDevice"] /\ (physicalNative options ev = true -> ev.["physicalDevice"] = VBool true)) /\
  Device_wf options ev /\ Files_wf options ev.
Proof.
  unfold Files_wf. split.
  - intros []. rewrite <- NoDup_fresh by by apply logs_NoDup. unfold Physical_wf in *. tauto.
  - intros (? & ? & ? & ? & ? & ? & ? & Hh & ? & [? Hp] & ? & ? & ? & ? & ? & Hf & Hphys).
    constructor; try done; [by apply NoDup_fresh; [apply logs_NoDup|]|]. unfold Physical_wf. tauto.
Qed.

Lemma validateDeviceEvidence_wf : validateDeviceEvidence options ev = Ok [] <-> Evidence_wf options ev.
Proof.
  rewrite Evidence_wf_phases. unfold validateDeviceEvidence, isRecord.
  destruct (is_record ev); cbn [negb]; [|split; [done|by intros [? _]]]. split.
  - intros (es1 & H1 & H)%bind_Ok. apply bind_Ok in H as (es2 & H2 & H). apply bind_Ok in H as ([[es3 refs] avail] & H3 & H).
    apply bind_Ok in H as (bad & Hbad & H). apply bind_Ok in H as (es4 & H4 & H).
    assert (Hf : check_evidence_files options ev es4 refs avail = []) by congruence. clear H.
    assert (Hes : es4 = []) by (by eapply check_evidence_files_keeps).
    rewrite Hes in *. apply check_device_nil in H4 as [H4 Hdev]. apply check_physical_nil in H4 as [H4 Hphys].
    apply add_if_nil in H4 as [-> ->]. apply check_hosts_nil in H3 as (H3 & Hh & -> & Hrun).
    apply add_if_nil in H3 as [Hfv%negb_false_iff%nonEmptyString_spec ->]. apply check_platform_nil in H2 as [-> Hg].
    apply check_commit_nil in H1 as [H1 Hc]. apply add_if_nil in H1 as [Hs%negb_false_iff%eq_str_spec H1].
    apply add_if_nil in H1 as [Hv%negb_false_iff H1]. apply rejectSecretKeys_nil in H1 as [_ Hsec].
    apply bad_timestamp_spec in Hbad. apply files_forward in Hf as [_ Hfw]; [|by apply (hosts_available options)].
    do 11 (split; [done|]). done.
  - intros (_ & Hsec & Hv & Hs & Hc & Hg & Hfv & Hh & Ht & Hphys & Hdev & Hfw).
    rewrite (proj2 (rejectSecretKeys_nil _ _ _) (conj eq_refl Hsec)), Hv, (proj2 (eq_str_spec _ _) Hs).
    cbn [negb add_if]. rewrite (proj2 (check_commit_nil _ _ _) (conj eq_refl Hc)). cbn [mbind result_bind].
    rewrite (proj2 (check_platform_nil _ _ _) (conj eq_refl Hg)). cbn [mbind result_bind].
    rewrite (proj2 (nonEmptyString_spec _) Hfv). cbn [negb add_if].
    destruct (hosts_run options ev Hh) as [avail Hrun]. rewrite Hrun. cbn [mbind result_bind].
    rewrite (proj2 (bad_timestamp_spec _) Ht). cbn [mbind result_bind add_if].
    rewrite (proj2 (check_physical_nil options ev []) (conj eq_refl Hphys)), (proj2 (check_device_nil _ _ _) (conj eq_refl Hdev)).
    cbn [mbind result_bind]. f_equal. apply files_backward; [by apply (hosts_available options ev)|done].
Qed.
End correct.
