(* ===== verification/DeviceFiles.v ===== *)
(** * scripts/check-device-evidence.mjs: files and command line

    The digest and content checks of the files a record references, the bounded
    read of the record itself, and the command.  A function that may throw returns a
    [result]; [try] blocks turn host errors into findings with the error's message. *)

From S2P Require Import Prelude JsNumber Regex JsValue JsDate JsText Host DeviceEvidence.
Open Scope js_scope.

Definition SANITIZED_TEST_SENTINEL : jsstr := js "secure-keypad-test-sentinel-7f2c4e".
Definition MAX_DEVICE_EVIDENCE_RECORD_BYTES : Z := 1 * 1024 * 1024.
Definition MAX_DEVICE_EVIDENCE_FILE_BYTES : Z := 32 * 1024 * 1024.
(** [/["']?(?:password|..)["']?\s*[:=]/i] *)
Definition FORBIDDEN_TEXT_FIELDS (content : jsstr) : bool :=
  re_search (RSeq (ropt (RCls [(34, 34); (39, 39)]))
    (RSeq (ralts (map rlit_ci (map js
       ["password"; "secret"; "passphrase"; "sentinel"; "plaintext"; "credentialValue"; "credentialBytes"; "rawInput";
        "inputValue"; "inputText"; "inputBytes"]%string)))
    (RSeq (ropt (RCls [(34, 34); (39, 39)])) (RSeq (RStar (RCls space_ranges)) (RCls [(58, 58); (61, 61)]))))) content.

Section files.
Context {host : Host}.

(** [relative === "" || relative.startsWith(`..${path.sep}`) || path.isAbsolute(relative)] *)
Definition outside (relative : jsstr) : bool :=
  str_eqb relative [] || startsWith relative (js "../") || isAbsolute relative.
Definition containedFilePath (findings : list jsstr) (root field : jsstr) (relativePath : val)
    : list jsstr * option jsstr :=
  match relativePath with
  | VStr rel =>
      if negb (isSafeRelativePath relativePath) then (findings, None) else
      let attempt :=
        realRoot ← realpathSync root;
        let absoluteFile := resolve2 cwd realRoot rel in
        symlink ← pathHasSymlinkComponent realRoot absoluteFile;
        if (symlink : bool)
        then Ok (add findings (dot field (js "path")) (js "must not resolve through symbolic links"), None) else
        realFile ← realpathSync absoluteFile;
        if outside (relative cwd realRoot realFile)
        then Ok (add findings (dot field (js "path")) (js "must resolve inside the evidence root"), None)
        else Ok (findings, Some realFile) in
      match attempt with
      | Ok r => r
      | Throw message =>
          (add findings (dot field (js "path")) (js "could not resolve " ++ rel ++ js ": " ++ message), None)
      end
  | _ => (findings, None)
  end.

(** The part of [verifyDigest] after the file is located. *)
Definition digest_of_file (findings : list jsstr) (field rel filePath : jsstr) (expectedHash : val) : list jsstr :=
  let attempt :=
    stats ← statSync filePath;
    let size := size stats in
    if size =? 0 then Ok (add findings (dot field (js "path")) (js "must not be empty")) else
    if MAX_DEVICE_EVIDENCE_FILE_BYTES <? size
    then Ok (add findings (dot field (js "path"))
               (js "must not exceed " ++ dec MAX_DEVICE_EVIDENCE_FILE_BYTES ++ js " bytes")) else
    bytes ← readFileSync filePath;
    Ok (add_if (negb (eq_str expectedHash (sha256 bytes))) (field ++ js "Sha256") (js "does not match " ++ rel) findings) in
  match attempt with
  | Ok r => r
  | Throw message => add findings (field ++ js "Path") (js "could not read " ++ rel ++ js ": " ++ message)
  end.
Definition verifyDigest (findings : list jsstr) (root field : jsstr) (relativePath expectedHash : val)
    : result jserr (list jsstr) :=
  match relativePath with
  | VStr rel =>
      if negb (isSafeRelativePath relativePath) then Ok findings else
      h ← String_ expectedHash;
      if negb (re_match SHA256 h) then Ok findings else
      let '(findings, filePath) := containedFilePath findings root field relativePath in
      Ok match filePath with
         | None | Some [] => findings
         | Some filePath => digest_of_file findings field rel filePath expectedHash
         end
  | _ => Ok findings
  end.

(** The two content tests of [scanEvidenceFileContent]. *)
Definition content_findings (field : jsstr) (bytes : list Z) (findings : list jsstr) : list jsstr :=
  let findings := add_if (includes bytes (utf8_encode SANITIZED_TEST_SENTINEL)) (dot field (js "content"))
    (js "contains the canonical test sentinel") findings in
  add_if (negb (existsb (fun b => b =? 0) bytes) && FORBIDDEN_TEXT_FIELDS (utf8_decode bytes))
    (dot field (js "content")) (js "contains secret-bearing content fields") findings.
Definition scan_of_file (findings : list jsstr) (field rel filePath : jsstr) : list jsstr :=
  let attempt :=
    stats ← statSync filePath;
    if MAX_DEVICE_EVIDENCE_FILE_BYTES <? size stats
    then Ok (add findings (dot field (js "path"))
               (js "must not exceed " ++ dec MAX_DEVICE_EVIDENCE_FILE_BYTES ++ js " bytes"))
    else bytes ← readFileSync filePath; Ok (content_findings field bytes findings) in
  match attempt with
  | Ok r => r
  | Throw message => add findings (dot field (js "path")) (js "could not read " ++ rel ++ js ": " ++ message)
  end.
Definition scanEvidenceFileContent (findings : list jsstr) (root field : jsstr) (relativePath : val) : list jsstr :=
  match relativePath with
  | VStr rel =>
      if negb (isSafeRelativePath relativePath) then findings else
      let '(findings, filePath) := containedFilePath findings root field relativePath in
      match filePath with
      | None | Some [] => findings
      | Some filePath => scan_of_file findings field rel filePath
      end
  | _ => findings
  end.

(** One referenced file: its digest, then its content. *)
Definition verify_reference (root : jsstr) (findings : list jsstr) (ref : jsstr * val * val) : result jserr (list jsstr) :=
  let '(field, path, hash) := ref in
  findings ← verifyDigest findings root field path hash;
  Ok (scanEvidenceFileContent findings root field path).
(** The references [verifyDeviceEvidenceFiles] visits, in order. *)
Definition host_references (hostModes : val) : list (jsstr * val * val) :=
  omap (fun '(index, hostMode) =>
    let e := hostMode.["evidence"] in
    if isRecord hostMode && isRecord e
    then Some (dot (nth_of (js "hostModes") index) (js "evidence.log"), e.["logPath"], e.["logSha256"]) else None)
    (present (slots_of hostModes)).
Definition artifact_references (artifacts : val) : list (jsstr * val * val) :=
  omap (fun '(index, artifact) =>
    if isRecord artifact then Some (nth_of (js "artifacts") index, artifact.["path"], artifact.["sha256"]) else None)
    (present (slots_of artifacts)).
Definition references (evidence : val) : list (jsstr * val * val) :=
  (js "log", evidence.["logPath"], evidence.["logSha256"])
  :: host_references evidence.["hostModes"] ++ artifact_references evidence.["artifacts"].
Definition verifyDeviceEvidenceFiles (evidence : val) (root : jsstr) : result jserr (list jsstr) :=
  if negb (isRecord evidence) then Ok [js "root: file verification requires an evidence object"]
  else foldM (verify_reference root) [] (references evidence).

(** Reading the record: the error's message, or the parsed value. *)
Definition read_record (filePath evidenceRoot : jsstr) : result jsstr val :=
  symlink ← pathHasSymlinkComponent evidenceRoot filePath;
  if (symlink : bool) then Throw (js "evidence file must not resolve through symbolic links") else
  link ← lstat_isSymbolicLink filePath;
  if (link : bool) then Throw (js "evidence file must not be a symbolic link") else
  stats ← statSync filePath;
  if negb (isFile stats) then Throw (js "evidence file must reference a regular file") else
  if size stats =? 0 then Throw (js "evidence file must not be empty") else
  if MAX_DEVICE_EVIDENCE_RECORD_BYTES <? size stats
  then Throw (js "evidence file must not exceed " ++ dec MAX_DEVICE_EVIDENCE_RECORD_BYTES ++ js " bytes") else
  bytes ← readFileSync filePath;
  JSON_parse (utf8_decode bytes).
(** What is written to standard error, and the exit code. *)
Definition checkFile (filePath : jsstr) (options : Options) (evidenceRoot : jsstr) : result jserr (list jsstr * Z) :=
  match read_record filePath evidenceRoot with
  | Throw message => Ok ([js "device evidence could not be read: " ++ message], 1)
  | Ok evidence =>
      shape ← validateDeviceEvidence options evidence;
      files ← verifyDeviceEvidenceFiles evidence evidenceRoot;
      let findings := shape ++ files in
      Ok (map (fun finding => js "device evidence: " ++ finding) findings,
          match findings with [] => 0 | _ => 1 end)
  end.

(** ** The command line *)

Record Arguments := {
  positional : list jsstr;
  arg_requirePhysical : bool;
  arg_expectedCommit : val;
  arg_evidenceRoot : jsstr;
}.
Definition add_positional (a : jsstr) (st : Arguments) : Arguments :=
  {| positional := positional st ++ [a]; arg_requirePhysical := arg_requirePhysical st;
     arg_expectedCommit := arg_expectedCommit st; arg_evidenceRoot := arg_evidenceRoot st |}.
Fixpoint parse_arguments (st : Arguments) (l : list jsstr) : Arguments :=
  match l with
  | [] => st
  | a :: l' =>
      if str_eqb a (js "--require-physical") then
        parse_arguments {| positional := positional st; arg_requirePhysical := true;
          arg_expectedCommit := arg_expectedCommit st; arg_evidenceRoot := arg_evidenceRoot st |} l'
      else if str_eqb a (js "--expected-commit") then
        match l' with
        | [] => {| positional := positional st; arg_requirePhysical := arg_requirePhysical st;
                   arg_expectedCommit := VUndef; arg_evidenceRoot := arg_evidenceRoot st |}
        | c :: l'' => parse_arguments {| positional := positional st; arg_requirePhysical := arg_requirePhysical st;
                        arg_expectedCommit := VStr c; arg_evidenceRoot := arg_evidenceRoot st |} l''
        end
      else if str_eqb a (js "--root") then
        match l' with
        | [] => add_positional a st
        | r :: l'' => parse_arguments {| positional := positional st; arg_requirePhysical := arg_requirePhysical st;
                        arg_expectedCommit := arg_expectedCommit st; arg_evidenceRoot := resolve1 cwd r |} l''
        end
      else parse_arguments (add_positional a st) l'
  end.
Definition USAGE : jsstr := js
  "usage: node scripts/check-device-evidence.mjs [--root <evidence-root>] [--require-physical] [--expected-commit <sha>] <relative-json-file>".
Definition device_main (ROOT : jsstr) (argumentsList : list jsstr) : result jserr (list jsstr * Z) :=
  let st := parse_arguments {| positional := []; arg_requirePhysical := false; arg_expectedCommit := VUndef;
                               arg_evidenceRoot := ROOT |} argumentsList in
  match positional st with
  | [filePath] =>
      if negb (isSafeRelativePath (VStr filePath))
         || (is_undefined (arg_expectedCommit st) && str_in (js "--expected-commit") argumentsList)
      then Ok ([USAGE], 2)
      else checkFile (resolve2 cwd (arg_evidenceRoot st) filePath)
             {| requirePhysicalDevice := arg_requirePhysical st; requireNativeHostModes := arg_requirePhysical st;
                requirePlatformSupport := false; expectedCommit := arg_expectedCommit st; expectedGate := VUndef;
                expectedHostModeVersions := VUndef |} (arg_evidenceRoot st)
  | _ => Ok ([USAGE], 2)
  end.
End files.
