(* ===== verification/DeviceFilesProps.v ===== *)
(** * Properties of the file checks *)

From S2P Require Import Prelude JsNumber Regex JsValue JsText Host PathProps.
From S2P Require Import ContractsSpec PlatformSupport PlatformSupportProps.
From S2P Require Import DeviceEvidence EvidenceSpec DeviceEvidenceProps DeviceRecord DeviceFiles.
Open Scope js_scope.

(** What the scripts rely on: [realpath] returns absolute, normalised, canonical paths. *)
Record HostLaws (host : Host) : Prop := {
  realpath_normal : forall p q, realpathSync p = Ok q -> exists l, Forall proper l /\ q = abspath l;
  realpath_canonical : forall p q, realpathSync p = Ok q -> realpathSync q = Ok q;
}.

(** ** Relative paths *)

Lemma strip_common_spec a b :
  exists p, a = p ++ (strip_common a b).1 /\ b = p ++ (strip_common a b).2.
Proof.
  revert b; induction a as [|x a IH]; intros b; [by exists []|]. destruct b as [|y b]; [by exists []|]. cbn [strip_common].
  destruct (str_eqb x y) eqn:E; [|by exists []]. apply str_eqb_eq in E as ->.
  destruct (IH b) as (p & Ha & Hb). exists (y :: p). cbn. by rewrite <- Ha, <- Hb.
Qed.
Lemma strip_common_app a d : strip_common a (a ++ d) = ([], d).
Proof. induction a as [|x a IH]; [by destruct d|]. cbn. by rewrite str_eqb_refl. Qed.
Lemma strip_common_parent b x : strip_common (b ++ [x]) b = ([x], []).
Proof. induction b as [|y b IH]; [done|]. cbn. by rewrite str_eqb_refl. Qed.
Lemma relative_abspath w a b : Forall proper a -> Forall proper b ->
  relative w (abspath a) (abspath b) =
  join sep (map (fun _ => js "..") (strip_common a b).1 ++ (strip_common a b).2).
Proof.
  intros Ha Hb. unfold relative. rewrite !resolve1_abspath, !collapse_abspath by done. by destruct (strip_common a b).
Qed.
Lemma dotdot_component : component (js "..").
Proof. split; [done|]. intros H. repeat (apply elem_of_cons in H as [H|H]; [discriminate|]). by apply not_elem_of_nil in H. Qed.
Lemma parent_prefix_outside s :
  str_eqb (js "../" ++ s) [] || startsWith (js "../" ++ s) (js "../") || isAbsolute (js "../" ++ s) = true.
Proof. rewrite (proj2 (startsWith_spec _ _)) by by eexists. by rewrite orb_true_r. Qed.
(** The test lets through what lies strictly below the root, and the root's parent. *)
Lemma outside_spec w a b : Forall proper a -> Forall proper b ->
  outside (relative w (abspath a) (abspath b)) = false <->
  (exists d, d <> [] /\ b = a ++ d) \/ exists x, a = b ++ [x].
Proof.
  intros Ha Hb. rewrite relative_abspath by done. unfold outside.
  destruct (strip_common_spec a b) as (p & Ea & Eb). destruct (strip_common a b) as [u d] eqn:Es. cbn [fst snd] in *.
  assert (Hd : Forall proper d) by (rewrite Eb in Hb; by apply Forall_app in Hb as [_ ?]).
  destruct u as [|x [|y u]].
  - rewrite app_nil_r in Ea. subst p. cbn [map app]. destruct d as [|c d].
    + split; [done|]. rewrite app_nil_r in Eb. subst b. intros [(d & Hne & Hd')|[x Hx]].
      * rewrite <- (app_nil_r a) in Hd' at 1. by apply app_inv_head in Hd' as <-.
      * apply (f_equal length) in Hx. rewrite length_app in Hx. cbn in Hx. lia.
    + split; [intros _; left; by exists (c :: d)|]. intros _. rewrite !orb_false_iff.
      pose proof Hd as [[[Hc0 Hc] [Hc1 Hc2]] _]%Forall_cons. split_and!.
      * apply not_true_iff_false. rewrite str_eqb_eq. intros H.
        by apply (join_nonempty (c :: d)); [|apply proper_component|].
      * apply not_true_iff_false. rewrite startsWith_spec. intros [r H]. apply (f_equal (split slash)) in H.
        rewrite split_join_comps in H by (done || by apply proper_component). change (js "../" ++ r) with (js ".." ++ slash :: r) in H.
        rewrite (proj1 (split_cons_free _ r (proj2 dotdot_component))) in H. congruence.
      * destruct c as [|v c]; [done|]. assert (v <> slash) by (intros ->; apply Hc; left). destruct d; cbn; lia.
  - cbn [map app]. destruct d as [|c d].
    + split; [intros _; right|intros _; by vm_compute]. rewrite app_nil_r in Eb. subst p. by exists x.
    + change (join sep (js ".." :: c :: d)) with (js "../" ++ join sep (c :: d)). rewrite parent_prefix_outside.
      split; [done|]. intros [(d' & _ & ->)|[z ->]].
      * by rewrite strip_common_app in Es.
      * by rewrite strip_common_parent in Es.
  - cbn [map app]. set (l := map _ u ++ d).
    change (join sep (js ".." :: js ".." :: l)) with (js "../" ++ join sep (js ".." :: l)). rewrite parent_prefix_outside.
    split; [done|]. intros [(d' & _ & ->)|[z ->]].
    + by rewrite strip_common_app in Es.
    + by rewrite strip_common_parent in Es.
Qed.

Section files.
Context {host : Host} (laws : HostLaws host).

(** Where a safe path leads: below the canonical root, through no symbolic link (the
    scan sees none below the root [/]), to a file inside the root. *)
Definition Located (root p file : jsstr) : Prop :=
  exists r c f, realpathSync root = Ok (abspath r) /\ p = join sep c /\ c <> [] /\ Forall proper (r ++ c) /\
    (r <> [] -> forall k, (0 < k <= length c)%nat -> lstat_isSymbolicLink (abspath (r ++ take k c)) <> Ok true) /\
    realpathSync (abspath (r ++ c)) = Ok file /\ file = abspath f /\ Forall proper f /\
    ((exists d, d <> [] /\ f = r ++ d) \/ exists x, r = f ++ [x]).

Lemma Located_unfold root r c file :
  realpathSync root = Ok (abspath r) -> Forall proper r -> c <> [] -> Forall proper c ->
  Located root (join sep c) file <->
  (r <> [] -> forall k, (0 < k <= length c)%nat -> lstat_isSymbolicLink (abspath (r ++ take k c)) <> Ok true) /\
  realpathSync (abspath (r ++ c)) = Ok file /\ exists f, file = abspath f /\ Forall proper f /\
    ((exists d, d <> [] /\ f = r ++ d) \/ exists x, r = f ++ [x]).
Proof.
  intros Hroot Hr Hne Hc. unfold Located. split.
  - intros (r' & c' & f & Hroot' & Hj & Hne' & [Hr' Hc']%Forall_app & H). rewrite Hroot in Hroot'.
    apply Ok_inj, abspath_inj in Hroot' as <-; [|by apply proper_component..].
    apply join_inj in Hj as <-; [|done|done|by apply proper_component..]. destruct H as (H1 & H2 & -> & H3 & H4).
    split; [done|]. split; [done|]. by exists f.
  - intros (H1 & H2 & f & -> & H3 & H4). exists r, c, f. rewrite Forall_app. done.
Qed.
Lemma containedFilePath_nil es root field p o :
  safe_path p ->
  containedFilePath es root field (VStr p) = ([], o) <-> es = [] /\ exists file, o = Some file /\ Located root p file.
Proof.
  intros Hp. unfold containedFilePath.
  rewrite (proj2 (isSafeRelativePath_spec (VStr p)) (ex_intro _ p (conj eq_refl Hp))). cbn [negb].
  destruct Hp as (c & Hc0 & Hc & -> & _).
  destruct (realpathSync root) as [R|m] eqn:Er; cbn [mbind result_bind].
  2: { split; [by intros [= H%add_nil _]|]. intros (_ & f & _ & ? & ? & ? & H & _). congruence. }
  destruct (realpath_normal host laws _ _ Er) as (r & Hr & ->). pose proof (realpath_canonical host laws _ _ Er) as Hcan.
  assert (Hrc : Forall proper (r ++ c)) by by apply Forall_app.
  setoid_rewrite (Located_unfold root r c); [|done..].
  rewrite (resolve2_proper cwd r c) by done. unfold pathHasSymlinkComponent. rewrite Hcan. cbn [mbind result_bind].
  rewrite resolve1_abspath by done. pose proof (proper_component _ Hrc) as Hcomp.
  pose proof (symlink_scan_spec (S (length (abspath (r ++ c)))) r c Hcomp) as Hscan.
  specialize (Hscan ltac:(pose proof (abspath_length r c Hcomp); lia)).
  destruct (symlink_scan _ _ _).
  { split; [by intros [= H%add_nil _]|]. intros (_ & file & _ & Hno & _).
    destruct (proj1 Hscan eq_refl) as (Hr0 & k & Hk & Hl). by destruct (Hno Hr0 k Hk). }
  assert (Hno : r <> [] -> forall k, (0 < k <= length c)%nat -> lstat_isSymbolicLink (abspath (r ++ take k c)) <> Ok true).
  { intros Hr0 k Hk Hl. enough (false = true) by done. apply Hscan. split; [done|]. by exists k. }
  clear Hscan. destruct (realpathSync (abspath (r ++ c))) as [F|m] eqn:Ef; cbn [mbind result_bind].
  2: { split; [by intros [= H%add_nil _]|]. by intros (_ & f & _ & _ & ? & _). }
  destruct (realpath_normal host laws _ _ Ef) as (f & Hf & ->). pose proof (outside_spec cwd r f Hr Hf) as Hout.
  destruct (outside _).
  - split; [by intros [= H%add_nil _]|]. intros (_ & file & _ & _ & Hfile & f' & -> & Hf' & Hin).
    apply Ok_inj, abspath_inj in Hfile as <-; [|by apply proper_component..]. by apply Hout in Hin.
  - split.
    + intros [-> <-]%pair_equal_spec. split; [done|]. exists (abspath f). split; [done|]. split; [done|]. split; [done|].
      exists f. split; [done|]. split; [done|]. by apply Hout.
    + intros (-> & file & -> & _ & Hfile & _). by apply Ok_inj in Hfile as ->.
Qed.

(** ** Digests and content *)

Definition readable (file : jsstr) (bytes : list Z) : Prop :=
  exists stats, statSync file = Ok stats /\ size stats <= MAX_DEVICE_EVIDENCE_FILE_BYTES /\ readFileSync file = Ok bytes.
Definition clean_content (bytes : list Z) : Prop :=
  includes bytes (utf8_encode SANITIZED_TEST_SENTINEL) = false /\
  (Forall (fun b => b <> 0) bytes -> FORBIDDEN_TEXT_FIELDS (utf8_decode bytes) = false).
(** The file a safe reference leads to, read within the bound, free of secrets, and
    with the declared digest when one is declared in the right shape. *)
Definition Ref_ok (root : jsstr) (ref : jsstr * val * val) : Prop :=
  let '(_, path, hash) := ref in
  forall p, path = VStr p -> safe_path p -> exists h file bytes,
    String_ hash = Ok h /\ Located root p file /\ readable file bytes /\ clean_content bytes /\
    (matches SHA256 h -> hash = VStr (sha256 bytes) /\ exists stats, statSync file = Ok stats /\ size stats <> 0).

Lemma content_findings_nil field bytes es :
  content_findings field bytes es = [] <-> es = [] /\ clean_content bytes.
Proof.
  unfold content_findings, clean_content. rewrite !add_if_nil, andb_false_iff, negb_false_iff.
  assert (Hz : existsb (fun b => b =? 0) bytes = false <-> Forall (fun b => b <> 0) bytes).
  { rewrite existsb_false_Forall, !Forall_forall. by setoid_rewrite Z.eqb_neq. }
  rewrite <- Hz. destruct (existsb _ bytes), (FORBIDDEN_TEXT_FIELDS (utf8_decode bytes)); naive_solver.
Qed.
Lemma digest_of_file_nil es field rel file hash :
  digest_of_file es field rel file hash = [] <-> es = [] /\ exists stats bytes,
    statSync file = Ok stats /\ size stats <> 0 /\ size stats <= MAX_DEVICE_EVIDENCE_FILE_BYTES /\
    readFileSync file = Ok bytes /\ hash = VStr (sha256 bytes).
Proof.
  unfold digest_of_file. destruct (statSync file) as [stats|m] eqn:Es; cbn [mbind result_bind].
  2: { rewrite add_nil. split; [done|]. by intros (_ & ? & ? & ? & _). }
  destruct (Z.eqb_spec (size stats) 0) as [E0|E0].
  { rewrite add_nil. split; [done|]. intros (_ & ? & ? & [= <-] & ? & _). done. }
  destruct (Z.ltb_spec MAX_DEVICE_EVIDENCE_FILE_BYTES (size stats)) as [El|El].
  { rewrite add_nil. split; [done|]. intros (_ & ? & ? & [= <-] & _ & ? & _). lia. }
  destruct (readFileSync file) as [bytes|m] eqn:Eb; cbn [mbind result_bind].
  - rewrite add_if_nil, negb_false_iff, eq_str_spec. naive_solver.
  - rewrite add_nil. split; [done|]. by intros (_ & ? & ? & _ & _ & _ & ? & _).
Qed.
Lemma located_nonempty root p file : Located root p file -> exists c s, file = c :: s.
Proof. intros (r & c & f & _ & _ & _ & _ & _ & _ & -> & _). by eexists _, _. Qed.
(** Both checks of a safe path report nothing only if it is located, and then they
    check the file it leads to. *)
Lemma on_located es root field p (k : list jsstr -> jsstr -> list jsstr) :
  safe_path p -> (forall es' file, k es' file = [] -> es' = []) ->
  (let '(es', o) := containedFilePath es root field (VStr p) in
   match o with None | Some [] => es' | Some file => k es' file end) = [] <->
  es = [] /\ exists file, Located root p file /\ k [] file = [].
Proof.
  intros Hp Hk. pose proof (containedFilePath_nil es root field p) as Hc.
  destruct (containedFilePath es root field (VStr p)) as [es1 o]. split.
  - intros H. assert (es1 = []) as ->.
    { destruct o as [[|u s]|]; [done|by apply Hk in H|done]. }
    destruct (proj1 (Hc o Hp) eq_refl) as (-> & file & -> & Hl). split; [done|]. exists file. split; [done|].
    destruct (located_nonempty _ _ _ Hl) as (u & s & ->). done.
  - intros (-> & file & Hl & H). pose proof (proj2 (Hc (Some file) Hp) (conj eq_refl (ex_intro _ file (conj eq_refl Hl)))) as E.
    injection E as -> ->. destruct (located_nonempty _ _ _ Hl) as (u & s & ->). done.
Qed.
Lemma scan_of_file_nil es field rel file :
  scan_of_file es field rel file = [] <-> es = [] /\ exists bytes, readable file bytes /\ clean_content bytes.
Proof.
  unfold scan_of_file, readable. destruct (statSync file) as [stats|m] eqn:Es; cbn [mbind result_bind].
  2: { rewrite add_nil. split; [done|]. by intros (_ & ? & (? & ? & _) & _). }
  destruct (Z.ltb_spec MAX_DEVICE_EVIDENCE_FILE_BYTES (size stats)) as [El|El].
  { rewrite add_nil. split; [done|]. intros (_ & ? & (? & [= <-] & ? & _) & _). lia. }
  destruct (readFileSync file) as [bytes|m] eqn:Eb; cbn [mbind result_bind].
  - rewrite content_findings_nil. split.
    + intros [-> Hc]. split; [done|]. exists bytes. split; [by exists stats|done].
    + intros (-> & bytes' & (? & _ & _ & H) & Hc). by apply Ok_inj in H as <-.
  - rewrite add_nil. split; [done|]. by intros (_ & ? & (? & _ & _ & ?) & _).
Qed.
Lemma scan_nil es root field p :
  safe_path p ->
  scanEvidenceFileContent es root field (VStr p) = [] <-> es = [] /\ exists file bytes,
    Located root p file /\ readable file bytes /\ clean_content bytes.
Proof.
  intros Hp. unfold scanEvidenceFileContent.
  rewrite (proj2 (isSafeRelativePath_spec (VStr p)) (ex_intro _ p (conj eq_refl Hp))). cbn [negb].
  rewrite (on_located es root field p (fun es' file => scan_of_file es' field p file)).
  - setoid_rewrite scan_of_file_nil. naive_solver.
  - done.
  - by intros es' file [? _]%scan_of_file_nil.
Qed.
Lemma verifyDigest_nil es root field p hash :
  safe_path p ->
  verifyDigest es root field (VStr p) hash = Ok [] <-> es = [] /\ exists h, String_ hash = Ok h /\
    (matches SHA256 h -> exists file stats bytes, Located root p file /\
      statSync file = Ok stats /\ size stats <> 0 /\ size stats <= MAX_DEVICE_EVIDENCE_FILE_BYTES /\
      readFileSync file = Ok bytes /\ hash = VStr (sha256 bytes)).
Proof.
  intros Hp. unfold verifyDigest.
  rewrite (proj2 (isSafeRelativePath_spec (VStr p)) (ex_intro _ p (conj eq_refl Hp))). cbn [negb].
  rewrite bind_Ok. setoid_rewrite <- re_match_correct. split.
  - intros (h & Hh & H). destruct (re_match SHA256 h) eqn:Em; cbn [negb] in H.
    + destruct (containedFilePath es root field (VStr p)) as [es1 o] eqn:Ec. apply Ok_inj in H.
      pose proof (on_located es root field p (fun es' file => digest_of_file es' field p file hash) Hp
        (fun es' file H => proj1 (proj1 (digest_of_file_nil es' field p file hash) H))) as Hl.
      rewrite Ec in Hl. apply Hl in H as (-> & file & Hloc & Hd). apply digest_of_file_nil in Hd as (_ & stats & bytes & Hd).
      split; [done|]. exists h. split; [done|]. intros _. by exists file, stats, bytes.
    + apply Ok_inj in H as ->. split; [done|]. exists h. split; [done|]. congruence.
  - intros (-> & h & Hh & H). exists h. split; [done|]. destruct (re_match SHA256 h); cbn [negb]; [|done].
    destruct (H eq_refl) as (file & stats & bytes & Hloc & Hd).
    destruct (containedFilePath [] root field (VStr p)) as [es1 o] eqn:Ec. f_equal.
    pose proof (on_located [] root field p (fun es' file => digest_of_file es' field p file hash) Hp
      (fun es' file H => proj1 (proj1 (digest_of_file_nil es' field p file hash) H))) as Hl.
    rewrite Ec in Hl. apply Hl. split; [done|]. exists file. split; [done|]. apply digest_of_file_nil. split; [done|].
    by exists stats, bytes.
Qed.
Lemma Located_fun root p file file' : Located root p file -> Located root p file' -> file = file'.
Proof.
  intros H H'. assert (Hex : exists r c, realpathSync root = Ok (abspath r) /\ p = join sep c /\ c <> [] /\
    Forall proper r /\ Forall proper c).
  { destruct H as (r & c & f & Hroot & Hp & Hne & Hrc & _). exists r, c. by apply Forall_app in Hrc as [? ?]. }
  destruct Hex as (r & c & Hroot & -> & Hne & Hr & Hc).
  destruct (proj1 (Located_unfold root r c file Hroot Hr Hne Hc) H) as (_ & E & _).
  destruct (proj1 (Located_unfold root r c file' Hroot Hr Hne Hc) H') as (_ & E' & _).
  rewrite E in E'. by apply Ok_inj in E'.
Qed.
Lemma verify_reference_nil es root ref :
  verify_reference root es ref = Ok [] <-> es = [] /\ Ref_ok root ref.
Proof.
  destruct ref as [[field path] hash]. unfold verify_reference, Ref_ok. rewrite bind_Ok.
  assert (Hunsafe : isSafeRelativePath path = false -> (exists a, verifyDigest es root field path hash = Ok a /\
    Ok (E := jserr) (scanEvidenceFileContent a root field path) = Ok []) <-> es = []).
  { intros Hs. destruct path as [| | | |p| | | | | |]; cbn [verifyDigest scanEvidenceFileContent]; rewrite ?Hs; cbn [negb];
      (split; [by intros (? & [= <-] & [= ->])|intros ->; by exists []]). }
  destruct (isSafeRelativePath path) eqn:Hs.
  2: { rewrite Hunsafe by done. split; [|by intros [-> _]]. intros ->. split; [done|]. intros p -> Hp.
       enough (isSafeRelativePath (VStr p) = true) by congruence. apply isSafeRelativePath_spec. by exists p. }
  apply isSafeRelativePath_spec in Hs as (p & -> & Hp). clear Hunsafe. split.
  - intros (es1 & Hd & Hs). apply Ok_inj, scan_nil in Hs as (-> & file & bytes & Hloc & Hr & Hc); [|done].
    apply verifyDigest_nil in Hd as (-> & h & Hh & Hd); [|done]. split; [done|]. intros p' [= <-] _.
    exists h, file, bytes. split_and!; try done. intros Hm.
    destruct (Hd Hm) as (file' & stats & bytes' & Hloc' & Hst & H0 & _ & Hb & ->).
    rewrite (Located_fun _ _ _ _ Hloc' Hloc) in *. destruct Hr as (_ & _ & _ & Hb'). rewrite Hb in Hb'.
    apply Ok_inj in Hb' as ->. split; [done|]. by exists stats.
  - intros (-> & H). destruct (H p eq_refl Hp) as (h & file & bytes & Hh & Hloc & Hr & Hc & Hd). exists [].
    split; [|f_equal; apply scan_nil; [done|]; split; [done|]; by exists file, bytes].
    apply verifyDigest_nil; [done|]. split; [done|]. exists h. split; [done|]. intros Hm.
    destruct (Hd Hm) as (-> & stats & Hst & H0). destruct Hr as (stats' & Hst' & Hl & Hb).
    rewrite Hst in Hst'. apply Ok_inj in Hst' as <-. by exists file, stats, bytes.
Qed.
Lemma verify_references_nil es root refs :
  foldM (verify_reference root) es refs = Ok [] <-> es = [] /\ Forall (Ref_ok root) refs.
Proof.
  revert es; induction refs as [|ref refs IH]; intros es; cbn [foldM].
  - split; [intros [= ->]|intros [-> _]]; done.
  - rewrite bind_Ok, Forall_cons. split.
    + intros (es1 & H1 & [-> H2]%IH). by apply verify_reference_nil in H1 as [-> ?].
    + intros (-> & H1 & H2). exists []. split; [by apply verify_reference_nil|by apply IH].
Qed.
Lemma verifyDeviceEvidenceFiles_wf ev root :
  verifyDeviceEvidenceFiles ev root = Ok [] <-> is_record ev = true /\ Forall (Ref_ok root) (references ev).
Proof.
  unfold verifyDeviceEvidenceFiles, isRecord. destruct (is_record ev); cbn [negb]; [|by split; [|intros [? _]]].
  rewrite verify_references_nil. naive_solver.
Qed.
End files.
