(* ===== verification/DeviceClaims.v ===== *)
(** * The device-evidence gate

    The claims about scripts/check-device-evidence.mjs, and a physical-device record
    and host on which they are evaluated. *)

From S2P Require Import Prelude JsNumber Regex JsValue JsDate JsText Host PathProps.
From S2P Require Import ContractsSpec DeviceEvidence EvidenceSpec DeviceEvidenceProps DeviceRecord DeviceFiles DeviceFilesProps.
Open Scope js_scope.

(** ** A host and a record *)

Lemma collapse_proper_result l : Forall (fun c => slash ∉ c) l -> Forall proper (collapse l).
Proof.
  intros Hl. unfold collapse. apply (foldl_inv (Forall proper)); [|constructor].
  intros acc c Hc Hacc. rewrite Forall_forall in Hl. specialize (Hl c Hc).
  destruct (str_eqb c []) eqn:E0; [done|]. destruct (str_eqb c (js ".")) eqn:E1; [done|].
  destruct (str_eqb c (js "..")) eqn:E2; cbn [orb].
  - clear -Hacc. induction Hacc as [|x l Hx Hl IH]; [constructor|]. cbn. destruct l; [constructor|by constructor].
  - apply Forall_app. split; [done|]. repeat constructor; try done;
      intros H; rewrite H, str_eqb_refl in *; discriminate.
Qed.

(** A file system without links in which every file is the same five bytes, and [/] is
    a directory; reading any JSON text gives [record]. *)
Definition plain_host (record : val) : Host := {|
  cwd := js "/work";
  realpathSync := fun p => Ok (resolve1 (js "/work") p);
  lstat_isSymbolicLink := fun _ => Ok false;
  statSync := fun _ => Ok {| isFile := true; size := 5 |};
  readFileSync := fun p => if str_eqb p (js "/") then Throw (js "EISDIR") else Ok (js "notes");
  sha256 := fun _ => repeat 97 64;
  JSON_parse := fun _ => Ok record;
  public_key_type := fun _ => Throw [];
  verify := fun _ _ _ => Ok false;
  other_format := fun _ => None;
  error_message := fun _ => js "error";
|}.
Lemma plain_host_laws record : HostLaws (plain_host record).
Proof.
  assert (Hn : forall p, exists l, Forall proper l /\ resolve1 (js "/work") p = abspath l).
  { intros p. unfold resolve1. eexists. split; [apply collapse_proper_result, split_slash_free|reflexivity]. }
  constructor; cbn.
  - intros p q [= <-]. apply Hn.
  - intros p q [= <-]. destruct (Hn p) as (l & Hl & ->). by rewrite resolve1_abspath.
Qed.

Definition sample_hex (n : nat) : val := VStr (repeat 97 n).
Definition sample_artifact (kind : String.string) : val := vobj
  [("path", VStr (js "artifacts/" ++ js kind)); ("sha256", sample_hex 64); ("kind", vstr kind)]%string.
Definition sample_host_mode (framework version : String.string) : val := vobj
  [("framework", vstr framework); ("frameworkVersion", vstr version); ("status", vstr "pass");
   ("evidence", vobj [("logPath", VStr (js "logs/" ++ js framework)); ("logSha256", sample_hex 64)])]%string.
Definition sample_test (name : jsstr) : jsstr * val :=
  (name, VArr (map (fun p => Some (VStr p)) (js "logs/device" ::
     map (fun k => js "artifacts/" ++ k) (REQUIRED_TEST_EVIDENCE_ARTIFACT_KINDS name)))).
(** An iOS record for the physical-device gate. *)
Definition sample_record : val := vobj
  [("schemaVersion", vnum 1); ("status", vstr "pass"); ("commit", sample_hex 40); ("gate", vstr "ios-device-matrix");
   ("platform", vstr "ios"); ("framework", vstr "native"); ("frameworkVersion", vstr "1.0.0");
   ("hostModes", varr [sample_host_mode "react-native" "0.87.0"; sample_host_mode "flutter" "3.47.0"]);
   ("recordedAt", vstr "2026-08-22T10:00:00.000Z"); ("physicalDevice", VBool true);
   ("device", vobj [("model", vstr "phone"); ("osVersion", vstr "18.2"); ("osBuild", vstr "22C"); ("securityPatchLevel", vstr "18.2.1")]);
   ("testCases", VObj (map (fun n => (n, vstr "pass")) NATIVE_TESTS)); ("sanitizedLogs", VBool true);
   ("logPath", vstr "logs/device"); ("logSha256", sample_hex 64);
   ("artifacts", varr (map sample_artifact ["screen-capture"; "background-snapshot"; "accessibility-report";
      "autofill-clipboard-report"; "crash-report-review"; "platform-security-patch"; "native-checksum"]));
   ("testEvidence", VObj (map sample_test NATIVE_TESTS))]%string.
Definition physical_gate : Options := {|
  requirePhysicalDevice := true; requireNativeHostModes := true; requirePlatformSupport := true;
  expectedCommit := sample_hex 40; expectedGate := vstr "ios-device-matrix";
  expectedHostModeVersions := vobj [("react-native", vstr "0.87.0"); ("flutter", vstr "3.47.0")]%string;
|}.

Example sample_accepted : @validateDeviceEvidence (plain_host VNull) physical_gate sample_record = Ok [].
Proof. vm_compute. reflexivity. Qed.

(** ** Claims *)

(** C9. The record validator reports nothing exactly on the well-formed records of
    the gate it is asked about: no secret-bearing key at any depth, the pinned commit,
    gate, platform and framework, complete host modes, a real timestamp, passing tests,
    distinct safe evidence paths with digests and, for a physical-device gate, a
    physical device, all seven artifact kinds and evidence for each of the nine tests. *)
Theorem validateDeviceEvidence_correct {host : Host} options ev :
  validateDeviceEvidence options ev = Ok [] <-> Evidence_wf options ev.
Proof. exact (validateDeviceEvidence_wf options ev). Qed.

(** The file verifier reports nothing exactly when every reference with a safe path
    leads, through no symbolic link, to a bounded file inside the root whose content is
    free of secrets and whose SHA-256 is the declared digest. *)
Theorem verifyDeviceEvidenceFiles_correct {host : Host} (laws : HostLaws host) ev root :
  verifyDeviceEvidenceFiles ev root = Ok [] <-> is_record ev = true /\ Forall (Ref_ok root) (references ev).
Proof. exact (verifyDeviceEvidenceFiles_wf laws ev root). Qed.
Lemma verifyDeviceEvidenceFiles_correct_witness :
  Forall (@Ref_ok (plain_host VNull) (js "/evidence")) (references sample_record).
Proof.
  apply (@verifyDeviceEvidenceFiles_correct (plain_host VNull) (plain_host_laws VNull) sample_record (js "/evidence")).
  vm_compute. reflexivity.
Defined.

(** A file of the record: the reference that names it declares its digest. *)
Definition verified {host : Host} (root : jsstr) (ev : val) (p : jsstr) : Prop :=
  exists field h file bytes stats, (field, VStr p, VStr h) ∈ references ev /\
    Located root p file /\ statSync file = Ok stats /\ 0 <> size stats /\ size stats <= MAX_DEVICE_EVIDENCE_FILE_BYTES /\
    readFileSync file = Ok bytes /\ sha256 bytes = h /\ clean_content bytes.

Lemma Ref_ok_verified {host : Host} root ev field p hash :
  (field, VStr p, hash) ∈ references ev -> Ref_ok root (field, VStr p, hash) -> safe_path p -> sha_val hash ->
  verified root ev p.
Proof.
  intros Hin Hok Hp (h & -> & Hm). destruct (Hok p eq_refl Hp) as (h' & file & bytes & [= <-] & Hl & (st & Hst & Hle & Hb) & Hc & Hd).
  destruct (Hd Hm) as ([= Hh] & stats & Hst' & H0). rewrite Hst in Hst'. apply Ok_inj in Hst' as <-.
  exists field, h, file, bytes, st. split_and!; done.
Qed.

Lemma iterated_present l v : v ∈ iterated l -> v <> VUndef -> exists i, (i, v) ∈ present l.
Proof.
  intros (i & Hi)%list_elem_of_lookup Hv. unfold iterated in Hi. rewrite list_lookup_fmap in Hi.
  exists i. apply present_elem. destruct (l !! i) as [[w|]|]; cbn in Hi; [congruence|congruence|done].
Qed.
Lemma str_of_elem v p : p ∈ str_of v <-> v = VStr p.
Proof. destruct v; cbn; try (rewrite elem_of_nil; done). rewrite list_elem_of_singleton. naive_solver. Qed.

(** Every evidence file of a well-formed record is a reference with a digest. *)
Lemma evidence_file_referenced {host : Host} options ev p :
  Evidence_wf options ev -> p ∈ evidence_files ev ->
  safe_path p /\ exists field hash, (field, VStr p, hash) ∈ references ev /\ sha_val hash.
Proof.
  intros Hwf. unfold evidence_files, references. rewrite !elem_of_app. setoid_rewrite elem_of_cons. setoid_rewrite elem_of_app.
  intros [H|[H|H]].
  - unfold logs in H. pose proof (ev_hosts _ _ Hwf) as Hh. unfold Hosts_wf in Hh.
    destruct (isNativePlatform ev); [|by apply not_elem_of_nil in H]. specialize (Hh eq_refl). cbn [andb] in H.
    destruct (is_undefined ev.["hostModes"]) eqn:Eu; cbn [negb] in H; [by apply not_elem_of_nil in H|].
    apply native_undefined in Eu. destruct Hh as [[? _]|(slots & Hs & _ & Hw & _)]; [done|].
    unfold host_logs in H. rewrite Hs in H |- *. cbn [slots_of] in H. apply elem_of_flat_map in H as (hm & Hhm & Hp%str_of_elem).
    rewrite Forall_forall in Hw. specialize (Hw hm Hhm). pose proof (hm_record _ _ _ Hw) as Hr.
    destruct (hm_evidence _ _ _ Hw) as [[He _]|(He & _ & (p' & Hp' & Hsafe) & Hd)].
    { by destruct (hm.["evidence"]). }
    rewrite Hp in Hp'. injection Hp' as <-. split; [done|].
    destruct (iterated_present slots hm Hhm) as [i Hi]; [by intros ->|].
    do 2 eexists. split; [|exact Hd]. right. left. apply list_elem_of_omap. exists (i, hm). split; [done|].
    cbv zeta. unfold isRecord. rewrite Hr, He. cbn [andb]. by rewrite Hp.
  - apply str_of_elem in H. destruct (ev_log _ _ Hwf) as [(p' & Hp' & Hs) Hd]. rewrite H in Hp'. injection Hp' as <-.
    split; [done|]. do 2 eexists. split; [|exact Hd]. left. by rewrite H.
  - apply elem_of_flat_map in H as (a & Ha & Hp%str_of_elem). destruct (ev_artifacts _ _ Hwf) as [_ Hw].
    rewrite Forall_forall in Hw. destruct (Hw a Ha) as (Hr & (p' & Hp' & Hs) & Hd & _).
    rewrite Hp in Hp'. injection Hp' as <-. split; [done|].
    unfold artifacts in Ha. apply list_elem_of_fmap in Ha as ([i a'] & -> & Hi). cbn [snd] in *.
    do 2 eexists. split; [|exact Hd]. right. right. apply list_elem_of_omap. exists (i, a'). split; [done|].
    cbn. unfold isRecord. rewrite Hr. by rewrite Hp.
Qed.

(** Reading the directory that holds the evidence root as a file throws (EISDIR). *)
Definition parent_unreadable {host : Host} (root : jsstr) : Prop :=
  forall r x bytes, realpathSync root = Ok (abspath (r ++ [x])) -> Forall proper (r ++ [x]) ->
    readFileSync (abspath r) <> Ok bytes.

(** The file of a record that [p] names: strictly below the canonical root, reached
    through no symbolic link, bounded, clean, with the digest its reference declares. *)
Definition held_inside {host : Host} (root : jsstr) (ev : val) (p : jsstr) : Prop :=
  exists field h r d bytes stats, (field, VStr p, VStr h) ∈ references ev /\
    realpathSync root = Ok (abspath r) /\ d <> [] /\ Located root p (abspath (r ++ d)) /\
    statSync (abspath (r ++ d)) = Ok stats /\ 0 <> size stats /\ size stats <= MAX_DEVICE_EVIDENCE_FILE_BYTES /\
    readFileSync (abspath (r ++ d)) = Ok bytes /\ sha256 bytes = h /\ clean_content bytes.

(** The containment test lets the parent of the root through, but no file is there. *)
Lemma verified_held {host : Host} root ev p :
  parent_unreadable root -> verified root ev p -> held_inside root ev p.
Proof.
  intros Hpar (field & h & file & bytes & st & Hin & Hl & Hst & H0 & Hmax & Hb & Hd & Hc).
  pose proof Hl as (r & c & f & Hroot & _ & _ & [Hr _]%Forall_app & _ & _ & -> & _ & [(d & Hne & ->)|[x ->]]).
  - by exists field, h, r, d, bytes, st.
  - by destruct (Hpar _ _ bytes Hroot Hr).
Qed.

(** C3. The command's exit code 0 means the gate: the record file is no symbolic link,
    regular and bounded, it parses to a well-formed record, every reference with a safe
    path is verified, and every evidence file the record names - host logs, aggregate
    log, artifacts - is a clean bounded file strictly inside the evidence root with the
    SHA-256 the record declares.  Nothing is then printed.  The path test alone also
    admits the directory that holds the root; that reading a directory throws, a
    behaviour of the file system, is what excludes it. *)
Theorem checkFile_accepts {host : Host} (laws : HostLaws host) filePath options root out :
  parent_unreadable root ->
  checkFile filePath options root = Ok (out, 0) <->
  out = [] /\ exists ev, read_record filePath root = Ok ev /\ Evidence_wf options ev /\
    Forall (Ref_ok root) (references ev) /\ Forall (held_inside root ev) (evidence_files ev).
Proof.
  intros Hpar.
  unfold checkFile. destruct (read_record filePath root) as [ev|m].
  2: { split; [done|by intros (_ & ? & ? & _)]. }
  rewrite bind_Ok. setoid_rewrite bind_Ok. split.
  - intros (shape & Hs & files & Hf & H). destruct (shape ++ files) as [|m l] eqn:E; [|done].
    apply app_eq_nil in E as [-> ->]. apply Ok_inj, pair_equal_spec in H as [<- _]. split; [done|].
    apply validateDeviceEvidence_wf in Hs. apply verifyDeviceEvidenceFiles_wf in Hf as [_ Hf]; [|done].
    exists ev. split; [done|]. split; [done|]. split; [done|]. apply Forall_forall. intros p Hp.
    destruct (evidence_file_referenced options ev p Hs Hp) as (Hsafe & field & hash & Hin & Hd).
    rewrite Forall_forall in Hf. apply verified_held; [done|]. by apply (Ref_ok_verified root ev field p hash Hin (Hf _ Hin)).
  - intros (-> & ev' & [= <-] & Hs & Hf & _). exists []. split; [by apply validateDeviceEvidence_wf|].
    exists []. split; [|done]. apply verifyDeviceEvidenceFiles_wf; [done|]. split; [by destruct Hs|done].
Qed.
Lemma component_evidence : Forall component [js "evidence"].
Proof. repeat constructor; apply (bool_decide_unpack _); vm_compute; exact I. Qed.
Lemma plain_parent record : @parent_unreadable (plain_host record) (js "/evidence").
Proof.
  intros r x bytes H%Ok_inj Hr. change (resolve1 (js "/work") (js "/evidence")) with (abspath [js "evidence"]) in H.
  apply abspath_inj in H; [|by apply component_evidence|by apply proper_component].
  by apply (app_inj_tail [] r) in H as [<- _].
Qed.
Lemma checkFile_accepts_witness :
  exists ev, @read_record (plain_host sample_record) (js "/evidence/record.json") (js "/evidence") = Ok ev /\
    Forall (@held_inside (plain_host sample_record) (js "/evidence") ev) (evidence_files ev).
Proof.
  destruct (proj1 (@checkFile_accepts (plain_host sample_record) (plain_host_laws sample_record)
    (js "/evidence/record.json") physical_gate (js "/evidence") [] (plain_parent sample_record)))
    as (_ & ev & H1 & _ & _ & H2); [vm_compute; reflexivity|].
  exists ev. split; assumption.
Defined.

(** The symbolic-link scan ends, whatever the file system, and for a path below
    the canonical root it is true exactly when a component of the path is a link - except
    that below the root directory [/] it looks at no component. *)
Theorem pathHasSymlinkComponent_correct {host : Host} root r c :
  realpathSync root = Ok (abspath r) -> Forall proper (r ++ c) ->
  (forall fuel, (length (abspath (r ++ c)) < fuel)%nat ->
     pathHasSymlinkComponent root (abspath (r ++ c)) = Ok (symlink_scan fuel (abspath r) (abspath (r ++ c)))) /\
  (pathHasSymlinkComponent root (abspath (r ++ c)) = Ok true <->
   r <> [] /\ exists k, (0 < k <= length c)%nat /\ lstat_isSymbolicLink (abspath (r ++ take k c)) = Ok true).
Proof.
  intros Hroot Hrc. pose proof (proper_component _ Hrc) as Hcomp. unfold pathHasSymlinkComponent.
  rewrite Hroot. cbn [mbind result_bind]. rewrite resolve1_abspath by done. split.
  - intros fuel Hf. f_equal. apply symlink_scan_fuel; [done|lia|done].
  - rewrite <- (symlink_scan_spec (S (length (abspath (r ++ c)))) r c Hcomp) by (pose proof (abspath_length r c Hcomp); lia).
    split; [by intros ?%Ok_inj|by intros ->].
Qed.
Lemma pathHasSymlinkComponent_correct_witness :
  @pathHasSymlinkComponent (plain_host VNull) (js "/evidence") (js "/evidence/logs/device") <> Ok true.
Proof.
  intros H. apply (@pathHasSymlinkComponent_correct (plain_host VNull) (js "/evidence") [js "evidence"] [js "logs"; js "device"]) in H
    as (_ & k & _ & Hl); [discriminate|vm_compute; reflexivity|].
  repeat constructor; try discriminate; apply (bool_decide_unpack _); vm_compute; exact I.
Defined.

(** ** Behaviours worth knowing *)

(** A well-shaped timestamp that is no date, and host modes that are no iterable, make
    the validator throw instead of reporting. *)
Definition with_field (k : String.string) (v : val) : val :=
  match sample_record with
  | VObj ps => VObj (map (fun kv => if str_eqb kv.1 (js k) then (kv.1, v) else kv) ps)
  | w => w
  end.
Lemma validator_throws :
  @validateDeviceEvidence (plain_host VNull) physical_gate (with_field "recordedAt" (vstr "2026-13-01T00:00:00.000Z"))
    = Throw RangeError /\
  @validateDeviceEvidence (plain_host VNull) physical_gate (with_field "hostModes" (vobj [])) = Throw TypeError.
Proof. vm_compute. done. Qed.
(** A path that resolves to the root's parent directory passes the containment test. *)
Lemma parent_not_outside : outside (relative (js "/w") (js "/a/b") (js "/a")) = false.
Proof. vm_compute. done. Qed.
