(* ===== verification/LsanEvidence.v ===== *)
(** * scripts/verify-lsan-evidence.mjs

    The record of the leak-sanitizer campaign: its validator, the verification of the
    raw logs it names, and the builder that makes the record from the logs.  A thrown
    [Error] is its message. *)

From S2P Require Import Prelude JsNumber Regex JsValue JsDate JsText Host.
From S2P Require PlatformSupport.
Open Scope js_scope.

Definition LSAN_TARGETS : list jsstr := map js ["auth_envelope"; "core_sequence"; "ffi_sequence"; "webauthn_state"]%string.
Definition LSAN_RUNS : Z := 10000.
Definition LSAN_TOOLCHAIN : jsstr := js "nightly-2026-08-19".
Definition LSAN_LOG_PATH_PREFIX : jsstr := js "retained/fuzz-logs".
Definition MAX_LSAN_LOG_BYTES : Z := 32 * 1024 * 1024.

Definition hex : list (Z * Z) := [(48, 57); (97, 102)].
Definition COMMIT : re := rexactly 40 (RCls hex).
Definition SHA256 : re := rexactly 64 (RCls [(97, 102); (48, 57)]).
(** [/^[a-z0-9][a-z0-9._-]{0,80}$/] *)
Definition LABEL : re :=
  RSeq (RCls [(97, 122); (48, 57)]) (rupto 80 (RCls [(97, 122); (48, 57); (46, 46); (95, 95); (45, 45)])).
Definition digits_then (n : nat) (c : Z) (k : re) : re := rtimes n (RCls [(48, 57)]) (RSeq (rchr c) k).
Definition ISO_TIMESTAMP : re :=
  digits_then 4 45 (digits_then 2 45 (digits_then 2 84 (digits_then 2 58 (digits_then 2 58 (digits_then 2 46
    (digits_then 3 90 REps)))))).

Definition isRecord : val -> bool := is_record.
Definition is_matching : re -> val -> bool := PlatformSupport.is_matching.
Definition isSafeRelativePath (v : val) : bool :=
  match v with
  | VStr s => (0 <? length s)%nat && negb (isAbsolute s) && negb (includes s [92]) && negb (str_in (js "..") (split slash s))
  | _ => false
  end.
Definition successMarker (target : jsstr) : jsstr :=
  js "SECURE_KEYPAD_LSAN_RESULT target=" ++ target ++ js " toolchain=" ++ LSAN_TOOLCHAIN
  ++ js " sanitizer=leak runs=" ++ dec LSAN_RUNS ++ js " status=pass".
Definition hasSuccessMarker (bytes : list Z) (target : jsstr) : bool :=
  match find has_text (rev (split_lines (utf8_decode bytes))) with
  | Some line => str_eqb line (successMarker target)
  | None => false
  end.
Definition add (findings : list jsstr) (field message : jsstr) : list jsstr := findings ++ [field ++ js ": " ++ message].
Definition add_if (c : bool) (field message : jsstr) (findings : list jsstr) : list jsstr :=
  if c then add findings field message else findings.
Definition expectedLogPath (target : jsstr) : jsstr := LSAN_LOG_PATH_PREFIX ++ js "/" ++ target ++ js "-lsan.log".
Definition entry_field (index : nat) : jsstr := js "targets[" ++ dec_nat index ++ js "]".

Section lsan.
Context {host : Host}.

Definition validateTimestamp (value : val) : result jserr bool :=
  match value with
  | VStr s => if negb (re_match ISO_TIMESTAMP s) then Ok false else
              r ← reformat other_format s; Ok (str_eqb r s)
  | _ => Ok false
  end.
(** [expected !== undefined && v !== expected], where one of the two is a string or
    [expected] is absent. *)
Definition differs (expected v : val) : bool :=
  match expected with VStr s => negb (eq_str v s) | _ => negb (is_undefined expected) end.
Definition bad_bytes (v : val) : bool :=
  match v with
  | VNum n => negb (is_safe_integer n) || num_leb n (num 0) || num_ltb (num MAX_LSAN_LOG_BYTES) n
  | _ => true
  end.

Definition check_target (index : nat) (target : val) (st : list jsstr * list jsstr) : list jsstr * list jsstr :=
  let '(findings, seen) := st in
  match target with
  | VStr t =>
      if negb (str_in t LSAN_TARGETS) || set_has t seen
      then (add findings (entry_field index ++ js ".target") (js "must be a unique required target"), seen)
      else (findings, set_add t seen)
  | _ => (add findings (entry_field index ++ js ".target") (js "must be a unique required target"), seen)
  end.
Definition check_path (index : nat) (target path : val) (findings : list jsstr) : list jsstr :=
  let field := entry_field index ++ js ".path" in
  match target with
  | VStr t =>
      if str_in t LSAN_TARGETS
      then add_if (negb (eq_str path (expectedLogPath t))) field (js "must equal " ++ expectedLogPath t) findings
      else add_if (negb (isSafeRelativePath path)) field (js "must be a safe relative path") findings
  | _ => add_if (negb (isSafeRelativePath path)) field (js "must be a safe relative path") findings
  end.
Definition check_entry (st : list jsstr * list jsstr) (entry : nat * val) : list jsstr * list jsstr :=
  let '(findings, seen) := st in
  let '(index, v) := entry in
  let field := entry_field index in
  if negb (isRecord v) then (add findings field (js "must be an object"), seen) else
  let '(findings, seen) := check_target index v.["target"] (findings, seen) in
  let findings := check_path index v.["target"] v.["path"] findings in
  let findings := add_if (negb (is_matching SHA256 v.["sha256"])) (field ++ js ".sha256")
    (js "must be a lowercase SHA-256 digest") findings in
  let findings := add_if (bad_bytes v.["bytes"]) (field ++ js ".bytes")
    (js "must be between 1 and " ++ dec MAX_LSAN_LOG_BYTES) findings in
  (add_if (negb (eq_str v.["status"] (js "pass"))) (field ++ js ".status") (js "must equal pass") findings, seen).

Definition validateLsanEvidenceRecord (record expectedCommit expectedGate : val) : result jserr (list jsstr) :=
  if negb (isRecord record) then Ok [js "record: must be a JSON object"] else
  let findings := add_if (negb (eq_int record.["schemaVersion"] 1)) (js "schemaVersion") (js "must equal 1") [] in
  let findings := add_if (negb (eq_str record.["status"] (js "pass"))) (js "status") (js "must equal pass") findings in
  let commit := record.["commit"] in
  let findings := if negb (is_matching COMMIT commit)
    then add findings (js "commit") (js "must be a 40-character lowercase commit SHA")
    else add_if (differs expectedCommit commit) (js "commit") (js "must match the expected commit") findings in
  let findings := add_if (negb (eq_str record.["gate"] (js "linux-leak-sanitizer"))) (js "gate")
    (js "must equal linux-leak-sanitizer") findings in
  let findings := add_if (differs expectedGate record.["gate"]) (js "gate") (js "must match the expected gate") findings in
  let findings := add_if (negb (eq_str record.["evidenceKind"] (js "ci-command"))) (js "evidenceKind")
    (js "must equal ci-command") findings in
  let findings := add_if (negb (eq_str record.["logEvidenceKind"] (js "linux-leak-sanitizer"))) (js "logEvidenceKind")
    (js "must equal linux-leak-sanitizer") findings in
  let findings := add_if (negb (is_matching LABEL record.["runner"])) (js "runner")
    (js "must be a sanitized check label") findings in
  ok ← validateTimestamp record.["recordedAt"];
  let findings := add_if (negb ok) (js "recordedAt") (js "must be an ISO-8601 UTC timestamp") findings in
  let findings := add_if (negb (eq_str record.["toolchain"] LSAN_TOOLCHAIN)) (js "toolchain")
    (js "must equal " ++ LSAN_TOOLCHAIN) findings in
  let findings := add_if (negb (eq_str record.["sanitizer"] (js "leak"))) (js "sanitizer") (js "must equal leak") findings in
  let findings := add_if (negb (eq_int record.["runs"] LSAN_RUNS)) (js "runs") (js "must equal " ++ dec LSAN_RUNS) findings in
  match record.["targets"] with
  | VArr slots =>
      if negb (length slots =? length LSAN_TARGETS)%nat
      then Ok (add findings (js "targets") (js "must contain exactly one entry for every required target")) else
      let '(findings, seen) := foldl check_entry (findings, []) (indexed (iterated slots)) in
      Ok (add_if (negb (length seen =? length LSAN_TARGETS)%nat) (js "targets")
            (js "must include every required target exactly once") findings)
  | _ => Ok (add findings (js "targets") (js "must contain exactly one entry for every required target"))
  end.

(** ** The raw logs *)

(** The upward loop that lets a failing [lstat] throw: whether a component is a link. *)
Fixpoint strict_scan (fuel : nat) (realRoot cursor : jsstr) : result jsstr bool :=
  match fuel with
  | O => Ok false
  | S fuel' =>
      if negb (str_eqb cursor realRoot) && startsWith cursor (realRoot ++ sep) then
        link ← lstat_isSymbolicLink cursor;
        if (link : bool) then Ok true else strict_scan fuel' realRoot (dirname cursor)
      else Ok false
  end.
Definition outside (relative : jsstr) : bool :=
  str_eqb relative [] || startsWith relative (js "../") || isAbsolute relative.
Definition realContainedFile (root : jsstr) (relativePath : val) : result jsstr jsstr :=
  match relativePath with
  | VStr rel =>
      if negb (isSafeRelativePath relativePath) then Throw (js "path must be a safe relative path") else
      realRoot ← realpathSync root;
      let absolutePath := resolve2 cwd realRoot rel in
      if outside (relative cwd realRoot absolutePath) then Throw (js "path must resolve inside the evidence root") else
      link ← strict_scan (S (length absolutePath)) realRoot absolutePath;
      if (link : bool) then Throw (js "path must not resolve through a symbolic link") else
      realFile ← realpathSync absolutePath;
      if outside (relative cwd realRoot realFile) then Throw (js "path must resolve inside the evidence root")
      else Ok realFile
  | _ => Throw (js "path must be a safe relative path")
  end.

(** The [try] block for one entry; what it throws becomes the finding. *)
Definition verify_log (root source : jsstr) (entry : val) (target : jsstr) (index : nat) (findings : list jsstr)
    : result jsstr (list jsstr) :=
  absolutePath ← realContainedFile root (VStr source);
  stats ← statSync absolutePath;
  if negb (isFile stats) then Throw (js "must reference a regular file") else
  if size stats =? 0 then Throw (js "must not be empty") else
  if MAX_LSAN_LOG_BYTES <? size stats then Throw (js "must not exceed " ++ dec MAX_LSAN_LOG_BYTES ++ js " bytes") else
  bytes ← readFileSync absolutePath;
  let field := entry_field index in
  let findings := add_if (negb match entry.["bytes"] with VNum n => num_eqb (num (Z.of_nat (length bytes))) n | _ => false end)
    (field ++ js ".bytes") (js "does not match the raw log") findings in
  let findings := add_if (negb (eq_str entry.["sha256"] (sha256 bytes))) (field ++ js ".sha256")
    (js "does not match the raw log") findings in
  Ok (add_if (negb (hasSuccessMarker bytes target)) (field ++ js ".path")
        (js "must contain the exact LSAN success marker") findings).
(** [entry.path] without the prefix; [None] when it does not have it. *)
Definition source_path (pathPrefix path : jsstr) : option jsstr :=
  match pathPrefix with
  | [] => Some path
  | _ => if startsWith path (pathPrefix ++ js "/") then Some (drop (S (length pathPrefix)) path) else None
  end.
Definition verify_entry (root pathPrefix : jsstr) (findings : list jsstr) (e : nat * val) : list jsstr :=
  let '(index, entry) := e in
  match isRecord entry, entry.["target"], entry.["path"] with
  | true, VStr target, VStr path =>
      if negb (str_in target LSAN_TARGETS) then findings else
      match source_path pathPrefix path with
      | None => add findings (entry_field index ++ js ".path") (js "does not match the configured source prefix")
      | Some source =>
          match verify_log root source entry target index findings with
          | Ok r => r
          | Throw message => add findings (entry_field index ++ js ".path") message
          end
      end
  | _, _, _ => findings
  end.
Definition verifyLsanEvidenceFiles (record : val) (root pathPrefix : jsstr) : result jserr (list jsstr) :=
  findings ← validateLsanEvidenceRecord record VUndef VUndef;
  match isRecord record, record.["targets"] with
  | true, VArr slots =>
      match root with
      | [] => Ok (findings ++ [js "root: must be provided"])
      | _ => Ok (foldl (verify_entry root pathPrefix) findings (indexed (iterated slots)))
      end
  | _, _ => Ok findings
  end.

(** ** The builder *)

Definition log_name (target : jsstr) : jsstr := target ++ js "-lsan.log".
Definition readLog (logRoot target : jsstr) : result jsstr (list Z) :=
  realRoot ← realpathSync logRoot;
  let absolutePath := resolve2 cwd realRoot (log_name target) in
  root ← realpathSync logRoot;
  let misplaced := js ": LSAN log must be a regular file directly under the log root" in
  if negb (str_eqb (relative cwd root absolutePath) (log_name target)) then Throw (target ++ misplaced) else
  link ← lstat_isSymbolicLink absolutePath;
  if (link : bool) then Throw (target ++ misplaced) else
  stats ← statSync absolutePath;
  if negb (isFile stats) || (size stats =? 0) then Throw (target ++ js ": LSAN log must be non-empty") else
  if MAX_LSAN_LOG_BYTES <? size stats
  then Throw (target ++ js ": LSAN log exceeds " ++ dec MAX_LSAN_LOG_BYTES ++ js " bytes") else
  bytes ← readFileSync absolutePath;
  if negb (hasSuccessMarker bytes target) then Throw (target ++ js ": LSAN log is missing the exact success marker")
  else Ok bytes.
Definition built_target (target : jsstr) (bytes : list Z) : val := vobj
  [("target", VStr target); ("path", VStr (expectedLogPath target)); ("sha256", VStr (sha256 bytes));
   ("bytes", vnum (Z.of_nat (length bytes))); ("status", vstr "pass")]%string.
Definition built_record (commit runner recordedAt : val) (targets : list val) : val := vobj
  [("schemaVersion", vnum 1); ("status", vstr "pass"); ("commit", commit); ("gate", vstr "linux-leak-sanitizer");
   ("evidenceKind", vstr "ci-command"); ("logEvidenceKind", vstr "linux-leak-sanitizer"); ("runner", runner);
   ("recordedAt", recordedAt); ("toolchain", VStr LSAN_TOOLCHAIN); ("sanitizer", vstr "leak"); ("runs", vnum LSAN_RUNS);
   ("checks", varr (map VStr LSAN_TARGETS)); ("targets", varr targets)]%string.
(** What the builder throws: an [Error] or what the validator throws. *)
Inductive build_error := BuildError (message : jsstr) | BuildThrew (e : jserr).
Definition buildLsanGateEvidence (logRoot pathPrefix : jsstr) (commit runner recordedAt : val) : result build_error val :=
  if negb (str_eqb pathPrefix LSAN_LOG_PATH_PREFIX)
  then Throw (BuildError (js "pathPrefix must equal " ++ LSAN_LOG_PATH_PREFIX)) else
  match traverse (fun target => bytes ← readLog logRoot target; Ok (built_target target bytes)) LSAN_TARGETS with
  | Throw message => Throw (BuildError message)
  | Ok targets =>
      let record := built_record commit runner recordedAt targets in
      match validateLsanEvidenceRecord record VUndef VUndef with
      | Throw e => Throw (BuildThrew e)
      | Ok findings =>
          if (0 <? length findings)%nat
          then Throw (BuildError (js "invalid LSAN evidence: " ++ join (js "; ") findings))
          else Ok record
      end
  end.
End lsan.
