(* ===== verification/LsanProps.v ===== *)
(** * Properties of the leak-sanitizer evidence

    What the record validator accepts, and that the records the builder makes pass the
    verification of the files they were made from. *)

From S2P Require Import Prelude JsNumber Regex JsValue JsDate JsText Host PathProps.
From S2P Require Import ContractsSpec PlatformSupportProps EvidenceSpec DeviceEvidenceProps DeviceFilesProps DeviceClaims LsanEvidence.
Open Scope js_scope.

Lemma lsan_add_if_nil c f d es : add_if c f d es = [] <-> c = false /\ es = [].
Proof. exact (EvidenceSpec.add_if_nil c f d es). Qed.
Lemma lsan_add_nil es f d : add es f d = [] <-> False.
Proof. exact (EvidenceSpec.add_nil es f d). Qed.

(** ** Records *)

Record Target_wf (v : val) : Prop := {
  target_record : is_record v = true;
  target_name : one_of LSAN_TARGETS v.["target"];
  target_path : forall t, v.["target"] = VStr t -> v.["path"] = VStr (expectedLogPath t);
  target_sha : matching SHA256 v.["sha256"];
  target_bytes : integer_within 1 MAX_LSAN_LOG_BYTES v.["bytes"];
  target_status : v.["status"] = vstr "pass";
}.
Definition target_of (v : val) : list jsstr := str_of v.["target"].
Definition expected_is (expected v : val) : Prop := expected = VUndef \/ (exists s, expected = VStr s /\ v = VStr s).
Definition lsan_timestamp (v : val) : Prop := exists s, v = VStr s /\ matches ISO_TIMESTAMP s /\ is_instant s.

Record Lsan_wf (record expectedCommit expectedGate : val) : Prop := {
  lsan_record : is_record record = true;
  lsan_version : eq_int record.["schemaVersion"] 1 = true;
  lsan_status : record.["status"] = vstr "pass";
  lsan_commit : matching COMMIT record.["commit"] /\ expected_is expectedCommit record.["commit"];
  lsan_gate : record.["gate"] = vstr "linux-leak-sanitizer" /\ expected_is expectedGate record.["gate"];
  lsan_kinds : record.["evidenceKind"] = vstr "ci-command" /\ record.["logEvidenceKind"] = vstr "linux-leak-sanitizer";
  lsan_runner : matching LABEL record.["runner"];
  lsan_recorded : lsan_timestamp record.["recordedAt"];
  lsan_campaign : record.["toolchain"] = VStr LSAN_TOOLCHAIN /\ record.["sanitizer"] = vstr "leak" /\
    eq_int record.["runs"] LSAN_RUNS = true;
  lsan_targets : exists slots, record.["targets"] = VArr slots /\ length slots = 4%nat /\
    Forall Target_wf (iterated slots) /\ NoDup (flat_map target_of (iterated slots));
}.

Lemma bad_bytes_spec v : bad_bytes v = false <-> integer_within 1 MAX_LSAN_LOG_BYTES v.
Proof.
  unfold bad_bytes, integer_within. destruct v as [| | |n| | | | | | |]; try (split; [done|by intros (? & ? & ? & _)]).
  rewrite !orb_false_iff, negb_false_iff, is_safe_integer_spec. split.
  - intros [[(z & Hz & _) H1] H2]. rewrite (num_leb_toZ _ _ _ _ Hz (num_toZ_num 0)) in H1.
    rewrite (num_ltb_toZ _ _ _ _ (num_toZ_num MAX_LSAN_LOG_BYTES) Hz) in H2. exists n, z. split_and!; [done..|lia|lia].
  - intros (n' & z & [= <-] & Hz & ? & ?). rewrite (num_leb_toZ _ _ _ _ Hz (num_toZ_num 0)),
      (num_ltb_toZ _ _ _ _ (num_toZ_num MAX_LSAN_LOG_BYTES) Hz).
    assert (MAX_LSAN_LOG_BYTES <= MAX_SAFE_INTEGER) by (vm_compute; discriminate).
    split; [split; [exists z; split; [done|lia]|lia]|lia].
Qed.
Lemma validateTimestamp_spec {host : Host} v : validateTimestamp v = Ok true <-> lsan_timestamp v.
Proof.
  unfold lsan_timestamp. destruct v as [| | | |s| | | | | |]; cbn [validateTimestamp]; try (split; [done|by intros (? & ? & _)]).
  destruct (re_match ISO_TIMESTAMP s) eqn:E; cbn [negb].
  - apply re_match_correct in E. rewrite bind_Ok. split.
    + intros (r & Hr & [= H]). apply str_eqb_eq in H as ->. exists s. split_and!; [done..|]. by apply reformat_fixed in Hr.
    + intros (s' & [= <-] & _ & Hi). exists s. split; [by apply reformat_fixed|]. by rewrite str_eqb_refl.
  - split; [done|]. intros (s' & [= <-] & Hm & _). apply re_match_correct in Hm. congruence.
Qed.
Lemma differs_is expected v : (exists s, v = VStr s) -> differs expected v = false <-> expected_is expected v.
Proof.
  intros [s ->]. unfold differs, expected_is. destruct expected; cbn; try naive_solver.
  rewrite negb_false_iff, str_eqb_eq. naive_solver.
Qed.
Lemma check_entry_nil es seen i v seen' :
  check_entry (es, seen) (i, v) = ([], seen') <->
  es = [] /\ Target_wf v /\ unseen seen (target_of v) /\ seen' = seen ++ target_of v.
Proof.
  unfold check_entry, isRecord, target_of. destruct (is_record v) eqn:Hr; cbn [negb].
  2: { split; [by intros [= H%lsan_add_nil _]|]. intros (_ & [] & _). congruence. }
  destruct (v.["target"]) as [| | | |t| | | | | |] eqn:Et;
    try (split; [|intros (_ & [_ (? & ? & _)] & _); congruence]; cbn [check_target];
      intros [H _]%pair_equal_spec; unfold check_path in H; repeat apply lsan_add_if_nil in H as [_ H]; by apply lsan_add_nil in H).
  cbn [check_target str_of]. destruct (str_in t LSAN_TARGETS) eqn:Ein; cbn [negb orb].
  2: { split; [|intros (_ & [_ (s & Hs & Hin)] & _); rewrite Et in Hs; injection Hs as <-; apply str_in_elem in Hin; congruence].
       intros [H _]%pair_equal_spec; unfold check_path in H. repeat apply lsan_add_if_nil in H as [_ H].
       rewrite Ein in H. apply lsan_add_if_nil in H as [_ H]. by apply lsan_add_nil in H. }
  unfold check_path. rewrite Ein, unseen_single. unfold set_has. case_bool_decide as Hs.
  { split; [|by intros (_ & _ & ? & _)]. intros [H _]%pair_equal_spec. repeat apply lsan_add_if_nil in H as [_ H].
    by apply lsan_add_nil in H. }
  rewrite pair_equal_spec, !lsan_add_if_nil, !negb_false_iff, !eq_str_spec, bad_bytes_spec, set_add_new by done.
  unfold is_matching. rewrite is_matching_spec. apply str_in_elem in Ein. split.
  - intros [(Hst & Hb & Hsha & Hp & ->) <-]. split_and!; try done. constructor; try done; [by exists t|].
    intros t' Ht'. rewrite Et in Ht'. by injection Ht' as <-.
  - intros (-> & [_ _ Hp Hsha Hb Hst] & _ & ->). split_and!; try done. by apply Hp.
Qed.
Lemma check_entries_nil l i es seen seen' :
  foldl check_entry (es, seen) (indexed_from i l) = ([], seen') <->
  es = [] /\ Forall Target_wf l /\ unseen seen (flat_map target_of l) /\ seen' = seen ++ flat_map target_of l.
Proof.
  revert i es seen; induction l as [|v l IH]; intros i es seen; cbn [indexed_from foldl flat_map].
  - rewrite app_nil_r. split; [intros [= -> ->]; split_and!; eauto using unseen_nil|]. by intros (-> & _ & _ & ->).
  - destruct (check_entry (es, seen) (i, v)) as [es1 seen1] eqn:E. rewrite IH, Forall_cons, unseen_app, app_assoc. split.
    + intros (-> & Hl & Hf & ->). apply check_entry_nil in E as (-> & Hv & Hfv & ->). done.
    + intros (-> & [Hv Hl] & [Hfv Hf] & ->). assert (E' : (es1, seen1) = ([], seen ++ target_of v))
        by (rewrite <- E; by apply check_entry_nil). by injection E' as -> ->.
Qed.
Lemma target_count l : Forall Target_wf l -> length (flat_map target_of l) = length l.
Proof.
  induction 1 as [|v l [_ (t & Ht & _)] Hl IH]; [done|]. cbn [flat_map]. rewrite length_app, IH.
  unfold target_of. by rewrite Ht.
Qed.

(** The campaign record is accepted exactly when it is the pinned sanitizer
    campaign, at the expected commit and gate, with a real timestamp and one entry for
    each of the four targets: its own log path, a digest, a bounded size, a pass. *)
Lemma validateLsanEvidenceRecord_wf {host : Host} record ec eg :
  validateLsanEvidenceRecord record ec eg = Ok [] <-> Lsan_wf record ec eg.
Proof.
  unfold validateLsanEvidenceRecord, isRecord. destruct (is_record record) eqn:Hr; cbn [negb].
  2: { split; [done|]. intros []. congruence. }
  assert (Htargets : forall es, match record.["targets"] with
    | VArr slots => if negb (length slots =? length LSAN_TARGETS)%nat
        then Ok (E := jserr) (add es (js "targets") (js "must contain exactly one entry for every required target"))
        else let '(es, seen) := foldl check_entry (es, []) (indexed (iterated slots)) in
          Ok (add_if (negb (length seen =? length LSAN_TARGETS)%nat) (js "targets")
                (js "must include every required target exactly once") es)
    | _ => Ok (add es (js "targets") (js "must contain exactly one entry for every required target")) end = Ok [] <->
    es = [] /\ exists slots, record.["targets"] = VArr slots /\ length slots = 4%nat /\
    Forall Target_wf (iterated slots) /\ NoDup (flat_map target_of (iterated slots))).
  { intros es. destruct (record.["targets"]) as [| | | | | | | |slots| |];
      try (split; [by intros H%Ok_inj%lsan_add_nil|by intros (_ & ? & ? & _)]).
    destruct (Nat.eqb_spec (length slots) (length LSAN_TARGETS)) as [El|El]; cbn [negb].
    2: { split; [by intros H%Ok_inj%lsan_add_nil|]. by intros (_ & s & [= <-] & ? & _). }
    destruct (foldl _ _ _) as [es1 seen] eqn:Ef. split.
    - intros H%Ok_inj. apply lsan_add_if_nil in H as [_ ->]. apply check_entries_nil in Ef as (-> & Hw & Hf%unseen_empty & _).
      split; [done|]. by exists slots.
    - intros (-> & s & [= <-] & _ & Hw & Hn). f_equal.
      assert (E : (es1, seen) = ([], flat_map target_of (iterated slots)))
        by (rewrite <- Ef; apply check_entries_nil; rewrite unseen_empty; done).
      injection E as -> ->. apply lsan_add_if_nil. split; [|done]. apply negb_false_iff, Nat.eqb_eq.
      rewrite target_count by done. unfold iterated. by rewrite length_map. }
  cbv zeta. rewrite bind_Ok. split.
  - intros (ok & Hok & [H Ht]%Htargets). rewrite !lsan_add_if_nil, !negb_false_iff, !eq_str_spec in H.
    destruct H as (Hruns & Hsan & Htool & -> & Hlab & Hlk & Hek & Hdg & Hg & Hc).
    destruct (is_matching COMMIT record.["commit"]) eqn:Em; cbn [negb] in Hc; [|by apply lsan_add_nil in Hc].
    apply lsan_add_if_nil in Hc as [Hdc Hc]. apply lsan_add_if_nil in Hc as [Hst%negb_false_iff%eq_str_spec Hc].
    apply lsan_add_if_nil in Hc as [Hv%negb_false_iff _]. apply is_matching_spec in Em, Hlab.
    apply differs_is in Hdc; [|destruct Em as (s & -> & _); by eexists]. apply differs_is in Hdg; [|rewrite Hg; by eexists].
    apply validateTimestamp_spec in Hok. by constructor.
  - intros [_ Hv Hst [Hc Hdc] [Hg Hdg] [Hek Hlk] Hlab Hrec (Htool & Hsan & Hruns) Ht].
    exists true. split; [by apply validateTimestamp_spec|]. apply Htargets. split; [|done].
    rewrite !lsan_add_if_nil, !negb_false_iff, !eq_str_spec.
    apply differs_is in Hdc; [|destruct Hc as (s & -> & _); by eexists].
    pose proof Hdg as Hdg'. apply differs_is in Hdg'; [|rewrite Hg; by eexists].
    apply is_matching_spec in Hlab, Hc. unfold is_matching. rewrite Hc, Hdc, Hv, (proj2 (eq_str_spec _ _) Hst).
    cbn [negb]. split_and!; done.
Qed.

(** ** Building and verifying *)

(** [realpath] of an existing path below a canonical directory that is no link. *)
Definition realpath_plain (host : Host) : Prop :=
  forall r x, Forall proper (r ++ [x]) -> realpathSync (abspath r) = Ok (abspath r) ->
    lstat_isSymbolicLink (abspath (r ++ [x])) = Ok false -> realpathSync (abspath (r ++ [x])) = Ok (abspath (r ++ [x])).

Lemma target_facts t : t ∈ LSAN_TARGETS ->
  proper (log_name t) /\ isSafeRelativePath (VStr (log_name t)) = true /\
  source_path LSAN_LOG_PATH_PREFIX (expectedLogPath t) = Some (log_name t) /\ str_in t LSAN_TARGETS = true.
Proof.
  assert (H : Forall (fun t => proper (log_name t) /\ isSafeRelativePath (VStr (log_name t)) = true /\
    source_path LSAN_LOG_PATH_PREFIX (expectedLogPath t) = Some (log_name t) /\ str_in t LSAN_TARGETS = true) LSAN_TARGETS).
  { repeat constructor; try discriminate; try (vm_compute; reflexivity); apply (bool_decide_unpack _); vm_compute; exact I. }
  rewrite Forall_forall in H. apply H.
Qed.
Section roundtrip.
Context {host : Host} (laws : HostLaws host) (plain : realpath_plain host).

(** A log the builder has read is the file the verifier finds. *)
Lemma realContainedFile_log root t bytes :
  t ∈ LSAN_TARGETS -> readLog root t = Ok bytes ->
  exists file stats, realContainedFile root (VStr (log_name t)) = Ok file /\ statSync file = Ok stats /\
    isFile stats = true /\ size stats <> 0 /\ size stats <= MAX_LSAN_LOG_BYTES /\ readFileSync file = Ok bytes /\
    hasSuccessMarker bytes t = true.
Proof.
  intros (Hp & Hsafe & _)%target_facts. unfold readLog. intros (R & HR & H)%bind_Ok.
  destruct (realpath_normal host laws _ _ HR) as (r & Hr & ->). pose proof (realpath_canonical host laws _ _ HR) as Hcan.
  assert (Hrt : Forall proper (r ++ [log_name t])) by (apply Forall_app; split; [done|by constructor]).
  assert (Hres : resolve2 cwd (abspath r) (log_name t) = abspath (r ++ [log_name t]))
    by (change (log_name t) with (join sep [log_name t]); by apply resolve2_proper; [|constructor|]).
  rewrite HR, Hres in H. cbn [mbind result_bind] in H.
  destruct (str_eqb _ _); cbn [negb] in H; [|done]. apply bind_Ok in H as ([] & Hlink & H); [done|].
  apply bind_Ok in H as (stats & Hst & H). destruct (isFile stats) eqn:Hfile; cbn [negb orb] in H; [|done].
  destruct (Z.eqb_spec (size stats) 0); [done|]. destruct (Z.ltb_spec MAX_LSAN_LOG_BYTES (size stats)); [done|].
  apply bind_Ok in H as (bytes' & Hb & H). destruct (hasSuccessMarker bytes' t) eqn:Hm; cbn [negb] in H; [|done].
  apply Ok_inj in H as ->. exists (abspath (r ++ [log_name t])), stats. split; [|done].
  pose proof (plain r (log_name t) Hrt Hcan Hlink) as Hreal.
  assert (Hin : outside (relative cwd (abspath r) (abspath (r ++ [log_name t]))) = false)
    by (apply outside_spec; [done|done|]; left; by exists [log_name t]).
  unfold realContainedFile. rewrite Hsafe, HR. cbn [negb mbind result_bind]. rewrite Hres, Hin.
  assert (Hscan : strict_scan (S (length (abspath (r ++ [log_name t])))) (abspath r) (abspath (r ++ [log_name t])) = Ok false).
  { cbn [strict_scan]. destruct (_ && _); [|done]. rewrite Hlink. cbn [mbind result_bind].
    rewrite dirname_abspath by (by apply proper_component || apply Hp).
    destruct (length _); cbn [strict_scan]; [done|]. by rewrite str_eqb_refl. }
  rewrite Hscan. cbn [mbind result_bind]. rewrite Hreal. cbn [mbind result_bind]. by rewrite Hin.
Qed.
Lemma verify_built_entry root t bytes i es :
  t ∈ LSAN_TARGETS -> readLog root t = Ok bytes ->
  verify_entry root LSAN_LOG_PATH_PREFIX es (i, built_target t bytes) = es.
Proof.
  intros Ht Hb. destruct (target_facts t Ht) as (_ & _ & Hsrc & Hin). unfold verify_entry.
  change (isRecord (built_target t bytes)) with true. change ((built_target t bytes).["target"]) with (VStr t).
  change ((built_target t bytes).["path"]) with (VStr (expectedLogPath t)). cbn iota. rewrite Hin, Hsrc. cbn [negb].
  destruct (realContainedFile_log root t bytes Ht Hb) as (file & stats & Hf & Hst & Hfile & H0 & Hmax & Hr & Hm).
  unfold verify_log. rewrite Hf. cbn [mbind result_bind]. rewrite Hst. cbn [mbind result_bind]. rewrite Hfile. cbn [negb].
  destruct (Z.eqb_spec (size stats) 0); [done|]. destruct (Z.ltb_spec MAX_LSAN_LOG_BYTES (size stats)); [lia|].
  rewrite Hr. cbn [mbind result_bind]. change ((built_target t bytes).["bytes"]) with (vnum (Z.of_nat (length bytes))).
  change ((built_target t bytes).["sha256"]) with (VStr (sha256 bytes)). cbn [vnum eq_str].
  rewrite (num_eqb_toZ _ _ _ _ (num_toZ_num _) (num_toZ_num _)), Z.eqb_refl, str_eqb_refl, Hm. done.
Qed.

(** C31. A record the builder returns verifies: for any file system whose [realpath] is
    canonical and which does not change in between, the verifier, run over the same log
    directory with the builder's path prefix, reports nothing - paths, sizes, digests and
    success markers all agree - and the record has the expected shape. *)
Theorem lsan_build_verify logRoot commit runner recordedAt record :
  logRoot <> [] ->
  buildLsanGateEvidence logRoot LSAN_LOG_PATH_PREFIX commit runner recordedAt = Ok record ->
  verifyLsanEvidenceFiles record logRoot LSAN_LOG_PATH_PREFIX = Ok [] /\ Lsan_wf record VUndef VUndef.
Proof.
  intros Hroot. unfold buildLsanGateEvidence. rewrite str_eqb_refl. cbn [negb].
  destruct (traverse _ LSAN_TARGETS) as [targets|m] eqn:Et; [|done].
  destruct (validateLsanEvidenceRecord _ VUndef VUndef) as [findings|e] eqn:Ev; [|done].
  destruct findings as [|f fs]; [|done]. intros <-%Ok_inj. split; [|by apply validateLsanEvidenceRecord_wf].
  unfold verifyLsanEvidenceFiles. rewrite Ev. cbn [mbind result_bind].
  change (isRecord (built_record commit runner recordedAt targets)) with true.
  change ((built_record commit runner recordedAt targets).["targets"]) with (varr targets). cbn [varr].
  destruct logRoot as [|c logRoot]; [done|]. f_equal.
  assert (Hit : iterated (map Some targets) = targets) by (unfold iterated; rewrite map_map; apply map_id).
  rewrite Hit. apply traverse_Ok in Et.
  assert (Hall : Forall (fun v => exists t bytes, t ∈ LSAN_TARGETS /\ readLog (c :: logRoot) t = Ok bytes /\ v = built_target t bytes) targets).
  { enough (Hg : forall l vs, Forall2 (fun x y => (bytes ← readLog (c :: logRoot) x; Ok (built_target x bytes)) = Ok y) l vs ->
      (forall t, t ∈ l -> t ∈ LSAN_TARGETS) -> Forall (fun v => exists t bytes, t ∈ LSAN_TARGETS /\
        readLog (c :: logRoot) t = Ok bytes /\ v = built_target t bytes) vs) by by apply (Hg _ _ Et).
    intros l vs H Hsub. induction H as [|t v l vs Hv H IH]; [constructor|].
    constructor; [|apply IH; intros x Hx; apply Hsub; by right]. apply bind_Ok in Hv as (bytes & Hb & <-%Ok_inj).
    exists t, bytes. split_and!; [apply Hsub; left|done|done]. }
  clear -Hall laws plain. generalize O. induction Hall as [|v vs (t & bytes & Ht & Hb & ->) Hall IH]; intros i; [done|].
  cbn [indexed_from foldl]. rewrite verify_built_entry by done. apply IH.
Qed.
End roundtrip.

(** A log directory in which each log is its target's success marker. *)
Definition lsan_host : Host := {|
  cwd := js "/work";
  realpathSync := fun p => Ok (resolve1 (js "/work") p);
  lstat_isSymbolicLink := fun _ => Ok false;
  statSync := fun _ => Ok {| isFile := true; size := 120 |};
  readFileSync := fun p =>
    match find (fun t => str_eqb p (js "/logs/" ++ log_name t)) LSAN_TARGETS with
    | Some t => Ok (successMarker t ++ [10])
    | None => Throw (js "ENOENT")
    end;
  sha256 := fun _ => repeat 97 64;
  JSON_parse := fun _ => Ok VNull;
  public_key_type := fun _ => Throw [];
  verify := fun _ _ _ => Ok false;
  other_format := fun _ => None;
  error_message := fun _ => js "error";
|}.
Definition sample_campaign : result build_error val :=
  @buildLsanGateEvidence lsan_host (js "/logs") LSAN_LOG_PATH_PREFIX (sample_hex 40) (vstr "ubuntu-24.04")
    (vstr "2026-08-22T10:00:00.000Z").
Lemma lsan_build_verify_witness :
  exists record, sample_campaign = Ok record /\
    (@verifyLsanEvidenceFiles lsan_host record (js "/logs") LSAN_LOG_PATH_PREFIX = Ok []) /\ Lsan_wf record VUndef VUndef.
Proof.
  destruct sample_campaign as [record|e] eqn:E; [|vm_compute in E; discriminate E].
  exists record. split; [reflexivity|].
  refine (@lsan_build_verify lsan_host _ _ (js "/logs") _ _ _ record _ E); [| |discriminate].
  - destruct (plain_host_laws VNull) as [H1 H2]. constructor; [exact H1|exact H2].
  - intros r x Hr _ _. cbn. f_equal. apply resolve1_abspath. exact Hr.
Defined.
