(* ===== verification/ReleaseEvidence.v ===== *)
(** * scripts/check-release-evidence.mjs: the manifest

    [validateReleaseEvidence] and [validateSignatureDescriptor].  The collections the
    validators fill are passed explicitly.  The review report is in ReviewReport, the
    file checks and the command are in ReleaseFiles. *)

From S2P Require Import Prelude JsNumber Regex JsValue JsDate JsText Host.
From S2P Require PlatformSupport DeviceEvidence LsanEvidence.
Open Scope js_scope.

Definition COMMIT : re := rexactly 40 (RCls [(48, 57); (97, 102)]).
Definition SHA256 : re := rexactly 64 (RCls [(97, 102); (48, 57)]).
Definition digits : re := rplus (RCls [(48, 57)]).
(** [[0-9A-Za-z.-]+] *)
Definition identifiers : re := rplus (RCls [(48, 57); (65, 90); (97, 122); (46, 46); (45, 45)]).
Definition VERSION : re :=
  RSeq digits (RSeq (rchr 46) (RSeq digits (RSeq (rchr 46) (RSeq digits
    (RSeq (ropt (RSeq (rchr 45) identifiers)) (ropt (RSeq (rchr 43) identifiers))))))).
(** [/password|..|rawInput|input(?:Value|Text|Bytes)|^value$/i] *)
Definition SECRET_KEY (key : jsstr) : bool :=
  re_search (ralts (map rlit_ci (map js
    ["password"; "passphrase"; "secret"; "sentinel"; "plaintext"; "credentialValue"; "credentialBytes"; "rawInput";
     "inputValue"; "inputText"; "inputBytes"]%string))) key
  || re_match (rlit_ci (js "value")) key.
Definition REVIEW_REPORT_TYPE : jsstr := js "independent-security-review".
Definition REVIEW_SCOPE : list jsstr := map js
  ["native-input-boundary"; "opaque-authentication"; "http-json-transport"; "replay-rate-limit-backends";
   "framework-adapters"; "device-runtime-evidence"; "release-process"]%string.
Definition REVIEW_DECISIONS : list jsstr := map js ["approved"; "approved-with-residual-risk"; "not-approved"]%string.
Definition REVIEW_FINDING_SEVERITIES : list jsstr := map js ["critical"; "high"; "medium"; "low"; "informational"]%string.
Definition REVIEW_FINDING_STATUSES : list jsstr := map js ["open"; "accepted"; "remediated"]%string.
Definition REQUIRED_RELEASE_GATES : list jsstr := map js
  ["rust-workspace"; "javascript-contracts"; "http-contract-version-parity"; "opaque-protocol-parity"; "native-parity";
   "release-version-parity"; "framework-host-builds"; "fuzz-stability"; "linux-leak-sanitizer"; "durable-backends";
   "ios-device-matrix"; "android-device-matrix"; "web-browser-matrix"; "independent-security-review";
   "signed-release"]%string.
Definition REQUIRED_RELEASE_TOOLCHAINS : list (jsstr * jsstr) :=
  [(js "rust", js "1.97.1"); (js "node", js "22.13.0"); (js "pnpm", js "11.19.0"); (js "flutter", js "3.47.0");
   (js "reactNative", js "0.87.0"); (js "ndk", js "27.1.12297006")].
Definition required_artifacts : list jsstr := map js
  ["native-checksum"; "native-checksum-android"; "sbom"; "license-notices"; "release-bundle"; "release-public-key";
   "release-signature"; "independent-review-report"; "independent-review-public-key"; "independent-review-signature"]%string.

Definition isRecord : val -> bool := is_record.
Definition isSafeRelativePath : val -> bool := DeviceEvidence.isSafeRelativePath.
Definition is_matching : re -> val -> bool := PlatformSupport.is_matching.
(** [RE.test(v)], which converts its argument. *)
Definition re_test (p : re) (v : val) : result jserr bool := s ← to_string v; Ok (re_match p s).
Definition add (findings : list jsstr) (field detail : jsstr) : list jsstr := findings ++ [field ++ js ": " ++ detail].
Definition add_if (c : bool) (field detail : jsstr) (findings : list jsstr) : list jsstr :=
  if c then add findings field detail else findings.
Definition dot (p k : jsstr) : jsstr := p ++ js "." ++ k.
Definition nth_of (p : jsstr) (i : nat) : jsstr := p ++ js "[" ++ dec_nat i ++ js "]".

Definition checkHash (field : jsstr) (value : val) (findings : list jsstr) : list jsstr :=
  add_if (negb (is_matching SHA256 value)) field (js "must be a lowercase SHA-256 digest") findings.
Definition checkEvidencePath (field : jsstr) (value : val) (findings : list jsstr) : list jsstr :=
  add_if (negb (isSafeRelativePath value)) field
    (js "must be a canonical relative path without empty, dot, or parent components") findings.
Definition checkUniquePath (field : jsstr) (value : val) (st : list jsstr * list jsstr) : list jsstr * list jsstr :=
  let '(findings, paths) := st in
  match value with
  | VStr p =>
      if negb (isSafeRelativePath value) then st
      else if set_has p paths
      then (add findings field (js "must be unique across release evidence"), paths)
      else (findings, set_add p paths)
  | _ => st
  end.

(** The prefix of the entries of [value]; ["manifest"] stands for none. *)
Definition nested_field (field key : jsstr) : jsstr :=
  if str_eqb field (js "manifest") then key else dot field key.
Fixpoint checkSecretKeys (value : val) (field : jsstr) (findings : list jsstr) : list jsstr :=
  match value with
  | VArr l =>
      (fix items (index : nat) (l : list (option val)) findings :=
         match l with
         | [] => findings
         | None :: l' => items (S index) l' findings
         | Some nested :: l' =>
             let key := dec_nat index in
             let findings := add_if (SECRET_KEY key) (nested_field field key)
               (js "secret-bearing fields are forbidden") findings in
             items (S index) l' (checkSecretKeys nested (nested_field field key) findings)
         end) O l findings
  | VObj ps =>
      (fix members (ps : list (jsstr * val)) findings :=
         match ps with
         | [] => findings
         | (key, nested) :: ps' =>
             let findings := add_if (SECRET_KEY key) (nested_field field key)
               (js "secret-bearing fields are forbidden") findings in
             members ps' (checkSecretKeys nested (nested_field field key) findings)
         end) ps findings
  | _ => findings
  end.

(** A string that is not the rendering of the instant it denotes. *)
Definition bad_instant {host : Host} (v : val) : bool :=
  match v with
  | VStr s => match Date_parse other_format s with None => true | Some t => negb (str_eqb (iso_string t) s) end
  | _ => true
  end.
(** [expected && v !== expected] *)
Definition mismatch (expected v : val) : bool := truthy expected && negb (strict_eq v expected).
(** [expected !== undefined && v !== expected] *)
Definition differs (expected v : val) : bool := negb (is_undefined expected) && negb (strict_eq v expected).

(** The expected values; the type says string or absent. *)
Record Context := {
  expectedCommit : val;
  expectedPackageVersion : val;
  expectedReleasePublicKeySha256 : val;
  expectedReviewerPublicKeySha256 : val;
}.

(** ** Detached signatures *)

(** A map from artifact paths to artifacts: the last [set] of a path counts. *)
Definition artifact_map := list (jsstr * val).
Definition map_get (m : artifact_map) (path : val) : val :=
  match path with
  | VStr p => match find (fun kv => str_eqb p kv.1) m with Some kv => kv.2 | None => VUndef end
  | _ => VUndef
  end.
Definition map_set (m : artifact_map) (path : val) (artifact : val) : artifact_map :=
  match path with VStr p => (p, artifact) :: m | _ => m end.

Record SignatureKinds := { signedArtifactKind : jsstr; publicKeyKind : jsstr; signatureKind : jsstr }.
(** What the reviewed commit and version are compared with, when they are required. *)
Record Binding := { bound_commit : val; bound_version : val }.

Definition check_reviewed_commit (fieldName : jsstr) (expected reviewed : val) (findings : list jsstr) : list jsstr :=
  if negb (is_matching COMMIT reviewed)
  then add findings (dot fieldName (js "reviewedCommit")) (js "must be the exact 40-character reviewed commit SHA")
  else add_if (mismatch expected reviewed) (dot fieldName (js "reviewedCommit")) (js "must match the manifest commit") findings.
Definition check_reviewed_version (fieldName : jsstr) (expected reviewed : val) (findings : list jsstr) : list jsstr :=
  if negb (is_matching VERSION reviewed)
  then add findings (dot fieldName (js "reviewedPackageVersion")) (js "must be the reviewed semantic package version")
  else add_if (mismatch expected reviewed) (dot fieldName (js "reviewedPackageVersion"))
         (js "must match the manifest package version") findings.
Definition check_artifact_kind (fieldName : jsstr) (field : String.string) (descriptor : val) (artifactsByPath : artifact_map)
    (kind : jsstr) (findings : list jsstr) : list jsstr :=
  let artifact := map_get artifactsByPath (get descriptor (js field)) in
  add_if (negb (eq_str artifact.["kind"] kind)) (dot fieldName (js field))
    (js "must reference the " ++ kind ++ js " artifact") findings.
Definition validateSignatureDescriptor (fieldName : jsstr) (descriptor : val) (artifactsByPath : artifact_map)
    (expectedKinds : SignatureKinds) (trustedPublicKeySha256 : val) (binding : option Binding) (findings : list jsstr)
    : list jsstr :=
  if negb (isRecord descriptor)
  then add findings fieldName (js "must contain an Ed25519 detached-signature descriptor") else
  let findings := add_if (negb (eq_str descriptor.["algorithm"] (js "ed25519"))) (dot fieldName (js "algorithm"))
    (js "must equal ed25519") findings in
  let findings := foldl (fun findings field => checkEvidencePath (dot fieldName (js field)) (get descriptor (js field)) findings)
    findings ["publicKeyPath"; "signedArtifactPath"; "signaturePath"]%string in
  let findings := checkHash (dot fieldName (js "publicKeySha256")) descriptor.["publicKeySha256"] findings in
  let findings := add_if (differs trustedPublicKeySha256 descriptor.["publicKeySha256"])
    (dot fieldName (js "publicKeySha256")) (js "must match the trusted public-key fingerprint") findings in
  let findings :=
    match binding with
    | None => findings
    | Some b =>
        check_reviewed_version fieldName (bound_version b) descriptor.["reviewedPackageVersion"]
          (check_reviewed_commit fieldName (bound_commit b) descriptor.["reviewedCommit"] findings)
    end in
  let findings := check_artifact_kind fieldName "signedArtifactPath" descriptor artifactsByPath
    (signedArtifactKind expectedKinds) findings in
  let findings := check_artifact_kind fieldName "publicKeyPath" descriptor artifactsByPath
    (publicKeyKind expectedKinds) findings in
  check_artifact_kind fieldName "signaturePath" descriptor artifactsByPath (signatureKind expectedKinds) findings.

(** ** The manifest *)

Section manifest.
Context {host : Host} (context : Context) (evidence : val).

Definition check_commit (findings : list jsstr) : list jsstr :=
  if negb (is_matching COMMIT evidence.["commit"])
  then add findings (js "commit") (js "must be a 40-character lowercase commit SHA")
  else add_if (mismatch (expectedCommit context) evidence.["commit"]) (js "commit")
         (js "must match the current checkout commit") findings.
Definition check_version (findings : list jsstr) : list jsstr :=
  if negb (is_matching VERSION evidence.["packageVersion"])
  then add findings (js "packageVersion") (js "must be a semantic version")
  else add_if (mismatch (expectedPackageVersion context) evidence.["packageVersion"]) (js "packageVersion")
         (js "must match the current release version") findings.
Definition check_toolchain (toolchains : val) (findings : list jsstr) (required : jsstr * jsstr) : list jsstr :=
  let '(toolchain, version) := required in
  match get toolchains toolchain with
  | VStr ((_ :: _) as v) =>
      add_if (negb (str_eqb v version)) (js "toolchains." ++ toolchain) (js "must equal " ++ version) findings
  | _ => add findings (js "toolchains." ++ toolchain) (js "must be a non-empty pinned version")
  end.
Definition check_toolchains (findings : list jsstr) : list jsstr :=
  if negb (isRecord evidence.["toolchains"])
  then add findings (js "toolchains") (js "must contain pinned toolchain versions")
  else foldl (check_toolchain evidence.["toolchains"]) findings REQUIRED_RELEASE_TOOLCHAINS.

(** Findings, names of the gates so far, referenced paths. *)
Definition gate_state : Type := list jsstr * list jsstr * list jsstr.
Definition check_gate_name (field : jsstr) (name : val) (st : list jsstr * list jsstr) : list jsstr * list jsstr :=
  let '(findings, names) := st in
  match name with
  | VStr ((_ :: _) as n) =>
      if negb (str_in n REQUIRED_RELEASE_GATES)
      then (add findings (dot field (js "name")) (js "must be a supported release gate"), names)
      else if set_has n names
      then (add findings (dot field (js "name")) (js "must not be duplicated"), names)
      else (findings, set_add n names)
  | _ => (add findings (dot field (js "name")) (js "must be a non-empty gate name"), names)
  end.
Definition check_gate_commit (field : jsstr) (commit : val) (findings : list jsstr) : result jserr (list jsstr) :=
  let field := dot field (js "commit") in
  if negb (is_matching COMMIT commit)
  then Ok (add findings field (js "must be the exact 40-character gate commit SHA")) else
  manifest ← re_test COMMIT evidence.["commit"];
  Ok (if manifest && negb (strict_eq commit evidence.["commit"])
      then add findings field (js "must match the manifest commit")
      else add_if (mismatch (expectedCommit context) commit) field (js "must match the current checkout commit") findings).
Definition check_gate (st : gate_state) (entry : nat * val) : result jserr gate_state :=
  let '(findings, names, paths) := st in
  let '(index, gate) := entry in
  let field := nth_of (js "gates") index in
  if negb (isRecord gate) then Ok (add findings field (js "must be an object"), names, paths) else
  let '(findings, names) := check_gate_name field gate.["name"] (findings, names) in
  findings ← check_gate_commit field gate.["commit"] findings;
  let findings := add_if (negb (eq_str gate.["status"] (js "pass"))) (dot field (js "status")) (js "must equal pass") findings in
  let findings := checkEvidencePath (dot field (js "evidencePath")) gate.["evidencePath"] findings in
  let '(findings, paths) := checkUniquePath (dot field (js "evidencePath")) gate.["evidencePath"] (findings, paths) in
  Ok (checkHash (dot field (js "sha256")) gate.["sha256"] findings, names, paths).
Definition missing (field : jsstr) (what : jsstr) (present required : list jsstr) (findings : list jsstr) : list jsstr :=
  foldl (fun findings name => add_if (negb (set_has name present)) field (js "missing required " ++ what ++ js " " ++ name)
    findings) findings required.
Definition check_gates (findings : list jsstr) : result jserr (list jsstr * list jsstr) :=
  '(findings, names, paths) ←
    match evidence.["gates"] with
    | VArr slots => DeviceEvidence.foldM check_gate (findings, [], []) (present slots)
    | _ => Ok (add findings (js "gates") (js "must contain every required release gate"), [], [])
    end;
  Ok (missing (js "gates") (js "gate") names REQUIRED_RELEASE_GATES findings, paths).

(** Findings, kinds so far, referenced paths, artifacts by path. *)
Definition artifact_state : Type := list jsstr * list jsstr * list jsstr * artifact_map.
Definition check_artifact_name (field : jsstr) (kind : val) (st : list jsstr * list jsstr) : list jsstr * list jsstr :=
  let '(findings, kinds) := st in
  match kind with
  | VStr ((_ :: _) as k) =>
      if set_has k kinds
      then (add findings (dot field (js "kind")) (js "must not be duplicated"), kinds)
      else (findings, set_add k kinds)
  | _ => (add findings (dot field (js "kind")) (js "must be a non-empty artifact kind"), kinds)
  end.
Definition check_artifact (st : artifact_state) (entry : nat * val) : artifact_state :=
  let '(findings, kinds, paths, byPath) := st in
  let '(index, artifact) := entry in
  let field := nth_of (js "artifacts") index in
  if negb (isRecord artifact) then (add findings field (js "must be an object"), kinds, paths, byPath) else
  let '(findings, kinds) := check_artifact_name field artifact.["kind"] (findings, kinds) in
  let findings := checkEvidencePath (dot field (js "path")) artifact.["path"] findings in
  let '(findings, paths) := checkUniquePath (dot field (js "path")) artifact.["path"] (findings, paths) in
  let byPath := if isSafeRelativePath artifact.["path"] then map_set byPath artifact.["path"] artifact else byPath in
  (checkHash (dot field (js "sha256")) artifact.["sha256"] findings, kinds, paths, byPath).
Definition check_artifacts (findings paths : list jsstr) : list jsstr * artifact_map :=
  let '(findings, kinds, _, byPath) :=
    match evidence.["artifacts"] with
    | VArr ((_ :: _) as slots) => foldl check_artifact (findings, [], paths, []) (present slots)
    | _ => (add findings (js "artifacts") (js "must contain hashed release artifacts"), [], paths, [])
    end in
  (missing (js "artifacts") (js "artifact") kinds required_artifacts findings, byPath).

Definition release_kinds : SignatureKinds := {|
  signedArtifactKind := js "release-bundle"; publicKeyKind := js "release-public-key";
  signatureKind := js "release-signature" |}.
Definition review_kinds : SignatureKinds := {|
  signedArtifactKind := js "independent-review-report"; publicKeyKind := js "independent-review-public-key";
  signatureKind := js "independent-review-signature" |}.
Definition same_key (signature independentReview : val) : bool :=
  isRecord signature && isRecord independentReview &&
  match signature.["publicKeySha256"], independentReview.["publicKeySha256"] with
  | VStr a, VStr b => str_eqb a b
  | _, _ => false
  end.
Definition check_signatures (byPath : artifact_map) (findings : list jsstr) : list jsstr :=
  let findings := validateSignatureDescriptor (js "signature") evidence.["signature"] byPath release_kinds
    (expectedReleasePublicKeySha256 context) None findings in
  let findings := validateSignatureDescriptor (js "independentReview") evidence.["independentReview"] byPath review_kinds
    (expectedReviewerPublicKeySha256 context)
    (Some {| bound_commit := expectedCommit context; bound_version := expectedPackageVersion context |}) findings in
  add_if (same_key evidence.["signature"] evidence.["independentReview"]) (js "independentReview.publicKeySha256")
    (js "must use a distinct public key from the maintainer release signature") findings.

Definition validateReleaseEvidence : result jserr (list jsstr) :=
  if negb (isRecord evidence) then Ok [js "manifest: must be a JSON object"] else
  let findings := checkSecretKeys evidence (js "manifest") [] in
  let findings := add_if (negb (eq_int evidence.["schemaVersion"] 1)) (js "schemaVersion") (js "must equal 1") findings in
  let findings := check_commit findings in
  let findings := add_if (bad_instant evidence.["createdAt"]) (js "createdAt") (js "must be an ISO-8601 UTC timestamp") findings in
  let findings := check_toolchains (check_version findings) in
  '(findings, paths) ← check_gates findings;
  let '(findings, byPath) := check_artifacts findings paths in
  Ok (check_signatures byPath findings).
End manifest.
