(* ===== verification/ReviewReport.v ===== *)
(** * scripts/check-release-evidence.mjs: the independent review report

    [validateIndependentReviewReport], finding by finding.  The only conversion that may
    throw is that of a finding's identifier in the message about an open critical or
    high finding. *)

From S2P Require Import Prelude JsNumber Regex JsValue JsText ReleaseEvidence.
From S2P Require DeviceEvidence.
Open Scope js_scope.

Record ReviewContext := {
  review_commit : val;
  review_version : val;
  review_key : val;
}.
Definition report_field : jsstr := js "independentReview.report".
Definition report_keys : list jsstr := map js
  ["schemaVersion"; "reportType"; "reviewedCommit"; "reviewedPackageVersion"; "reviewerPublicKeySha256"; "scope";
   "findings"; "decision"]%string.
Definition finding_keys : list jsstr := map js
  ["id"; "severity"; "status"; "summary"; "affectedScope"; "reproduction"; "remediationOwner"; "retestEvidence"]%string.
(** [/^[A-Z0-9][A-Z0-9._-]{0,31}$/] *)
Definition FINDING_ID : re :=
  RSeq (RCls [(65, 90); (48, 57)]) (rupto 31 (RCls [(65, 90); (48, 57); (46, 46); (95, 95); (45, 45)])).
(** The three bounded texts of a finding. *)
Definition finding_texts : list (String.string * nat) :=
  [("reproduction", 4096%nat); ("remediationOwner", 256%nat); ("retestEvidence", 4096%nat)]%string.

Definition unsupported (v : val) (allowed : list jsstr) (field detail : jsstr) (findings : list jsstr) : list jsstr :=
  foldl (fun findings key => add_if (negb (str_in key allowed)) (dot field key) detail findings) findings (keys v).
(** Not a string, empty, longer than [maximum] or with a line break. *)
Definition bad_line (maximum : nat) (v : val) : bool :=
  match v with
  | VStr s => (length s =? 0)%nat || (maximum <? length s)%nat || existsb (fun c => (c =? 13) || (c =? 10)) s
  | _ => true
  end.

Definition check_report_commit (context : ReviewContext) (reviewed : val) (findings : list jsstr) : list jsstr :=
  let field := dot report_field (js "reviewedCommit") in
  if negb (is_matching COMMIT reviewed)
  then add findings field (js "must be the exact 40-character reviewed commit SHA")
  else add_if (mismatch (review_commit context) reviewed) field (js "must match the expected release commit") findings.
Definition check_report_version (context : ReviewContext) (reviewed : val) (findings : list jsstr) : list jsstr :=
  let field := dot report_field (js "reviewedPackageVersion") in
  if negb (is_matching VERSION reviewed)
  then add findings field (js "must be the reviewed semantic package version")
  else add_if (mismatch (review_version context) reviewed) field
         (js "must match the expected release package version") findings.
Definition check_report_key (context : ReviewContext) (key : val) (findings : list jsstr) : result jserr (list jsstr) :=
  let field := dot report_field (js "reviewerPublicKeySha256") in
  s ← String_ key;
  Ok (if negb (re_match SHA256 s)
      then add findings field (js "must be a lowercase SHA-256 digest")
      else add_if (mismatch (review_key context) key) field
             (js "must match the signed-report public-key fingerprint") findings).
Definition check_scope (scope : val) (findings : list jsstr) : list jsstr :=
  let field := dot report_field (js "scope") in
  match scope with
  | VArr slots =>
      if (length slots =? 0)%nat || (length REVIEW_SCOPE <? length slots)%nat
      then add findings field (js "must contain the complete independent-review scope") else
      let size := set_size (iterated slots) in
      let findings := add_if (negb (size =? length slots)%nat || negb (size =? length REVIEW_SCOPE)%nat) field
        (js "must contain each required scope exactly once") findings in
      foldl (fun findings required => add_if (negb (existsb (fun v => eq_str v required) (iterated slots))) field
        (js "must include " ++ required) findings) findings REVIEW_SCOPE
  | _ => add findings field (js "must contain the complete independent-review scope")
  end.

(** ** One finding *)

Definition is_open_serious (finding : val) : bool :=
  (eq_str finding.["severity"] (js "critical") || eq_str finding.["severity"] (js "high"))
  && eq_str finding.["status"] (js "open").
Definition check_open (finding : val) (field : jsstr) (findings : list jsstr) : result jserr (list jsstr) :=
  if is_open_serious finding then
    id ← to_string finding.["id"];
    Ok (add findings (dot field (js "status"))
          (id ++ js " critical/high findings must be accepted or remediated before release"))
  else Ok findings.
Definition check_affected (scope : val) (field : jsstr) (findings : list jsstr) : list jsstr :=
  let field := dot field (js "affectedScope") in
  match scope with
  | VArr slots =>
      if (length slots =? 0)%nat || (length REVIEW_SCOPE <? length slots)%nat
      then add findings field (js "must contain one or more supported review scopes") else
      let findings := add_if (negb (set_size (iterated slots) =? length slots)%nat) field
        (js "must not contain duplicate review scopes") findings in
      foldl (fun findings scope => add_if (negb (includes_str REVIEW_SCOPE scope)) field
        (js "must contain supported review scopes only") findings) findings (iterated slots)
  | _ => add findings field (js "must contain one or more supported review scopes")
  end.
Definition check_finding (findings : list jsstr) (entry : nat * val) : result jserr (list jsstr) :=
  let '(index, finding) := entry in
  let field := nth_of (dot report_field (js "findings")) index in
  if negb (isRecord finding) then Ok (add findings field (js "must be an object")) else
  let findings := unsupported finding finding_keys field (js "unsupported finding field") findings in
  let findings := add_if (negb (is_matching FINDING_ID finding.["id"])) (dot field (js "id"))
    (js "must be a bounded finding identifier") findings in
  let findings := add_if (negb (includes_str REVIEW_FINDING_SEVERITIES finding.["severity"])) (dot field (js "severity"))
    (js "must be a supported severity") findings in
  let findings := add_if (negb (includes_str REVIEW_FINDING_STATUSES finding.["status"])) (dot field (js "status"))
    (js "must be a supported status") findings in
  findings ← check_open finding field findings;
  let findings := add_if (bad_line 500 finding.["summary"]) (dot field (js "summary"))
    (js "must be a bounded single-line summary") findings in
  let findings := check_affected finding.["affectedScope"] field findings in
  Ok (foldl (fun findings '(key, maximum) => add_if (bad_line maximum (get finding (js key))) (dot field (js key))
        (js "must be bounded, non-empty, and single-line") findings) findings finding_texts).
Definition check_findings (list_ : val) (findings : list jsstr) : result jserr (list jsstr) :=
  let overflow := add findings (dot report_field (js "findings")) (js "must be an array with at most 256 entries") in
  match list_ with
  | VArr slots =>
      if (256 <? length slots)%nat then Ok overflow else DeviceEvidence.foldM check_finding findings (present slots)
  | _ => Ok overflow
  end.
Definition check_decision (decision : val) (findings : list jsstr) : list jsstr :=
  let field := dot report_field (js "decision") in
  if negb (includes_str REVIEW_DECISIONS decision)
  then add findings field (js "must be an explicit release decision")
  else add_if (eq_str decision (js "not-approved")) field (js "must approve the reviewed release") findings.

Definition validateIndependentReviewReport (context : ReviewContext) (report : val) : result jserr (list jsstr) :=
  if negb (isRecord report) then Ok [report_field ++ js ": must be a JSON object"] else
  let findings := checkSecretKeys report report_field [] in
  let findings := unsupported report report_keys report_field (js "unsupported review report field") findings in
  let findings := add_if (negb (eq_int report.["schemaVersion"] 1)) (dot report_field (js "schemaVersion"))
    (js "must equal 1") findings in
  let findings := add_if (negb (eq_str report.["reportType"] REVIEW_REPORT_TYPE)) (dot report_field (js "reportType"))
    (js "must equal " ++ REVIEW_REPORT_TYPE) findings in
  let findings := check_report_commit context report.["reviewedCommit"] findings in
  let findings := check_report_version context report.["reviewedPackageVersion"] findings in
  findings ← check_report_key context report.["reviewerPublicKeySha256"] findings;
  let findings := check_scope report.["scope"] findings in
  findings ← check_findings report.["findings"] findings;
  Ok (check_decision report.["decision"] findings).
