(* ===== verification/ReviewProps.v ===== *)
(** * What the review-report validator accepts *)

From S2P Require Import Prelude JsNumber Regex JsValue JsText JsDate Host.
From S2P Require Import ContractsSpec PlatformSupportProps EvidenceSpec DeviceEvidenceProps ReleaseEvidence ReviewReport.
Open Scope js_scope.

(** ** Findings *)

Lemma release_add_nil es f d : add es f d = [] <-> False.
Proof. exact (EvidenceSpec.add_nil es f d). Qed.
Lemma release_add_if_nil c f d es : add_if c f d es = [] <-> c = false /\ es = [].
Proof. exact (EvidenceSpec.add_if_nil c f d es). Qed.
Lemma release_foldl_nil {A} (c : A -> bool) (p d : A -> jsstr) (l : list A) es :
  foldl (fun es x => add_if (c x) (p x) (d x) es) es l = [] <-> es = [] /\ Forall (fun x => c x = false) l.
Proof. exact (EvidenceSpec.foldl_add_if_nil c p d l es). Qed.
(** A loop of checks that each report nothing exactly on the good elements. *)
Lemma foldM_nil {A} (f : list jsstr -> nat * A -> result jserr (list jsstr)) (P : A -> Prop) :
  (forall es i v, f es (i, v) = Ok [] <-> es = [] /\ P v) ->
  forall l es, DeviceEvidence.foldM f es l = Ok [] <-> es = [] /\ Forall P l.*2.
Proof.
  intros Hf l. induction l as [|[i v] l IH]; intros es; cbn [DeviceEvidence.foldM fmap list_fmap snd].
  - rewrite Forall_nil. split; [by intros ->%Ok_inj|by intros [-> _]].
  - rewrite bind_Ok, Forall_cons. setoid_rewrite IH. split.
    + intros (es1 & H1 & -> & H2). by apply Hf in H1 as [-> ?].
    + intros (-> & H1 & H2). exists []. split; [by apply Hf|done].
Qed.

(** ** Secret-bearing keys *)

(** A digit leaves the search automaton where it is. *)
Lemma digits_no_secret s : Forall (fun c => 48 <= c <= 57) s -> SECRET_KEY s = false.
Proof.
  intros Hs. unfold SECRET_KEY. apply orb_false_iff.
  assert (Hd : forall c, 48 <= c <= 57 -> c ∈ [48; 49; 50; 51; 52; 53; 54; 55; 56; 57]).
  { intros c Hc. rewrite !elem_of_cons. lia. }
  split.
  - unfold re_search. induction Hs as [|c s Hc Hs IH]; [by vm_compute|]. apply Hd in Hc.
    cbn [re_match]. etransitivity; [|exact IH]. f_equal.
    revert c Hc. apply Forall_forall. repeat constructor.
  - destruct Hs as [|c s Hc Hs]; [done|]. apply Hd in Hc. cbn [re_match].
    assert (E : deriv c (rlit_ci (js "value")) = RNone) by (revert c Hc; apply Forall_forall; repeat constructor).
    rewrite E. clear. induction s as [|c s IH]; [done|exact IH].
Qed.
Lemma checkSecretKeys_nil v p es : checkSecretKeys v p es = [] <-> es = [] /\ free_of SECRET_KEY v.
Proof.
  revert p es; induction v as [| | | | | | | | l IH|ps IH|] using val_nested_ind; intros p es;
    try (cbn; pose proof (free_of_leaf SECRET_KEY) as Hf; split; [intros; split; [done|by apply Hf]|by intros [? _]]).
  - rewrite free_of_arr. cbn [checkSecretKeys]. generalize O. revert es.
    induction IH as [|[w|] l Hw IH IHl]; intros es i; [rewrite Forall_nil; tauto| |].
    + rewrite IHl, Forall_cons, (Hw (nested_field p (dec_nat i))), release_add_if_nil, (digits_no_secret (dec_nat i) (dec_is_digits _)). cbn. tauto.
    + rewrite IHl, Forall_cons. cbn. tauto.
  - rewrite free_of_obj. cbn [checkSecretKeys]. revert es.
    induction IH as [|[k w] ps Hw IH IHl]; intros es; [rewrite Forall_nil; tauto|].
    rewrite IHl, Forall_cons, Hw, release_add_if_nil. cbn. tauto.
Qed.

(** ** Expected values, lines and scopes *)

(** A given (truthy) expected value is the value. *)
Definition agrees (expected v : val) : Prop := truthy expected = true -> expected = v.
Lemma mismatch_str expected s : mismatch expected (VStr s) = false <-> agrees expected (VStr s).
Proof.
  unfold mismatch, agrees. rewrite andb_false_iff, negb_false_iff, strict_eq_str.
  destruct (truthy expected); naive_solver.
Qed.
Lemma pinned_nil p expected v f d1 d2 es :
  (if negb (is_matching p v) then add es f d1 else add_if (mismatch expected v) f d2 es) = [] <->
  es = [] /\ matching p v /\ agrees expected v.
Proof.
  unfold is_matching. pose proof (is_matching_spec p v) as Hm. destruct (PlatformSupport.is_matching p v); cbn [negb].
  - destruct (proj1 Hm eq_refl) as (s & -> & _). rewrite release_add_if_nil, mismatch_str. tauto.
  - rewrite release_add_nil. split; [done|]. intros (_ & H%Hm & _). done.
Qed.

Definition line_val (maximum : nat) (v : val) : Prop :=
  exists s, v = VStr s /\ s <> [] /\ (length s <= maximum)%nat /\ (13 ∉ s) /\ (10 ∉ s).
Lemma bad_line_spec n v : bad_line n v = false <-> line_val n v.
Proof.
  unfold line_val. destruct v as [| | | |s| | | | | |]; cbn [bad_line]; try (split; [done|by intros (? & ? & _)]).
  rewrite !orb_false_iff, Nat.eqb_neq, Nat.ltb_ge, existsb_false_Forall, Forall_forall. split.
  - intros [[H0 Hn] Hc]. exists s. split; [done|]. split; [by intros ->|]. split; [done|].
    split; intros H; apply Hc, orb_false_iff in H as [H1 H2]; discriminate.
  - intros (s' & [= <-] & H0 & Hn & H13 & H10). split; [split; [by destruct s|done]|]. intros c Hc.
    apply orb_false_iff. split; apply Z.eqb_neq; intros ->; done.
Qed.

Lemma existsb_same_str s l : existsb (same_value (VStr s)) (map VStr l) = true <-> s ∈ l.
Proof.
  rewrite existsb_Exists, Exists_exists. split.
  - intros (v & Hv & H). apply list_elem_of_fmap in Hv as (t & -> & Ht). cbn in H. by apply str_eqb_eq in H as ->.
  - intros H. exists (VStr s). split; [by apply list_elem_of_fmap_2|]. cbn. apply str_eqb_refl.
Qed.
Lemma set_size_le l : (set_size l <= length l)%nat.
Proof. induction l as [|v l IH]; cbn; [lia|]. destruct (existsb _ l); lia. Qed.
Lemma set_size_strs l : set_size (map VStr l) = length l <-> NoDup l.
Proof.
  induction l as [|s l IH]; cbn [map set_size length]; [split; [constructor|done]|].
  rewrite NoDup_cons, <- existsb_same_str, <- IH. pose proof (set_size_le (map VStr l)) as Hle. rewrite length_map in Hle.
  destruct (existsb _ _); split; [lia|by intros [? _]|intros [= ->]; done|by intros [_ ->]].
Qed.
(** The complete scope, in any order. *)
Definition scope_val (v : val) : Prop := exists slots, v = VArr slots /\ iterated slots ≡ₚ map VStr REVIEW_SCOPE.
Lemma REVIEW_SCOPE_NoDup : NoDup REVIEW_SCOPE.
Proof. apply (bool_decide_unpack _). vm_compute. exact I. Qed.
Lemma check_scope_nil v es : check_scope v es = [] <-> es = [] /\ scope_val v.
Proof.
  unfold scope_val. destruct v as [| | | | | | | |slots| |]; cbn [check_scope];
    try (rewrite release_add_nil; split; [done|by intros (_ & ? & ? & _)]).
  destruct (_ || _) eqn:El.
  { rewrite release_add_nil. split; [done|]. intros (_ & s & [= <-] & H%Permutation_length).
    unfold iterated in H. rewrite !length_map in H. rewrite H in El. vm_compute in El. discriminate. }
  clear El. rewrite release_foldl_nil, release_add_if_nil, orb_false_iff, !negb_false_iff, !Nat.eqb_eq. split.
  - intros [[[E1 E2] ->] Hin]. split; [done|]. exists slots. split; [done|]. symmetry.
    apply submseteq_length_Permutation; [|unfold iterated; rewrite !length_map; lia].
    apply NoDup_submseteq; [apply NoDup_fmap_2; [by intros ?? [= ->]|apply REVIEW_SCOPE_NoDup]|].
    intros x Hx. apply list_elem_of_fmap in Hx as (s & -> & Hs). rewrite Forall_forall in Hin. specialize (Hin s Hs).
    apply negb_false_iff, existsb_Exists, Exists_exists in Hin as (w & Hw & ->%eq_str_spec). done.
  - intros (-> & s & [= <-] & Hp). assert (Hlen : length slots = length REVIEW_SCOPE).
    { apply Permutation_length in Hp. unfold iterated in Hp. by rewrite !length_map in Hp. }
    destruct (Permutation_map_inv _ _ Hp) as (l & Hl & Hpl).
    assert (Hs : set_size (iterated slots) = length slots).
    { rewrite Hl, (proj2 (set_size_strs l)) by (rewrite <- Hpl; apply REVIEW_SCOPE_NoDup).
      by rewrite Hlen, Hpl. }
    rewrite Hs. split; [done|]. apply Forall_forall. intros w Hw. apply negb_false_iff, existsb_Exists, Exists_exists.
    exists (VStr w). split; [rewrite Hp; by apply list_elem_of_fmap_2|by apply eq_str_spec].
Qed.
(** Distinct review scopes, at least one. *)
Definition affected_val (v : val) : Prop := exists slots l,
  v = VArr slots /\ iterated slots = map VStr l /\ l <> [] /\ NoDup l /\ l ⊆ REVIEW_SCOPE.
Lemma check_affected_nil v f es : check_affected v f es = [] <-> es = [] /\ affected_val v.
Proof.
  unfold affected_val. destruct v as [| | | | | | | |slots| |]; cbn [check_affected];
    try (rewrite release_add_nil; split; [done|by intros (_ & ? & ? & ? & _)]).
  assert (Hlen : length (iterated slots) = length slots) by (unfold iterated; by rewrite length_map).
  destruct (_ || _) eqn:El.
  - rewrite release_add_nil. split; [done|]. intros (_ & s & l & [= <-] & E & Hne & Hn & Hs).
    rewrite E, length_map in Hlen. assert (H : l ⊆+ REVIEW_SCOPE) by by apply NoDup_submseteq.
    apply submseteq_length in H. apply orb_true_iff in El as [El%Nat.eqb_eq|El%Nat.ltb_lt]; [|lia].
    destruct l; [done|]. cbn in Hlen. lia.
  - apply orb_false_iff in El as [E0%Nat.eqb_neq _]. rewrite release_foldl_nil, release_add_if_nil, negb_false_iff, Nat.eqb_eq.
    split.
    + intros [[Hsz ->] Hall]. split; [done|].
      assert (Hl : exists l, iterated slots = map VStr l /\ l ⊆ REVIEW_SCOPE).
      { clear -Hall. induction Hall as [|v vs Hv _ (l & -> & Hl)]; [by exists []; split; [|intros ??%not_elem_of_nil]|].
        apply negb_false_iff, includes_str_spec in Hv as (s & -> & Hs). exists (s :: l). split; [done|].
        intros x [->|Hx]%elem_of_cons; [done|by apply Hl]. }
      destruct Hl as (l & E & Hl). exists slots, l. split; [done|]. split; [done|].
      rewrite E, length_map in Hlen. split; [by intros ->; cbn in Hlen; lia|]. split; [|done].
      apply set_size_strs. rewrite <- E, Hsz. done.
    + intros (-> & s & l & [= <-] & E & Hne & Hn & Hs). rewrite E, length_map in Hlen.
      split; [split; [|done]; rewrite E, <- Hlen; by apply set_size_strs|].
      rewrite E. apply Forall_fmap, Forall_forall. intros x Hx. apply negb_false_iff, includes_str_spec. exists x. split; [done|by apply Hs].
Qed.

(** ** One finding *)

Definition serious (v : val) : Prop := v = vstr "critical" \/ v = vstr "high".
Record Finding_wf (v : val) : Prop := {
  finding_record : is_record v = true;
  finding_fields : keys_within v finding_keys;
  finding_id : matching FINDING_ID v.["id"];
  finding_severity : one_of REVIEW_FINDING_SEVERITIES v.["severity"];
  finding_status : one_of REVIEW_FINDING_STATUSES v.["status"];
  finding_closed : serious v.["severity"] -> v.["status"] <> vstr "open";
  finding_summary : line_val 500 v.["summary"];
  finding_scope : affected_val v.["affectedScope"];
  finding_lines : Forall (fun '(key, maximum) => line_val maximum (get v (js key))) finding_texts;
}.

Lemma unsupported_nil v ks f d es : unsupported v ks f d es = [] <-> es = [] /\ keys_within v ks.
Proof. exact (unknown_keys_nil v ks f d es). Qed.
Lemma is_open_serious_spec v :
  is_open_serious v = false <-> (serious v.["severity"] -> v.["status"] <> vstr "open").
Proof.
  unfold is_open_serious, serious. pose proof (eq_str_spec v.["severity"] (js "critical")) as H1.
  pose proof (eq_str_spec v.["severity"] (js "high")) as H2. pose proof (eq_str_spec v.["status"] (js "open")) as H3.
  unfold vstr. destruct (eq_str v.["severity"] (js "critical")), (eq_str v.["severity"] (js "high")),
    (eq_str v.["status"] (js "open")); cbn; naive_solver.
Qed.
Lemma check_open_nil v f es : check_open v f es = Ok [] <-> es = [] /\ is_open_serious v = false.
Proof.
  unfold check_open. destruct (is_open_serious v).
  - rewrite bind_Ok. split; [by intros (? & _ & ?%Ok_inj%release_add_nil)|by intros [_ ?]].
  - split; [by intros ->%Ok_inj|by intros [-> _]].
Qed.
Lemma texts_nil v f l es :
  foldl (fun es '(key, maximum) => add_if (bad_line maximum (get v (js key))) (dot f (js key))
    (js "must be bounded, non-empty, and single-line") es) es l = [] <->
  es = [] /\ Forall (fun '(key, maximum) => line_val maximum (get v (js key))) l.
Proof.
  revert es; induction l as [|[k n] l IH]; intros es; cbn [foldl]; [rewrite Forall_nil; tauto|].
  rewrite IH, release_add_if_nil, bad_line_spec, Forall_cons. tauto.
Qed.
Lemma check_finding_nil es i v : check_finding es (i, v) = Ok [] <-> es = [] /\ Finding_wf v.
Proof.
  unfold check_finding, isRecord. destruct (is_record v) eqn:Hr; cbn [negb].
  2: { split; [by intros ?%Ok_inj%release_add_nil|]. intros [_ []]. congruence. }
  rewrite bind_Ok. split.
  - intros (es1 & H1 & H2). apply Ok_inj, texts_nil in H2 as [H2 Ht]. apply check_affected_nil in H2 as [H2 Ha].
    apply release_add_if_nil in H2 as [Hs%bad_line_spec ->]. apply check_open_nil in H1 as [H1 Ho]. pose proof (proj1 (is_open_serious_spec v) Ho) as Hop.
    rewrite !release_add_if_nil, unsupported_nil, !negb_false_iff, !includes_str_spec in H1.
    destruct H1 as (Hst & Hsev & Hid & -> & Hk). split; [done|]. apply is_matching_spec in Hid. by constructor.
  - intros (-> & [_ Hk Hid Hsev Hst Ho Hs Ha Ht]). exists []. rewrite check_open_nil, is_open_serious_spec.
    rewrite !release_add_if_nil, unsupported_nil, !negb_false_iff, !includes_str_spec. apply is_matching_spec in Hid.
    split; [done|]. f_equal. apply texts_nil. rewrite check_affected_nil, release_add_if_nil, bad_line_spec. done.
Qed.

(** ** The report *)

Definition findings_val (v : val) : Prop :=
  exists slots, v = VArr slots /\ (length slots <= 256)%nat /\ Forall Finding_wf (present slots).*2.
(** What the digest test accepts: it converts its argument to a string first. *)
Definition key_text (v : val) : Prop := exists s, String_ v = Ok s /\ matches SHA256 s.
Record Review_wf (context : ReviewContext) (v : val) : Prop := {
  review_record : is_record v = true;
  review_secrets : free_of SECRET_KEY v;
  review_fields : keys_within v report_keys;
  review_schema : eq_int v.["schemaVersion"] 1 = true;
  review_type : v.["reportType"] = VStr REVIEW_REPORT_TYPE;
  review_of_commit : matching COMMIT v.["reviewedCommit"] /\ agrees (review_commit context) v.["reviewedCommit"];
  review_of_version : matching VERSION v.["reviewedPackageVersion"] /\
    agrees (review_version context) v.["reviewedPackageVersion"];
  review_by_key : key_text v.["reviewerPublicKeySha256"] /\
    mismatch (review_key context) v.["reviewerPublicKeySha256"] = false;
  review_scope : scope_val v.["scope"];
  review_findings : findings_val v.["findings"];
  review_decision : one_of (map js ["approved"; "approved-with-residual-risk"]%string) v.["decision"];
}.

Lemma check_report_key_nil c v es :
  check_report_key c v es = Ok [] <-> es = [] /\ key_text v /\ mismatch (review_key c) v = false.
Proof.
  unfold check_report_key, key_text. rewrite bind_Ok. setoid_rewrite <- re_match_correct. split.
  - intros (s & Hs & H%Ok_inj). destruct (re_match SHA256 s) eqn:E; cbn [negb] in H; [|by apply release_add_nil in H].
    apply release_add_if_nil in H as [? ->]. split; [done|]. split; [by exists s|done].
  - intros (-> & (s & Hs & Hm) & Hmis). exists s. split; [done|]. rewrite Hm. cbn [negb]. f_equal. by apply release_add_if_nil.
Qed.
Lemma check_findings_nil v es : check_findings v es = Ok [] <-> es = [] /\ findings_val v.
Proof.
  unfold findings_val. destruct v as [| | | | | | | |slots| |]; cbn [check_findings];
    try (split; [by intros ?%Ok_inj%release_add_nil|by intros (_ & ? & ? & _)]).
  destruct (Nat.ltb_spec 256 (length slots)).
  - split; [by intros ?%Ok_inj%release_add_nil|]. intros (_ & s & [= <-] & ? & _). lia.
  - rewrite (foldM_nil check_finding Finding_wf check_finding_nil). split.
    + intros [-> Hw]. split; [done|]. by exists slots.
    + by intros (-> & s & [= <-] & _ & Hw).
Qed.
Lemma check_decision_nil v es :
  check_decision v es = [] <-> es = [] /\ one_of (map js ["approved"; "approved-with-residual-risk"]%string) v.
Proof.
  unfold check_decision, one_of. destruct v as [| | | |s| | | | | |]; cbn [includes_str negb];
    try (rewrite release_add_nil; split; [done|by intros (_ & ? & ? & _)]).
  assert (Hin : str_in s REVIEW_DECISIONS = true <->
    s = js "approved" \/ s = js "approved-with-residual-risk" \/ s = js "not-approved").
  { rewrite str_in_elem. unfold REVIEW_DECISIONS. cbn [map]. rewrite !elem_of_cons, elem_of_nil. tauto. }
  setoid_rewrite elem_of_cons. setoid_rewrite list_elem_of_singleton. cbn [map].
  destruct (str_in s REVIEW_DECISIONS); cbn [negb].
  - rewrite release_add_if_nil. cbn [eq_str].
    destruct (str_eqb s (js "not-approved")) eqn:E; rewrite ?str_eqb_eq in E.
    + subst s. split; [by intros [? _]|]. intros (_ & t & [= <-] & [?|?]); discriminate.
    + rewrite <- not_true_iff_false, str_eqb_eq in E. split; [|naive_solver]. intros [_ ->]. split; [done|]. exists s.
      split; [done|]. destruct (proj1 Hin eq_refl) as [?|[?|?]]; [by left|by right|done].
  - rewrite release_add_nil. split; [done|]. intros (_ & t & [= <-] & H). enough (false = true) by done. apply Hin. tauto.
Qed.

Lemma validateIndependentReviewReport_wf context report :
  validateIndependentReviewReport context report = Ok [] <-> Review_wf context report.
Proof.
  unfold validateIndependentReviewReport, isRecord. destruct (is_record report) eqn:Hr; cbn [negb].
  2: { split; [by intros [=]|]. intros []. congruence. }
  cbv zeta. rewrite bind_Ok. split.
  - intros (es1 & H1 & H). apply bind_Ok in H as (es2 & H2 & H3). apply Ok_inj, check_decision_nil in H3 as [-> Hd].
    apply check_findings_nil in H2 as [H2 Hf]. apply check_scope_nil in H2 as [-> Hs].
    apply check_report_key_nil in H1 as (H1 & Hk & Hmis). apply pinned_nil in H1 as (H1 & Hv).
    apply pinned_nil in H1 as (H1 & Hc). rewrite !release_add_if_nil, !negb_false_iff, eq_str_spec, unsupported_nil, checkSecretKeys_nil in H1.
    destruct H1 as (Ht & Hsv & (_ & Hsec) & Hkeys). by constructor.
  - intros [_ Hsec Hkeys Hsv Ht Hc Hv [Hk Hmis] Hs Hf Hd]. exists []. split.
    + apply check_report_key_nil. split; [|done]. apply pinned_nil. split; [|done]. apply pinned_nil. split; [|done].
      by rewrite !release_add_if_nil, !negb_false_iff, eq_str_spec, unsupported_nil, checkSecretKeys_nil.
    + apply bind_Ok. exists []. split; [apply check_findings_nil; split; [by apply check_scope_nil|done]|]. f_equal. by apply check_decision_nil.
Qed.

(** C15. A review report is accepted exactly when it is a secret-free report of the
    expected release by the expected reviewer key, with the complete review scope, at
    most 256 well-formed findings of which no critical or high one is open, and a
    decision that approves. *)
Theorem validateIndependentReviewReport_correct context report :
  validateIndependentReviewReport context report = Ok [] <-> Review_wf context report.
Proof. exact (validateIndependentReviewReport_wf context report). Qed.
