(* ===== verification/ReleaseProps.v ===== *)
(** * What the release-manifest validator accepts *)

From S2P Require Import Prelude JsNumber Regex JsValue JsText JsDate Host.
From S2P Require Import ContractsSpec PlatformSupportProps EvidenceSpec DeviceEvidenceProps ReleaseEvidence ReviewProps.
Open Scope js_scope.

Lemma truthy_str s : truthy (VStr s) = true <-> s <> [].
Proof. by destruct s. Qed.

(** ** Parts *)

Definition instant_val (v : val) : Prop := exists s, v = VStr s /\ is_instant s.
Lemma bad_instant_spec {host : Host} v : bad_instant v = false <-> instant_val v.
Proof.
  unfold instant_val. destruct v as [| | | |s| | | | | |]; cbn [bad_instant]; try (split; [done|by intros (? & ? & _)]).
  transitivity (reformat other_format s = Ok s).
  - unfold reformat. destruct (Date_parse other_format s) as [t|]; cbn [toISOString]; [|done].
    rewrite negb_false_iff, str_eqb_eq. split; [by intros ->|by intros ->%Ok_inj].
  - rewrite reformat_fixed. naive_solver.
Qed.
Lemma checkHash_nil f v es : checkHash f v es = [] <-> es = [] /\ sha_val v.
Proof. unfold checkHash, is_matching. rewrite release_add_if_nil, negb_false_iff, is_matching_spec. unfold sha_val. tauto. Qed.
Lemma release_safe v : isSafeRelativePath v = true <-> path_val v.
Proof. exact (isSafeRelativePath_spec v). Qed.
Lemma checkEvidencePath_nil f v es : checkEvidencePath f v es = [] <-> es = [] /\ path_val v.
Proof. unfold checkEvidencePath. rewrite release_add_if_nil, negb_false_iff, release_safe. tauto. Qed.
(** Both path checks of a gate or an artifact. *)
Lemma path_checks_nil f g v es paths paths' :
  checkUniquePath g v (checkEvidencePath f v es, paths) = ([], paths') <->
  es = [] /\ path_val v /\ unseen paths (str_of v) /\ paths' = paths ++ str_of v.
Proof.
  unfold checkUniquePath. pose proof (release_safe v) as Hs. destruct v as [| | | |p| | | | | |];
    try (split; [intros [[_ (? & ? & _)]%checkEvidencePath_nil _]%pair_equal_spec; done|by intros (_ & (? & ? & _) & _)]).
  cbn [str_of]. rewrite unseen_single. destruct (isSafeRelativePath (VStr p)) eqn:E; cbn [negb].
  - assert (Hp : path_val (VStr p)) by by apply Hs. unfold set_has at 1. case_bool_decide as Hin.
    + split; [by intros [?%release_add_nil _]%pair_equal_spec|by intros (_ & _ & ? & _)].
    + rewrite set_add_new, pair_equal_spec, checkEvidencePath_nil by done. naive_solver.
  - split; [intros [[_ ?%Hs]%checkEvidencePath_nil _]%pair_equal_spec; done|intros (_ & ?%Hs & _); done].
Qed.
Lemma missing_nil f what present required es :
  missing f what present required es = [] <-> es = [] /\ required ⊆ present.
Proof.
  unfold missing. rewrite release_foldl_nil, Forall_forall. unfold set_has. setoid_rewrite negb_false_iff.
  by setoid_rewrite bool_decide_eq_true.
Qed.

Definition Toolchains_wf (v : val) : Prop :=
  is_record v = true /\ Forall (fun '(t, version) => get v t = VStr version) REQUIRED_RELEASE_TOOLCHAINS.
Lemma check_toolchain_nil v l es : Forall (fun tv => tv.2 <> []) l ->
  foldl (check_toolchain v) es l = [] <-> es = [] /\ Forall (fun '(t, version) => get v t = VStr version) l.
Proof.
  intros Hl; revert es; induction Hl as [|[t ver] l Hv Hl IH]; intros es; cbn [foldl]; [rewrite Forall_nil; tauto|].
  rewrite IH, Forall_cons. cbn in Hv. unfold check_toolchain.
  destruct (get v t) as [| | | |[|c s]| | | | | |];
    try (rewrite release_add_nil; split; [by intros [[] _]|intros (_ & [= ?] & _); done]).
  rewrite release_add_if_nil, negb_false_iff, str_eqb_eq. split; [intros ([-> ->] & ?); done|intros (-> & [= <-] & ?); done].
Qed.
Lemma check_toolchains_nil ev es : check_toolchains ev es = [] <-> es = [] /\ Toolchains_wf ev.["toolchains"].
Proof.
  unfold check_toolchains, Toolchains_wf, isRecord. destruct (is_record _); cbn [negb].
  - rewrite check_toolchain_nil; [tauto|]. repeat constructor; discriminate.
  - rewrite release_add_nil. split; [done|by intros (_ & ? & _)].
Qed.

(** ** Gates *)

Definition name_of (v : val) : list jsstr := str_of v.["name"].
(** The commit checks as they are run; in an accepted manifest they say that the gate's
    commit is the manifest's. *)
Definition commit_checked (context : Context) (ev : val) (v : val) : Prop :=
  matching COMMIT v /\ agrees (expectedCommit context) v /\
  exists b, re_test COMMIT ev.["commit"] = Ok b /\ (b = true -> ev.["commit"] = v).
Record Gate_checked (context : Context) (ev g : val) : Prop := {
  gate_record : is_record g = true;
  gate_name : one_of REQUIRED_RELEASE_GATES g.["name"];
  gate_commit : commit_checked context ev g.["commit"];
  gate_status : g.["status"] = vstr "pass";
  gate_path : path_val g.["evidencePath"];
  gate_digest : sha_val g.["sha256"];
}.

Lemma check_gate_name_nil f v es names names' :
  check_gate_name f v (es, names) = ([], names') <->
  es = [] /\ one_of REQUIRED_RELEASE_GATES v /\ unseen names (str_of v) /\ names' = names ++ str_of v.
Proof.
  unfold check_gate_name, one_of. destruct v as [| | | |[|c s]| | | | | |];
    try (split; [by intros [?%release_add_nil _]%pair_equal_spec|by intros (_ & (? & ? & _) & _)]).
  { split; [by intros [?%release_add_nil _]%pair_equal_spec|]. intros (_ & (? & [= <-] & H) & _).
    vm_compute in H. repeat (apply elem_of_cons in H as [H|H]; [discriminate|]). by apply not_elem_of_nil in H. }
  cbn [str_of]. rewrite unseen_single. set (n := c :: s). pose proof (str_in_elem n REQUIRED_RELEASE_GATES) as Hn.
  destruct (str_in n REQUIRED_RELEASE_GATES); cbn [negb].
  - unfold set_has. case_bool_decide as Hin.
    + split; [by intros [?%release_add_nil _]%pair_equal_spec|by intros (_ & _ & ? & _)].
    + rewrite set_add_new, pair_equal_spec by done. split; [intros [-> <-]|by intros (-> & _ & _ & ->)].
      split_and!; [done| |done|done]. exists n. split; [done|by apply Hn].
  - split; [by intros [?%release_add_nil _]%pair_equal_spec|]. intros (_ & (? & [= <-] & ?%Hn) & _). done.
Qed.
Lemma check_gate_commit_nil context ev f v es :
  check_gate_commit context ev f v es = Ok [] <-> es = [] /\ commit_checked context ev v.
Proof.
  unfold check_gate_commit, commit_checked, is_matching. pose proof (is_matching_spec COMMIT v) as Hm.
  destruct (PlatformSupport.is_matching COMMIT v); cbn [negb].
  2: { split; [by intros ?%Ok_inj%release_add_nil|]. intros (_ & ?%Hm & _). done. }
  specialize (proj1 Hm eq_refl) as Hv. destruct Hv as (s & -> & Hs). rewrite bind_Ok. split.
  - intros (b & Hb & H%Ok_inj). destruct (b && negb (strict_eq (VStr s) ev.["commit"])) eqn:E; [by apply release_add_nil in H|].
    apply release_add_if_nil in H as [H%mismatch_str ->]. split; [done|]. split; [by exists s|]. split; [done|].
    exists b. split; [done|]. intros ->. by apply negb_false_iff, strict_eq_str in E.
  - intros (-> & _ & Ha & b & Hb & Heq). exists b. split; [done|]. f_equal.
    replace (b && negb (strict_eq (VStr s) ev.["commit"])) with false.
    + by apply release_add_if_nil; rewrite mismatch_str.
    + symmetry. apply andb_false_iff. destruct b; [right|by left]. by apply negb_false_iff, strict_eq_str, Heq.
Qed.
Lemma manifest_gate_nil context ev es names paths i g names' paths' :
  check_gate context ev (es, names, paths) (i, g) = Ok ([], names', paths') <->
  es = [] /\ Gate_checked context ev g /\ unseen names (name_of g) /\ names' = names ++ name_of g /\
  unseen paths (str_of g.["evidencePath"]) /\ paths' = paths ++ str_of g.["evidencePath"].
Proof.
  unfold check_gate, isRecord, name_of. destruct (is_record g) eqn:Hr; cbn [negb].
  2: { split; [by intros [[?%release_add_nil _]%pair_equal_spec _]%Ok_inj%pair_equal_spec|]. intros (_ & [] & _). congruence. }
  destruct (check_gate_name _ _ _) as [es1 names1] eqn:En. rewrite bind_Ok. split.
  - intros (es2 & H2 & H). destruct (checkUniquePath _ _ _) as [es3 paths1] eqn:Ep.
    apply Ok_inj, pair_equal_spec in H as [[H ->]%pair_equal_spec ->]. apply checkHash_nil in H as [-> Hsha].
    apply path_checks_nil in Ep as (Hst & Hpath & Hf & ->). apply release_add_if_nil in Hst as [Hst%negb_false_iff%eq_str_spec ->].
    apply check_gate_commit_nil in H2 as [-> Hc]. apply check_gate_name_nil in En as (-> & Hn & Hfn & ->).
    split; [done|]. split; [by constructor|done].
  - intros (-> & [_ Hn Hc Hst Hpath Hsha] & Hfn & -> & Hf & ->). exists [].
    assert (En' : (es1, names1) = ([], names ++ str_of g.["name"])) by (rewrite <- En; by apply check_gate_name_nil).
    injection En' as -> ->. split; [by apply check_gate_commit_nil|].
    destruct (checkUniquePath _ _ _) as [es3 paths1] eqn:Ep.
    assert (Ep' : (es3, paths1) = ([], paths ++ str_of g.["evidencePath"])).
    { rewrite <- Ep. apply path_checks_nil. split; [|done]. apply release_add_if_nil. by rewrite negb_false_iff, eq_str_spec. }
    injection Ep' as -> ->. do 3 f_equal. by apply checkHash_nil.
Qed.
Lemma check_gate_loop_nil context ev l es names paths names' paths' :
  DeviceEvidence.foldM (check_gate context ev) (es, names, paths) l = Ok ([], names', paths') <->
  es = [] /\ Forall (Gate_checked context ev) l.*2 /\ unseen names (flat_map name_of l.*2) /\
  names' = names ++ flat_map name_of l.*2 /\ unseen paths (flat_map (fun g => str_of g.["evidencePath"]) l.*2) /\
  paths' = paths ++ flat_map (fun g => str_of g.["evidencePath"]) l.*2.
Proof.
  revert es names paths; induction l as [|[i g] l IH]; intros es names paths;
    cbn [DeviceEvidence.foldM fmap list_fmap snd flat_map].
  - rewrite !app_nil_r. split.
    + intros [[-> ->]%pair_equal_spec ->]%Ok_inj%pair_equal_spec. split_and!; eauto using unseen_nil.
    + by intros (-> & _ & _ & -> & _ & ->).
  - rewrite bind_Ok, Forall_cons, !unseen_app, !app_assoc. split.
    + intros ([[es1 names1] paths1] & H1 & H2). apply IH in H2 as (-> & Hw & Hfn & -> & Hfp & ->).
      apply manifest_gate_nil in H1 as (-> & Hg & Hn & -> & Hp & ->). done.
    + intros (-> & [Hg Hw] & [Hn Hfn] & -> & [Hp Hfp] & ->).
      exists ([], names ++ name_of g, paths ++ str_of g.["evidencePath"]). split; [by apply manifest_gate_nil|by apply IH].
Qed.

(** The gates of a manifest, its artifacts. *)
Definition gates (ev : val) : list val := (present (slots_of ev.["gates"])).*2.
Definition release_artifacts (ev : val) : list val := (present (slots_of ev.["artifacts"])).*2.
Definition gate_paths (ev : val) : list jsstr := flat_map (fun g => str_of g.["evidencePath"]) (gates ev).
Definition artifact_paths (ev : val) : list jsstr := flat_map (fun a => str_of a.["path"]) (release_artifacts ev).

Definition Gates_checked (context : Context) (ev : val) : Prop :=
  is_array ev.["gates"] = true /\ Forall (Gate_checked context ev) (gates ev) /\
  flat_map name_of (gates ev) ≡ₚ REQUIRED_RELEASE_GATES.
Lemma gates_NoDup : NoDup REQUIRED_RELEASE_GATES.
Proof. apply (bool_decide_unpack _). vm_compute. exact I. Qed.
Lemma manifest_gates_nil context ev es paths :
  check_gates context ev es = Ok ([], paths) <->
  es = [] /\ Gates_checked context ev /\ NoDup (gate_paths ev) /\ paths = gate_paths ev.
Proof.
  unfold check_gates, Gates_checked, gate_paths, gates. rewrite bind_Ok. destruct ev.["gates"] as [| | | | | | | |slots| |];
    try (split; [intros (st & <-%Ok_inj & [[? _]%missing_nil _]%Ok_inj%pair_equal_spec); by apply release_add_nil in H
                |by intros (_ & [? _] & _)]).
  cbn [slots_of is_array]. set (gs := (present slots).*2). split.
  - intros ([[es1 names1] paths1] & H1 & H2). apply Ok_inj, pair_equal_spec in H2 as [[-> Hreq]%missing_nil ->].
    apply check_gate_loop_nil in H1 as (-> & Hw & Hn%unseen_empty & -> & Hp%unseen_empty & ->). fold gs in Hw, Hn, Hp, Hreq |- *.
    split; [done|]. split; [|done]. split; [done|]. split; [done|].
    apply (anti_symm submseteq); apply NoDup_submseteq; try done; [|apply gates_NoDup].
    intros x (g & Hg & Hx)%elem_of_flat_map. rewrite Forall_forall in Hw. destruct (gate_name _ _ _ (Hw g Hg)) as (n & Hgn & Hin).
    unfold name_of in Hx. rewrite Hgn in Hx. by apply list_elem_of_singleton in Hx as ->.
  - intros (-> & (_ & Hw & Hperm) & Hp & ->).
    exists ([], [] ++ flat_map name_of gs, [] ++ flat_map (fun g => str_of g.["evidencePath"]) gs). split.
    + apply check_gate_loop_nil. fold gs. rewrite !unseen_empty. split_and!; try done. rewrite Hperm. apply gates_NoDup.
    + do 2 f_equal. apply missing_nil. split; [done|]. intros x Hx. by rewrite app_nil_l, Hperm.
Qed.

(** ** Artifacts *)

Definition kind_of (a : val) : list jsstr := str_of a.["kind"].
Record Artifact_wf (a : val) : Prop := {
  artifact_record : is_record a = true;
  artifact_kind : exists k, a.["kind"] = VStr k /\ k <> [];
  artifact_path : path_val a.["path"];
  artifact_digest : sha_val a.["sha256"];
}.
Definition path_entry (a : val) : artifact_map := map (fun p => (p, a)) (str_of a.["path"]).

Lemma check_artifact_name_nil f v es kinds kinds' :
  check_artifact_name f v (es, kinds) = ([], kinds') <->
  es = [] /\ (exists k, v = VStr k /\ k <> []) /\ unseen kinds (str_of v) /\ kinds' = kinds ++ str_of v.
Proof.
  unfold check_artifact_name. destruct v as [| | | |[|c s]| | | | | |];
    try (split; [by intros [?%release_add_nil _]%pair_equal_spec|intros (_ & (? & [= <-] & ?) & _); done]).
  cbn [str_of]. rewrite unseen_single. unfold set_has. case_bool_decide as Hin.
  - split; [by intros [?%release_add_nil _]%pair_equal_spec|by intros (_ & _ & ? & _)].
  - rewrite set_add_new, pair_equal_spec by done. split; [intros [-> <-]|by intros (-> & _ & _ & ->)].
    split; [done|]. split; [by exists (c :: s)|done].
Qed.
Lemma manifest_artifact_nil es kinds paths byPath i a kinds' paths' byPath' :
  check_artifact (es, kinds, paths, byPath) (i, a) = ([], kinds', paths', byPath') <->
  es = [] /\ Artifact_wf a /\ unseen kinds (kind_of a) /\ kinds' = kinds ++ kind_of a /\
  unseen paths (str_of a.["path"]) /\ paths' = paths ++ str_of a.["path"] /\ byPath' = path_entry a ++ byPath.
Proof.
  unfold check_artifact, isRecord, kind_of, path_entry. destruct (is_record a) eqn:Hr; cbn [negb].
  2: { split; [by intros [[[?%release_add_nil _]%pair_equal_spec _]%pair_equal_spec _]%pair_equal_spec|]. intros (_ & [] & _). congruence. }
  destruct (check_artifact_name _ _ _) as [es1 kinds1] eqn:Ek. destruct (checkUniquePath _ _ _) as [es2 paths1] eqn:Ep.
  assert (Hmap : path_val a.["path"] -> (if isSafeRelativePath a.["path"] then map_set byPath a.["path"] a else byPath) =
    map (fun p => (p, a)) (str_of a.["path"]) ++ byPath).
  { intros Hp. rewrite (proj2 (release_safe _) Hp). destruct Hp as (p & -> & _). done. }
  unfold artifact_state. rewrite !pair_equal_spec, checkHash_nil. split.
  - intros [[[[-> Hsha] ->] ->] <-]. apply path_checks_nil in Ep as (-> & Hp & Hf & ->).
    apply check_artifact_name_nil in Ek as (-> & Hk & Hfk & ->). rewrite Hmap by done. split; [done|]. split; [by constructor|done].
  - intros (-> & [_ Hk Hp Hsha] & Hfk & -> & Hf & -> & ->).
    assert (Ek' : (es1, kinds1) = ([], kinds ++ str_of a.["kind"])) by (rewrite <- Ek; by apply check_artifact_name_nil).
    injection Ek' as -> ->.
    assert (Ep' : (es2, paths1) = ([], paths ++ str_of a.["path"])) by (rewrite <- Ep; by apply path_checks_nil).
    injection Ep' as -> ->. by rewrite Hmap.
Qed.
Lemma check_artifact_loop_nil l es kinds paths byPath kinds' paths' byPath' :
  foldl check_artifact (es, kinds, paths, byPath) l = ([], kinds', paths', byPath') <->
  es = [] /\ Forall Artifact_wf l.*2 /\ unseen kinds (flat_map kind_of l.*2) /\ kinds' = kinds ++ flat_map kind_of l.*2 /\
  unseen paths (flat_map (fun a => str_of a.["path"]) l.*2) /\ paths' = paths ++ flat_map (fun a => str_of a.["path"]) l.*2 /\
  byPath' = foldl (fun m a => path_entry a ++ m) byPath l.*2.
Proof.
  revert es kinds paths byPath; induction l as [|[i a] l IH]; intros es kinds paths byPath;
    cbn [foldl fmap list_fmap snd flat_map].
  - rewrite !app_nil_r. split.
    + intros [= -> -> -> ->]. split_and!; eauto using unseen_nil.
    + by intros (-> & _ & _ & -> & _ & -> & ->).
  - destruct (check_artifact (es, kinds, paths, byPath) (i, a)) as [[[es1 kinds1] paths1] byPath1] eqn:E.
    rewrite IH, Forall_cons, !unseen_app, !app_assoc. split.
    + intros (-> & Hw & Hfk & -> & Hfp & -> & ->). apply manifest_artifact_nil in E as (-> & Ha & Hk & -> & Hp & -> & ->). done.
    + intros (-> & [Ha Hw] & [Hk Hfk] & -> & [Hp Hfp] & -> & ->).
      assert (E' : (es1, kinds1, paths1, byPath1) = ([], kinds ++ kind_of a, paths ++ str_of a.["path"], path_entry a ++ byPath))
        by (rewrite <- E; by apply manifest_artifact_nil).
      injection E' as -> -> -> ->. done.
Qed.

Definition Artifacts_wf (ev : val) : Prop :=
  slots_of ev.["artifacts"] <> [] /\ Forall Artifact_wf (release_artifacts ev) /\
  NoDup (flat_map kind_of (release_artifacts ev)) /\ required_artifacts ⊆ flat_map kind_of (release_artifacts ev).
Definition artifacts_by_path (ev : val) : artifact_map := foldl (fun m a => path_entry a ++ m) [] (release_artifacts ev).
Lemma manifest_artifacts_nil ev es paths byPath :
  check_artifacts ev es paths = ([], byPath) <->
  es = [] /\ Artifacts_wf ev /\ unseen paths (artifact_paths ev) /\ byPath = artifacts_by_path ev.
Proof.
  unfold check_artifacts, Artifacts_wf, artifact_paths, artifacts_by_path, release_artifacts.
  destruct ev.["artifacts"] as [| | | | | | | |[|s slots]| |];
    try (split; [by intros [[?%release_add_nil _]%missing_nil _]%pair_equal_spec|by intros (_ & [? _] & _)]).
  cbn [slots_of]. set (sl := s :: slots). destruct (foldl check_artifact _ _) as [[[es1 kinds1] paths1] byPath1] eqn:E.
  rewrite pair_equal_spec, missing_nil. split.
  - intros [[-> Hreq] <-]. apply check_artifact_loop_nil in E as (-> & Hw & Hk%unseen_empty & -> & Hp & _ & ->). done.
  - intros (-> & (_ & Hw & Hk & Hreq) & Hp & ->).
    assert (E' : (es1, kinds1, paths1, byPath1) = ([], [] ++ flat_map kind_of (present sl).*2,
      paths ++ flat_map (fun a => str_of a.["path"]) (present sl).*2, foldl (fun m a => path_entry a ++ m) [] (present sl).*2)).
    { rewrite <- E. apply check_artifact_loop_nil. by rewrite unseen_empty. }
    injection E' as -> -> _ ->. done.
Qed.

(** Looking a path up finds the one artifact that has it. *)
Lemma by_path_lookup l m p :
  NoDup (flat_map (fun a => str_of a.["path"]) l) ->
  map_get (foldl (fun m a => path_entry a ++ m) m l) (VStr p) =
  match find (fun a => eq_str a.["path"] p) l with Some a => a | None => map_get m (VStr p) end.
Proof.
  revert m; induction l as [|a l IH]; intros m Hn; cbn [foldl find]; [done|]. cbn [flat_map] in Hn.
  apply NoDup_app in Hn as (_ & Hd & Hn). rewrite IH by done. unfold path_entry.
  destruct (find (fun a => eq_str a.["path"] p) l) as [b|] eqn:Ef.
  - apply find_some in Ef as [Hb Hp%eq_str_spec]. destruct (eq_str a.["path"] p) eqn:Ea; [|done].
    apply eq_str_spec in Ea. destruct (Hd p); [rewrite Ea; left|].
    apply elem_of_flat_map. exists b. split; [by apply list_elem_of_In|rewrite Hp; left].
  - destruct (a.["path"]) as [| | | |q| | | | | |]; try done. cbn [str_of map app eq_str].
    assert (Heq : str_eqb p q = str_eqb q p) by (apply bool_decide_ext; naive_solver).
    unfold map_get at 1. cbn [find fst]. rewrite Heq. by destruct (str_eqb q p).
Qed.
Lemma artifact_found ev p kind :
  NoDup (artifact_paths ev) ->
  eq_str (map_get (artifacts_by_path ev) (VStr p)).["kind"] kind = true <->
  exists a, a ∈ release_artifacts ev /\ a.["path"] = VStr p /\ a.["kind"] = VStr kind.
Proof.
  intros Hn. unfold artifacts_by_path. rewrite by_path_lookup by done. rewrite eq_str_spec.
  destruct (find _ _) as [a|] eqn:Ef; cbn.
  - apply find_some in Ef as [Ha Hp%eq_str_spec]. split; [intros; exists a; split_and!; try done; by apply list_elem_of_In|].
    intros (b & Hb & Hbp & Hk). enough (a = b) by congruence.
    unfold artifact_paths in Hn. apply list_elem_of_In in Ha. clear -Hn Ha Hb Hp Hbp.
    induction (release_artifacts ev) as [|c l IH]; [by apply not_elem_of_nil in Ha|]. cbn [flat_map] in Hn.
    apply NoDup_app in Hn as (_ & Hd & Hn).
    assert (Hno : forall x, x ∈ l -> x.["path"] = VStr p -> c.["path"] = VStr p -> False).
    { intros x Hx Hxp Hcp. apply (Hd p); [rewrite Hcp; left|]. apply elem_of_flat_map. exists x. split; [done|rewrite Hxp; left]. }
    apply elem_of_cons in Ha as [->|Ha], Hb as [->|Hb]; [done|exfalso; eauto..|by apply IH].
  - split; [done|]. intros (a & Ha & Hp & _). apply list_elem_of_In in Ha. pose proof (find_none _ _ Ef a Ha) as H.
    cbn in H. rewrite Hp in H. cbn in H. by rewrite str_eqb_refl in H.
Qed.

(** ** Signature descriptors *)

(** [field] of the descriptor is the path of the manifest's artifact of that kind. *)
Definition names_artifact (ev d : val) (field : String.string) (kind : jsstr) : Prop :=
  path_val (get d (js field)) /\
  exists a, a ∈ release_artifacts ev /\ a.["path"] = get d (js field) /\ a.["kind"] = VStr kind.
Record Descriptor_wf (ev d : val) (kinds : SignatureKinds) (trusted : val) : Prop := {
  descriptor_record : is_record d = true;
  descriptor_algorithm : d.["algorithm"] = vstr "ed25519";
  descriptor_signed : names_artifact ev d "signedArtifactPath" (signedArtifactKind kinds);
  descriptor_key : names_artifact ev d "publicKeyPath" (publicKeyKind kinds);
  descriptor_signature : names_artifact ev d "signaturePath" (signatureKind kinds);
  descriptor_digest : sha_val d.["publicKeySha256"];
  descriptor_trusted : trusted = VUndef \/ trusted = d.["publicKeySha256"];
}.
Definition reviewed_release (b : Binding) (d : val) : Prop :=
  (matching COMMIT d.["reviewedCommit"] /\ agrees (bound_commit b) d.["reviewedCommit"]) /\
  (matching VERSION d.["reviewedPackageVersion"] /\ agrees (bound_version b) d.["reviewedPackageVersion"]).

Lemma check_reviewed_nil f b d es :
  check_reviewed_version f (bound_version b) d.["reviewedPackageVersion"]
    (check_reviewed_commit f (bound_commit b) d.["reviewedCommit"] es) = [] <-> es = [] /\ reviewed_release b d.
Proof. unfold check_reviewed_version, check_reviewed_commit, reviewed_release. rewrite !pinned_nil. tauto. Qed.
Lemma check_artifact_kind_nil f field d m kind es :
  check_artifact_kind f field d m kind es = [] <->
  es = [] /\ eq_str (map_get m (get d (js field))).["kind"] kind = true.
Proof. unfold check_artifact_kind. rewrite release_add_if_nil, negb_false_iff. tauto. Qed.
Lemma differs_str expected v : sha_val v -> differs expected v = false <-> expected = VUndef \/ expected = v.
Proof.
  intros (s & -> & _). unfold differs. rewrite andb_false_iff, !negb_false_iff, is_undefined_spec, strict_eq_str. done.
Qed.
Lemma validateSignatureDescriptor_nil ev f d kinds trusted binding es :
  NoDup (artifact_paths ev) ->
  validateSignatureDescriptor f d (artifacts_by_path ev) kinds trusted binding es = [] <->
  es = [] /\ Descriptor_wf ev d kinds trusted /\ from_option (fun b => reviewed_release b d) True binding.
Proof.
  intros Hn. unfold validateSignatureDescriptor, isRecord. destruct (is_record d) eqn:Hr; cbn [negb].
  2: { rewrite release_add_nil. split; [done|]. intros (_ & [] & _). congruence. }
  cbn [foldl]. rewrite !check_artifact_kind_nil.
  assert (Hb : forall fs, match binding with None => fs | Some b => check_reviewed_version f (bound_version b)
      d.["reviewedPackageVersion"] (check_reviewed_commit f (bound_commit b) d.["reviewedCommit"] fs) end = [] <->
    fs = [] /\ from_option (fun b => reviewed_release b d) True binding).
  { intros fs. destruct binding as [b|]; cbn [from_option]; [apply check_reviewed_nil|tauto]. }
  rewrite Hb, !release_add_if_nil, checkHash_nil, !checkEvidencePath_nil, release_add_if_nil, negb_false_iff, eq_str_spec. clear Hb.
  assert (Hart : forall field kind, path_val (get d (js field)) ->
    eq_str (map_get (artifacts_by_path ev) (get d (js field))).["kind"] kind = true <-> names_artifact ev d field kind).
  { intros field kind Hp. unfold names_artifact. pose proof Hp as (p & E & _). rewrite E at 1. rewrite artifact_found by done.
    rewrite <- E. tauto. }
  split.
  - intros [[[[[Hd [[[[[Ha ->] Hk] Hs] Hg] Hsha]] Hb] H1] H2] H3]. split; [done|]. split; [|done].
    apply Hart in H1, H2, H3; [|done..]. apply differs_str in Hd; [|done]. by constructor.
  - intros (-> & [_ Ha H1 H2 H3 Hsha Hd] & Hb). apply differs_str in Hd; [|done].
    rewrite !Hart by by destruct H1, H2, H3. destruct H1, H2, H3. done.
Qed.

(** ** The manifest *)

Definition Gate_wf (context : Context) (ev g : val) : Prop :=
  is_record g = true /\ one_of REQUIRED_RELEASE_GATES g.["name"] /\ g.["commit"] = ev.["commit"] /\
  g.["status"] = vstr "pass" /\ path_val g.["evidencePath"] /\ sha_val g.["sha256"].
Record Manifest_wf (context : Context) (ev : val) : Prop := {
  manifest_record : is_record ev = true;
  manifest_secrets : free_of SECRET_KEY ev;
  manifest_schema : eq_int ev.["schemaVersion"] 1 = true;
  manifest_commit : matching COMMIT ev.["commit"] /\ agrees (expectedCommit context) ev.["commit"];
  manifest_created : instant_val ev.["createdAt"];
  manifest_version : matching VERSION ev.["packageVersion"] /\ agrees (expectedPackageVersion context) ev.["packageVersion"];
  manifest_toolchains : Toolchains_wf ev.["toolchains"];
  manifest_gates : is_array ev.["gates"] = true /\ Forall (Gate_wf context ev) (gates ev) /\
    flat_map name_of (gates ev) ≡ₚ REQUIRED_RELEASE_GATES;
  manifest_artifacts : Artifacts_wf ev;
  manifest_paths : NoDup (gate_paths ev ++ artifact_paths ev);
  manifest_signature : Descriptor_wf ev ev.["signature"] release_kinds (expectedReleasePublicKeySha256 context);
  manifest_review : Descriptor_wf ev ev.["independentReview"] review_kinds (expectedReviewerPublicKeySha256 context);
  manifest_reviewed : reviewed_release {| bound_commit := expectedCommit context;
    bound_version := expectedPackageVersion context |} ev.["independentReview"];
  manifest_keys : (ev.["signature"]).["publicKeySha256"] <> (ev.["independentReview"]).["publicKeySha256"];
}.

(** The descriptor checks only add findings. *)
Lemma validateSignatureDescriptor_keeps f d m kinds trusted binding es :
  validateSignatureDescriptor f d m kinds trusted binding es = [] -> es = [].
Proof.
  unfold validateSignatureDescriptor. cbn [foldl]. intros H.
  repeat first
    [ apply release_add_nil in H as [] | apply check_artifact_kind_nil in H as [H _]
    | apply release_add_if_nil in H as [_ H] | apply checkHash_nil in H as [H _]
    | apply checkEvidencePath_nil in H as [H _] | apply check_reviewed_nil in H as [H _]
    | destruct (negb _) in H | destruct binding | exact H ].
Qed.
Lemma check_signatures_keeps context ev m es : check_signatures context ev m es = [] -> es = [].
Proof.
  unfold check_signatures. intros [_ H]%release_add_if_nil. by do 2 apply validateSignatureDescriptor_keeps in H.
Qed.
Lemma same_key_false ev t u :
  Descriptor_wf ev ev.["signature"] release_kinds t -> Descriptor_wf ev ev.["independentReview"] review_kinds u ->
  same_key ev.["signature"] ev.["independentReview"] = false <->
  (ev.["signature"]).["publicKeySha256"] <> (ev.["independentReview"]).["publicKeySha256"].
Proof.
  intros [Hs _ _ _ _ (a & Ha & _) _] [Hr _ _ _ _ (b & Hb & _) _]. unfold same_key, isRecord. rewrite Hs, Hr, Ha, Hb. cbn [andb].
  rewrite <- not_true_iff_false, str_eqb_eq. split; [by intros H [= ->]|by intros H ->].
Qed.
Lemma gate_commit_spec context ev v :
  matching COMMIT ev.["commit"] -> agrees (expectedCommit context) ev.["commit"] ->
  commit_checked context ev v <-> v = ev.["commit"].
Proof.
  intros (s & Hs & Hm) Ha. unfold commit_checked. split.
  - intros (_ & _ & b & Hb & H). symmetry. apply H. unfold re_test in Hb. rewrite Hs in Hb.
    change (Ok (E := jserr) (re_match COMMIT s) = Ok b) in Hb.
    apply re_match_correct in Hm. apply Ok_inj in Hb. congruence.
  - intros ->. split; [by exists s|]. split; [done|]. exists true. split; [|done]. unfold re_test. rewrite Hs.
    change (Ok (E := jserr) (re_match COMMIT s) = Ok true).
    f_equal. by apply re_match_correct.
Qed.
Lemma gates_checked_spec context ev :
  matching COMMIT ev.["commit"] -> agrees (expectedCommit context) ev.["commit"] ->
  Gates_checked context ev <-> is_array ev.["gates"] = true /\ Forall (Gate_wf context ev) (gates ev) /\
    flat_map name_of (gates ev) ≡ₚ REQUIRED_RELEASE_GATES.
Proof.
  intros Hc Ha. unfold Gates_checked. enough (forall g, Gate_checked context ev g <-> Gate_wf context ev g) as Hg
    by (rewrite !Forall_forall; by setoid_rewrite Hg).
  intros g. unfold Gate_wf. pose proof (gate_commit_spec context ev g.["commit"] Hc Ha) as Hs. split.
  - intros [H1 H2 ?%Hs H4 H5 H6]. done.
  - intros (H1 & H2 & H3%Hs & H4 & H5 & H6). by constructor.
Qed.

Section manifest.
Context {host : Host}.
Lemma check_signatures_nil context ev es :
  NoDup (artifact_paths ev) ->
  check_signatures context ev (artifacts_by_path ev) es = [] <-> es = [] /\
  Descriptor_wf ev ev.["signature"] release_kinds (expectedReleasePublicKeySha256 context) /\
  Descriptor_wf ev ev.["independentReview"] review_kinds (expectedReviewerPublicKeySha256 context) /\
  reviewed_release {| bound_commit := expectedCommit context; bound_version := expectedPackageVersion context |}
    ev.["independentReview"] /\
  (ev.["signature"]).["publicKeySha256"] <> (ev.["independentReview"]).["publicKeySha256"].
Proof.
  intros Hn. unfold check_signatures. rewrite release_add_if_nil, !validateSignatureDescriptor_nil by done. cbn [from_option].
  split.
  - intros (Hk & ((-> & Hs & _) & Hr & Hb)). split_and!; try done. by eapply same_key_false.
  - intros (-> & Hs & Hr & Hb & Hk). split_and!; try done. by eapply same_key_false.
Qed.
Lemma validateReleaseEvidence_wf context ev :
  validateReleaseEvidence context ev = Ok [] <-> Manifest_wf context ev.
Proof.
  unfold validateReleaseEvidence, isRecord. destruct (is_record ev) eqn:Hr; cbn [negb].
  2: { split; [by intros [=]|]. intros []. congruence. }
  cbv zeta. rewrite bind_Ok. split.
  - intros ([es1 paths] & H1 & H2). destruct (check_artifacts ev es1 paths) as [es2 byPath] eqn:Ea. apply Ok_inj in H2.
    assert (es2 = []) as -> by by eapply check_signatures_keeps.
    apply manifest_artifacts_nil in Ea as (-> & Hart & Hfp & ->). apply manifest_gates_nil in H1 as (H1 & Hg & Hng & ->).
    assert (Hna : NoDup (artifact_paths ev)) by apply Hfp.
    apply check_signatures_nil in H2 as (_ & Hs & Hrev & Hb & Hk); [|done].
    apply check_toolchains_nil in H1 as [H1 Ht]. apply pinned_nil in H1 as (H1 & Hv).
    apply release_add_if_nil in H1 as [Hi%bad_instant_spec H1]. apply pinned_nil in H1 as (H1 & Hc & Hca).
    apply release_add_if_nil in H1 as [Hsv%negb_false_iff H1]. apply checkSecretKeys_nil in H1 as [_ Hsec].
    constructor; try done; [by apply gates_checked_spec|].
    apply NoDup_app. split; [done|]. split; [|done]. intros x Hx Hx'. by apply (proj2 Hfp x).
  - intros [_ Hsec Hsv [Hc Hca] Hi Hv Ht Hg Hart Hp Hs Hrev Hb Hk]. apply NoDup_app in Hp as (Hng & Hd & Hna).
    exists ([], gate_paths ev). split.
    + apply manifest_gates_nil. split; [|split_and!; [by apply gates_checked_spec|done|done]].
      apply check_toolchains_nil. split; [|done]. apply pinned_nil. split; [|done].
      apply release_add_if_nil. split; [by apply bad_instant_spec|]. apply pinned_nil. split; [|done].
      apply release_add_if_nil. split; [by apply negb_false_iff|]. by apply checkSecretKeys_nil.
    + assert (Ea : check_artifacts ev [] (gate_paths ev) = ([], artifacts_by_path ev)).
      { apply manifest_artifacts_nil. split; [done|]. split; [done|]. split; [|done]. split; [done|]. intros x Hx Hx'. by apply (Hd x). }
      rewrite Ea. f_equal. by apply check_signatures_nil.
Qed.

(** C8. A release manifest is accepted exactly when it is a secret-free record of the
    expected commit and version with the pinned toolchains, each required gate exactly
    once, passing and at the manifest's commit, artifacts of distinct kinds covering the
    required ones, evidence paths all distinct, two complete Ed25519 descriptors whose
    paths name the artifacts of their kinds, trusted and distinct keys, and a review of
    this very release. *)
Theorem validateReleaseEvidence_correct context ev :
  validateReleaseEvidence context ev = Ok [] <-> Manifest_wf context ev.
Proof. exact (validateReleaseEvidence_wf context ev). Qed.
End manifest.
