(* ===== verification/ReleaseFiles.v ===== *)
(** * scripts/check-release-evidence.mjs: files, signatures and command

    The digest checks of the files a manifest references, the records of its gates, the
    two detached signatures, and the command.  A [try] block turns the error thrown in it
    into a finding with the error's message. *)

From S2P Require Import Prelude JsNumber Regex JsValue JsDate JsText Host ReleaseEvidence ReviewReport.
From S2P Require DeviceEvidence DeviceFiles LsanEvidence.
Open Scope js_scope.

Definition REVIEW_REPORT_MAX_BYTES : Z := 1 * 1024 * 1024.
Definition MAX_RELEASE_MANIFEST_BYTES : Z := 1 * 1024 * 1024.
Definition MAX_GATE_EVIDENCE_BYTES : Z := 1 * 1024 * 1024.
Definition MAX_RELEASE_ARTIFACT_BYTES : Z := 512 * 1024 * 1024.
Definition MAX_PUBLIC_KEY_BYTES : Z := 1024.
Definition ED25519_SIGNATURE_BYTES : Z := 64.
Definition maxArtifactBytes (kind : val) : Z :=
  if eq_str kind (js "release-public-key") || eq_str kind (js "independent-review-public-key") then MAX_PUBLIC_KEY_BYTES else
  if eq_str kind (js "release-signature") || eq_str kind (js "independent-review-signature") then ED25519_SIGNATURE_BYTES else
  if eq_str kind (js "independent-review-report") then REVIEW_REPORT_MAX_BYTES else MAX_RELEASE_ARTIFACT_BYTES.

(** ** Constant tables read with a key of any type *)

(** The names an object inherits; what they hold is a function, or an object with none
    of the members read here. *)
Definition object_prototype : list jsstr := map js
  ["constructor"; "__defineGetter__"; "__defineSetter__"; "hasOwnProperty"; "__lookupGetter__"; "__lookupSetter__";
   "isPrototypeOf"; "propertyIsEnumerable"; "toString"; "valueOf"; "__proto__"; "toLocaleString"]%string.
Inductive entry (A : Type) := Own (a : A) | Inherited | Absent.
Arguments Own {_} _.
Arguments Inherited {_}.
Arguments Absent {_}.
Definition table_get {A} (table : list (jsstr * A)) (key : val) : result jserr (entry A) :=
  k ← DeviceEvidence.to_property_key key;
  Ok match k with
     | None => Absent
     | Some k =>
         match find (fun kv => str_eqb k kv.1) table with
         | Some kv => Own kv.2
         | None => if str_in k object_prototype then Inherited else Absent
         end
     end.
Definition NATIVE_CHECKSUM_ARTIFACT_BY_PLATFORM : list (jsstr * jsstr) :=
  [(js "ios", js "native-checksum"); (js "android", js "native-checksum-android")].
Record DevicePolicy := { policy_platform : val; policy_physical : bool }.
Definition DEVICE_RELEASE_GATE_POLICIES : list (jsstr * DevicePolicy) :=
  [(js "ios-device-matrix", {| policy_platform := vstr "ios"; policy_physical := true |});
   (js "android-device-matrix", {| policy_platform := vstr "android"; policy_physical := true |});
   (js "web-browser-matrix", {| policy_platform := vstr "web"; policy_physical := false |})].
Definition fuzz_checks : list jsstr := map js ["auth_envelope"; "core_sequence"; "ffi_sequence"; "webauthn_state"]%string.
Definition CI_RELEASE_GATE_CHECKS : list (jsstr * list (list jsstr)) :=
  [(js "rust-workspace", [[js "job-rust"]]);
   (js "javascript-contracts", [[js "job-contracts"]]);
   (js "http-contract-version-parity", [[js "job-contracts"]]);
   (js "opaque-protocol-parity", [[js "job-contracts"]]);
   (js "native-parity", [[js "job-contracts"]]);
   (js "release-version-parity", [[js "job-contracts"]]);
   (js "framework-host-builds", [map js ["job-flutter-host-build"; "job-react-native-host-build"; "job-ios-host-builds";
      "job-android-native-sdk-host-runtime-smoke"; "job-android-host-runtime-smoke"]%string]);
   (js "fuzz-stability", [[js "job-fuzz"]; fuzz_checks]);
   (js "linux-leak-sanitizer", [[js "job-fuzz"]; fuzz_checks]);
   (js "durable-backends", [[js "job-durable-backends"];
      map js ["durable_storage"; "durable_rate_limit"; "durable_one_time_state"]%string])].
Definition CI_CHECK_LABEL : re :=
  RSeq (RCls [(97, 122); (48, 57)]) (rupto 80 (RCls [(97, 122); (48, 57); (46, 46); (95, 95); (45, 45)])).

Section files.
Context {host : Host}.

(** ** Locating and reading *)

Definition outside (relative : jsstr) : bool :=
  str_eqb relative [] || startsWith relative (js "../") || isAbsolute relative.
Definition containedFilePath (findings : list jsstr) (root field : jsstr) (relativePath : val)
    : list jsstr * option jsstr :=
  match relativePath with
  | VStr rel =>
      if negb (isSafeRelativePath relativePath) then (findings, None) else
      let attempt :=
        realRoot ← realpathSync root;
        let absoluteFile := resolve2 cwd realRoot rel in
        link ← LsanEvidence.strict_scan (S (length absoluteFile)) realRoot absoluteFile;
        if (link : bool)
        then Ok (add findings (dot field (js "path")) (js "must not resolve through symbolic links"), None) else
        realFile ← realpathSync absoluteFile;
        if outside (relative cwd realRoot realFile)
        then Ok (add findings (dot field (js "path")) (js "must resolve inside the evidence root"), None)
        else Ok (findings, Some realFile) in
      match attempt with
      | Ok r => r
      | Throw message =>
          (add findings (dot field (js "path")) (js "could not resolve " ++ rel ++ js ": " ++ message), None)
      end
  | _ => (findings, None)
  end.
(** The part of [verifyFileDigest] after the file is located. *)
Definition digest_of_file (findings : list jsstr) (field rel absolutePath : jsstr) (expectedHash : val) (maximumBytes : Z)
    : list jsstr :=
  let attempt :=
    stats ← statSync absolutePath;
    if negb (isFile stats) then Ok (add findings (dot field (js "path")) (js "must reference a regular file")) else
    if size stats =? 0 then Ok (add findings (dot field (js "path")) (js "must not be empty")) else
    if maximumBytes <? size stats
    then Ok (add findings (dot field (js "path")) (js "must not exceed " ++ dec maximumBytes ++ js " bytes")) else
    bytes ← readFileSync absolutePath;
    Ok (add_if (negb (eq_str expectedHash (sha256 bytes))) (dot field (js "sha256")) (js "does not match " ++ rel) findings) in
  match attempt with
  | Ok r => r
  | Throw message => add findings (dot field (js "path")) (js "could not read " ++ rel ++ js ": " ++ message)
  end.
Definition verifyFileDigest (findings : list jsstr) (root field : jsstr) (relativePath expectedHash : val) (maximumBytes : Z)
    : result jserr (list jsstr) :=
  match relativePath with
  | VStr rel =>
      if negb (isSafeRelativePath relativePath) then Ok findings else
      h ← String_ expectedHash;
      if negb (re_match SHA256 h) then Ok findings else
      let '(findings, absolutePath) := containedFilePath findings root field relativePath in
      Ok match absolutePath with
         | None | Some [] => findings
         | Some absolutePath => digest_of_file findings field rel absolutePath expectedHash maximumBytes
         end
  | _ => Ok findings
  end.
Definition readBoundedFile (findings : list jsstr) (absolutePath field : jsstr) (maximumBytes : Z)
    : list jsstr * option (list Z) :=
  let attempt :=
    stats ← statSync absolutePath;
    if negb (isFile stats) then Ok (add findings (dot field (js "path")) (js "must reference a regular file"), None) else
    if size stats =? 0 then Ok (add findings (dot field (js "path")) (js "must be non-empty"), None) else
    if maximumBytes <? size stats
    then Ok (add findings (dot field (js "path")) (js "must not exceed " ++ dec maximumBytes ++ js " bytes"), None) else
    bytes ← readFileSync absolutePath;
    Ok (findings, Some bytes) in
  match attempt with
  | Ok r => r
  | Throw message => (add findings (dot field (js "path")) (js "could not read evidence file: " ++ message), None)
  end.
Definition readBoundedManifest (filePath : jsstr) : result jsstr (list Z) :=
  link ← lstat_isSymbolicLink filePath;
  if (link : bool) then Throw (js "manifest must not be a symbolic link") else
  stats ← statSync filePath;
  if negb (isFile stats) then Throw (js "manifest must reference a regular file") else
  if size stats =? 0 then Throw (js "manifest must not be empty") else
  if MAX_RELEASE_MANIFEST_BYTES <? size stats
  then Throw (js "manifest must not exceed " ++ dec MAX_RELEASE_MANIFEST_BYTES ++ js " bytes")
  else readFileSync filePath.

(** ** Records of gates *)

(** [artifacts.find((a) => isRecord(a) && a.kind === kind)] *)
Definition find_kind (kind : jsstr) (slots : list (option val)) : option val :=
  find (fun artifact => isRecord artifact && eq_str artifact.["kind"] kind) (iterated slots).
Definition verifyNativeChecksumBinding (findings : list jsstr) (field : jsstr) (gate record artifacts : val)
    : result jserr (list jsstr) :=
  candidate ← table_get NATIVE_CHECKSUM_ARTIFACT_BY_PLATFORM record.["platform"];
  match candidate, record.["artifacts"], artifacts with
  | Own candidateKind, VArr device, VArr release =>
      match find_kind (js "native-checksum") device, find_kind candidateKind release with
      | Some deviceChecksum, Some candidateChecksum =>
          if strict_eq deviceChecksum.["sha256"] candidateChecksum.["sha256"] then Ok findings else
          name ← to_string gate.["name"];
          Ok (add findings (dot field (js "device.native-checksum"))
                (name ++ js " native-checksum must match the candidate " ++ candidateKind ++ js " artifact"))
      | _, _ => Ok findings
      end
  | _, _, _ => Ok findings
  end.

(** The checks of a gate a CI job owns; an inherited table entry has no [some]. *)
Definition check_ci (findings : list jsstr) (field : jsstr) (required : entry (list (list jsstr))) (record : val)
    : result jserr (list jsstr) :=
  match required with
  | Absent => Ok findings
  | _ =>
      let findings := add_if (negb (eq_str record.["evidenceKind"] (js "ci-command"))) (dot field (js "evidence.evidenceKind"))
        (js "CI gate evidenceKind must equal ci-command") findings in
      let findings := add_if (negb (is_matching CI_CHECK_LABEL record.["runner"])) (dot field (js "evidence.runner"))
        (js "CI gate runner must be a sanitized label") findings in
      let findings := add_if (bad_instant record.["recordedAt"]) (dot field (js "evidence.recordedAt"))
        (js "CI gate recordedAt must be an ISO-8601 UTC timestamp") findings in
      let checksField := dot field (js "evidence.checks") in
      match record.["checks"] with
      | VArr ((_ :: _) as slots) =>
          let checks := iterated slots in
          let findings := add_if (existsb (fun check => negb (is_matching CI_CHECK_LABEL check)) checks) checksField
            (js "CI gate checks must contain sanitized labels only") findings in
          match required with
          | Own sets =>
              Ok (add_if (negb (existsb (forallb (fun check => existsb (fun v => eq_str v check) checks)) sets)) checksField
                    (js "CI gate checks must include one complete owning job or command group") findings)
          | _ => Throw TypeError
          end
      | _ => Ok (add findings checksField (js "CI gate checks must contain the owning job checks"))
      end
  end.
(** [for (const finding of more) add(findings, field, finding)] *)
Definition add_all (findings : list jsstr) (field : jsstr) (more : list jsstr) : list jsstr :=
  foldl (fun findings finding => add findings field finding) findings more.
Definition check_lsan (findings : list jsstr) (root field : jsstr) (gate record : val) : result jserr (list jsstr) :=
  if negb (eq_str gate.["name"] (js "linux-leak-sanitizer")) then Ok findings else
  shape ← LsanEvidence.validateLsanEvidenceRecord record gate.["commit"] gate.["name"];
  files ← LsanEvidence.verifyLsanEvidenceFiles record root [];
  Ok (add_all (add_all findings (dot field (js "lsan")) shape) (dot field (js "lsan.files")) files).
Definition device_options (gate toolchains : val) (policy : DevicePolicy) : DeviceEvidence.Options := {|
  DeviceEvidence.requirePhysicalDevice := policy_physical policy;
  DeviceEvidence.requireNativeHostModes := true;
  DeviceEvidence.requirePlatformSupport := policy_physical policy;
  DeviceEvidence.expectedCommit := gate.["commit"];
  DeviceEvidence.expectedGate := gate.["name"];
  DeviceEvidence.expectedHostModeVersions :=
    if isRecord toolchains
    then vobj [("react-native", toolchains.["reactNative"]); ("flutter", toolchains.["flutter"])]%string else VUndef |}.
Definition check_device (findings : list jsstr) (root field : jsstr) (gate record artifacts toolchains : val)
    : result jserr (list jsstr) :=
  policy ← table_get DEVICE_RELEASE_GATE_POLICIES gate.["name"];
  let with_policy policy :=
    findings ←
      if strict_eq record.["platform"] (policy_platform policy) then Ok findings else
      platform ← to_string (policy_platform policy);
      name ← to_string gate.["name"];
      Ok (add findings (dot field (js "device.platform"))
            (js "must equal " ++ platform ++ js " for the " ++ name ++ js " gate"));
    shape ← DeviceEvidence.validateDeviceEvidence (device_options gate toolchains policy) record;
    files ← DeviceFiles.verifyDeviceEvidenceFiles record root;
    verifyNativeChecksumBinding
      (add_all (add_all findings (dot field (js "device")) shape) (dot field (js "device.files")) files)
      field gate record artifacts in
  match policy with
  | Absent => Ok findings
  | Own policy => with_policy policy
  | Inherited => with_policy {| policy_platform := VUndef; policy_physical := false |}
  end.
(** The record of a gate, once parsed. *)
Definition check_gate_record (findings : list jsstr) (root field : jsstr) (gate record artifacts toolchains : val)
    : result jserr (list jsstr) :=
  if negb (isRecord record)
  then Ok (add findings (dot field (js "evidencePath")) (js "gate evidence must be a JSON object")) else
  let findings := checkSecretKeys record (dot field (js "evidence")) findings in
  let findings := add_if (negb (eq_int record.["schemaVersion"] 1)) (dot field (js "evidence.schemaVersion"))
    (js "gate evidence schemaVersion must equal 1") findings in
  let findings := add_if (negb (eq_str record.["status"] (js "pass"))) (dot field (js "evidence.status"))
    (js "gate evidence status must equal pass") findings in
  let findings := if negb (is_matching COMMIT record.["commit"])
    then add findings (dot field (js "evidence.commit")) (js "gate evidence commit must be a 40-character lowercase commit SHA")
    else add_if (negb (strict_eq record.["commit"] gate.["commit"])) (dot field (js "evidence.commit"))
           (js "gate evidence commit must match the gate commit") findings in
  let findings := add_if (negb (strict_eq record.["gate"] gate.["name"])) (dot field (js "evidence.gate"))
    (js "gate evidence gate must match the release gate") findings in
  required ← table_get CI_RELEASE_GATE_CHECKS gate.["name"];
  findings ← check_ci findings field required record;
  findings ← check_lsan findings root field gate record;
  check_device findings root field gate record artifacts toolchains.
Definition verifyGateEvidenceRecord (findings : list jsstr) (root field : jsstr) (gate artifacts toolchains : val)
    : result jserr (list jsstr) :=
  if negb (isSafeRelativePath gate.["evidencePath"]) then Ok findings else
  c ← String_ gate.["commit"];
  if negb (re_match COMMIT c) then Ok findings else
  let '(findings, absolutePath) := containedFilePath findings root field gate.["evidencePath"] in
  match absolutePath with
  | None | Some [] => Ok findings
  | Some absolutePath =>
      let '(findings, recordBytes) := readBoundedFile findings absolutePath field MAX_GATE_EVIDENCE_BYTES in
      match recordBytes with
      | None => Ok findings
      | Some recordBytes =>
          match JSON_parse (utf8_decode recordBytes) with
          | Throw message =>
              Ok (add findings (dot field (js "evidencePath")) (js "gate evidence must be a JSON record: " ++ message))
          | Ok record => check_gate_record findings root field gate record artifacts toolchains
          end
      end
  end.

(** ** Detached signatures *)

Definition verifyIndependentReviewReport (findings : list jsstr) (bytes : list Z) (descriptor evidence : val)
    : result jserr (list jsstr) :=
  match JSON_parse (utf8_decode bytes) with
  | Throw message => Ok (add findings report_field (js "must be a structured JSON report: " ++ message))
  | Ok report =>
      if negb (isRecord report) then Ok (add findings report_field (js "must be a JSON object")) else
      more ← validateIndependentReviewReport
        {| review_commit := evidence.["commit"]; review_version := evidence.["packageVersion"];
           review_key := descriptor.["publicKeySha256"] |} report;
      Ok (findings ++ more)
  end.
Definition is_review (fieldName : jsstr) : bool := str_eqb fieldName (js "independentReview").
(** The part of the [try] block that follows the three reads; what it throws is caught. *)
Definition check_signature (findings : list jsstr) (evidence descriptor : val) (fieldName : jsstr)
    (publicKeyBytes signedArtifactBytes signatureBytes : list Z) : result jsstr (list jsstr) :=
  if negb (Z.of_nat (length signatureBytes) =? ED25519_SIGNATURE_BYTES)
  then Ok (add findings (dot fieldName (js "signaturePath"))
             (js "must contain exactly " ++ dec ED25519_SIGNATURE_BYTES ++ js " bytes")) else
  if negb (eq_str descriptor.["publicKeySha256"] (sha256 publicKeyBytes))
  then Ok (add findings (dot fieldName (js "publicKeySha256")) (js "does not match the referenced public key")) else
  keyType ← public_key_type publicKeyBytes;
  if negb (str_eqb keyType (js "ed25519"))
  then Ok (add findings (dot fieldName (js "publicKeyPath")) (js "signature public key must be Ed25519")) else
  valid ← verify signedArtifactBytes publicKeyBytes signatureBytes;
  if negb (valid : bool) then Ok (add findings fieldName (js "detached Ed25519 signature verification failed")) else
  if is_review fieldName
  then match verifyIndependentReviewReport findings signedArtifactBytes descriptor evidence with
       | Ok findings => Ok findings
       | Throw e => Throw (error_message e)
       end
  else Ok findings.
Definition verifyDetachedSignature (findings : list jsstr) (evidence : val) (root : jsstr) (fieldName : String.string)
    : result jserr (list jsstr) :=
  let descriptor := get evidence (js fieldName) in
  let field k := dot (js fieldName) (js k) in
  if negb (isRecord descriptor) then Ok findings else
  let '(findings, publicKeyPath) := containedFilePath findings root (field "publicKeyPath") descriptor.["publicKeyPath"] in
  let '(findings, signedArtifactPath) :=
    containedFilePath findings root (field "signedArtifactPath") descriptor.["signedArtifactPath"] in
  let '(findings, signaturePath) := containedFilePath findings root (field "signaturePath") descriptor.["signaturePath"] in
  match publicKeyPath, signedArtifactPath, signaturePath with
  | Some ((_ :: _) as publicKeyPath), Some ((_ :: _) as signedArtifactPath), Some ((_ :: _) as signaturePath) =>
      h ← String_ descriptor.["publicKeySha256"];
      if negb (re_match SHA256 h) then Ok findings else
      let review := is_review (js fieldName) in
      let '(findings, publicKeyBytes) :=
        readBoundedFile findings publicKeyPath (field "publicKeyPath") MAX_PUBLIC_KEY_BYTES in
      let '(findings, signedArtifactBytes) :=
        readBoundedFile findings signedArtifactPath (if review then field "report" else field "signedArtifactPath")
          (if review then REVIEW_REPORT_MAX_BYTES else MAX_RELEASE_ARTIFACT_BYTES) in
      let '(findings, signatureBytes) :=
        readBoundedFile findings signaturePath (field "signaturePath") ED25519_SIGNATURE_BYTES in
      match publicKeyBytes, signedArtifactBytes, signatureBytes with
      | Some publicKeyBytes, Some signedArtifactBytes, Some signatureBytes =>
          match check_signature findings evidence descriptor (js fieldName) publicKeyBytes signedArtifactBytes signatureBytes with
          | Ok findings => Ok findings
          | Throw message =>
              Ok (add findings (js fieldName) (js "detached Ed25519 signature could not be verified: " ++ message))
          end
      | _, _, _ => Ok findings
      end
  | _, _, _ => Ok findings
  end.

(** ** All files of a manifest *)

Definition verify_gate (root : jsstr) (evidence : val) (findings : list jsstr) (e : nat * val) : result jserr (list jsstr) :=
  let '(index, gate) := e in
  if negb (isRecord gate) then Ok findings else
  let field := nth_of (js "gates") index in
  findings ← verifyFileDigest findings root field gate.["evidencePath"] gate.["sha256"] MAX_GATE_EVIDENCE_BYTES;
  verifyGateEvidenceRecord findings root field gate evidence.["artifacts"] evidence.["toolchains"].
Definition verify_artifact (root : jsstr) (findings : list jsstr) (e : nat * val) : result jserr (list jsstr) :=
  let '(index, artifact) := e in
  if negb (isRecord artifact) then Ok findings else
  verifyFileDigest findings root (nth_of (js "artifacts") index) artifact.["path"] artifact.["sha256"]
    (maxArtifactBytes artifact.["kind"]).
Definition verifyReleaseEvidenceFiles (evidence : val) (root : jsstr) : result jserr (list jsstr) :=
  match isRecord evidence, evidence.["gates"], evidence.["artifacts"] with
  | true, VArr gates, VArr artifacts =>
      findings ← DeviceEvidence.foldM (verify_gate root evidence) [] (indexed (iterated gates));
      findings ← DeviceEvidence.foldM (verify_artifact root) findings (indexed (iterated artifacts));
      findings ← verifyDetachedSignature findings evidence root "signature";
      verifyDetachedSignature findings evidence root "independentReview"
  | _, _, _ => Ok [js "manifest: file verification requires a structurally valid manifest"]
  end.

(** ** The command *)

(** What the command reads of its process: the arguments after the script, the
    environment and the output of [git rev-parse HEAD]. *)
Record Process := {
  arguments : list jsstr;
  environment : jsstr -> option jsstr;
  git_head : result jsstr jsstr;
}.
Definition currentCommit (p : Process) : option jsstr :=
  match git_head p with
  | Ok output => let commit := trim output in if re_match COMMIT commit then Some commit else None
  | Throw _ => None
  end.
Definition currentPackageVersion (root : jsstr) : option jsstr :=
  match bytes ← readFileSync (resolve2 cwd root (js "packages/contracts/package.json")); JSON_parse (utf8_decode bytes) with
  | Ok packageJson => match packageJson.["version"] with VStr v => Some v | _ => None end
  | Throw _ => None
  end.
Definition readTrustedFingerprint (p : Process) (findings : list jsstr) (environmentName : jsstr) (required : bool)
    : list jsstr * val :=
  let value := match environment p environmentName with Some v => VStr v | None => VUndef end in
  let findings := add_if (required && negb (truthy value)) environmentName (js "must be provided in trusted-key mode") findings in
  ((if negb (is_undefined value) then checkHash environmentName value findings else findings), value).
Definition TRUSTED_FLAG : jsstr := js "--require-trusted-keys".
Definition opt_val (o : option jsstr) : val := match o with Some s => VStr s | None => VUndef end.
Definition bullets (findings : list jsstr) : list jsstr := map (fun finding => js "- " ++ finding) findings.
(** The lines written and the exit code. *)
Definition release_main (p : Process) : result jserr (list jsstr * Z) :=
  let requireTrustedKeys := str_in TRUSTED_FLAG (arguments p) in
  match find (fun argument => negb (str_eqb argument TRUSTED_FLAG)) (arguments p) with
  | None | Some [] =>
      Ok ([js "usage: node scripts/check-release-evidence.mjs [--require-trusted-keys] path/to/release-evidence.json"], 64)
  | Some manifestPath =>
      let absoluteManifestPath := resolve2 cwd cwd manifestPath in
      match bytes ← readBoundedManifest absoluteManifestPath; JSON_parse (utf8_decode bytes) with
      | Throw message => Ok ([js "release evidence could not be read: " ++ message], 1)
      | Ok evidence =>
          let expectedCommit := opt_val (currentCommit p) in
          let expectedPackageVersion := opt_val (currentPackageVersion cwd) in
          let contextFindings := add_if (negb (truthy expectedCommit)) (js "commit")
            (js "current checkout commit could not be determined") [] in
          let contextFindings := add_if (negb (truthy expectedPackageVersion)) (js "packageVersion")
            (js "current release version could not be determined") contextFindings in
          let '(contextFindings, releaseKey) :=
            readTrustedFingerprint p contextFindings (js "SECURE_KEYPAD_RELEASE_PUBLIC_KEY_SHA256") requireTrustedKeys in
          let '(contextFindings, reviewerKey) :=
            readTrustedFingerprint p contextFindings (js "SECURE_KEYPAD_REVIEWER_PUBLIC_KEY_SHA256") requireTrustedKeys in
          shape ← validateReleaseEvidence {| expectedCommit := expectedCommit; expectedPackageVersion := expectedPackageVersion;
            expectedReleasePublicKeySha256 := releaseKey; expectedReviewerPublicKeySha256 := reviewerKey |} evidence;
          let findings := contextFindings ++ shape in
          if (0 <? length findings)%nat then Ok (bullets findings, 1) else
          fileFindings ← verifyReleaseEvidenceFiles evidence (dirname absoluteManifestPath);
          if (0 <? length fileFindings)%nat then Ok (bullets fileFindings, 1)
          else Ok ([js "release evidence schema valid"], 0)
      end
  end.
End files.
