(* ===== verification/ReleaseFilesProps.v ===== *)
(** * What the release file checks establish

    Locating, digesting and reading a file, for any host obeying [HostLaws]. *)

From S2P Require Import Prelude JsNumber Regex JsValue JsText Host PathProps.
From S2P Require Import ContractsSpec EvidenceSpec DeviceEvidenceProps DeviceFilesProps LsanEvidence ReleaseEvidence ReviewReport ReviewProps ReleaseProps ReleaseFiles.
Open Scope js_scope.

(** ** The scan that lets a failing [lstat] throw *)

(** A failing [lstat] counts as a link. *)
Definition strict_host (host : Host) : Host := {|
  cwd := cwd; realpathSync := realpathSync;
  lstat_isSymbolicLink := fun p => match lstat_isSymbolicLink p with Ok false => Ok false | _ => Ok true end;
  statSync := statSync; readFileSync := readFileSync; sha256 := sha256; JSON_parse := JSON_parse;
  public_key_type := public_key_type; verify := verify; other_format := other_format; error_message := error_message |}.
Section files.
Context {host : Host}.

Lemma strict_scan_symlinks fuel root p :
  strict_scan fuel root p = Ok false <-> @symlink_scan (strict_host host) fuel root p = false.
Proof.
  revert p; induction fuel as [|fuel IH]; intros p; cbn [strict_scan symlink_scan]; [done|].
  destruct (_ && _); [|done]. cbn [lstat_isSymbolicLink strict_host].
  destruct (lstat_isSymbolicLink p) as [[]|m]; cbn [mbind result_bind]; [done|apply IH|done].
Qed.
Lemma strict_scan_spec fuel r c :
  Forall component (r ++ c) -> (length c < fuel)%nat ->
  strict_scan fuel (abspath r) (abspath (r ++ c)) = Ok false <->
  (r <> [] -> forall k, (0 < k <= length c)%nat -> lstat_isSymbolicLink (abspath (r ++ take k c)) = Ok false).
Proof.
  intros Hc Hf. rewrite strict_scan_symlinks, <- not_true_iff_false.
  rewrite (@symlink_scan_spec (strict_host host) fuel r c Hc Hf). cbn [lstat_isSymbolicLink strict_host]. split.
  - intros H Hr k Hk. destruct (lstat_isSymbolicLink _) as [[]|] eqn:E; [exfalso|done|exfalso];
      apply H; (split; [done|]); exists k; by rewrite E.
  - intros H (Hr & k & Hk & Hl). by rewrite (H Hr k Hk) in Hl.
Qed.

(** ** Files *)

(** Where a safe path leads, when every component below the root could be examined. *)
Definition Found (root p file : jsstr) : Prop :=
  Located root p file /\
  forall r c, realpathSync root = Ok (abspath r) -> p = join sep c -> c <> [] -> Forall proper (r ++ c) -> r <> [] ->
    forall k, (0 < k <= length c)%nat -> lstat_isSymbolicLink (abspath (r ++ take k c)) = Ok false.
(** A regular, non-empty file of at most [maximum] bytes with these contents. *)
Definition bounded_file (file : jsstr) (maximum : Z) (bytes : list Z) : Prop :=
  exists stats, statSync file = Ok stats /\ isFile stats = true /\ size stats <> 0 /\ size stats <= maximum /\
    readFileSync file = Ok bytes.
(** The evidence file [p] below [root]. *)
Definition evidence_file (root p : jsstr) (maximum : Z) (bytes : list Z) : Prop :=
  exists file, Found root p file /\ bounded_file file maximum bytes.

Lemma bounded_file_fun file max max' bytes bytes' :
  bounded_file file max bytes -> bounded_file file max' bytes' -> bytes = bytes'.
Proof. intros (? & _ & _ & _ & _ & H) (? & _ & _ & _ & _ & H'). rewrite H in H'. by apply Ok_inj in H'. Qed.
Lemma Found_fun root p file file' : Found root p file -> Found root p file' -> file = file'.
Proof. intros [H _] [H' _]. by eapply Located_fun. Qed.
Lemma evidence_file_fun root p max max' bytes bytes' :
  evidence_file root p max bytes -> evidence_file root p max' bytes' -> bytes = bytes'.
Proof.
  intros (f & Hf & Hb) (f' & Hf' & Hb'). rewrite (Found_fun _ _ _ _ Hf' Hf) in Hb'. by eapply bounded_file_fun.
Qed.
Lemma found_nonempty root p file : Found root p file -> exists c s, file = c :: s.
Proof. intros [H _]. by eapply located_nonempty. Qed.

Context (laws : HostLaws host).
Lemma release_contained_nil es root field p o :
  safe_path p ->
  containedFilePath es root field (VStr p) = ([], o) <-> es = [] /\ exists file, o = Some file /\ Found root p file.
Proof.
  intros Hp. unfold containedFilePath.
  rewrite (proj2 (release_safe (VStr p)) (ex_intro _ p (conj eq_refl Hp))). cbn [negb].
  destruct Hp as (c & Hc0 & Hc & -> & _). unfold Found.
  destruct (realpathSync root) as [R|m] eqn:Er; cbn [mbind result_bind].
  2: { split; [by intros [= H%release_add_nil _]|]. intros (_ & f & _ & (? & ? & ? & H & _) & _). congruence. }
  destruct (realpath_normal host laws _ _ Er) as (r & Hr & ->).
  assert (Hrc : Forall proper (r ++ c)) by by apply Forall_app.
  setoid_rewrite (Located_unfold root r c); [|done..].
  rewrite (resolve2_proper cwd r c) by done. pose proof (proper_component _ Hrc) as Hcomp.
  pose proof (strict_scan_spec (S (length (abspath (r ++ c)))) r c Hcomp) as Hscan.
  specialize (Hscan ltac:(pose proof (abspath_length r c Hcomp); lia)).
  assert (Hall : (forall r' c', Ok (E := jsstr) (abspath r) = Ok (abspath r') -> join sep c = join sep c' -> c' <> [] ->
      Forall proper (r' ++ c') -> r' <> [] -> forall k, (0 < k <= length c')%nat ->
      lstat_isSymbolicLink (abspath (r' ++ take k c')) = Ok false) <->
    strict_scan (S (length (abspath (r ++ c)))) (abspath r) (abspath (r ++ c)) = Ok false).
  { rewrite Hscan. split; [intros H Hr0; by apply (H r c)|]. intros H r' c' Hr' Hc' Hne' [Hpr' Hpc']%Forall_app Hr0.
    apply Ok_inj, abspath_inj in Hr' as <-; [|by apply proper_component..].
    apply join_inj in Hc' as <-; [|done|done|by apply proper_component..]. by apply H. }
  setoid_rewrite Hall. clear Hall.
  destruct (strict_scan _ _ _) as [[]|m]; cbn [mbind result_bind].
  1, 3: split; [by intros [= H%release_add_nil _]|by intros (_ & ? & _ & _ & ?)].
  assert (Hno : r <> [] -> forall k, (0 < k <= length c)%nat -> lstat_isSymbolicLink (abspath (r ++ take k c)) <> Ok true).
  { intros Hr0 k Hk Hl. rewrite (proj1 Hscan eq_refl Hr0 k Hk) in Hl. discriminate. }
  clear Hscan. destruct (realpathSync (abspath (r ++ c))) as [F|m] eqn:Ef; cbn [mbind result_bind].
  2: { split; [by intros [= H%release_add_nil _]|]. by intros (_ & f & _ & (_ & ? & _) & _). }
  destruct (realpath_normal host laws _ _ Ef) as (f & Hf & ->). pose proof (outside_spec cwd r f Hr Hf) as Hout.
  change (DeviceFiles.outside) with outside in Hout. destruct (outside _).
  - split; [by intros [= H%release_add_nil _]|]. intros (_ & file & _ & (_ & Hfile & f' & -> & Hf' & Hin) & _).
    apply Ok_inj, abspath_inj in Hfile as <-; [|by apply proper_component..]. by apply Hout in Hin.
  - split.
    + intros [-> <-]%pair_equal_spec. split; [done|]. exists (abspath f). split; [done|]. split; [|done]. split; [done|]. split; [done|].
      exists f. split; [done|]. split; [done|]. by apply Hout.
    + intros (-> & file & -> & (_ & Hfile & _) & _). by apply Ok_inj in Hfile as ->.
Qed.
(** A safe path is found, or a finding says why not. *)
Lemma contained_cases root field p :
  safe_path p ->
  (exists u s, Found root p (u :: s) /\ forall es, containedFilePath es root field (VStr p) = (es, Some (u :: s))) \/
  ((forall file, ~ Found root p file) /\
   exists m ms, forall es, containedFilePath es root field (VStr p) = (es ++ m :: ms, None)).
Proof.
  intros Hp. pose proof (fun es => release_contained_nil es root field p) as Hc.
  assert (Hsplit : (exists file, forall es, containedFilePath es root field (VStr p) = (es, Some file)) \/
    exists m ms, forall es, containedFilePath es root field (VStr p) = (es ++ m :: ms, None)).
  { unfold containedFilePath. rewrite (proj2 (release_safe (VStr p)) (ex_intro _ p (conj eq_refl Hp))). cbn [negb]. unfold add.
    destruct (realpathSync root); cbn [mbind result_bind]; [|right; by do 2 eexists].
    destruct (strict_scan _ _ _) as [[]|]; cbn [mbind result_bind]; [right; by do 2 eexists| |right; by do 2 eexists].
    destruct (realpathSync _); cbn [mbind result_bind]; [|right; by do 2 eexists].
    destruct (outside _); [right; by do 2 eexists|left; by eexists]. }
  destruct Hsplit as [[file H]|(m & ms & H)]; [left|right].
  - destruct (proj1 (Hc [] (Some file) Hp) (H [])) as (_ & f & [= <-] & Hf). destruct (found_nonempty _ _ _ Hf) as (u & s & ->).
    by exists u, s.
  - split; [|by exists m, ms]. intros file Hf.
    assert (E : containedFilePath [] root field (VStr p) = ([], Some file)) by (apply Hc; [done|]; by eauto).
    by rewrite H in E.
Qed.

Lemma digest_of_file_ok es field rel file hash max :
  digest_of_file es field rel file hash max = [] <->
  es = [] /\ exists bytes, bounded_file file max bytes /\ hash = VStr (sha256 bytes).
Proof.
  unfold digest_of_file, bounded_file. destruct (statSync file) as [stats|m] eqn:Es; cbn [mbind result_bind].
  2: { rewrite release_add_nil. split; [done|]. by intros (_ & ? & (? & ? & _) & _). }
  destruct (isFile stats) eqn:Ef; cbn [negb].
  2: { rewrite release_add_nil. split; [done|]. intros (_ & ? & (? & [= <-] & ? & _) & _). congruence. }
  destruct (Z.eqb_spec (size stats) 0) as [E0|E0].
  { rewrite release_add_nil. split; [done|]. by intros (_ & ? & (? & [= <-] & _ & ? & _) & _). }
  destruct (Z.ltb_spec max (size stats)) as [El|El].
  { rewrite release_add_nil. split; [done|]. intros (_ & ? & (? & [= <-] & _ & _ & ? & _) & _). lia. }
  destruct (readFileSync file) as [bytes|m] eqn:Eb; cbn [mbind result_bind].
  - rewrite release_add_if_nil, negb_false_iff, eq_str_spec. split.
    + intros [H ->]. split; [done|]. exists bytes. split; [by exists stats|done].
    + by intros (-> & bytes' & (? & _ & _ & _ & _ & ->%Ok_inj) & ->).
  - rewrite release_add_nil. split; [done|]. by intros (_ & ? & (? & _ & _ & _ & _ & ?) & _).
Qed.
(** The file is there, within its bound, and has the declared digest. *)
Definition digested (root p : jsstr) (hash : val) (max : Z) : Prop :=
  exists bytes, evidence_file root p max bytes /\ hash = VStr (sha256 bytes).
Lemma verifyFileDigest_nil es root field p hash max :
  safe_path p -> sha_val hash ->
  verifyFileDigest es root field (VStr p) hash max = Ok [] <-> es = [] /\ digested root p hash max.
Proof.
  intros Hp (h & -> & Hm). unfold verifyFileDigest, digested, evidence_file.
  rewrite (proj2 (release_safe (VStr p)) (ex_intro _ p (conj eq_refl Hp))). cbn [negb].
  apply re_match_correct in Hm. change (String_ (VStr h)) with (Ok (E := jserr) h). cbn [mbind result_bind].
  change DeviceEvidence.SHA256 with SHA256 in Hm. rewrite Hm. cbn [negb].
  destruct (contained_cases root field p Hp) as [(u & s & Hf & E)|(Hno & m & ms & E)]; rewrite E.
  - split.
    + intros [-> (bytes & Hb & Hh)]%Ok_inj%digest_of_file_ok. split; [done|]. exists bytes. split; [|done]. by exists (u :: s).
    + intros (-> & bytes & (file & Hf' & Hb) & Hh). f_equal. apply digest_of_file_ok. split; [done|]. exists bytes.
      by rewrite (Found_fun _ _ _ _ Hf Hf').
  - split; [intros [_ ?]%Ok_inj%app_eq_nil; done|]. intros (_ & bytes & (file & Hf & _) & _). by apply Hno in Hf.
Qed.
(** Reading adds no finding exactly when it returns the bytes. *)
Lemma readBoundedFile_cases file field max :
  (exists bytes, bounded_file file max bytes /\ forall es, readBoundedFile es file field max = (es, Some bytes)) \/
  ((forall bytes, ~ bounded_file file max bytes) /\
   exists m ms, forall es, readBoundedFile es file field max = (es ++ m :: ms, None)).
Proof.
  unfold readBoundedFile, bounded_file, add. destruct (statSync file) as [stats|m] eqn:Es; cbn [mbind result_bind].
  2: { right. split; [by intros ? (? & ? & _)|by do 2 eexists]. }
  destruct (isFile stats) eqn:Ef; cbn [negb].
  2: { right. split; [|by do 2 eexists]. intros ? (? & [= <-] & ? & _). congruence. }
  destruct (Z.eqb_spec (size stats) 0).
  { right. split; [|by do 2 eexists]. by intros ? (? & [= <-] & _ & ? & _). }
  destruct (Z.ltb_spec max (size stats)).
  { right. split; [|by do 2 eexists]. intros ? (? & [= <-] & _ & _ & ? & _). lia. }
  destruct (readFileSync file) as [bytes|m] eqn:Eb; cbn [mbind result_bind].
  - left. exists bytes. split; [by exists stats|done].
  - right. split; [by intros ? (? & _ & _ & _ & _ & ?)|by do 2 eexists].
Qed.
End files.
