(* ===== verification/ReleaseGateProps.v ===== *)
(** * What the record of a release gate must say

    The record a gate names, checked for the gate's own commit and name, its CI checks,
    its sanitizer campaign or its devices. *)

From S2P Require Import Prelude JsNumber Regex JsValue JsDate JsText Host PathProps.
From S2P Require Import ContractsSpec PlatformSupportProps EvidenceSpec DeviceEvidenceProps DeviceRecord DeviceFilesProps LsanProps.
From S2P Require Import ReleaseEvidence ReviewReport ReviewProps ReleaseProps ReleaseFiles ReleaseFilesProps.
From S2P Require DeviceEvidence DeviceFiles LsanEvidence.
Open Scope js_scope.

(** ** Tables *)

Definition table_find {A} (table : list (jsstr * A)) (k : jsstr) : option A :=
  option_map snd (find (fun kv => str_eqb k kv.1) table).
Lemma table_get_required {A} (table : list (jsstr * A)) n :
  n ∈ REQUIRED_RELEASE_GATES ->
  table_get table (VStr n) = Ok match table_find table n with Some a => Own a | None => Absent end.
Proof.
  intros Hn. unfold table_get, table_find.
  change (DeviceEvidence.to_property_key (VStr n)) with (Ok (E := jserr) (Some n)). cbn [mbind result_bind].
  destruct (find _ table); [done|]. cbn [option_map].
  replace (str_in n object_prototype) with false; [done|]. symmetry. revert n Hn. apply Forall_forall. repeat constructor.
Qed.

Section gates.
Context {host : Host}.

(** ** CI checks *)

Record Ci_wf (sets : list (list jsstr)) (record : val) : Prop := {
  ci_kind : record.["evidenceKind"] = vstr "ci-command";
  ci_runner : matching CI_CHECK_LABEL record.["runner"];
  ci_recorded : instant_val record.["recordedAt"];
  ci_checks : exists slots, record.["checks"] = VArr slots /\ slots <> [] /\
    Forall (matching CI_CHECK_LABEL) (iterated slots) /\
    exists set, set ∈ sets /\ Forall (fun check => VStr check ∈ iterated slots) set;
}.
Lemma labels_spec l :
  existsb (fun check => negb (is_matching CI_CHECK_LABEL check)) l = false <-> Forall (matching CI_CHECK_LABEL) l.
Proof.
  rewrite existsb_false_Forall, !Forall_forall. setoid_rewrite negb_false_iff. unfold is_matching. by setoid_rewrite is_matching_spec.
Qed.
Lemma some_set_spec sets l :
  existsb (forallb (fun check => existsb (fun v => eq_str v check) l)) sets = true <->
  exists set, set ∈ sets /\ Forall (fun check => VStr check ∈ l) set.
Proof.
  rewrite existsb_Exists, Exists_exists. setoid_rewrite forallb_Forall.
  enough (H : forall check, existsb (fun v => eq_str v check) l = true <-> VStr check ∈ l)
    by (setoid_rewrite Forall_forall; by setoid_rewrite H).
  intros check. rewrite existsb_Exists, Exists_exists. setoid_rewrite eq_str_spec. naive_solver.
Qed.
Lemma check_ci_nil es field sets record :
  check_ci es field (Own sets) record = Ok [] <-> es = [] /\ Ci_wf sets record.
Proof.
  unfold check_ci. cbv zeta. destruct record.["checks"] as [| | | | | | | |[|o slots]| |] eqn:Ec;
    try (split; [by intros ?%Ok_inj%release_add_nil|intros (_ & [_ _ _ (sl & Hs & Hne & _)]); congruence]).
  set (sl := o :: slots) in *. split.
  - intros H%Ok_inj. rewrite !release_add_if_nil, !negb_false_iff, eq_str_spec, bad_instant_spec, labels_spec, some_set_spec in H.
    destruct H as (Hset & Hl & Hi & Hr & Hk & ->). split; [done|]. apply is_matching_spec in Hr. constructor; try done. by exists sl.
  - intros (-> & [Hk Hr Hi (sl' & Hs & Hne & Hl & Hset)]). rewrite Ec in Hs. injection Hs as <-. f_equal.
    apply is_matching_spec in Hr.
    by rewrite !release_add_if_nil, !negb_false_iff, eq_str_spec, bad_instant_spec, labels_spec, some_set_spec.
Qed.

(** ** Findings of the nested validators *)

Lemma add_all_nil es f more : add_all es f more = [] <-> es = [] /\ more = [].
Proof.
  revert es; induction more as [|m more IH]; intros es; [by unfold add_all; cbn; tauto|].
  unfold add_all in *. cbn [foldl]. rewrite IH, release_add_nil. split; [by intros [[] _]|by intros [_ ?]].
Qed.
Definition Lsan_gate_ok (root : jsstr) (gate record : val) : Prop :=
  Lsan_wf record gate.["commit"] gate.["name"] /\ LsanEvidence.verifyLsanEvidenceFiles record root [] = Ok [].
Lemma check_lsan_nil es root field gate record :
  check_lsan es root field gate record = Ok [] <->
  es = [] /\ (gate.["name"] = vstr "linux-leak-sanitizer" -> Lsan_gate_ok root gate record).
Proof.
  unfold check_lsan, Lsan_gate_ok. pose proof (eq_str_spec gate.["name"] (js "linux-leak-sanitizer")) as Hn.
  destruct (eq_str _ _); cbn [negb].
  - rewrite bind_Ok. split.
    + intros (s & Hs & H). apply bind_Ok in H as (f & Hf & H). apply Ok_inj, add_all_nil in H as [[-> ->]%add_all_nil ->].
      split; [done|]. intros _. split; [by apply validateLsanEvidenceRecord_wf|done].
    + intros (-> & H). destruct (H (proj1 Hn eq_refl)) as [Hs Hf]. exists []. split; [by apply validateLsanEvidenceRecord_wf|].
      rewrite Hf. done.
  - split; [intros ->%Ok_inj; split; [done|]; intros ?%Hn; done|by intros [-> _]].
Qed.

(** ** Devices *)

(** The device's native checksum is the one of the candidate artifact, when both are
    listed. *)
Definition Checksum_bound (record artifacts : val) : Prop :=
  forall platform kind device release d c,
    record.["platform"] = VStr platform -> table_find NATIVE_CHECKSUM_ARTIFACT_BY_PLATFORM platform = Some kind ->
    record.["artifacts"] = VArr device -> artifacts = VArr release ->
    find_kind (js "native-checksum") device = Some d -> find_kind kind release = Some c ->
    strict_eq d.["sha256"] c.["sha256"] = true.
Lemma checksum_binding_nil es field gate record artifacts platform n :
  record.["platform"] = VStr platform -> gate.["name"] = VStr n ->
  verifyNativeChecksumBinding es field gate record artifacts = Ok [] <-> es = [] /\ Checksum_bound record artifacts.
Proof.
  intros Hp Hn. unfold verifyNativeChecksumBinding, Checksum_bound, table_get. rewrite Hp, Hn.
  change (DeviceEvidence.to_property_key (VStr platform)) with (Ok (E := jserr) (Some platform)). cbn [mbind result_bind].
  unfold table_find. destruct (find _ NATIVE_CHECKSUM_ARTIFACT_BY_PLATFORM) as [[p kind]|] eqn:Ef; cbn [snd].
  2: { assert (H : Ok (E := jserr) es = Ok [] <-> es = [] /\ forall platform' kind device release d c,
         VStr platform = VStr platform' -> option_map snd (find (fun kv => str_eqb platform' kv.1) NATIVE_CHECKSUM_ARTIFACT_BY_PLATFORM) = Some kind ->
         record.["artifacts"] = VArr device -> artifacts = VArr release -> find_kind (js "native-checksum") device = Some d ->
         find_kind kind release = Some c -> strict_eq d.["sha256"] c.["sha256"] = true).
       { split; [intros ->%Ok_inj; split; [done|]; intros ?????? [= <-]; by rewrite Ef|by intros [-> _]]. }
       by destruct (str_in platform object_prototype). }
  destruct record.["artifacts"] as [| | | | | | | |device| |];
    try (split; [intros ->%Ok_inj; split; [done|]; by intros|by intros [-> _]]).
  destruct artifacts as [| | | | | | | |release| |];
    try (split; [intros ->%Ok_inj; split; [done|]; by intros|by intros [-> _]]).
  destruct (find_kind (js "native-checksum") device) as [d|] eqn:Ed.
  2: { split; [intros ->%Ok_inj; split; [done|]|by intros [-> _]]. intros ?????? _ _ [= <-] _. congruence. }
  destruct (find_kind kind release) as [c|] eqn:Er.
  2: { split; [intros ->%Ok_inj; split; [done|]|by intros [-> _]]. intros ?????? [= <-] H _ [= <-] _.
       rewrite Ef in H. injection H as <-. congruence. }
  destruct (strict_eq _ _) eqn:Es.
  - split; [intros ->%Ok_inj; split; [done|]|by intros [-> _]]. intros ?????? [= <-] H [= <-] [= <-] Hd Hc.
    rewrite Ef in H. injection H as <-. congruence.
  - change (to_string (VStr n)) with (Ok (E := jserr) n). cbn [mbind result_bind].
    split; [by intros ?%Ok_inj%release_add_nil|]. intros (_ & H).
    specialize (H platform kind device release d c eq_refl ltac:(by rewrite Ef) eq_refl eq_refl Ed Er). congruence.
Qed.

Section device.
Context (laws : HostLaws host) (root : jsstr) (gate artifacts toolchains : val) (n : jsstr).
Context (Hname : gate.["name"] = VStr n) (Hreq : n ∈ REQUIRED_RELEASE_GATES).

(** A device gate's record: a well-formed device record of the gate's platform, its
    files verified, bound to the candidate. *)
Record Device_gate_ok (policy : DevicePolicy) (record : val) : Prop := {
  device_platform : record.["platform"] = policy_platform policy;
  device_record : Evidence_wf (device_options gate toolchains policy) record;
  device_files : Forall (Ref_ok root) (DeviceFiles.references record);
  device_checksum : Checksum_bound record artifacts;
}.
Lemma policy_platform_str policy :
  table_find DEVICE_RELEASE_GATE_POLICIES n = Some policy -> exists p, policy_platform policy = VStr p.
Proof.
  unfold table_find. destruct (find _ DEVICE_RELEASE_GATE_POLICIES) as [[k v]|] eqn:E; [|done]. intros [= <-].
  apply find_some in E as [E _]. cbn in E. destruct E as [[= _ <-]|[[= _ <-]|[[= _ <-]|[]]]]; by eexists.
Qed.
Lemma gate_device_nil es field record :
  is_record record = true ->
  check_device es root field gate record artifacts toolchains = Ok [] <->
  es = [] /\ forall policy, table_find DEVICE_RELEASE_GATE_POLICIES n = Some policy -> Device_gate_ok policy record.
Proof.
  intros Hr. unfold check_device. rewrite Hname, table_get_required by done. cbn [mbind result_bind].
  destruct (table_find DEVICE_RELEASE_GATE_POLICIES n) as [policy|] eqn:Ep.
  2: { split; [by intros ->%Ok_inj|by intros [-> _]]. }
  destruct (policy_platform_str policy Ep) as [p Hp].
  transitivity (es = [] /\ Device_gate_ok policy record); [|naive_solver].
  destruct (strict_eq record.["platform"] (policy_platform policy)) eqn:Es.
  - rewrite Hp in Es. assert (Hplat : record.["platform"] = VStr p).
    { destruct record.["platform"]; try done. cbn in Es. by apply str_eqb_eq in Es as ->. }
    cbn [mbind result_bind]. split.
    + intros H. apply bind_Ok in H as (s & Hs & H). apply bind_Ok in H as (f & Hf & H).
      apply (checksum_binding_nil _ _ _ _ _ p n) in H as [H Hb]; [|done..].
      apply add_all_nil in H as [[-> ->]%add_all_nil ->]. apply validateDeviceEvidence_wf in Hs.
      apply verifyDeviceEvidenceFiles_wf in Hf as [_ Hf]; [|done]. split; [done|]. constructor; try done. by rewrite Hp.
    + intros (-> & [_ Hs Hf Hb]). apply bind_Ok. exists []. split; [by apply validateDeviceEvidence_wf|].
      apply bind_Ok. exists []. split; [by apply verifyDeviceEvidenceFiles_wf|].
      by apply (checksum_binding_nil _ _ _ _ _ p n).
  - split.
    + intros H. apply bind_Ok in H as (es1 & H1 & H). apply bind_Ok in H1 as (? & _ & H1). apply bind_Ok in H1 as (? & _ & H1).
      apply Ok_inj in H1 as <-. apply bind_Ok in H as (s & _ & H). apply bind_Ok in H as (f & _ & H).
      assert (Hne : forall l, add_all (add_all (add es (dot field (js "device.platform")) l) (dot field (js "device")) s)
        (dot field (js "device.files")) f <> []) by by intros l [[?%release_add_nil _]%add_all_nil _]%add_all_nil.
      exfalso. unfold verifyNativeChecksumBinding in H. apply bind_Ok in H as (c & _ & H).
      repeat case_match; (by apply Ok_inj, Hne in H) || (by apply bind_Ok in H as (? & _ & ?%Ok_inj%release_add_nil)).
    + intros (_ & [Hplat _ _ _]). rewrite Hplat, Hp in Es. cbn in Es. by rewrite str_eqb_refl in Es.
Qed.

(** ** The record *)

Record Gate_record_ok (record : val) : Prop := {
  gr_record : is_record record = true;
  gr_secrets : free_of SECRET_KEY record;
  gr_schema : eq_int record.["schemaVersion"] 1 = true;
  gr_status : record.["status"] = vstr "pass";
  gr_commit : matching COMMIT record.["commit"] /\ record.["commit"] = gate.["commit"];
  gr_gate : record.["gate"] = gate.["name"];
  gr_ci : forall sets, table_find CI_RELEASE_GATE_CHECKS n = Some sets -> Ci_wf sets record;
  gr_lsan : gate.["name"] = vstr "linux-leak-sanitizer" -> Lsan_gate_ok root gate record;
  gr_device : forall policy, table_find DEVICE_RELEASE_GATE_POLICIES n = Some policy -> Device_gate_ok policy record;
}.
Lemma check_gate_record_nil es field record :
  check_gate_record es root field gate record artifacts toolchains = Ok [] <-> es = [] /\ Gate_record_ok record.
Proof.
  unfold check_gate_record, isRecord. destruct (is_record record) eqn:Hr; cbn [negb].
  2: { split; [by intros ?%Ok_inj%release_add_nil|]. intros [_ []]. congruence. }
  cbv zeta. set (es1 := add_if (negb (eq_str record.["status"] (js "pass"))) _ _ _).
  set (es2 := add_if (negb (strict_eq record.["gate"] gate.["name"])) _ _ _).
  assert (H2 : es2 = [] <-> es = [] /\ free_of SECRET_KEY record /\ eq_int record.["schemaVersion"] 1 = true /\
    record.["status"] = vstr "pass" /\ (matching COMMIT record.["commit"] /\ record.["commit"] = gate.["commit"]) /\
    record.["gate"] = gate.["name"]).
  { unfold es2. rewrite release_add_if_nil, negb_false_iff, Hname.
    assert (Hg : strict_eq record.["gate"] (VStr n) = true <-> record.["gate"] = VStr n).
    { destruct record.["gate"]; try done. cbn. rewrite str_eqb_eq. split; congruence. }
    rewrite Hg. assert (H1 : es1 = [] <-> es = [] /\ free_of SECRET_KEY record /\ eq_int record.["schemaVersion"] 1 = true /\
      record.["status"] = vstr "pass").
    { unfold es1. rewrite !release_add_if_nil, !negb_false_iff, eq_str_spec, checkSecretKeys_nil. unfold vstr. tauto. }
    unfold is_matching. pose proof (is_matching_spec COMMIT record.["commit"]) as Hm.
    destruct (PlatformSupport.is_matching _ _); cbn [negb].
    - destruct (proj1 Hm eq_refl) as (c & Hc & _). rewrite release_add_if_nil, negb_false_iff, Hc, strict_eq_str, H1.
      rewrite <- Hc. split; [|naive_solver]. intros (? & ? & ? & ? & ? & ?). split_and!; try done; try (by apply Hm); congruence.
    - rewrite release_add_nil. split; [tauto|]. intros (_ & _ & _ & _ & [?%Hm _] & _). done. }
  rewrite Hname at 1. rewrite table_get_required by done. cbn [mbind result_bind]. split.
  - intros H. apply bind_Ok in H as (es3 & Hci & H). apply bind_Ok in H as (es4 & Hlsan & H).
    apply gate_device_nil in H as [-> Hd]; [|done]. apply check_lsan_nil in Hlsan as [-> Hl].
    assert (Hsets : es2 = [] /\ forall sets, table_find CI_RELEASE_GATE_CHECKS n = Some sets -> Ci_wf sets record).
    { destruct (table_find CI_RELEASE_GATE_CHECKS n) as [sets|]; [|by apply Ok_inj in Hci].
      apply check_ci_nil in Hci as [? ?]. split; [done|]. by intros ? [= <-]. }
    destruct Hsets as [(-> & ? & ? & ? & ? & ?)%H2 ?]. split; [done|]. by constructor.
  - intros (-> & [_ Hsec Hsv Hst Hc Hg Hci Hl Hd]). apply bind_Ok. exists [].
    rewrite (proj2 H2) by done. split.
    + destruct (table_find CI_RELEASE_GATE_CHECKS n) as [sets|]; [|done]. apply check_ci_nil. split; [done|by apply Hci].
    + apply bind_Ok. exists []. split; [by apply check_lsan_nil|]. by apply gate_device_nil.
Qed.

(** The file of the gate: within its bound, with its digest, holding such a record. *)
Definition Gate_file_ok : Prop := exists p bytes record,
  gate.["evidencePath"] = VStr p /\ evidence_file root p MAX_GATE_EVIDENCE_BYTES bytes /\
  gate.["sha256"] = VStr (sha256 bytes) /\ JSON_parse (utf8_decode bytes) = Ok record /\ Gate_record_ok record.
Lemma verifyGateEvidenceRecord_nil es field :
  path_val gate.["evidencePath"] -> matching COMMIT gate.["commit"] ->
  verifyGateEvidenceRecord es root field gate artifacts toolchains = Ok [] <->
  es = [] /\ exists p bytes record, gate.["evidencePath"] = VStr p /\ evidence_file root p MAX_GATE_EVIDENCE_BYTES bytes /\
    JSON_parse (utf8_decode bytes) = Ok record /\ Gate_record_ok record.
Proof.
  intros Hpath (c & Hc & Hm). unfold verifyGateEvidenceRecord. rewrite (proj2 (release_safe _) Hpath), Hc. cbn [negb].
  apply re_match_correct in Hm. change (String_ (VStr c)) with (Ok (E := jserr) c). cbn [mbind result_bind].
  rewrite Hm. cbn [negb]. destruct Hpath as (p & -> & Hp). unfold evidence_file.
  destruct (contained_cases laws root field p Hp) as [(u & s & Hf & E)|(Hno & m & ms & E)]; rewrite E.
  2: { split; [intros [_ ?]%Ok_inj%app_eq_nil; done|]. intros (_ & p' & ? & ? & [= <-] & (file & Hf & _) & _). by apply Hno in Hf. }
  destruct (readBoundedFile_cases (u :: s) field MAX_GATE_EVIDENCE_BYTES) as [(bytes & Hb & Er)|(Hnob & m & ms & Er)]; rewrite Er.
  2: { split; [intros [_ ?]%Ok_inj%app_eq_nil; done|]. intros (_ & p' & bytes & ? & [= <-] & (file & Hf' & Hb) & _).
       rewrite (Found_fun _ _ _ _ Hf' Hf) in Hb. by apply Hnob in Hb. }
  assert (Hbytes : forall bytes', (exists file, Found root p file /\ bounded_file file MAX_GATE_EVIDENCE_BYTES bytes') -> bytes' = bytes).
  { intros bytes' H. apply (evidence_file_fun root p MAX_GATE_EVIDENCE_BYTES MAX_GATE_EVIDENCE_BYTES); [done|]. by exists (u :: s). }
  destruct (JSON_parse (utf8_decode bytes)) as [record|m] eqn:Ej.
  - rewrite check_gate_record_nil. split.
    + intros [-> H]. split; [done|]. exists p, bytes, record. split_and!; [done| |done|done]. by exists (u :: s).
    + intros (-> & p' & bytes' & record' & [= <-] & ->%Hbytes & Ej' & H). rewrite Ej in Ej'. by apply Ok_inj in Ej' as ->.
  - split; [by intros ?%Ok_inj%release_add_nil|]. intros (_ & p' & bytes' & record' & [= <-] & ->%Hbytes & Ej' & _). congruence.
Qed.
Lemma gate_files_nil es field :
  path_val gate.["evidencePath"] -> matching COMMIT gate.["commit"] -> sha_val gate.["sha256"] ->
  (findings ← verifyFileDigest es root field gate.["evidencePath"] gate.["sha256"] MAX_GATE_EVIDENCE_BYTES;
   verifyGateEvidenceRecord findings root field gate artifacts toolchains) = Ok [] <-> es = [] /\ Gate_file_ok.
Proof.
  intros Hpath Hc Hsha. rewrite bind_Ok. unfold Gate_file_ok.
  setoid_rewrite (fun es1 => verifyGateEvidenceRecord_nil es1 field Hpath Hc).
  pose proof Hpath as (p & Hp & Hs). rewrite Hp. split.
  - intros (es1 & H1 & -> & p' & bytes & record & [= <-] & Hf & Hj & Hr).
    apply verifyFileDigest_nil in H1 as (-> & bytes' & Hf' & Hd); [|done..].
    rewrite (evidence_file_fun _ _ _ _ _ _ Hf' Hf) in Hd. split; [done|]. by exists p, bytes, record.
  - intros (-> & p' & bytes & record & [= <-] & Hf & Hd & Hj & Hr). exists []. split; [|split; [done|by exists p, bytes, record]].
    apply verifyFileDigest_nil; [done..|]. split; [done|]. by exists bytes.
Qed.
End device.
End gates.
