(* ===== verification/ReleaseClaims.v ===== *)
(** * The release-evidence gate

    What it means that the release command accepts: every file of the manifest has its
    digest, every gate its record, and both signatures verify. *)

From S2P Require Import Prelude JsNumber Regex JsValue JsDate JsText Host PathProps.
From S2P Require Import ContractsSpec PlatformSupportProps EvidenceSpec DeviceEvidenceProps DeviceRecord DeviceFilesProps DeviceClaims.
From S2P Require Import ReleaseEvidence ReviewReport ReviewProps ReleaseProps ReleaseFiles ReleaseFilesProps ReleaseGateProps.
From S2P Require DeviceEvidence.
Open Scope js_scope.

Section claims.
Context {host : Host} (laws : HostLaws host).

(** ** Signatures *)

(** The structured report under the reviewer's signature. *)
Definition Report_ok (ev d : val) (bytes : list Z) : Prop := exists report,
  JSON_parse (utf8_decode bytes) = Ok report /\
  Review_wf {| review_commit := ev.["commit"]; review_version := ev.["packageVersion"];
               review_key := d.["publicKeySha256"] |} report.
Definition signed_max (fieldName : String.string) : Z :=
  if is_review (js fieldName) then REVIEW_REPORT_MAX_BYTES else MAX_RELEASE_ARTIFACT_BYTES.
(** The signature verifies under a key of the declared digest. *)
Definition Signature_ok (root : jsstr) (ev : val) (fieldName : String.string) : Prop :=
  let d := get ev (js fieldName) in
  exists kp ap sp key artifact signature,
    d.["publicKeyPath"] = VStr kp /\ d.["signedArtifactPath"] = VStr ap /\ d.["signaturePath"] = VStr sp /\
    evidence_file root kp MAX_PUBLIC_KEY_BYTES key /\ evidence_file root ap (signed_max fieldName) artifact /\
    evidence_file root sp ED25519_SIGNATURE_BYTES signature /\ length signature = 64%nat /\
    d.["publicKeySha256"] = VStr (sha256 key) /\ public_key_type key = Ok (js "ed25519") /\
    verify artifact key signature = Ok true /\ (is_review (js fieldName) = true -> Report_ok ev d artifact).

Lemma verifyIndependentReviewReport_nil es bytes d ev :
  verifyIndependentReviewReport es bytes d ev = Ok [] <-> es = [] /\ Report_ok ev d bytes.
Proof.
  unfold verifyIndependentReviewReport, Report_ok, isRecord. destruct (JSON_parse _) as [report|m].
  2: { split; [by intros ?%Ok_inj%release_add_nil|by intros (_ & ? & ? & _)]. }
  destruct (is_record report) eqn:Hr; cbn [negb].
  - rewrite bind_Ok. split.
    + intros (more & Hm & [-> ->]%Ok_inj%app_eq_nil). split; [done|]. exists report. split; [done|].
      by apply validateIndependentReviewReport_wf.
    + intros (-> & report' & <-%Ok_inj & H). exists []. split; [by apply validateIndependentReviewReport_wf|done].
  - split; [by intros ?%Ok_inj%release_add_nil|]. intros (_ & report' & <-%Ok_inj & []). congruence.
Qed.
Lemma check_signature_nil es ev d fieldName key artifact signature :
  check_signature es ev d fieldName key artifact signature = Ok [] <->
  es = [] /\ length signature = 64%nat /\ d.["publicKeySha256"] = VStr (sha256 key) /\ public_key_type key = Ok (js "ed25519") /\
  verify artifact key signature = Ok true /\ (is_review fieldName = true -> Report_ok ev d artifact).
Proof.
  unfold check_signature, ED25519_SIGNATURE_BYTES. destruct (Z.eqb_spec (Z.of_nat (length signature)) 64) as [El|El]; cbn [negb].
  2: { split; [by intros ?%Ok_inj%release_add_nil|]. intros (_ & E & _). lia. }
  pose proof (eq_str_spec d.["publicKeySha256"] (sha256 key)) as Hk.
  destruct (eq_str _ _); cbn [negb].
  2: { split; [by intros ?%Ok_inj%release_add_nil|]. intros (_ & _ & ?%Hk & _). done. }
  destruct (public_key_type key) as [ty|m]; cbn [mbind result_bind]; [|by split; [|intros (_ & _ & _ & ? & _)]].
  pose proof (str_eqb_eq ty (js "ed25519")) as Ht. destruct (str_eqb ty _); cbn [negb].
  2: { split; [by intros ?%Ok_inj%release_add_nil|]. intros (_ & _ & _ & ?%Ok_inj%Ht & _). done. }
  rewrite (proj1 Ht eq_refl). destruct (verify artifact key signature) as [[]|m]; cbn [mbind result_bind negb];
    [|by split; [intros ?%Ok_inj%release_add_nil|intros (_ & _ & _ & _ & ? & _)]|by split; [|intros (_ & _ & _ & _ & ? & _)]].
  assert (Hlen : length signature = 64%nat) by lia. specialize (proj1 Hk eq_refl) as Hd.
  destruct (is_review fieldName).
  - pose proof (verifyIndependentReviewReport_nil es artifact d ev) as Hr.
    destruct (verifyIndependentReviewReport es artifact d ev) as [fs|e].
    + transitivity (es = [] /\ Report_ok ev d artifact); [rewrite <- Hr; split; by intros ->%Ok_inj|naive_solver].
    + split; [done|]. intros (-> & _ & _ & _ & _ & H). enough (Throw e = Ok (A := list jsstr) []) by done. apply Hr. split; [done|by apply H].
  - split; [by intros ->%Ok_inj|by intros (-> & _)].
Qed.
(** A finding was added on the way. *)
Lemma added_not_nil (es : list jsstr) m ms : es ++ m :: ms <> [].
Proof. by intros [_ ?]%app_eq_nil. Qed.
Lemma read_added es file field max es' o :
  readBoundedFile es file field max = (es', o) -> es <> [] -> es' <> [].
Proof.
  intros H Hes. destruct (readBoundedFile_cases file field max) as [(b & _ & E)|(_ & m & ms & E)];
    rewrite E in H; injection H as <- _; [done|apply added_not_nil].
Qed.
Lemma evidence_file_at root p file max bytes :
  Found root p file -> evidence_file root p max bytes <-> bounded_file file max bytes.
Proof.
  intros Hf. unfold evidence_file. split; [|by exists file]. intros (file' & Hf' & Hb).
  by rewrite (Found_fun _ _ _ _ Hf Hf').
Qed.
(** The part after the three files are located. *)
Lemma check_files_nil es ev d fieldName f1 f2 f3 kf af sf kmax amax smax :
  (let '(es, key) := readBoundedFile es kf f1 kmax in
   let '(es, artifact) := readBoundedFile es af f2 amax in
   let '(es, signature) := readBoundedFile es sf f3 smax in
   match key, artifact, signature with
   | Some key, Some artifact, Some signature =>
       match check_signature es ev d fieldName key artifact signature with
       | Ok es => Ok es
       | Throw message => Ok (E := jserr) (add es fieldName (js "detached Ed25519 signature could not be verified: " ++ message))
       end
   | _, _, _ => Ok es
   end) = Ok [] <->
  exists key artifact signature, bounded_file kf kmax key /\ bounded_file af amax artifact /\ bounded_file sf smax signature /\
    check_signature es ev d fieldName key artifact signature = Ok [].
Proof.
  destruct (readBoundedFile_cases kf f1 kmax) as [(key & Hk & E1)|(Hk & m & ms & E1)]; rewrite E1.
  2: { destruct (readBoundedFile _ af f2 amax) as [es2 o2] eqn:E2. destruct (readBoundedFile _ sf f3 smax) as [es3 o3] eqn:E3.
       split; [intros ->%Ok_inj|intros (? & ? & ? & ?%Hk & _); done]. exfalso.
       by apply read_added in E3; [|apply read_added in E2; [|apply added_not_nil]]. }
  destruct (readBoundedFile_cases af f2 amax) as [(artifact & Ha & E2)|(Ha & m & ms & E2)]; rewrite E2.
  2: { destruct (readBoundedFile _ sf f3 smax) as [es3 o3] eqn:E3.
       split; [intros ->%Ok_inj|intros (? & ? & ? & _ & ?%Ha & _); done]. exfalso.
       by apply read_added in E3; [|apply added_not_nil]. }
  destruct (readBoundedFile_cases sf f3 smax) as [(signature & Hs & E3)|(Hs & m & ms & E3)]; rewrite E3.
  2: { split; [intros ?%Ok_inj%added_not_nil; done|intros (? & ? & ? & _ & _ & ?%Hs & _); done]. }
  assert (Hun : forall file max b b', bounded_file file max b -> bounded_file file max b' -> b' = b)
    by (intros; by eapply bounded_file_fun).
  split.
  - destruct (check_signature _ _ _ _ _ _ _) as [fs|msg] eqn:Ec; [intros ->%Ok_inj|intros ?%Ok_inj%release_add_nil; done].
    exists key, artifact, signature. done.
  - intros (key' & artifact' & signature' & H1 & H2 & H3 & Hc).
    rewrite (Hun _ _ _ _ Hk H1), (Hun _ _ _ _ Ha H2), (Hun _ _ _ _ Hs H3) in Hc. by rewrite Hc.
Qed.
Lemma verifyDetachedSignature_nil es ev root fieldName :
  let d := get ev (js fieldName) in
  is_record d = true -> path_val d.["publicKeyPath"] -> path_val d.["signedArtifactPath"] -> path_val d.["signaturePath"] ->
  sha_val d.["publicKeySha256"] ->
  verifyDetachedSignature es ev root fieldName = Ok [] <-> es = [] /\ Signature_ok root ev fieldName.
Proof.
  intros d Hr (kp & Hkp & Hk) (ap & Hap & Ha) (sp & Hsp & Hs) (h & Hh & Hm). unfold verifyDetachedSignature, Signature_ok, isRecord.
  fold d. rewrite Hr, Hkp, Hap, Hsp, Hh. cbn [negb]. cbv zeta.
  assert (Hpaths : forall P : jsstr -> jsstr -> jsstr -> Prop, (exists kp' ap' sp', VStr kp = VStr kp' /\ VStr ap = VStr ap' /\
    VStr sp = VStr sp' /\ P kp' ap' sp') <-> P kp ap sp).
  { intros P. split; [by intros (? & ? & ? & [= <-] & [= <-] & [= <-] & ?)|]. intros. by exists kp, ap, sp. }
  apply re_match_correct in Hm. change (String_ (VStr h)) with (Ok (E := jserr) h). cbn [mbind result_bind].
  change DeviceEvidence.SHA256 with SHA256 in Hm. rewrite Hm. cbn [negb].
  destruct (contained_cases laws root (dot (js fieldName) (js "publicKeyPath")) kp Hk) as [(u1 & s1 & F1 & E1)|(F1 & m1 & ms1 & E1)];
  destruct (contained_cases laws root (dot (js fieldName) (js "signedArtifactPath")) ap Ha) as [(u2 & s2 & F2 & E2)|(F2 & m2 & ms2 & E2)];
  destruct (contained_cases laws root (dot (js fieldName) (js "signaturePath")) sp Hs) as [(u3 & s3 & F3 & E3)|(F3 & m3 & ms3 & E3)];
  rewrite E1, E2, E3;
  try (split; [intros ?%Ok_inj; exfalso; rewrite <- ?app_assoc in *; (by eapply added_not_nil)
    |intros (_ & kp' & ap' & sp' & ? & ? & ? & [= <-] & [= <-] & [= <-] & (? & ? & _) & (? & ? & _) & (? & ? & _) & _); naive_solver]).
  rewrite check_files_nil. setoid_rewrite check_signature_nil. split.
  - intros (key & artifact & signature & H1 & H2 & H3 & -> & H4). split; [done|]. exists kp, ap, sp, key, artifact, signature.
    rewrite (evidence_file_at _ _ _ _ _ F1), (evidence_file_at _ _ _ _ _ F2), (evidence_file_at _ _ _ _ _ F3). by rewrite <- Hh.
  - intros (-> & kp' & ap' & sp' & key & artifact & signature & [= <-] & [= <-] & [= <-] & H1 & H2 & H3 & H4).
    apply (evidence_file_at _ _ _ _ _ F1) in H1. apply (evidence_file_at _ _ _ _ _ F2) in H2.
    apply (evidence_file_at _ _ _ _ _ F3) in H3. exists key, artifact, signature. by rewrite Hh.
Qed.

(** ** All files *)

Lemma foldM_records (f : list jsstr -> nat * val -> result jserr (list jsstr)) (P : val -> Prop) slots :
  (forall es i v, is_record v = false -> f es (i, v) = Ok es) ->
  (forall es i v, v ∈ (present slots).*2 -> is_record v = true /\ (f es (i, v) = Ok [] <-> es = [] /\ P v)) ->
  forall es, DeviceEvidence.foldM f es (indexed (iterated slots)) = Ok [] <-> es = [] /\ Forall P (present slots).*2.
Proof.
  intros Hskip. unfold present. generalize O. induction slots as [|o slots IH]; intros i Hf es.
  - cbn. split; [by intros ->%Ok_inj|by intros [-> _]].
  - destruct o as [v|].
    + change (present_from i (Some v :: slots)) with ((i, v) :: present_from (S i) slots) in *.
      change (iterated (Some v :: slots)) with (v :: iterated slots).
      cbn [indexed_from DeviceEvidence.foldM fmap list_fmap snd] in *. rewrite bind_Ok, Forall_cons.
      setoid_rewrite (IH (S i)); [|intros es' j w Hw; apply Hf; by right].
      destruct (Hf es i v ltac:(left)) as [_ Hv]. split.
      * intros (es1 & H1 & -> & H2). by apply Hv in H1 as [-> ?].
      * intros (-> & H1 & H2). exists []. split; [by apply Hv|done].
    + change (present_from i (None :: slots)) with (present_from (S i) slots) in *.
      change (iterated (None :: slots)) with (VUndef :: iterated slots).
      cbn [indexed_from DeviceEvidence.foldM]. rewrite Hskip by done. cbn [mbind result_bind]. by apply IH.
Qed.

Definition gate_ok (root : jsstr) (ev g : val) : Prop :=
  forall n, g.["name"] = VStr n -> Gate_file_ok root g ev.["artifacts"] ev.["toolchains"] n.
Definition artifact_ok (root : jsstr) (a : val) : Prop :=
  forall p, a.["path"] = VStr p -> digested root p a.["sha256"] (maxArtifactBytes a.["kind"]).
Lemma verifyReleaseEvidenceFiles_wf context ev root :
  Manifest_wf context ev ->
  verifyReleaseEvidenceFiles ev root = Ok [] <->
  Forall (gate_ok root ev) (gates ev) /\ Forall (artifact_ok root) (release_artifacts ev) /\
  Signature_ok root ev "signature" /\ Signature_ok root ev "independentReview".
Proof.
  intros [Hr _ _ [Hcommit _] _ _ _ (Hg & Hgw & _) (Hane & Haw & _) _ Hs Hrev _ _]. unfold verifyReleaseEvidenceFiles, isRecord.
  rewrite Hr. destruct ev.["gates"] as [| | | | | | | |gs| |] eqn:Eg; try done.
  destruct ev.["artifacts"] as [| | | | | | | |arts| |] eqn:Ea; try done. unfold gates, release_artifacts in *.
  rewrite Eg, Ea in *. cbn [slots_of] in *. rewrite Forall_forall in Hgw, Haw.
  assert (Hgates : forall es, DeviceEvidence.foldM (verify_gate root ev) es (indexed (iterated gs)) = Ok [] <->
    es = [] /\ Forall (gate_ok root ev) (present gs).*2).
  { intros es. apply foldM_records; [intros es' i v Hv; unfold verify_gate, isRecord; by rewrite Hv|].
    intros es' i g Hgin. destruct (Hgw g Hgin) as (Hgr & (n & Hn & Hreq) & Hgc & _ & Hp & Hsha). split; [done|].
    unfold verify_gate, isRecord. rewrite Hgr. cbn [negb]. unfold gate_ok. rewrite Ea.
    rewrite (gate_files_nil laws root g (VArr arts) ev.["toolchains"] n Hn Hreq) by (done || by rewrite Hgc). rewrite Hn. naive_solver. }
  assert (Harts : forall es, DeviceEvidence.foldM (verify_artifact root) es (indexed (iterated arts)) = Ok [] <->
    es = [] /\ Forall (artifact_ok root) (present arts).*2).
  { intros es. apply foldM_records; [intros es' i v Hv; unfold verify_artifact, isRecord; by rewrite Hv|].
    intros es' i a Hain. destruct (Haw a Hain) as [Har _ (p & Hp & Hsp) Hsha]. split; [done|].
    unfold verify_artifact, isRecord, artifact_ok. rewrite Har, Hp. cbn [negb]. rewrite verifyFileDigest_nil by done. naive_solver. }
  assert (Hsig : forall es, verifyDetachedSignature es ev root "signature" = Ok [] <-> es = [] /\ Signature_ok root ev "signature").
  { intros es. destruct Hs as [? _ [? _] [? _] [? _] ? _]. by apply verifyDetachedSignature_nil. }
  assert (Hreview : forall es, verifyDetachedSignature es ev root "independentReview" = Ok [] <->
    es = [] /\ Signature_ok root ev "independentReview").
  { intros es. destruct Hrev as [? _ [? _] [? _] [? _] ? _]. by apply verifyDetachedSignature_nil. }
  split.
  - intros H. apply bind_Ok in H as (es1 & H1 & H). apply bind_Ok in H as (es2 & H2 & H). apply bind_Ok in H as (es3 & H3 & H).
    apply Hreview in H as [-> H]. apply Hsig in H3 as [-> H3]. apply Harts in H2 as [-> H2]. by apply Hgates in H1 as [_ H1].
  - intros (H1 & H2 & H3 & H4). apply bind_Ok. exists []. split; [by apply Hgates|]. apply bind_Ok. exists []. split; [by apply Harts|].
    apply bind_Ok. exists []. split; [by apply Hsig|by apply Hreview].
Qed.

(** C7. For an accepted manifest the file verification reports nothing exactly when
    every gate's record file has its digest and says what the gate requires - the CI
    checks of the owning job, the sanitizer campaign with its logs, the physical devices
    with their evidence files and the candidate's native checksum - every artifact has
    its digest, and both detached signatures verify under Ed25519 keys of the declared
    digests, the review's over a well-formed report on this release. *)
Theorem verifyReleaseEvidenceFiles_correct context ev root :
  Manifest_wf context ev ->
  verifyReleaseEvidenceFiles ev root = Ok [] <->
  Forall (gate_ok root ev) (gates ev) /\ Forall (artifact_ok root) (release_artifacts ev) /\
  Signature_ok root ev "signature" /\ Signature_ok root ev "independentReview".
Proof. exact (verifyReleaseEvidenceFiles_wf context ev root). Qed.

(** ** The command *)

(** A set fingerprint is a digest; under the flag it must be set. *)
Definition trusted_fingerprint (p : Process) (name : jsstr) (required : bool) : Prop :=
  match environment p name with Some key => matches SHA256 key | None => required = false end.
Lemma readTrustedFingerprint_nil p es name required v :
  readTrustedFingerprint p es name required = ([], v) <->
  es = [] /\ trusted_fingerprint p name required /\ v = opt_val (environment p name).
Proof.
  unfold readTrustedFingerprint, trusted_fingerprint. destruct (environment p name) as [key|]; cbn [is_undefined negb opt_val].
  - rewrite pair_equal_spec, checkHash_nil, release_add_if_nil. unfold sha_val, matching. split.
    + intros [[[_ ->] (s & [= <-] & Hm)] <-]. done.
    + intros (-> & Hm & ->). split; [split; [split; [|done]|by exists key]|done].
      destruct key; [|by rewrite andb_false_r]. apply re_match_correct in Hm. vm_compute in Hm. discriminate.
  - rewrite pair_equal_spec, release_add_if_nil. cbn [truthy negb]. rewrite andb_true_r. naive_solver.
Qed.
Definition release_key_variable : jsstr := js "SECURE_KEYPAD_RELEASE_PUBLIC_KEY_SHA256".
Definition reviewer_key_variable : jsstr := js "SECURE_KEYPAD_REVIEWER_PUBLIC_KEY_SHA256".
(** The manifest the command reads, and the context it is held against. *)
Definition manifest_argument (p : Process) (path : jsstr) : Prop :=
  find (fun argument => negb (str_eqb argument TRUSTED_FLAG)) (arguments p) = Some path /\ path <> [].
Definition manifest_content (path : jsstr) (ev : val) : Prop :=
  (bytes ← readBoundedManifest path; JSON_parse (utf8_decode bytes)) = Ok ev.
Record Accepted (p : Process) (out : list jsstr) : Prop := {
  accepted_output : out = [js "release evidence schema valid"];
  accepted_release_key : trusted_fingerprint p release_key_variable (str_in TRUSTED_FLAG (arguments p));
  accepted_reviewer_key : trusted_fingerprint p reviewer_key_variable (str_in TRUSTED_FLAG (arguments p));
  accepted_manifest : exists path ev commit version, let file := resolve2 cwd cwd path in
    manifest_argument p path /\ manifest_content file ev /\
    currentCommit p = Some commit /\ currentPackageVersion cwd = Some version /\ version <> [] /\
    Manifest_wf {| expectedCommit := VStr commit; expectedPackageVersion := VStr version;
      expectedReleasePublicKeySha256 := opt_val (environment p release_key_variable);
      expectedReviewerPublicKeySha256 := opt_val (environment p reviewer_key_variable) |} ev /\
    Forall (gate_ok (dirname file) ev) (gates ev) /\ Forall (artifact_ok (dirname file)) (release_artifacts ev) /\
    Signature_ok (dirname file) ev "signature" /\ Signature_ok (dirname file) ev "independentReview";
}.
Lemma length_pos_app (a b : list jsstr) : (0 <? length (a ++ b))%nat = false <-> a = [] /\ b = [].
Proof. rewrite Nat.ltb_ge, length_app. destruct a, b; cbn; split; try done; try lia; by intros [? ?]. Qed.
Lemma commit_nonempty p c : currentCommit p = Some c -> c <> [].
Proof.
  unfold currentCommit. destruct (git_head p); [|done]. destruct (re_match COMMIT _) eqn:E; [|done].
  intros [= <-] H. rewrite H in E. vm_compute in E. discriminate.
Qed.
Lemma opt_truthy o : truthy (opt_val o) = true <-> exists s, o = Some s /\ s <> [].
Proof. destruct o as [[|c s]|]; cbn; naive_solver. Qed.

(** C2. The release command exits with code 0 exactly when the manifest is accepted
    for the checked-out commit, the package version and the trusted key fingerprints -
    which are digests, and present under --require-trusted-keys - and every file it
    references is verified. *)
Theorem release_main_accepts p out :
  release_main p = Ok (out, 0) <-> Accepted p out.
Proof.
  unfold release_main. split.
  - destruct (find _ (arguments p)) as [[|u path]|] eqn:Ep; [by intros [=]| |by intros [=]].
    destruct (_ ≫= _) as [ev|m] eqn:Er; [|by intros [=]].
    destruct (readTrustedFingerprint p _ (js "SECURE_KEYPAD_RELEASE_PUBLIC_KEY_SHA256") _) as [es1 k1] eqn:E1.
    destruct (readTrustedFingerprint p es1 _ _) as [es2 k2] eqn:E2. intros H. apply bind_Ok in H as (shape & Hs & H).
    destruct (0 <? length (es2 ++ shape))%nat eqn:El; [by apply Ok_inj in H|]. apply length_pos_app in El as [-> ->].
    apply bind_Ok in H as (fs & Hf & H). destruct fs; cbn in H; [|by apply Ok_inj in H]. apply Ok_inj, pair_equal_spec in H as [<- _].
    apply readTrustedFingerprint_nil in E2 as (-> & Hk2 & ->). apply readTrustedFingerprint_nil in E1 as (E1 & Hk1 & ->).
    apply release_add_if_nil in E1 as [Hv%negb_false_iff E1]. apply release_add_if_nil in E1 as [Hc%negb_false_iff _].
    apply opt_truthy in Hc as (commit & Hc & Hc0). apply opt_truthy in Hv as (version & Hv & Hv0).
    apply validateReleaseEvidence_wf in Hs. rewrite Hc, Hv in Hs. cbn [opt_val] in Hs.
    apply (verifyReleaseEvidenceFiles_wf _ _ _ Hs) in Hf. constructor; [done..|].
    exists (u :: path), ev, commit, version. cbn zeta. split; [by split|]. done.
  - intros [-> Hk1 Hk2 (path & ev & commit & version & [Hp Hp0] & Hr & Hc & Hv & Hv0 & Hwf & Hfiles)].
    rewrite Hp. destruct path as [|u path]; [done|]. unfold manifest_content in Hr. rewrite Hr, Hc, Hv.
    unfold release_key_variable, reviewer_key_variable in *.
    pose proof (commit_nonempty p commit Hc) as Hc0.
    assert (Ht : forall s, s <> [] -> truthy (opt_val (Some s)) = true) by (by intros []).
    rewrite !Ht by done. cbn [negb add_if].
    rewrite (proj2 (readTrustedFingerprint_nil p [] _ _ _) (conj eq_refl (conj Hk1 eq_refl))).
    rewrite (proj2 (readTrustedFingerprint_nil p [] _ _ _) (conj eq_refl (conj Hk2 eq_refl))).
    apply bind_Ok. exists []. split; [by apply validateReleaseEvidence_wf|]. cbn [app length Nat.ltb Nat.leb].
    apply bind_Ok. exists []. split; [|done]. by apply (verifyReleaseEvidenceFiles_wf _ _ _ Hwf).
Qed.
End claims.
