(* ===== verification/ReleaseSample.v ===== *)
(** * A release that passes

    A host whose evidence directory /work/evidence holds a complete release: the
    manifest, fifteen gate records, the sanitizer logs and a signed review.  It shows that
    the hypotheses and the acceptance of the release claims can hold. *)

From S2P Require Import Prelude JsNumber Regex JsValue JsDate JsText Host PathProps.
From S2P Require Import ContractsSpec DeviceEvidenceProps DeviceRecord DeviceFilesProps DeviceClaims LsanEvidence LsanProps.
From S2P Require Import ReleaseEvidence ReviewReport ReviewProps ReleaseProps ReleaseFiles ReleaseFilesProps ReleaseGateProps ReleaseClaims.
Open Scope js_scope.

(** ** Records *)

Definition merge (v : val) (more : list (String.string * val)) : val :=
  match v with
  | VObj ps => VObj (map (fun '(k, w) => (js k, w)) more ++ filter (fun kv => kv.1 ∉ map (fun m => js m.1) more) ps)
  | w => w
  end.
Definition sample_time : val := vstr "2026-08-22T10:00:00.000Z".
Definition ci_record (gate check : String.string) : val := vobj
  [("schemaVersion", vnum 1); ("status", vstr "pass"); ("commit", sample_hex 40); ("gate", vstr gate);
   ("evidenceKind", vstr "ci-command"); ("runner", vstr "ubuntu-24.04"); ("recordedAt", sample_time);
   ("checks", varr [vstr check])]%string.
Definition plain_record (gate : String.string) : val := vobj
  [("schemaVersion", vnum 1); ("status", vstr "pass"); ("commit", sample_hex 40); ("gate", vstr gate)]%string.
Definition lsan_record : val := merge (ci_record "linux-leak-sanitizer" "job-fuzz")
  [("logEvidenceKind", vstr "linux-leak-sanitizer"); ("toolchain", VStr LSAN_TOOLCHAIN); ("sanitizer", vstr "leak");
   ("runs", vnum LSAN_RUNS)]%string.
Definition android_record : val := merge sample_record
  [("gate", vstr "android-device-matrix"); ("platform", vstr "android");
   ("device", vobj [("model", vstr "phone"); ("osVersion", vstr "16"); ("osBuild", vstr "A16"); ("apiLevel", vnum 36);
                    ("securityPatchLevel", vstr "2026-08-01")])]%string.
Definition web_record : val := merge sample_record
  [("gate", vstr "web-browser-matrix"); ("platform", vstr "web"); ("framework", vstr "web"); ("hostModes", VUndef);
   ("device", vobj [("browser", vstr "browser"); ("browserVersion", vstr "140"); ("osVersion", vstr "15"); ("secureContext", VBool true)]);
   ("testCases", VObj (map (fun n => (n, vstr "pass")) DeviceEvidence.WEB_TESTS)); ("testEvidence", VUndef)]%string.
Definition gate_records : list (String.string * val) :=
  [("rust-workspace", ci_record "rust-workspace" "job-rust");
   ("javascript-contracts", ci_record "javascript-contracts" "job-contracts");
   ("http-contract-version-parity", ci_record "http-contract-version-parity" "job-contracts");
   ("opaque-protocol-parity", ci_record "opaque-protocol-parity" "job-contracts");
   ("native-parity", ci_record "native-parity" "job-contracts");
   ("release-version-parity", ci_record "release-version-parity" "job-contracts");
   ("framework-host-builds", merge (ci_record "framework-host-builds" "job-flutter-host-build")
      [("checks", VArr (map (fun c => Some (vstr c)) ["job-flutter-host-build"; "job-react-native-host-build";
        "job-ios-host-builds"; "job-android-native-sdk-host-runtime-smoke"; "job-android-host-runtime-smoke"]))]);
   ("fuzz-stability", ci_record "fuzz-stability" "job-fuzz");
   ("linux-leak-sanitizer", lsan_record);
   ("durable-backends", ci_record "durable-backends" "job-durable-backends");
   ("ios-device-matrix", sample_record);
   ("android-device-matrix", android_record);
   ("web-browser-matrix", web_record);
   ("independent-security-review", plain_record "independent-security-review");
   ("signed-release", plain_record "signed-release")]%string.
Definition sample_finding : val := vobj
  [("id", vstr "SK-1"); ("severity", vstr "high"); ("status", vstr "remediated"); ("summary", vstr "Cleared late.");
   ("affectedScope", varr [vstr "native-input-boundary"]); ("reproduction", vstr "Hold the key.");
   ("remediationOwner", vstr "team"); ("retestEvidence", vstr "run 12")]%string.
Definition reviewer_digest : val := VStr (repeat 98 64).
Definition sample_report : val := vobj
  [("schemaVersion", vnum 1); ("reportType", VStr REVIEW_REPORT_TYPE); ("reviewedCommit", sample_hex 40);
   ("reviewedPackageVersion", vstr "0.1.0"); ("reviewerPublicKeySha256", reviewer_digest);
   ("scope", varr (rev (map VStr REVIEW_SCOPE))); ("findings", varr [sample_finding]);
   ("decision", vstr "approved-with-residual-risk")]%string.
Definition gate_entry (g : String.string * val) : val := vobj
  [("name", vstr g.1); ("commit", sample_hex 40); ("status", vstr "pass");
   ("evidencePath", VStr (js "gates/" ++ js g.1)); ("sha256", sample_hex 64)]%string.
Definition artifact_entry (kind : jsstr) : val := vobj
  [("kind", VStr kind); ("path", VStr (js "candidate/" ++ kind));
   ("sha256", if str_eqb kind (js "independent-review-public-key") then reviewer_digest else sample_hex 64)]%string.
Definition descriptor (kinds : SignatureKinds) (digest : val) : val := vobj
  [("algorithm", vstr "ed25519"); ("publicKeyPath", VStr (js "candidate/" ++ publicKeyKind kinds));
   ("signedArtifactPath", VStr (js "candidate/" ++ signedArtifactKind kinds));
   ("signaturePath", VStr (js "candidate/" ++ signatureKind kinds)); ("publicKeySha256", digest);
   ("reviewedCommit", sample_hex 40); ("reviewedPackageVersion", vstr "0.1.0")]%string.
Definition sample_manifest : val := vobj
  [("schemaVersion", vnum 1); ("commit", sample_hex 40); ("createdAt", sample_time); ("packageVersion", vstr "0.1.0");
   ("toolchains", VObj (map (fun tv => (tv.1, VStr tv.2)) REQUIRED_RELEASE_TOOLCHAINS));
   ("gates", varr (map gate_entry gate_records)); ("artifacts", varr (map artifact_entry required_artifacts));
   ("signature", descriptor release_kinds (sample_hex 64));
   ("independentReview", descriptor review_kinds reviewer_digest)]%string.

(** ** The host *)

Definition evidence_root : jsstr := js "/work/evidence".
Definition in_root (p : jsstr) : jsstr := evidence_root ++ js "/" ++ p.
(** A file holds its own path, except the sanitizer logs and the signatures. *)
Definition sample_file (p : jsstr) : list Z :=
  match find (fun t => str_eqb p (in_root (expectedLogPath t))) LSAN_TARGETS with
  | Some t => successMarker t ++ [10]
  | None => if str_eqb p (in_root (js "candidate/release-signature"))
               || str_eqb p (in_root (js "candidate/independent-review-signature")) then repeat 1 64 else p
  end.
Definition sample_digest (bytes : list Z) : jsstr :=
  repeat (if str_eqb bytes (in_root (js "candidate/independent-review-public-key")) then 98 else 97) 64.
(** The logs of the campaign, digested by this host. *)
Definition campaign_record : val := merge lsan_record
  [("targets", varr (map (fun t => vobj [("target", VStr t); ("path", VStr (expectedLogPath t)); ("sha256", sample_hex 64);
      ("bytes", vnum (Z.of_nat (length (successMarker t ++ [10])))); ("status", vstr "pass")]) LSAN_TARGETS))]%string.
Definition sample_json (text : jsstr) : val :=
  match find (fun g => str_eqb text (in_root (js "gates/" ++ js g.1))) gate_records with
  | Some g => if String.eqb g.1 "linux-leak-sanitizer" then campaign_record else g.2
  | None =>
      if str_eqb text (in_root (js "candidate/independent-review-report")) then sample_report else
      if str_eqb text (in_root (js "release.json")) then sample_manifest else vobj [("version", vstr "0.1.0")]%string
  end.
Definition release_host : Host := {|
  cwd := js "/work";
  realpathSync := fun p => Ok (resolve1 (js "/work") p);
  lstat_isSymbolicLink := fun _ => Ok false;
  statSync := fun _ => Ok {| isFile := true; size := 64 |};
  readFileSync := fun p => Ok (sample_file p);
  sha256 := sample_digest;
  JSON_parse := fun text => Ok (sample_json text);
  public_key_type := fun _ => Ok (js "ed25519");
  verify := fun _ _ _ => Ok true;
  other_format := fun _ => None;
  error_message := fun _ => js "error";
|}.
Lemma release_host_laws : HostLaws release_host.
Proof. destruct (plain_host_laws VNull) as [H1 H2]. constructor; [exact H1|exact H2]. Qed.
Definition sample_context : Context := {|
  expectedCommit := sample_hex 40; expectedPackageVersion := vstr "0.1.0";
  expectedReleasePublicKeySha256 := sample_hex 64; expectedReviewerPublicKeySha256 := reviewer_digest |}.
Example sample_manifest_accepted : @validateReleaseEvidence release_host sample_context sample_manifest = Ok [].
Proof. vm_compute. reflexivity. Qed.
Example sample_review_accepted : validateIndependentReviewReport
  {| review_commit := sample_hex 40; review_version := vstr "0.1.0"; review_key := reviewer_digest |} sample_report = Ok [].
Proof. vm_compute. reflexivity. Qed.
Example sample_files_accepted : @verifyReleaseEvidenceFiles release_host sample_manifest evidence_root = Ok [].
Proof. vm_compute. reflexivity. Qed.

Lemma verifyReleaseEvidenceFiles_correct_witness :
  Forall (@gate_ok release_host evidence_root sample_manifest) (gates sample_manifest) /\
  @Signature_ok release_host evidence_root sample_manifest "independentReview".
Proof.
  assert (Hwf : @Manifest_wf sample_context sample_manifest)
    by (apply (@validateReleaseEvidence_wf release_host); vm_compute; reflexivity).
  destruct (proj1 (@verifyReleaseEvidenceFiles_correct release_host release_host_laws sample_context sample_manifest
    evidence_root Hwf)) as (H1 & _ & _ & H4); [vm_compute; reflexivity|].
  split; [exact H1|exact H4].
Defined.
(** Run in trusted-key mode on the release. *)
Definition sample_process : Process := {|
  arguments := [TRUSTED_FLAG; js "evidence/release.json"];
  environment := fun name => Some (repeat (if str_eqb name release_key_variable then 97 else 98) 64);
  git_head := Ok (repeat 97 40 ++ [10]);
|}.
Lemma release_main_accepts_witness :
  @Accepted release_host sample_process [js "release evidence schema valid"].
Proof.
  apply (@release_main_accepts release_host release_host_laws sample_process [js "release evidence schema valid"]).
  vm_compute. reflexivity.
Defined.

(** Behaviour worth knowing: the digest test of the reviewer key converts its argument,
    so without an expected key an array holding one digest is accepted. *)
Definition array_key_report : val := merge sample_report [("reviewerPublicKeySha256", varr [reviewer_digest])]%string.
Lemma array_key_accepted : validateIndependentReviewReport
  {| review_commit := VUndef; review_version := VUndef; review_key := VUndef |} array_key_report = Ok [].
Proof. vm_compute. reflexivity. Qed.
