(* ===== verification/EvidenceReader.v ===== *)
(** * Reading evidence

    The emitters, the merger and the fragment script each hold a copy of these two
    functions, which differ in the words of their messages. *)

From S2P Require Import Prelude JsNumber JsValue JsText Host.
From S2P Require LsanEvidence ReleaseFiles.

Section reader.
Context {host : Host}.

Definition isSafeRelativePath : val -> bool := LsanEvidence.isSafeRelativePath.
(** [containedFile], [containedPath] *)
Definition containedPath (root : jsstr) (relativePath : val) (label : jsstr) : result jsstr jsstr :=
  match relativePath with
  | VStr rel =>
      if negb (isSafeRelativePath relativePath) then Throw (label ++ js " must be a safe relative path") else
      realRoot ← realpathSync root;
      let absolutePath := resolve2 cwd realRoot rel in
      link ← pathHasSymlinkComponent realRoot absolutePath;
      if (link : bool) then Throw (label ++ js " must not resolve through symbolic links") else
      realFile ← realpathSync absolutePath;
      if ReleaseFiles.outside (relative cwd realRoot realFile)
      then Throw (label ++ js " must resolve inside the evidence root") else Ok realFile
  | _ => Throw (label ++ js " must be a safe relative path")
  end.
(** The bytes of a file that is neither empty nor too long. *)
Definition readBounded (what : jsstr) (bound : Z) (filePath : jsstr) : result jsstr (list Z) :=
  stats ← statSync filePath;
  if negb (isFile stats) then Throw (what ++ js " path must reference a regular file") else
  if size stats =? 0 then Throw (what ++ js " file must not be empty") else
  if bound <? size stats then Throw (what ++ js " file must not exceed " ++ dec bound ++ js " bytes") else
  readFileSync filePath.
Lemma readBounded_ok what bound p bytes : readBounded what bound p = Ok bytes <->
  exists stats, statSync p = Ok stats /\ isFile stats = true /\ size stats <> 0 /\ size stats <= bound /\ readFileSync p = Ok bytes.
Proof.
  unfold readBounded. rewrite bind_Ok. split.
  - intros (stats & Hs & H). destruct (isFile stats) eqn:Hf; cbn [negb] in H; [|done]. destruct (Z.eqb_spec (size stats) 0); [done|].
    destruct (Z.ltb_spec bound (size stats)); [done|]. exists stats. by split_and!.
  - intros (stats & Hs & Hf & H0 & Hb & H). exists stats. split; [done|]. rewrite Hf. cbn [negb].
    destruct (Z.eqb_spec (size stats) 0); [done|]. by destruct (Z.ltb_spec bound (size stats)); [lia|].
Qed.
End reader.
