(* ===== verification/ReleaseFragment.v ===== *)
(** * scripts/emit-release-gate-evidence.mjs: one gate's fragment

    From the bytes of a gate record to the manifest fragment that names them.  The
    command is in EmitCommand. *)

From S2P Require Import Prelude JsNumber Regex JsValue JsDate JsText Host ReleaseEvidence EvidenceReader.
From S2P Require DeviceEvidence LsanEvidence ReleaseFiles.
Open Scope js_scope.

(** [/password|..|rawInput|input(?:Value|Text|Bytes)/i]: without the verifier's [^value$]. *)
Definition SECRET_KEY (key : jsstr) : bool :=
  re_search (ralts (map rlit_ci (map js
    ["password"; "passphrase"; "secret"; "sentinel"; "plaintext"; "credentialValue"; "credentialBytes"; "rawInput";
     "inputValue"; "inputText"; "inputBytes"]%string))) key.
Definition TOOLCHAIN_NAMES : list jsstr := map js ["rust"; "node"; "pnpm"; "flutter"; "reactNative"; "ndk"]%string.
Definition CI_CHECK_LABEL : re := ReleaseFiles.CI_CHECK_LABEL.
Definition MAX_GATE_EVIDENCE_BYTES : Z := 1 * 1024 * 1024.

(** An [Error] with its message, or what the language throws. *)
Inductive thrown := Err (message : jsstr) | Lang (e : jserr).
Definition lang {A} (m : result jserr A) : result thrown A := match m with Ok a => Ok a | Throw e => Throw (Lang e) end.
Definition err {A} (m : result jsstr A) : result thrown A := match m with Ok a => Ok a | Throw e => Throw (Err e) end.

Lemma err_ok {A} (m : result jsstr A) a : err m = Ok a <-> m = Ok a.
Proof. destruct m; cbn; naive_solver. Qed.
Lemma lang_ok {A} (m : result jserr A) a : lang m = Ok a <-> m = Ok a.
Proof. destruct m; cbn; naive_solver. Qed.

(** The findings for the elements of an array are computed and dropped. *)
Fixpoint rejectSecretKeys (value : val) (field : jsstr) : list jsstr :=
  match value with
  | VObj ps =>
      (fix members (ps : list (jsstr * val)) : list jsstr :=
         match ps with
         | [] => []
         | (key, child) :: ps' =>
             let childField := dot field key in
             (if SECRET_KEY key then [childField ++ js ": secret-bearing evidence fields are forbidden"] else [])
             ++ rejectSecretKeys child childField ++ members ps'
         end) ps
  | _ => []
  end.

Section fragment.
Context {host : Host}.

Definition say (c : bool) (message : jsstr) (findings : list jsstr) : list jsstr := push_if c message findings.
(** The checks of a gate a CI job owns. *)
Definition validate_ci (required : ReleaseFiles.entry (list (list jsstr))) (record : val) (findings : list jsstr)
    : result jserr (list jsstr) :=
  match required with
  | ReleaseFiles.Absent => Ok findings
  | _ =>
      let findings := say (negb (eq_str record.["evidenceKind"] (js "ci-command")))
        (js "CI gate evidenceKind must equal ci-command") findings in
      let findings := say (negb (is_matching CI_CHECK_LABEL record.["runner"]))
        (js "CI gate runner must be a sanitized label") findings in
      let findings := say (bad_instant record.["recordedAt"])
        (js "CI gate recordedAt must be an ISO-8601 UTC timestamp") findings in
      match record.["checks"] with
      | VArr ((_ :: _) as slots) =>
          let findings := say (existsb (fun ic => negb (is_matching CI_CHECK_LABEL ic.2)) (present slots))
            (js "CI gate checks must contain sanitized labels only") findings in
          match required with
          | ReleaseFiles.Own sets =>
              Ok (say (negb (existsb (forallb (fun check => existsb (fun v => eq_str v check) (iterated slots))) sets))
                    (js "CI gate checks must include one complete owning job or command group") findings)
          | _ => Throw TypeError
          end
      | _ => Ok (findings ++ [js "CI gate checks must contain the owning job checks"])
      end
  end.
Definition validateEvidenceRecord (record commit gateName : val) : result jserr (list jsstr) :=
  if negb (isRecord record) then Ok [js "gate evidence must be a JSON object"] else
  let findings := rejectSecretKeys record (js "evidence") in
  let findings := say (negb (eq_int record.["schemaVersion"] 1)) (js "gate evidence schemaVersion must equal 1") findings in
  let findings := say (negb (eq_str record.["status"] (js "pass"))) (js "gate evidence status must equal pass") findings in
  let findings := if negb (is_matching COMMIT record.["commit"])
    then findings ++ [js "gate evidence commit must be a 40-character lowercase commit SHA"]
    else say (negb (strict_eq record.["commit"] commit)) (js "gate evidence commit must match the gate commit") findings in
  let findings := say (negb (strict_eq record.["gate"] gateName)) (js "gate evidence gate must match the fragment gate") findings in
  required ← ReleaseFiles.table_get ReleaseFiles.CI_RELEASE_GATE_CHECKS gateName;
  validate_ci required record findings.

(** The normalised toolchains, [VUndef] when there is none. *)
Fixpoint normalize_toolchains (ps : list (jsstr * val)) : result thrown (list (jsstr * val)) :=
  match ps with
  | [] => Ok []
  | (name, version) :: ps' =>
      if negb (str_in name TOOLCHAIN_NAMES) then Throw (Err (js "unsupported toolchain " ++ name)) else
      match version with
      | VStr ((_ :: _) as v) =>
          if existsb (fun c => (c =? 13) || (c =? 10)) v
          then Throw (Err (js "toolchain " ++ name ++ js " must be a non-empty single-line version"))
          else rest ← normalize_toolchains ps'; Ok ((name, version) :: rest)
      | _ => Throw (Err (js "toolchain " ++ name ++ js " must be a non-empty single-line version"))
      end
  end.
Definition validateToolchains (toolchains : val) : result thrown val :=
  if is_undefined toolchains then Ok VUndef else
  if negb (isRecord toolchains) then Throw (Err (js "toolchains must be an object")) else
  normalized ← normalize_toolchains (entries toolchains);
  Ok match normalized with [] => VUndef | _ => VObj normalized end.

(** [evidenceBytes]: a string, a byte array, or something else. *)
Inductive evidence_bytes := TextEvidence (s : jsstr) | ByteEvidence (bytes : list Z) | OtherEvidence.
(** The bytes that are hashed: a string in UTF-8, or a byte array. *)
Definition bounded_bytes (field : jsstr) (bound : Z) (value : evidence_bytes) : result thrown (list Z) :=
  let bounded bytes :=
    if (length bytes =? 0)%nat then Throw (Err (field ++ js " must not be empty")) else
    if bound <? Z.of_nat (length bytes) then Throw (Err (field ++ js " must not exceed " ++ dec bound ++ js " bytes")) else Ok bytes in
  match value with
  | TextEvidence s => bounded (utf8_encode s)
  | ByteEvidence bytes => bounded bytes
  | OtherEvidence => Throw (Err (field ++ js " must be a string or byte array"))
  end.
Lemma bounded_bytes_ok field bound bytes out :
  bounded_bytes field bound (ByteEvidence bytes) = Ok out <-> out = bytes /\ bytes <> [] /\ Z.of_nat (length bytes) <= bound.
Proof.
  unfold bounded_bytes. destruct (Nat.eqb_spec (length bytes) 0) as [E|E].
  { apply length_zero_iff_nil in E as ->. split; [done|by intros (_ & ? & _)]. }
  destruct (Z.ltb_spec bound (Z.of_nat (length bytes))); split; try done; try lia.
  - intros <-%Ok_inj. split_and!; [done|by intros ->|done].
  - by intros (-> & _).
Qed.
Definition normalizeEvidenceBytes : evidence_bytes -> result thrown (list Z) :=
  bounded_bytes (js "evidenceBytes") MAX_GATE_EVIDENCE_BYTES.

Record FragmentInput := {
  in_commit : val;
  in_packageVersion : val;
  in_gateName : val;
  in_evidencePath : val;
  in_evidenceBytes : evidence_bytes;
  in_toolchains : val;
}.
Definition gate_of (input : FragmentInput) (bytes : list Z) : val := vobj
  [("name", in_gateName input); ("commit", in_commit input); ("status", vstr "pass");
   ("evidencePath", in_evidencePath input); ("sha256", VStr (sha256 bytes))]%string.
Definition fragment_of (input : FragmentInput) (toolchains : val) (bytes : list Z) : val := VObj
  ([(js "schemaVersion", vnum 1); (js "commit", in_commit input); (js "packageVersion", in_packageVersion input)]
   ++ (if is_undefined toolchains then [] else [(js "toolchains", toolchains)])
   ++ [(js "gates", varr [gate_of input bytes])]).
Definition buildReleaseGateFragment (input : FragmentInput) : result thrown val :=
  if negb (is_matching COMMIT (in_commit input))
  then Throw (Err (js "commit must be a 40-character lowercase commit SHA")) else
  if negb (is_matching VERSION (in_packageVersion input))
  then Throw (Err (js "packageVersion must be a semantic version")) else
  if negb (includes_str REQUIRED_RELEASE_GATES (in_gateName input))
  then name ← lang (to_string (in_gateName input)); Throw (Err (js "unsupported release gate " ++ name)) else
  if negb (isSafeRelativePath (in_evidencePath input))
  then Throw (Err (js "evidencePath must be a safe relative path")) else
  bytes ← normalizeEvidenceBytes (in_evidenceBytes input);
  record ← match JSON_parse (utf8_decode bytes) with
           | Ok record => Ok record
           | Throw message => Throw (Err (js "gate evidence must be valid JSON: " ++ message))
           end;
  findings ← lang (validateEvidenceRecord record (in_commit input) (in_gateName input));
  if (0 <? length findings)%nat then Throw (Err (join [10] findings)) else
  toolchains ← validateToolchains (in_toolchains input);
  Ok (fragment_of input toolchains bytes).

(** ** The evidence file *)

Definition containedFile (root : jsstr) (relativePath : val) : result jsstr jsstr :=
  containedPath root relativePath (js "evidencePath").
Definition readBoundedEvidenceFile (filePath : jsstr) : result thrown (list Z) :=
  bytes ← err (readBounded (js "gate evidence") MAX_GATE_EVIDENCE_BYTES filePath);
  normalizeEvidenceBytes (ByteEvidence bytes).
End fragment.
