(* ===== verification/FragmentProps.v ===== *)
(** * Fragments meet their verifier

    What [buildReleaseGateFragment] returns, and that the release gate accepts it: the
    two scripts were written apart and check the same record by different code. *)

From S2P Require Import Prelude JsNumber Regex JsValue JsDate JsText Host PathProps.
From S2P Require Import ContractsSpec PlatformSupportProps EvidenceSpec DeviceEvidenceProps DeviceRecord DeviceFilesProps DeviceClaims LsanProps.
From S2P Require Import ReleaseEvidence ReviewReport ReviewProps ReleaseProps ReleaseFiles ReleaseFilesProps ReleaseGateProps.
From S2P Require Import ReleaseClaims ReleaseSample.
From S2P Require ReleaseFragment.
Import ReleaseFragment (FragmentInput, in_commit, in_packageVersion, in_gateName, in_evidencePath, in_evidenceBytes,
  in_toolchains, ByteEvidence, normalizeEvidenceBytes, validateToolchains, validateEvidenceRecord, gate_of, fragment_of,
  buildReleaseGateFragment).
Open Scope js_scope.

(** JSON text has no array with holes. *)
Definition dense (v : val) : Prop := forall l, inside (VArr l) v -> Forall is_Some l.
Lemma inside_get v k w : get v k = w -> w <> VUndef -> inside w v.
Proof.
  destruct v as [| | | | | | | | |ps|]; cbn [get]; try by intros <-.
  destruct (assoc k ps) as [w'|] eqn:E; [|by intros <-]. cbn. intros -> _.
  enough ((k, w) ∈ ps) by (eapply inside_member; [done|constructor]).
  revert E; induction ps as [|[k' v'] ps IH]; cbn [assoc]; [done|]. destruct (str_eqb k k') eqn:Ek.
  - apply str_eqb_eq in Ek as ->. intros [= ->]. left.
  - intros ?. right. by apply IH.
Qed.
Lemma dense_iterated l : Forall is_Some l -> iterated l = (present l).*2.
Proof.
  unfold iterated, present. generalize O. intros i H. revert i. induction H as [|o l [v ->] _ IH]; intros i; [done|].
  cbn. by rewrite (IH (S i)).
Qed.

Fixpoint denseb (v : val) : bool :=
  match v with
  | VArr l => forallb (fun o => match o with Some w => denseb w | None => false end) l
  | VObj ps => forallb (fun kv => denseb kv.2) ps
  | _ => true
  end.
Lemma denseb_dense v : denseb v = true -> dense v.
Proof.
  intros Hv l Hl. enough (Hb : denseb (VArr l) = true).
  { cbn [denseb] in Hb. apply forallb_Forall in Hb. eapply Forall_impl; [exact Hb|]. by intros [w|]. }
  revert Hv. remember (VArr l) as u eqn:Eu. clear Eu. induction Hl as [|l' w Hw _ IH|ps k w Hw _ IH]; [done| |]; cbn [denseb];
    rewrite forallb_Forall, Forall_forall; intros H; apply IH; by apply H in Hw.
Qed.

Section fragment.
Context {host : Host} (laws : HostLaws host).
Context (hex_digests : forall bytes, matches SHA256 (sha256 bytes)).
Context (json_dense : forall text record, JSON_parse text = Ok record -> dense record).

(** ** The record *)

Lemma say_nil c m es : ReleaseFragment.say c m es = [] <-> c = false /\ es = [].
Proof. apply push_if_nil. Qed.
Lemma validate_ci_nil es sets record :
  dense record ->
  ReleaseFragment.validate_ci (Own sets) record es = Ok [] <-> es = [] /\ Ci_wf sets record.
Proof.
  intros Hd. unfold ReleaseFragment.validate_ci. destruct record.["checks"] as [| | | | | | | |[|o slots]| |] eqn:Ec;
    try (split; [intros [_ ?]%Ok_inj%app_eq_nil; done|intros (_ & [_ _ _ (sl & Hs & Hne & _)]); congruence]).
  set (sl := o :: slots) in *. assert (Hit : iterated sl = (present sl).*2).
  { apply dense_iterated, Hd. by eapply inside_get. }
  replace (existsb _ (present sl)) with (existsb (fun check => negb (is_matching CI_CHECK_LABEL check)) (iterated sl)).
  2: { rewrite Hit. generalize (present sl). intros l. induction l as [|x l IH]; [done|]. cbn. by rewrite IH. }
  split.
  - intros H%Ok_inj. rewrite !say_nil, !negb_false_iff, eq_str_spec, bad_instant_spec, labels_spec, some_set_spec in H.
    destruct H as (Hset & Hl & Hi & Hr & Hk & ->). split; [done|]. apply is_matching_spec in Hr. constructor; try done. by exists sl.
  - intros (-> & [Hk Hr Hi (sl' & Hs & Hne & Hl & Hset)]). rewrite Ec in Hs. injection Hs as <-. f_equal.
    apply is_matching_spec in Hr.
    by rewrite !say_nil, !negb_false_iff, eq_str_spec, bad_instant_spec, labels_spec, some_set_spec.
Qed.
Record Emitted_record (n : jsstr) (commit record : val) : Prop := {
  er_record : is_record record = true;
  er_schema : eq_int record.["schemaVersion"] 1 = true;
  er_status : record.["status"] = vstr "pass";
  er_commit : matching COMMIT record.["commit"] /\ record.["commit"] = commit;
  er_gate : record.["gate"] = VStr n;
  er_ci : forall sets, table_find CI_RELEASE_GATE_CHECKS n = Some sets -> Ci_wf sets record;
}.
Lemma validateEvidenceRecord_ok n commit record :
  n ∈ REQUIRED_RELEASE_GATES -> dense record ->
  validateEvidenceRecord record commit (VStr n) = Ok [] -> Emitted_record n commit record.
Proof.
  intros Hn Hd. unfold validateEvidenceRecord. unfold isRecord. destruct (is_record record) eqn:Hr; cbn [negb]; [|by intros [=]].
  cbv zeta. set (es1 := ReleaseFragment.rejectSecretKeys _ _).
  set (es2 := if negb (is_matching _ _) then _ else _). rewrite table_get_required by done. cbn [mbind result_bind].
  set (es3 := ReleaseFragment.say (negb (strict_eq record.["gate"] _)) _ _). intros H.
  assert (H3 : es3 = [] /\ forall sets, table_find CI_RELEASE_GATE_CHECKS n = Some sets -> Ci_wf sets record).
  { destruct (table_find CI_RELEASE_GATE_CHECKS n) as [sets|]; [|by apply Ok_inj in H].
    apply validate_ci_nil in H as [? ?]; [|done]. split; [done|]. by intros ? [= <-]. }
  destruct H3 as [[Hg H2]%say_nil Hci]. revert H2. unfold es2, is_matching.
  pose proof (is_matching_spec COMMIT record.["commit"]) as Hm. destruct (PlatformSupport.is_matching _ _); cbn [negb];
    [|by intros [_ ?]%app_eq_nil]. specialize (proj1 Hm eq_refl) as Hv. destruct Hv as (c & Hc & _).
  intros [Hs [Ht%negb_false_iff%eq_str_spec [Hv%negb_false_iff _]%say_nil]%say_nil]%say_nil.
  apply negb_false_iff in Hs, Hg. constructor; try done.
  - split; [by apply Hm|]. rewrite Hc in Hs |- *. by apply strict_eq_str in Hs.
  - destruct record.["gate"]; try done. cbn in Hg. by apply str_eqb_eq in Hg as ->.
Qed.

(** ** The fragment *)

Record Emitted (input : FragmentInput) (f : val) (n p : jsstr) (bytes : list Z) (record : val) : Prop := {
  em_commit : matching COMMIT (in_commit input);
  em_version : matching VERSION (in_packageVersion input);
  em_name : in_gateName input = VStr n /\ n ∈ REQUIRED_RELEASE_GATES;
  em_path : in_evidencePath input = VStr p;
  em_bytes : normalizeEvidenceBytes (in_evidenceBytes input) = Ok bytes;
  em_json : JSON_parse (utf8_decode bytes) = Ok record;
  em_record : Emitted_record n (in_commit input) record;
  em_fragment : exists toolchains, validateToolchains (in_toolchains input) = Ok toolchains /\ f = fragment_of input toolchains bytes;
}.
Lemma buildReleaseGateFragment_ok input f :
  buildReleaseGateFragment input = Ok f -> exists n p bytes record, Emitted input f n p bytes record.
Proof.
  unfold buildReleaseGateFragment, is_matching.
  destruct (PlatformSupport.is_matching COMMIT _) eqn:Hc; cbn [negb]; [|by intros [=]]. apply is_matching_spec in Hc.
  destruct (PlatformSupport.is_matching VERSION _) eqn:Hv; cbn [negb]; [|by intros [=]]. apply is_matching_spec in Hv.
  destruct (includes_str _ _) eqn:Hn; cbn [negb]; [|by intros (? & _ & [=])%bind_Ok].
  apply includes_one_of in Hn as (n & Hname & Hn).
  destruct (EvidenceReader.isSafeRelativePath _) eqn:Hp; cbn [negb]; [|by intros [=]].
  destruct (in_evidencePath input) as [| | | |p| | | | | |] eqn:Ep; try done.
  intros (bytes & Hb & H)%bind_Ok. apply bind_Ok in H as (record & Hj & H).
  destruct (JSON_parse _) as [record'|] eqn:Ej; [|done]. apply Ok_inj in Hj as ->.
  apply bind_Ok in H as (fs & Hf & H). destruct fs as [|? ?]; cbn in H; [|done].
  apply bind_Ok in H as (tv & Ht & H%Ok_inj). exists n, p, bytes, record.
  destruct (validateEvidenceRecord _ _ _) as [r|] eqn:Er in Hf; [|done]. apply Ok_inj in Hf as ->. rewrite Hname in Er.
  constructor; try done; [|by exists tv]. apply validateEvidenceRecord_ok; eauto.
Qed.
Lemma fragment_gates input toolchains bytes : gates (fragment_of input toolchains bytes) = [gate_of input bytes].
Proof. unfold fragment_of. by destruct (is_undefined toolchains). Qed.
Lemma fragment_commit input toolchains bytes : (fragment_of input toolchains bytes).["commit"] = in_commit input.
Proof. unfold fragment_of. by destruct (is_undefined toolchains). Qed.

(** What the verifier asks of the record of gate [n] beyond what the emitter asked. *)
Definition Remaining (root n : jsstr) (gate record artifacts toolchains : val) : Prop :=
  free_of SECRET_KEY record /\
  (n = js "linux-leak-sanitizer" -> Lsan_gate_ok root gate record) /\
  (forall policy, table_find DEVICE_RELEASE_GATE_POLICIES n = Some policy ->
     Device_gate_ok root gate artifacts toolchains policy record).

Lemma emitted_gate_meets input f root field p bytes artifacts toolchains :
  buildReleaseGateFragment input = Ok f ->
  in_evidencePath input = VStr p -> safe_path p ->
  in_evidenceBytes input = ByteEvidence bytes -> evidence_file root p MAX_GATE_EVIDENCE_BYTES bytes ->
  exists n record gate,
    in_gateName input = VStr n /\ JSON_parse (utf8_decode bytes) = Ok record /\
    gates f = [gate] /\ gate = gate_of input bytes /\ (forall context, Gate_wf context f gate) /\
    ((findings ← verifyFileDigest [] root field gate.["evidencePath"] gate.["sha256"] MAX_GATE_EVIDENCE_BYTES;
      verifyGateEvidenceRecord findings root field gate artifacts toolchains) = Ok [] <->
     Remaining root n gate record artifacts toolchains).
Proof.
  intros (n & p' & bytes' & record & [Hc _ [Hn Hreq] Hp' Hb Hj Hr (tv & _ & ->)])%buildReleaseGateFragment_ok Hp Hsafe Hbytes Hfile.
  assert (bytes' = bytes) as ->.
  { rewrite Hbytes in Hb. by apply ReleaseFragment.bounded_bytes_ok in Hb as [-> _]. }
  exists n, record, (gate_of input bytes). rewrite fragment_gates. split_and!; try done.
  - intros context. unfold Gate_wf. rewrite fragment_commit. change ((gate_of input bytes).["name"]) with (in_gateName input).
    change ((gate_of input bytes).["evidencePath"]) with (in_evidencePath input). rewrite Hn, Hp.
    split_and!; try done; [by exists n|by exists p|]. exists (sha256 bytes). split; [done|apply hex_digests].
  - assert (Hg : (gate_of input bytes).["name"] = VStr n) by done.
    rewrite (gate_files_nil laws root _ artifacts toolchains n Hg Hreq [] field).
    2: { change ((gate_of input bytes).["evidencePath"]) with (in_evidencePath input). rewrite Hp. by exists p. }
    2: done. 2: { exists (sha256 bytes). split; [done|apply hex_digests]. }
    unfold Gate_file_ok, Remaining. change ((gate_of input bytes).["evidencePath"]) with (in_evidencePath input). rewrite Hp. split.
    + intros (_ & p1 & bytes1 & record1 & [= <-] & Hf1 & _ & Hj1 & [_ Hs _ _ _ _ _ Hl Hd]).
      rewrite (evidence_file_fun _ _ _ _ _ _ Hf1 Hfile), Hj in Hj1. apply Ok_inj in Hj1 as <-. split_and!; try done.
      intros ->. by apply Hl.
    + intros (Hs & Hl & Hd). split; [done|]. exists p, bytes, record. split_and!; try done. destruct Hr as [? ? ? ? ? ?].
      constructor; try done; [congruence|]. intros H. apply Hl. rewrite Hg in H. by injection H.
Qed.
(** A fragment the emitter built is taken by the release gate: when the record stays
    at its (safe) path, the fragment's one gate has the shape the manifest needs, its
    digest is the one the gate computes, and the gate reports nothing about it exactly
    when the record passes the checks only the gate makes - its own list of secret
    names, the sanitizer campaign and the device policy. *)
Theorem emitted_gate_verifies input f root field p bytes artifacts toolchains :
  buildReleaseGateFragment input = Ok f ->
  in_evidencePath input = VStr p -> safe_path p ->
  in_evidenceBytes input = ByteEvidence bytes -> evidence_file root p MAX_GATE_EVIDENCE_BYTES bytes ->
  exists n record gate,
    in_gateName input = VStr n /\ JSON_parse (utf8_decode bytes) = Ok record /\
    gates f = [gate] /\ gate = gate_of input bytes /\ (forall context, Gate_wf context f gate) /\
    ((findings ← verifyFileDigest [] root field gate.["evidencePath"] gate.["sha256"] MAX_GATE_EVIDENCE_BYTES;
      verifyGateEvidenceRecord findings root field gate artifacts toolchains) = Ok [] <->
     Remaining root n gate record artifacts toolchains).
Proof. apply emitted_gate_meets. Qed.
End fragment.

(** The record of the Rust gate in the sample release. *)
Definition sample_input : FragmentInput := {|
  in_commit := sample_hex 40; in_packageVersion := vstr "0.1.0"; in_gateName := vstr "rust-workspace";
  in_evidencePath := vstr "gates/rust-workspace"; in_evidenceBytes := ByteEvidence (in_root (js "gates/rust-workspace"));
  in_toolchains := vobj [("rust", vstr "1.88.0")]%string |}.

Lemma sample_digest_hex bytes : matches SHA256 (sample_digest bytes).
Proof. apply re_match_correct. unfold sample_digest. by destruct (str_eqb _ _). Qed.
Lemma sample_json_dense text record : @JSON_parse release_host text = Ok record -> dense record.
Proof.
  intros <-%Ok_inj. apply denseb_dense. unfold sample_json. destruct (find _ gate_records) as [g|] eqn:E.
  - destruct (String.eqb g.1 _); [by vm_compute|]. apply find_some in E as [E _]. revert g E. apply List.Forall_forall. by repeat constructor.
  - repeat (destruct (str_eqb _ _); [by vm_compute|]). done.
Qed.
Definition rust_path : jsstr := js "gates/rust-workspace".
Lemma rust_path_safe : safe_path rust_path.
Proof. destruct (proj1 (release_safe (VStr rust_path)) eq_refl) as (p & [= <-] & Hp). exact Hp. Qed.
Lemma sample_evidence_file :
  @evidence_file release_host evidence_root rust_path MAX_GATE_EVIDENCE_BYTES (in_root rust_path).
Proof.
  exists (in_root rust_path). split.
  - destruct (proj1 (@release_contained_nil release_host release_host_laws [] evidence_root [] rust_path
      (Some (in_root rust_path)) rust_path_safe)) as (_ & file & [= <-] & Hf); [by vm_compute|exact Hf].
  - exists {| isFile := true; size := 64 |}. split_and!; [done|done|done|by vm_compute|by vm_compute].
Qed.
Definition sample_gate_value : val := gate_of (host := release_host) sample_input (in_root rust_path).
Lemma emitted_gate_verifies_witness :
  @buildReleaseGateFragment release_host sample_input =
    Ok (fragment_of (host := release_host) sample_input (in_toolchains sample_input) (in_root rust_path)) /\
  gates (fragment_of (host := release_host) sample_input (in_toolchains sample_input) (in_root rust_path)) = [sample_gate_value].
Proof.
  assert (H : @buildReleaseGateFragment release_host sample_input =
    Ok (fragment_of (host := release_host) sample_input (in_toolchains sample_input) (in_root rust_path)))
    by (vm_compute; reflexivity).
  split; [exact H|].
  destruct (@emitted_gate_verifies release_host release_host_laws sample_digest_hex sample_json_dense sample_input _
    evidence_root [] rust_path (in_root rust_path) VUndef VUndef H eq_refl rust_path_safe eq_refl sample_evidence_file)
    as (n & record & gate & _ & _ & Hg & Hgate & _).
  rewrite Hg, Hgate. reflexivity.
Defined.
