(* ===== verification/JsJson.v ===== *)
(** * JSON.stringify and canonical key order

    JSON.stringify of the language without replacer, the key order Object.fromEntries
    leaves and the default order of sort.  A [toJSON] method is modelled when its result
    is a primitive.  [stringify_same]: the text determines the value, up to numbers that
    are written alike. *)

From stdpp Require Import sorting.
From S2P Require Import Prelude JsNumber JsValue JsText.

(** ** Stringify *)

Definition hex_digit (d : Z) : Z := if d <? 10 then 48 + d else 87 + d.
Definition unicode_escape (c : Z) : jsstr :=
  [92; 117; hex_digit (c / 4096); hex_digit ((c / 256) mod 16); hex_digit ((c / 16) mod 16); hex_digit (c mod 16)].
(** QuoteJSONString on one code point. *)
Definition quote_point (cp : Z) : jsstr :=
  if cp =? 8 then [92; 98] else if cp =? 9 then [92; 116] else if cp =? 10 then [92; 110] else
  if cp =? 12 then [92; 102] else if cp =? 13 then [92; 114] else if cp =? 34 then [92; 34] else
  if cp =? 92 then [92; 92] else
  if (cp <? 32) || is_high cp || is_low cp then unicode_escape cp else
  if cp <? 0x10000 then [cp] else [0xD800 + (cp - 0x10000) / 1024; 0xDC00 + (cp - 0x10000) mod 1024].
Definition quote (s : jsstr) : jsstr := [34] ++ flat_map quote_point (code_points s) ++ [34].

(** A primitive; [None] is the value undefined. *)
Definition json_prim (v : val) : option (result jserr (option jsstr)) :=
  match v with
  | VUndef | VSym _ => Some (Ok None)
  | VNull => Some (Ok (Some (js "null")))
  | VBool b => Some (Ok (Some (if b then js "true" else js "false")))
  | VNum n => Some (Ok (Some (if is_finite n then num_to_string n else js "null")))
  | VStr s => Some (Ok (Some (quote s)))
  | VBigInt _ => Some (Throw TypeError)
  | VFun _ _ | VArr _ | VObj _ | VBuf _ => None
  end.
(** The parts of an array or object between its brackets, on lines of their own when
    there is a gap. *)
Definition wrap (opening closing : Z) (gap indent : jsstr) (parts : list jsstr) : jsstr :=
  match parts, gap with
  | [], _ => [opening; closing]
  | _, [] => opening :: join [44] parts ++ [closing]
  | _, _ => opening :: 10 :: indent ++ gap ++ join ([44; 10] ++ indent ++ gap) parts ++ 10 :: indent ++ [closing]
  end.
Definition member (gap key text : jsstr) : jsstr :=
  quote key ++ [58] ++ (match gap with [] => [] | _ => [32] end) ++ text.
(** JSON.stringify with the gap between levels, at an indentation. *)
Fixpoint json (gap indent : jsstr) (v : val) : result jserr (option jsstr) :=
  match v with
  | VFun _ _ => Ok None
  | VBuf _ => Ok (Some (js "{}"))
  | VArr l =>
      parts ← (fix elements (l : list (option val)) : result jserr (list jsstr) :=
         match l with
         | [] => Ok []
         | o :: l' =>
             part ← match o with None => Ok None | Some w => json gap (indent ++ gap) w end;
             rest ← elements l'; Ok (default (js "null") part :: rest)
         end) l;
      Ok (Some (wrap 91 93 gap indent parts))
  | VObj ps =>
      match assoc (js "toJSON") ps with
      | Some (VFun _ None) => Throw HostError
      | Some (VFun _ (Some r)) => default (Throw HostError) (json_prim r)
      | _ =>
          parts ← (fix members (ps : list (jsstr * val)) : result jserr (list jsstr) :=
             match ps with
             | [] => Ok []
             | (key, w) :: ps' =>
                 part ← json gap (indent ++ gap) w; rest ← members ps';
                 Ok match part with None => rest | Some text => member gap key text :: rest end
             end) ps;
          Ok (Some (wrap 123 125 gap indent parts))
      end
  | _ => default (Ok None) (json_prim v)
  end.
(** [JSON.stringify(v)], [JSON.stringify(v, null, 2)] *)
Definition JSON_stringify (v : val) : result jserr (option jsstr) := json [] [] v.
Definition JSON_stringify_2 (v : val) : result jserr (option jsstr) := json [32; 32] [] v.

(** ** Object.fromEntries *)

(** An array index in canonical form. *)
Definition array_index (key : jsstr) : option Z :=
  let n := digits_value key in
  if (0 <=? n) && (n <? 2 ^ 32 - 1) && str_eqb (dec n) key then Some n else None.
Definition index_le (x y : jsstr * val) : Prop := default 0 (array_index x.1) <= default 0 (array_index y.1).
#[export] Instance index_le_dec : RelDecision index_le := fun x y => Z_le_dec _ _.
(** The entries, with distinct keys, in the order the object holds them: indices
    ascending, then the rest as given. *)
Definition fromEntries (l : list (jsstr * val)) : val :=
  let is_index (kv : jsstr * val) := bool_decide (is_Some (array_index kv.1)) in
  VObj (merge_sort index_le (filter (fun kv => is_index kv = true) l) ++ filter (fun kv => is_index kv = false) l).

Example stringify_ex : JSON_stringify (vobj
    [("a", varr [vnum 1; VUndef; VStr [34; 10; 1]]); ("b", VUndef); ("c", vobj [("d", VBool true)]); ("e", VNull)])%string =
  Ok (Some (js "{" ++ quote (js "a") ++ js ":[1,null," ++ [34; 92; 34] ++ js "\n\u0001" ++ [34] ++ js "],"
    ++ quote (js "c") ++ js ":{" ++ quote (js "d") ++ js ":true}," ++ quote (js "e") ++ js ":null}")).
Proof. vm_compute. reflexivity. Qed.
Example stringify_2_ex : JSON_stringify_2 (vobj [("a", varr [vnum 1; varr []]); ("b", vobj [])])%string =
  Ok (Some (js "{" ++ [10] ++ js "  " ++ quote (js "a") ++ js ": [" ++ [10] ++ js "    1," ++ [10] ++ js "    []" ++ [10]
    ++ js "  ]," ++ [10] ++ js "  " ++ quote (js "b") ++ js ": {}" ++ [10] ++ js "}")).
Proof. vm_compute. reflexivity. Qed.
Example fromEntries_ex : fromEntries [(js "b", VNull); (js "10", VNull); (js "01", VNull); (js "9", VNull)] =
  VObj [(js "9", VNull); (js "10", VNull); (js "b", VNull); (js "01", VNull)].
Proof. vm_compute. reflexivity. Qed.
Lemma elem_of_fromEntries l ps kv : fromEntries l = VObj ps -> kv ∈ ps <-> kv ∈ l.
Proof.
  intros [= <-]. rewrite elem_of_app, merge_sort_Permutation, !list_elem_of_filter.
  destruct (bool_decide _); naive_solver.
Qed.

(** ** Strings that are quoted as they are *)

Definition plain (s : jsstr) : Prop := Forall (fun c => 32 <= c < 128 /\ c <> 34 /\ c <> 92) s.
Lemma surrogate_range c : is_high c || is_low c = true <-> 0xD800 <= c <= 0xDFFF.
Proof. unfold is_high, is_low. rewrite orb_true_iff, !andb_true_iff, !Z.leb_le. lia. Qed.
Lemma code_points_plain s : plain s -> code_points s = s.
Proof.
  induction s as [|x|h l t IH IH'] using code_points_ind; [done|done|]. intros [Hh H]%Forall_cons.
  change (code_points (h :: l :: t)) with
    (if is_high h && is_low l then (h - 0xD800) * 1024 + (l - 0xDC00) + 0x10000 :: code_points t else h :: code_points (l :: t)).
  unfold is_high at 1. destruct (Z.leb_spec 0xD800 h); [lia|]. cbn [andb]. by rewrite IH'.
Qed.
Lemma plain_code_points s : plain (code_points s) -> plain s.
Proof.
  induction s as [|x|h l t IH IH'] using code_points_ind; [done|done|].
  change (code_points (h :: l :: t)) with
    (if is_high h && is_low l then (h - 0xD800) * 1024 + (l - 0xDC00) + 0x10000 :: code_points t else h :: code_points (l :: t)).
  destruct (is_high h && is_low l) eqn:E.
  - apply andb_true_iff in E as [E1 E2]. unfold is_high, is_low in *. intros [Hc _]%Forall_cons.
    apply andb_true_iff in E1 as [? _], E2 as [? _]. lia.
  - intros [Hh H]%Forall_cons. constructor; [done|by apply IH'].
Qed.
Lemma quote_point_plain cp l t : plain l -> quote_point cp ++ t = l -> exists l', l = cp :: l' /\ quote_point cp = [cp].
Proof.
  intros Hl E. unfold quote_point, unicode_escape in *.
  repeat match type of E with (if ?b then _ else _) ++ _ = _ => destruct b eqn:? end;
    subst l; try (apply Forall_cons in Hl as [Hl _]; lia).
  - by eexists.
  - apply Forall_cons in Hl as [Hl _]. pose proof (Z.div_pos (cp - 0x10000) 1024). lia.
Qed.
Lemma quote_plain s : plain s -> quote s = [34] ++ s ++ [34].
Proof.
  intros H. unfold quote. rewrite code_points_plain by done. f_equal. f_equal. induction H as [|c s Hc Hs IH]; [done|]. cbn [flat_map].
  rewrite IH. unfold quote_point, is_high, is_low. by repeat case_match; try lia.
Qed.
Lemma quote_plain_inj s a : plain a -> quote s = quote a -> s = a.
Proof.
  intros Ha H. rewrite (quote_plain a Ha) in H. unfold quote in H. injection H as H. apply app_inj_2 in H as [H _]; [|done].
  assert (E : code_points s = a).
  { revert H Ha. generalize (code_points s). clear. intros l; revert a; induction l as [|cp l IH]; intros a; cbn [flat_map]; [by intros <-|].
    intros E Ha. destruct (quote_point_plain cp a _ Ha E) as (a' & -> & Eq). rewrite Eq in E. injection E as E. f_equal.
    apply IH; [done|]. by apply Forall_cons in Ha as [_ Ha]. }
  rewrite <- E. symmetry. apply code_points_plain, plain_code_points. by rewrite E.
Qed.

(** ** JSON text determines the value *)

(** *** Strings *)

Definition unhex (c : Z) : Z := if c <? 58 then c - 48 else c - 87.
(** The code point that was quoted at the front of a text, and the rest. *)
Definition read_point (s : jsstr) : option (Z * jsstr) :=
  match s with
  | [] => None
  | c :: r =>
      if c =? 92 then
        match r with
        | e :: r' =>
            if e =? 117 then
              match r' with
              | a :: b :: x :: y :: r'' => Some (unhex a * 4096 + unhex b * 256 + unhex x * 16 + unhex y, r'')
              | _ => None
              end
            else Some (if e =? 98 then 8 else if e =? 116 then 9 else if e =? 110 then 10 else if e =? 102 then 12
                       else if e =? 114 then 13 else e, r')
        | [] => None
        end
      else if is_high c then
        match r with l :: r' => Some ((c - 0xD800) * 1024 + (l - 0xDC00) + 0x10000, r') | [] => None end
      else Some (c, r)
  end.
Definition code_point (cp : Z) : Prop := 0 <= cp < 0x110000.
Lemma unhex_digit d : 0 <= d < 16 -> unhex (hex_digit d) = d.
Proof. unfold unhex, hex_digit. intros H. destruct (Z.ltb_spec d 10); case_match; lia. Qed.
Lemma read_escape c r : 0 <= c < 65536 -> read_point (unicode_escape c ++ r) = Some (c, r).
Proof.
  intros H. unfold unicode_escape. cbn [app read_point Z.eqb Pos.eqb]. rewrite !unhex_digit by (Z.div_mod_to_equations; lia).
  do 2 f_equal. Z.div_mod_to_equations. lia.
Qed.
Lemma read_quote_point cp r : code_point cp -> read_point (quote_point cp ++ r) = Some (cp, r).
Proof.
  unfold code_point. intros H. unfold quote_point.
  do 7 (match goal with |- context [if cp =? ?k then _ else _] => destruct (Z.eqb_spec cp k) as [->|?]; [done|] end).
  destruct ((cp <? 32) || is_high cp || is_low cp) eqn:E.
  { apply read_escape. rewrite <- orb_assoc, orb_true_iff, surrogate_range in E. rewrite Z.ltb_lt in E. lia. }
  rewrite <- orb_assoc, orb_false_iff in E. destruct E as [_ E]. apply not_true_iff_false in E. rewrite surrogate_range in E.
  destruct (Z.ltb_spec cp 0x10000); cbn [app read_point].
  - destruct (Z.eqb_spec cp 92); [done|]. unfold is_high. destruct (Z.leb_spec 0xD800 cp), (Z.leb_spec cp 0xDBFF); try lia; done.
  - assert (Hd : 0 <= (cp - 0x10000) / 1024 < 1024) by (Z.div_mod_to_equations; lia).
    destruct (Z.eqb_spec (0xD800 + (cp - 0x10000) / 1024) 92); [lia|]. unfold is_high.
    destruct (Z.leb_spec 0xD800 (0xD800 + (cp - 0x10000) / 1024)), (Z.leb_spec (0xD800 + (cp - 0x10000) / 1024) 0xDBFF); try lia.
    cbn [andb]. do 2 f_equal. Z.div_mod_to_equations. lia.
Qed.
Lemma code_points_units s : Forall is_code_unit s -> flat_map code_units (code_points s) = s /\ Forall code_point (code_points s).
Proof.
  unfold code_units, is_code_unit, code_point.
  induction s as [|c|h l t IH IH'] using code_points_ind; [by split|..].
  - intros [Hc _]%Forall_cons. cbn. destruct (Z.leb_spec c 0xffff); [|lia]. split; [done|]. constructor; [lia|done].
  - intros Hs. pose proof Hs as [Hh [Hl Ht]%Forall_cons]%Forall_cons. change (code_points (h :: l :: t)) with
      (if is_high h && is_low l then (h - 0xD800) * 1024 + (l - 0xDC00) + 0x10000 :: code_points t else h :: code_points (l :: t)).
    destruct (is_high h && is_low l) eqn:E.
    + apply andb_true_iff in E as [E1 E2]. unfold is_high, is_low in *. rewrite andb_true_iff, !Z.leb_le in E1, E2.
      destruct (IH Ht) as [E Hc]. cbn [flat_map]. rewrite E. set (x := (h - 0xD800) * 1024 + (l - 0xDC00)).
      destruct (Z.leb_spec (x + 0x10000) 0xffff); [lia|]. split; [|constructor; [lia|done]].
      replace (x + 0x10000 - 0x10000) with x by lia. cbn [app]. f_equal; [|f_equal]; subst x; Z.div_mod_to_equations; lia.
    + destruct (IH' ltac:(by constructor)) as [E' Hc]. cbn [flat_map]. rewrite E'. destruct (Z.leb_spec h 0xffff); [|lia].
      split; [done|]. constructor; [lia|done].
Qed.
Lemma quote_points_unique l k r1 r2 : Forall code_point l -> Forall code_point k ->
  flat_map quote_point l ++ 34 :: r1 = flat_map quote_point k ++ 34 :: r2 -> l = k /\ r1 = r2.
Proof.
  intros Hl; revert k; induction Hl as [|a l Ha Hl IH]; intros k Hk.
  - destruct Hk as [|b k Hb Hk]; cbn [flat_map app]; [by intros [= ->]|]. rewrite <- app_assoc. intros E.
    pose proof (read_quote_point b (flat_map quote_point k ++ 34 :: r2) Hb) as Hr. rewrite <- E in Hr. injection Hr as <- _. discriminate E.
  - destruct Hk as [|b k Hb Hk]; cbn [flat_map app]; rewrite <- !app_assoc; intros E.
    + pose proof (read_quote_point a (flat_map quote_point l ++ 34 :: r1) Ha) as Hr. rewrite E in Hr. injection Hr as <- _. discriminate E.
    + pose proof (read_quote_point a (flat_map quote_point l ++ 34 :: r1) Ha) as Hr. rewrite E, read_quote_point in Hr by done.
      injection Hr as -> Hr. destruct (IH k Hk) as [-> ->]; [done|]. done.
Qed.
Lemma quote_unique s u r1 r2 : Forall is_code_unit s -> Forall is_code_unit u ->
  quote s ++ r1 = quote u ++ r2 -> s = u /\ r1 = r2.
Proof.
  intros [Es Hs]%code_points_units [Eu Hu]%code_points_units. unfold quote. cbn [app]. rewrite <- !app_assoc. cbn [app].
  intros [= H]. apply quote_points_unique in H as [H ->]; [|done..]. by rewrite <- Es, <- Eu, H.
Qed.

(** *** Literals *)

(** A unit of a literal: a digit, a sign, a point or a letter. *)
Definition literal_unit (c : Z) : bool := negb (str_in [c] (map (fun c => [c]) [34; 44; 58; 91; 93; 123; 125])).
Definition is_literal (s : jsstr) : Prop := s <> [] /\ Forall (fun c => literal_unit c = true) s.
Lemma digit_literal c : 48 <= c <= 57 -> literal_unit c = true.
Proof. intros H. unfold literal_unit, str_in. rewrite bool_decide_eq_false_2; [done|]. cbn. intros Hc.
  repeat (apply elem_of_cons in Hc as [[= ->]|Hc]; [lia|]). by apply not_elem_of_nil in Hc.
Qed.
Lemma num_to_string_literal n : is_finite n = true -> is_literal (num_to_string n).
Proof.
  set (lit := Forall (fun c => literal_unit c = true)).
  assert (Hd : forall z, lit (dec z)) by (intros z; eapply Forall_impl; [apply dec_is_digits|apply digit_literal]).
  assert (Hne : forall z, dec z <> []).
  { intros z H. assert (Hacc : forall i z acc, acc <> [] -> dec_digits i z acc <> []).
    { intros i; induction i as [|i IH]; intros w acc Ha; cbn [dec_digits]; [done|]. destruct (w <? 10); [done|by apply IH]. }
    unfold dec in H. cbn [dec_digits] in H. destruct (z <? 10); [done|]. by eapply Hacc, H. }
  assert (Hz : forall z, lit (zeros z)) by (intros z; unfold zeros; induction (Z.to_nat z); constructor; done).
  assert (Hj : forall b (s t : jsstr), lit s -> lit t -> lit (if b : bool then s else t)) by by intros [].
  assert (Hl : lit (js "-") /\ lit (js "+") /\ lit (js ".") /\ lit (js "e") /\ lit (js "0.") /\ lit (js "0"))
    by (split_and!; repeat constructor).
  destruct Hl as (? & ? & ? & ? & ? & ?). unfold num_to_string. destruct n as [|[]|m e]; [done..|]. intros _. split.
  - destruct (m =? 0); [done|]. destruct (if 0 <=? e then _ else _) as [a b]. destruct (shortest _ _ _ _ _) as [s k]. cbv zeta.
    assert (Hnl : forall s t : jsstr, s <> [] -> s ++ t <> []) by by intros [|? ?].
    assert (Hnr : forall s t : jsstr, t <> [] -> s ++ t <> []) by by intros [|? ?].
    apply Hnr. repeat case_match; first [by apply Hnl, Hne | by apply Hnl | by apply Hnr, Hnl].
  - apply Hj; [done|]. destruct (if 0 <=? e then _ else _) as [a b]. destruct (shortest _ _ _ _ _) as [s k]. cbv zeta.
    repeat first [apply Hd | apply Hz | assumption | apply Forall_take | apply Forall_drop | apply Hj | apply Forall_app; split | apply List.Forall_nil].
Qed.
(** What may follow a value: nothing, or a unit that ends it. *)
Definition ended (r : jsstr) : Prop := match r with [] => True | c :: _ => c = 44 \/ c = 93 \/ c = 125 end.
Lemma literal_unique s u r1 r2 : is_literal s -> is_literal u -> ended r1 -> ended r2 -> s ++ r1 = u ++ r2 -> s = u /\ r1 = r2.
Proof.
  intros [_ Hs] [_ Hu] H1 H2. assert (Hend : forall c r, literal_unit c = true -> ~ ended (c :: r)).
  { intros c r Hc Hr. by destruct Hr as [->|[->| ->]]; vm_compute in Hc. }
  revert u Hu; induction Hs as [|c s Hc Hs IH]; intros u Hu; destruct Hu as [|d u Hd Hu]; cbn [app].
  - done.
  - intros ->. by apply Hend in H1.
  - intros <-. by apply Hend in H2.
  - intros [= -> E]. destruct (IH u Hu E) as [-> ->]. done.
Qed.

(** *** Values *)

(** What JSON text denotes: no functions, nothing undefined, no holes. *)
Fixpoint data (v : val) : Prop :=
  match v with
  | VNull | VBool _ | VNum _ => True
  | VStr s => Forall is_code_unit s
  | VArr l => (fix elements (l : list (option val)) : Prop :=
      match l with [] => True | None :: _ => False | Some w :: l' => data w /\ elements l' end) l
  | VObj ps => (fix members (ps : list (jsstr * val)) : Prop :=
      match ps with [] => True | (k, w) :: ps' => (Forall is_code_unit k /\ data w) /\ members ps' end) ps
  | _ => False
  end.
Lemma data_arr l : data (VArr l) <-> exists vs, l = map Some vs /\ Forall data vs.
Proof.
  split.
  - induction l as [|[w|] l IH]; [by exists []| |done]. intros [Hw (vs & -> & Hvs)%IH]. exists (w :: vs). by split; [|constructor].
  - intros (vs & -> & H). induction H as [|w vs Hw H IH]; [done|]. by split.
Qed.
Lemma data_obj ps : data (VObj ps) <-> Forall (fun kv => Forall is_code_unit kv.1 /\ data kv.2) ps.
Proof.
  induction ps as [|[k w] ps IH]; [by split|]. rewrite Forall_cons, <- IH. done.
Qed.
(** Equal but for numbers that are written alike. *)
Definition literal (v : val) : option jsstr :=
  match v with
  | VNull => Some (js "null")
  | VBool b => Some (if b then js "true" else js "false")
  | VNum n => Some (if is_finite n then num_to_string n else js "null")
  | _ => None
  end.
Inductive same : val -> val -> Prop :=
  | same_literal v w t : literal v = Some t -> literal w = Some t -> same v w
  | same_str s : same (VStr s) (VStr s)
  | same_arr vs ws : Forall2 same vs ws -> same (VArr (map Some vs)) (VArr (map Some ws))
  | same_obj ps qs : Forall2 (fun x y => x.1 = y.1 /\ same x.2 y.2) ps qs -> same (VObj ps) (VObj qs).
(** The text without line breaks. *)
Definition bracketed (opening closing : Z) (parts : list jsstr) : jsstr := opening :: join [44] parts ++ [closing].
Fixpoint text_of (v : val) : jsstr :=
  match v with
  | VStr s => quote s
  | VArr l => bracketed 91 93 ((fix elements (l : list (option val)) : list jsstr :=
      match l with [] => [] | o :: l' => match o with Some w => text_of w | None => [] end :: elements l' end) l)
  | VObj ps => bracketed 123 125 ((fix members (ps : list (jsstr * val)) : list jsstr :=
      match ps with [] => [] | (k, w) :: ps' => (quote k ++ 58 :: text_of w) :: members ps' end) ps)
  | _ => default [] (literal v)
  end.
Lemma text_of_arr vs : text_of (VArr (map Some vs)) = bracketed 91 93 (map text_of vs).
Proof. cbn [text_of]. f_equal. induction vs as [|w vs IH]; [done|]. cbn. by f_equal. Qed.
Definition member_text (kv : jsstr * val) : jsstr := quote kv.1 ++ 58 :: text_of kv.2.
Lemma text_of_obj ps : text_of (VObj ps) = bracketed 123 125 (map member_text ps).
Proof. cbn [text_of]. f_equal. induction ps as [|[k w] ps IH]; [done|]. cbn. by f_equal. Qed.
Lemma wrap_flat opening closing indent parts : wrap opening closing [] indent parts = bracketed opening closing parts.
Proof. by destruct parts. Qed.
Lemma data_stringify v : data v -> JSON_stringify v = Ok (Some (text_of v)).
Proof.
  unfold JSON_stringify. induction v as [| |b|n|s| | |src r|l IH|ps IH|] using val_nested_ind; intros Hv; try done.
  - apply data_arr in Hv as (vs & -> & Hv). rewrite text_of_arr. cbn [json app].
    match goal with |- context [(?f (map Some vs))] => assert (E : f (map Some vs) = Ok (map text_of vs)) end.
    { apply Forall_map in IH. induction Hv as [|w vs Hw Hv IHv]; [done|]. apply Forall_cons in IH as [Hw' IH].
      cbn. cbn in Hw'. rewrite (Hw' Hw). cbn. by rewrite (IHv IH). }
    rewrite E. cbn [mbind result_bind]. by rewrite wrap_flat.
  - pose proof Hv as Hp. apply data_obj in Hp. rewrite text_of_obj. cbn [json app].
    assert (Hfn : forall k src r, assoc k ps <> Some (VFun src r)).
    { intros k src r. clear -Hp. induction Hp as [|[k' w] ps [_ Hw] Hp IHp]; [done|]. cbn. destruct (str_eqb k k'); [by intros [= ->]|done]. }
    match goal with |- context [(?f ps)] => assert (E : f ps = Ok (map member_text ps)) end.
    { clear Hfn Hv. induction Hp as [|[k w] ps [_ Hw] Hp IHp]; [done|]. apply Forall_cons in IH as [Hw' IH].
      cbn [snd fst] in *. cbn. rewrite (Hw' Hw). cbn. specialize (IHp IH). cbn in IHp. by rewrite IHp. }
    specialize (Hfn (js "toJSON")). destruct (assoc (js "toJSON") ps) as [[]|]; try (rewrite E; cbn [mbind result_bind]; by rewrite wrap_flat).
    by edestruct Hfn.
Qed.

(** *** Reading a text back *)

Section items.
Context {A : Type} (f : A -> jsstr) (Q : A -> Prop) (R : A -> A -> Prop).
(** Whatever else begins like [x] is related to it and ends where it ends. *)
Definition decoded (x : A) : Prop :=
  forall y r1 r2, Q y -> ended r1 -> ended r2 -> f x ++ r1 = f y ++ r2 -> R x y /\ r1 = r2.
Context (starts : forall y, Q y -> exists c r, f y = c :: r /\ ~ ended [c]).
Lemma parts_unique closing l k r1 r2 : ended [closing] -> closing <> 44 -> Forall decoded l -> Forall Q k ->
  flat_map (fun x => 44 :: f x) l ++ closing :: r1 = flat_map (fun x => 44 :: f x) k ++ closing :: r2 -> Forall2 R l k /\ r1 = r2.
Proof.
  intros Hc Hne Hl; revert k; induction Hl as [|x l Hx Hl IH]; intros k Hk; destruct Hk as [|y k Hy Hk]; cbn [flat_map app].
  - by intros [= ->].
  - by intros [= -> _].
  - by intros [= <- _].
  - rewrite <- !app_assoc. intros [= E].
    assert (Hend : forall l r, ended (flat_map (fun x => 44 :: f x) l ++ closing :: r)) by (intros [|z l'] r; [done|by left]).
    destruct (Hx y _ _ Hy (Hend _ _) (Hend _ _) E) as [Hxy E']. destruct (IH k Hk E') as [HF ->]. split; [by constructor|done].
Qed.
Lemma join_commas x l : join [44] (x :: l) = x ++ flat_map (fun y => 44 :: y) l.
Proof.
  revert x; induction l as [|y l IH]; intros x; [by rewrite app_nil_r|]. change (join [44] (x :: y :: l)) with (x ++ [44] ++ join [44] (y :: l)).
  by rewrite IH.
Qed.
Lemma bracketed_unique opening closing l k r1 r2 : ended [closing] -> closing <> 44 -> Forall decoded l -> Forall Q l -> Forall Q k ->
  bracketed opening closing (map f l) ++ r1 = bracketed opening closing (map f k) ++ r2 -> Forall2 R l k /\ r1 = r2.
Proof.
  intros Hc Hne Hl Hq Hk. unfold bracketed. cbn [app]. rewrite <- !app_assoc. cbn [app]. intros [= E].
  assert (Hfm : forall l, flat_map (fun y => 44 :: y) (map f l) = flat_map (fun x => 44 :: f x) l).
  { intros l'. induction l' as [|x l' IH]; [done|]. cbn. by rewrite IH. }
  assert (Hcl : forall y r r', Q y -> closing :: r <> f y ++ r').
  { intros y r r' (c & t & -> & Hn)%starts [= -> _]. done. }
  destruct Hl as [|x l Hx Hl], Hk as [|y k Hy Hk]; cbn [map] in E; rewrite ?join_commas, ?Hfm in E; cbn [join app] in E.
  - by injection E as ->.
  - rewrite <- app_assoc in E. by apply Hcl in E.
  - apply Forall_cons in Hq as [Hq _]. rewrite <- app_assoc in E. symmetry in E. by apply Hcl in E.
  - rewrite <- !app_assoc in E. apply (parts_unique closing (x :: l) (y :: k)); try done; [by constructor..|]. cbn [flat_map app].
    rewrite <- !app_assoc. by rewrite E.
Qed.
End items.
Lemma literal_of v t : literal v = Some t -> is_literal t.
Proof.
  assert (Hl : is_literal (js "null") /\ is_literal (js "true") /\ is_literal (js "false")) by (split_and!; repeat constructor; done).
  destruct Hl as (Hn & Ht & Hf). destruct v as [| |[]|n| | | | | | |]; cbn; intros [= <-]; try done. destruct (is_finite n) eqn:E; [|done].
  by apply num_to_string_literal.
Qed.
Lemma literal_start t : is_literal t -> exists c r, t = c :: r /\ literal_unit c = true.
Proof. intros [Hne H]. destruct H as [|c r Hc H]; [done|]. by eauto. Qed.
Lemma literal_text v t : literal v = Some t -> text_of v = t.
Proof. by destruct v; cbn; intros [= <-]. Qed.
(** What a text begins with. *)
Definition begins (v : val) (c : Z) : Prop :=
  match v with VStr _ => c = 34 | VArr _ => c = 91 | VObj _ => c = 123 | _ => literal_unit c = true end.
Lemma text_begins v : data v -> exists c r, text_of v = c :: r /\ begins v c.
Proof.
  destruct (literal v) as [t|] eqn:E.
  - intros _. destruct (literal_start t (literal_of v t E)) as (c & r & Et & Hc). exists c, r. rewrite (literal_text v t E).
    split; [done|]. by destruct v.
  - destruct v; try done; intros _; by do 2 eexists.
Qed.
Lemma text_not_ended v : data v -> exists c r, text_of v = c :: r /\ ~ ended [c].
Proof.
  intros H. destruct (text_begins v H) as (c & r & E & Hc). exists c, r. split; [done|].
  destruct v; cbn [begins] in Hc; intros [->|[->| ->]]; by vm_compute in Hc.
Qed.
Lemma member_unique ps : Forall (fun kv => Forall is_code_unit kv.1 /\ data kv.2) ps ->
  Forall (fun kv => decoded text_of data same kv.2) ps ->
  Forall (decoded member_text (fun kv => Forall is_code_unit kv.1 /\ data kv.2) (fun x y => x.1 = y.1 /\ same x.2 y.2)) ps.
Proof.
  rewrite !Forall_forall. intros Hp H kv Hkv y r1 r2 [Hy1 Hy2] H1 H2 E. unfold member_text in E. rewrite <- !app_assoc in E.
  apply quote_unique in E as [E1 E]; [|by apply Hp|done]. injection E as E. by destruct (H kv Hkv y.2 r1 r2 Hy2 H1 H2 E).
Qed.
Lemma text_unique v : data v -> decoded text_of data same v.
Proof.
  assert (Hlit : forall v t, literal v = Some t -> data v -> decoded text_of data same v).
  { clear v. intros v t Hv Hd w r1 r2 Hw H1 H2 E. destruct (text_begins v Hd) as (c & r & Ev & Hc), (text_begins w Hw) as (c' & r' & Ew & Hc').
    pose proof E as E'. rewrite Ev, Ew in E'. injection E' as <- _.
    destruct (literal w) as [u|] eqn:Hu.
    - rewrite (literal_text v t Hv), (literal_text w u Hu) in E.
      apply literal_unique in E as [-> ->]; [|by eapply literal_of..|done|done]. split; [by eapply same_literal|done].
    - exfalso. destruct w; try done; cbn [begins] in Hc'; subst c; by destruct v. }
  induction v as [| |b|n|s| | |src r|l IH|ps IH|] using val_nested_ind; intros Hv; try done; try by eapply Hlit.
  all: intros w r1 r2 Hw H1 H2 E; destruct (text_begins w Hw) as (c & r' & Ew & Hc).
  - assert (Ec : c = 34) by (rewrite Ew in E; cbn in E; by injection E).
    subst c. destruct w as [| | | |u| | | | | |]; try done. apply quote_unique in E as [-> ->]; [|done..]. split; [constructor|done].
  - apply data_arr in Hv as (vs & -> & Hv). assert (Ec : c = 91) by (rewrite Ew in E; cbn in E; by injection E).
    subst c. destruct w as [| | | | | | | |l| |]; try done. apply data_arr in Hw as (ws & -> & Hw). clear Ew Hc.
    rewrite !text_of_arr in E. apply (bracketed_unique text_of data same text_not_ended) in E as [HF ->]; [|by right; left|done| |done..].
    + split; [by constructor|done].
    + rewrite Forall_map in IH. rewrite Forall_forall in *. intros v Hin. by apply (IH v Hin), Hv.
  - apply data_obj in Hv. assert (Ec : c = 123) by (rewrite Ew in E; cbn in E; by injection E).
    subst c. destruct w as [| | | | | | | | |qs|]; try done. apply data_obj in Hw. clear Ew Hc. rewrite !text_of_obj in E.
    apply (bracketed_unique member_text (fun kv => Forall is_code_unit kv.1 /\ data kv.2) (fun x y => x.1 = y.1 /\ same x.2 y.2)) in E as [HF ->].
    + split; [by constructor|done].
    + intros y _. unfold member_text, quote. do 2 eexists. split; [done|]. by intros [?|[?|?]].
    + by right; right.
    + done.
    + apply member_unique; [done|]. rewrite Forall_forall in *. intros kv Hin. apply (IH kv Hin), Hv, Hin.
    + done.
    + done.
Qed.
Lemma same_text v w : same v w -> text_of v = text_of w.
Proof.
  revert w; induction v as [| | | | | | | |l IH|ps IH|] using val_nested_ind; intros w Hs;
    inversion Hs as [? ? t H1 H2|u|vs ws HF E|ps' qs HF]; subst; try by rewrite (literal_text _ _ H1), (literal_text _ _ H2).
  - done.
  - rewrite !text_of_arr. f_equal. rewrite Forall_map in IH. clear Hs. induction HF as [|x y vs ws Hxy HF IHF]; [done|].
    apply Forall_cons in IH as [Hx IH]. cbn. by rewrite (Hx y Hxy), (IHF IH).
  - rewrite !text_of_obj. f_equal. clear Hs. induction HF as [|[k x] [k' y] ps qs [Hk Hxy] HF IHF]; [done|].
    apply Forall_cons in IH as [Hx IH]. cbn in *. rewrite (IHF IH). unfold member_text. cbn. by rewrite (Hx y Hxy), Hk.
Qed.
(** Texts are equal exactly when the values are the same. *)
Lemma stringify_same v w : data v -> data w -> JSON_stringify v = JSON_stringify w <-> same v w.
Proof.
  intros Hv Hw. rewrite !data_stringify by done. split.
  - intros [= E]. destruct (text_unique v Hv w [] [] Hw I I) as [H _]; [by rewrite !app_nil_r|done].
  - intros H. by rewrite (same_text v w H).
Qed.

(** ** The default order of sort

    Array.prototype.sort without a comparator orders strings by code units, a total
    order, so the sorted list depends only on the elements. *)

Fixpoint code_unit_le (x y : jsstr) : bool :=
  match x, y with
  | [], _ => true
  | _, [] => false
  | a :: x', b :: y' => if a =? b then code_unit_le x' y' else a <? b
  end.
Definition unit_order (x y : jsstr) : Prop := code_unit_le x y = true.
#[export] Instance unit_order_dec : RelDecision unit_order := fun x y => decide (code_unit_le x y = true).
(** [l.sort()] on strings. *)
Definition sort_units (l : list jsstr) : list jsstr := merge_sort unit_order l.

#[export] Instance unit_order_total : Total unit_order.
Proof.
  intros x; unfold unit_order. induction x as [|a x IH]; intros y; [by left|]. destruct y as [|b y]; [by right|]. cbn.
  destruct (Z.eqb_spec a b) as [->|]; [rewrite Z.eqb_refl; apply IH|]. destruct (Z.eqb_spec b a); [done|].
  rewrite !Z.ltb_lt. lia.
Qed.
#[export] Instance unit_order_trans : Transitive unit_order.
Proof.
  intros x; unfold unit_order. induction x as [|a x IH]; intros [|b y] [|c z]; cbn; try done.
  destruct (Z.eqb_spec a b), (Z.eqb_spec b c), (Z.eqb_spec a c); rewrite ?Z.ltb_lt; subst; try lia; try done. apply IH.
Qed.
#[export] Instance unit_order_antisymm : AntiSymm (=) unit_order.
Proof.
  intros x; unfold unit_order. induction x as [|a x IH]; intros [|b y]; cbn; try done.
  destruct (Z.eqb_spec a b) as [->|].
  - rewrite Z.eqb_refl. intros. f_equal. by apply IH.
  - destruct (Z.eqb_spec b a); [done|]. rewrite !Z.ltb_lt. lia.
Qed.
Lemma sort_units_perm l : sort_units l ≡ₚ l.
Proof. apply merge_sort_Permutation. Qed.
Lemma sort_units_sorted l : StronglySorted unit_order (sort_units l).
Proof. apply StronglySorted_merge_sort; apply _. Qed.
(** Sorting forgets the order it started from. *)
Lemma sort_units_canonical l k : l ≡ₚ k -> sort_units l = sort_units k.
Proof.
  intros H. apply (StronglySorted_unique unit_order); [apply sort_units_sorted..|]. by rewrite !sort_units_perm.
Qed.
