(* ===== verification/MergeEvidence.v ===== *)
(** * scripts/merge-release-evidence.mjs

    Fragments are merged into one manifest, which the manifest validator accepts.  [localeCompare] is implementation-defined and a parameter, as
    is the clock.  Array.prototype.sort is stdpp's stable merge sort, which every stable
    sort agrees with when the comparator is consistent.  The command is in MergeCommand. *)

From stdpp Require Import sorting.
From S2P Require Import Prelude JsNumber Regex JsValue JsText JsJson Host ReleaseEvidence.
From S2P Require Import ReleaseFragment.
From S2P Require ReleaseFiles.
From S2P Require Import PathProps.
From S2P Require Import ContractsSpec PlatformSupportProps EvidenceSpec DeviceEvidenceProps DeviceFilesProps ReviewProps.
From S2P Require Import ReleaseProps ReleaseSample FragmentProps.
From S2P Require DeviceEvidence LsanEvidence.
Import ReleaseFragment (thrown, Err, Lang, lang).
Open Scope js_scope.

Definition MAX_RELEASE_FRAGMENT_BYTES : Z := 1 * 1024 * 1024.

Section merge.
Context {host : Host} (localeCompare : jsstr -> jsstr -> Z).

Definition before (x y : jsstr) : Prop := localeCompare x y <= 0.
Definition key_before (x y : jsstr * val) : Prop := before x.1 y.1.
#[local] Instance key_before_dec : RelDecision key_before := fun x y => Z_le_dec _ _.

(** ** Canonical values *)

Fixpoint canonicalize (value : val) : val :=
  match value with
  | VArr l => VArr ((fix elements (l : list (option val)) : list (option val) :=
      match l with [] => [] | o :: l' => match o with None => None | Some w => Some (canonicalize w) end :: elements l' end) l)
  | VObj ps => fromEntries (merge_sort key_before ((fix members (ps : list (jsstr * val)) : list (jsstr * val) :=
      match ps with [] => [] | (key, child) :: ps' => (key, canonicalize child) :: members ps' end) ps))
  | VBuf _ => VObj []
  | _ => value
  end.
(** [JSON.stringify(canonicalize(left)) === JSON.stringify(canonicalize(right))] *)
Definition sameValue (left right : val) : result jserr bool :=
  l ← JSON_stringify (canonicalize left); r ← JSON_stringify (canonicalize right);
  Ok match l, r with Some a, Some b => str_eqb a b | None, None => true | _, _ => false end.

(** ** The merge *)

Definition own (fragment : val) (field : jsstr) : option val := assoc field (entries fragment).
(** What the loop carries: the context of commit, version and toolchains, the maps of
    gates by name and artifacts by kind in insertion order, the referenced paths and the
    two descriptors. *)
Record Merge := {
  merge_context : list (jsstr * val);
  merge_gates : list (jsstr * val);
  merge_artifacts : list (jsstr * val);
  merge_paths : list jsstr;
  merge_signature : val;
  merge_review : val;
}.
Definition merge_start : Merge := {| merge_context := []; merge_gates := []; merge_artifacts := []; merge_paths := [];
  merge_signature := VUndef; merge_review := VUndef |}.
Definition fragment_label (fragmentIndex : nat) : jsstr := js "fragment " ++ dec_nat fragmentIndex.
Definition addContext (fragment : val) (fragmentIndex : nat) (context : list (jsstr * val)) (field : jsstr)
    : result thrown (list (jsstr * val)) :=
  match own fragment field with
  | None => Ok context
  | Some value =>
      let known := default VUndef (assoc field context) in
      if is_undefined known then Ok ((field, value) :: context) else
      same ← lang (sameValue known value);
      if (same : bool) then Ok context else Throw (Err (fragment_label fragmentIndex ++ js " conflicts on " ++ field))
  end.
(** [for (const x of v ?? [])]: a string yields its code points. *)
Definition iterate (v : val) : result thrown (list val) :=
  match v with
  | VUndef | VNull => Ok []
  | VArr slots => Ok (iterated slots)
  | VStr s => Ok (map (fun c => VStr (if c <? 0x10000 then [c] else [0xD800 + (c - 0x10000) / 1024; 0xDC00 + (c - 0x10000) mod 1024]))
                    (code_points s))
  | _ => Throw (Lang TypeError)
  end.
(** One gate (by [name], with an [evidencePath]) or artifact (by [kind], with a [path]). *)
Definition add_entry (fragmentIndex : nat) (keyField pathField : String.string) (invalid duplicate : jsstr)
    (st : list (jsstr * val) * list jsstr) (entry : val) : result thrown (list (jsstr * val) * list jsstr) :=
  let '(known, paths) := st in
  match isRecord entry, get entry (js keyField) with
  | true, VStr ((_ :: _) as key) =>
      if str_in key known.*1 then Throw (Err (duplicate ++ js " " ++ key)) else
      match get entry (js pathField) with
      | VStr p =>
          if LsanEvidence.isSafeRelativePath (VStr p) then
            if set_has p paths then Throw (Err (js "duplicate release evidence path " ++ p))
            else Ok (known ++ [(key, entry)], set_add p paths)
          else Ok (known ++ [(key, entry)], paths)
      | _ => Ok (known ++ [(key, entry)], paths)
      end
  | _, _ => Throw (Err (fragment_label fragmentIndex ++ js " contains an invalid " ++ invalid))
  end.
Definition add_descriptor (known descriptor : val) (duplicate : jsstr) : result thrown val :=
  if is_undefined descriptor then Ok known else
  if is_undefined known then Ok descriptor else Throw (Err duplicate).
Definition context_fields : list jsstr := map js ["commit"; "packageVersion"; "toolchains"]%string.
Definition add_fragment (st : Merge) (indexed : nat * val) : result thrown Merge :=
  let '(fragmentIndex, fragment) := indexed in
  if negb (isRecord fragment) then Throw (Err (fragment_label fragmentIndex ++ js " must be a JSON object")) else
  if negb (is_undefined fragment.["schemaVersion"]) && negb (eq_int fragment.["schemaVersion"] 1)
  then Throw (Err (fragment_label fragmentIndex ++ js " has unsupported schemaVersion")) else
  context ← DeviceEvidence.foldM (addContext fragment fragmentIndex) (merge_context st) context_fields;
  if negb (is_array fragment.["gates"]) && negb (is_array fragment.["artifacts"]) && is_undefined fragment.["signature"]
     && is_undefined fragment.["independentReview"]
  then Throw (Err (fragment_label fragmentIndex ++ js " contains no mergeable evidence")) else
  gates ← iterate fragment.["gates"];
  '(known_gates, paths) ← DeviceEvidence.foldM
    (add_entry fragmentIndex "name" "evidencePath" (js "gate") (js "duplicate release gate"))
    (merge_gates st, merge_paths st) gates;
  artifacts ← iterate fragment.["artifacts"];
  '(known_artifacts, paths) ← DeviceEvidence.foldM
    (add_entry fragmentIndex "kind" "path" (js "artifact") (js "duplicate release artifact kind"))
    (merge_artifacts st, paths) artifacts;
  signature ← add_descriptor (merge_signature st) fragment.["signature"] (js "duplicate release signature descriptor");
  review ← add_descriptor (merge_review st) fragment.["independentReview"] (js "duplicate independent review descriptor");
  Ok {| merge_context := context; merge_gates := known_gates; merge_artifacts := known_artifacts; merge_paths := paths;
        merge_signature := signature; merge_review := review |}.

Definition sorted_values (known : list (jsstr * val)) : val := varr (merge_sort key_before known).*2.
Definition context_field (st : Merge) (field : String.string) : val := default VUndef (assoc (js field) (merge_context st)).
Definition merged_manifest (st : Merge) (createdAt : val) : val := VObj
  ([(js "schemaVersion", vnum 1); (js "commit", context_field st "commit"); (js "createdAt", createdAt);
    (js "packageVersion", context_field st "packageVersion"); (js "toolchains", context_field st "toolchains");
    (js "gates", sorted_values (merge_gates st)); (js "artifacts", sorted_values (merge_artifacts st))]
   ++ (if is_undefined (merge_signature st) then [] else [(js "signature", merge_signature st)])
   ++ (if is_undefined (merge_review st) then [] else [(js "independentReview", merge_review st)])).
Definition no_context : Context := {| expectedCommit := VUndef; expectedPackageVersion := VUndef;
  expectedReleasePublicKeySha256 := VUndef; expectedReviewerPublicKeySha256 := VUndef |}.
(** [createdAt] is [options.createdAt], [now] the clock's rendering. *)
Definition mergeReleaseEvidence (fragments : list val) (createdAt : val) (now : jsstr) : result thrown val :=
  match fragments with
  | [] => Throw (Err (js "at least one release evidence fragment is required"))
  | _ =>
      st ← DeviceEvidence.foldM add_fragment merge_start (indexed fragments);
      let merged := merged_manifest st match createdAt with VUndef | VNull => VStr now | _ => createdAt end in
      findings ← lang (validateReleaseEvidence no_context merged);
      if (0 <? length findings)%nat
      then Throw (Err (js "merged release evidence is incomplete:" ++ [10] ++ join [10] findings)) else Ok merged
  end.
End merge.

(** ** What a merged manifest is

    The loop over the fragments collects their gates, artifacts and descriptors without
    changing them, and compares what they say of the release. *)

(** ** Comparing values *)

Definition no_functions (v : val) : Prop := forall src r, ~ inside (VFun src r) v.
(** Without functions only a string is written as a quoted string. *)
Lemma json_string v s : no_functions v -> JSON_stringify v = Ok (Some (quote s)) -> exists s', v = VStr s' /\ quote s' = quote s.
Proof.
  intros Hf. assert (Hq : exists t, quote s = 34 :: t) by (by eexists). destruct Hq as [t Hq].
  destruct v as [| |b|n|u| | |src r|l|ps|]; cbn [JSON_stringify json json_prim default]; rewrite ?Hq; try done.
  - by destruct b.
  - destruct (is_finite n) eqn:En; [|done]. apply num_to_string_literal in En as [_ Hn]. intros [= E]. rewrite E in Hn.
    by apply Forall_cons in Hn as [? _].
  - intros [= E]. exists u. by rewrite <- E.
  - by intros ([] & _ & [=])%bind_Ok.
  - destruct (assoc (js "toJSON") ps) as [w|] eqn:Ea; [|by intros ([] & _ & [=])%bind_Ok].
    destruct w as [| | | | | | |src r| | |]; try by intros ([] & _ & [=])%bind_Ok.
    exfalso. apply (Hf src r). apply (inside_get _ (js "toJSON")); [|done]. cbn [get]. by rewrite Ea.
Qed.

Section merge.
Context {host : Host} (localeCompare : jsstr -> jsstr -> Z).
#[local] Instance key_before_decision : RelDecision (key_before localeCompare) := fun x y => Z_le_dec _ _.
Notation canonicalize := (canonicalize localeCompare).
Notation sameValue := (sameValue localeCompare).

Lemma canonicalize_arr l : canonicalize (VArr l) = VArr (map (option_map canonicalize) l).
Proof. reflexivity. Qed.
Lemma canonicalize_obj ps :
  canonicalize (VObj ps) = fromEntries (merge_sort (key_before localeCompare) (map (fun kv => (kv.1, canonicalize kv.2)) ps)).
Proof.
  cbn [MergeEvidence.canonicalize]. match goal with |- fromEntries (_ ?l) = fromEntries (_ ?m) => enough (E : l = m) by by rewrite E end.
  induction ps as [|[k w] ps IH]; [done|]. cbn. by rewrite <- IH.
Qed.
Lemma canonicalize_member ps qs k w :
  canonicalize (VObj ps) = VObj qs -> (k, w) ∈ qs <-> exists w', (k, w') ∈ ps /\ w = canonicalize w'.
Proof.
  rewrite canonicalize_obj. intros H. rewrite (elem_of_fromEntries _ _ _ H), merge_sort_Permutation, list_elem_of_fmap. split.
  - intros ([k' w'] & [= -> ->] & Hin). by exists w'.
  - intros (w' & Hin & ->). by exists (k, w').
Qed.
Lemma canonicalize_no_functions v : no_functions v -> no_functions (canonicalize v).
Proof.
  unfold no_functions. intros H src r. revert H. induction v as [| | | | | | |src' r' IH|l IH|ps IH|] using val_nested_ind; intros H; try (by intros Hi; inversion Hi).
  - intros Hi. by apply (H src r).
  - rewrite canonicalize_arr. intros Hi. inversion Hi as [|l' w Hw Hin|]; subst.
    apply list_elem_of_fmap in Hw as ([w'|] & [= ->] & Hw). rewrite Forall_forall in IH. apply (IH (Some w') Hw); [|done].
    intros src' r' Hi'. apply (H src' r'). by eapply inside_item.
  - destruct (canonicalize (VObj ps)) as [| | | | | | | | |qs|] eqn:E; try by rewrite canonicalize_obj in E.
    intros Hi. inversion Hi as [| |qs' k w Hw Hin]; subst. apply (canonicalize_member _ _ _ _ E) in Hw as (w' & Hw & ->).
    rewrite Forall_forall in IH. apply (IH (k, w') Hw); [|done]. intros src' r' Hi'. apply (H src' r'). by eapply inside_member.
  - intros Hi. inversion Hi as [| |qs' k w Hw Hin]; subst. by apply not_elem_of_nil in Hw.
Qed.
(** Two values of which one is plain text are the same exactly when they are equal. *)
Lemma sameValue_plain a w : plain a -> no_functions w -> sameValue (VStr a) w = Ok true -> w = VStr a.
Proof.
  intros Ha Hf. unfold sameValue. change (JSON_stringify (canonicalize (VStr a))) with (Ok (E := jserr) (Some (quote a))).
  cbn [mbind result_bind]. intros (r & Hr & H%Ok_inj)%bind_Ok. destruct r as [r|]; [|done]. apply str_eqb_eq in H as <-.
  apply json_string in Hr as (s & Hs & Hq); [|by apply canonicalize_no_functions]. apply (quote_plain_inj s a Ha) in Hq as ->.
  destruct w; cbn [MergeEvidence.canonicalize] in Hs; try done.
Qed.

(** ** The loop *)

(** *** The context *)

Definition known (context : list (jsstr * val)) (field : jsstr) : val := default VUndef (assoc field context).
(** A fragment's value [w] for a field of which the merge knows [k]. *)
Definition consistent (k w : val) : Prop := w = VUndef \/ (k <> VUndef /\ (w = k \/ sameValue k w = Ok true)).
Lemma known_cons k v context field : known ((k, v) :: context) field = if str_eqb field k then v else known context field.
Proof. unfold known. cbn. by destruct (str_eqb field k). Qed.
Lemma addContext_ok fragment i context field context' :
  addContext localeCompare fragment i context field = Ok context' ->
  (forall g, known context g <> VUndef -> known context' g = known context g) /\
  (forall w, own fragment field = Some w -> consistent (known context' field) w).
Proof.
  unfold addContext. destruct (own fragment field) as [w|] eqn:Ew; [|by intros <-%Ok_inj].
  fold (known context field). destruct (is_undefined (known context field)) eqn:Eu.
  - apply is_undefined_spec in Eu. intros <-%Ok_inj. split.
    + intros g Hg. rewrite known_cons. destruct (str_eqb g field) eqn:E; [|done]. by apply str_eqb_eq in E as ->.
    + intros ? [= <-]. unfold consistent. rewrite known_cons, str_eqb_refl. destruct w; eauto.
  - intros (same & Hs & H)%bind_Ok. destruct same; [|done]. apply Ok_inj in H as <-. split; [done|]. intros ? [= <-]. right. split.
    + intros E. by rewrite E in Eu.
    + right. unfold ReleaseFragment.lang in Hs. destruct (sameValue _ _); [|done]. apply Ok_inj in Hs. by subst.
Qed.
Lemma addContexts_ok fragment i context fields context' :
  DeviceEvidence.foldM (addContext localeCompare fragment i) context fields = Ok context' ->
  (forall g, known context g <> VUndef -> known context' g = known context g) /\
  (forall field w, field ∈ fields -> own fragment field = Some w -> consistent (known context' field) w).
Proof.
  apply (foldM_inv _ (fun fields context' => (forall g, known context g <> VUndef -> known context' g = known context g) /\
    (forall field w, field ∈ fields -> own fragment field = Some w -> consistent (known context' field) w))).
  - split; [done|]. by intros ? ? ?%not_elem_of_nil.
  - intros pre field c c' [Hm Hc] H. apply addContext_ok in H as [Hm' Hc']. split.
    + intros g Hg. rewrite Hm'; rewrite Hm by done; done.
    + intros field' w Hin Hw. apply elem_of_app in Hin as [Hin|E]; [|apply list_elem_of_singleton in E as ->; by apply Hc'].
      destruct (Hc field' w Hin Hw) as [->|[Hk Hs]]; [by left|right]. by rewrite Hm'.
Qed.

(** *** Gates, artifacts, descriptors *)

Definition items (field : String.string) (fragment : val) : list val :=
  match get fragment (js field) with VArr slots => iterated slots | _ => [] end.
Definition keyed (keyField : String.string) (e : val) : jsstr * val :=
  (match get e (js keyField) with VStr s => s | _ => [] end, e).
Definition defined (v : val) : list val := if is_undefined v then [] else [v].
Definition named (keyField : String.string) (e : val) : Prop :=
  is_record e = true /\ exists s, get e (js keyField) = VStr s /\ s <> [].

Lemma add_entry_ok i kf pf invalid duplicate st e st' :
  add_entry i kf pf invalid duplicate st e = Ok st' ->
  named kf e /\ st'.1 = st.1 ++ [keyed kf e] /\ (keyed kf e).1 ∉ st.1.*1.
Proof.
  destruct st as [l paths]. unfold add_entry, named, keyed, isRecord. destruct (is_record e); [|done].
  destruct (get e (js kf)) as [| | | |[|c s]| | | | | |]; try done.
  pose proof (str_in_elem (c :: s) l.*1) as Hin. destruct (str_in _ _) eqn:E; [done|]. intros H.
  assert (st'.1 = l ++ [(c :: s, e)]) as ->.
  { destruct (get e (js pf)); repeat case_match; simplify_eq/=; done. }
  split_and!; [done|by eexists|done|]. cbn. intros H'%Hin. congruence.
Qed.
Lemma add_entries_ok i kf pf invalid duplicate st l st' :
  DeviceEvidence.foldM (add_entry i kf pf invalid duplicate) st l = Ok st' ->
  NoDup st.1.*1 -> Forall (named kf) l /\ st'.1 = st.1 ++ map (keyed kf) l /\ NoDup st'.1.*1.
Proof.
  intros H Hd. revert H. apply (foldM_inv _ (fun l st' => Forall (named kf) l /\ st'.1 = st.1 ++ map (keyed kf) l /\ NoDup st'.1.*1)).
  - rewrite app_nil_r. by split_and!.
  - intros pre e s s' (Hn & Hs & Hd') (He & Hs' & Hk)%add_entry_ok. split_and!.
    + apply Forall_app; split; [done|by constructor].
    + by rewrite Hs', Hs, map_app, app_assoc.
    + rewrite Hs', fmap_app. apply NoDup_app. split_and!; [done| |apply NoDup_singleton].
      intros k Hk' ->%list_elem_of_singleton. done.
Qed.
Lemma iterate_items kf field fragment l :
  iterate (get fragment (js field)) = Ok l -> Forall (named kf) l -> l = items field fragment.
Proof.
  unfold iterate, items. destruct (get fragment (js field)) as [| | | |s| | | |slots| |]; try by intros [= <-].
  intros <-%Ok_inj. destruct (code_points s) as [|c cs]; [done|]. by intros [[? _] _]%Forall_cons.
Qed.
Lemma add_descriptor_ok k d duplicate k' :
  add_descriptor k d duplicate = Ok k' -> defined k' = defined k ++ defined d.
Proof.
  unfold add_descriptor, defined. destruct (is_undefined d) eqn:Ed; [intros <-%Ok_inj; by rewrite app_nil_r|].
  destruct (is_undefined k); [|done]. intros <-%Ok_inj. by rewrite Ed.
Qed.

(** *** The fragments *)

(** The state of the loop after the fragments [fs]. *)
Record Collected (fs : list val) (st : Merge) : Prop := {
  col_records : Forall (fun f => is_record f = true) fs;
  col_gates : Forall (named "name") (flat_map (items "gates") fs) /\
    merge_gates st = map (keyed "name") (flat_map (items "gates") fs) /\ NoDup (merge_gates st).*1;
  col_artifacts : Forall (named "kind") (flat_map (items "artifacts") fs) /\
    merge_artifacts st = map (keyed "kind") (flat_map (items "artifacts") fs) /\ NoDup (merge_artifacts st).*1;
  col_signature : defined (merge_signature st) = flat_map (fun f => defined f.["signature"]) fs;
  col_review : defined (merge_review st) = flat_map (fun f => defined f.["independentReview"]) fs;
  col_context : forall field f w, field ∈ context_fields -> f ∈ fs -> own f field = Some w ->
    consistent (known (merge_context st) field) w;
}.
Lemma collected_start : Collected [] merge_start.
Proof. constructor; try done; try (split_and!; done || constructor). intros ? ? ? _ H. by apply not_elem_of_nil in H. Qed.
Lemma items_step (kf field : String.string) fs (l : list (jsstr * val)) f entries :
  Forall (named kf) (flat_map (items field) fs) /\ l = map (keyed kf) (flat_map (items field) fs) ->
  entries = items field f -> Forall (named kf) entries ->
  Forall (named kf) (flat_map (items field) (fs ++ [f])) /\
  l ++ map (keyed kf) entries = map (keyed kf) (flat_map (items field) (fs ++ [f])).
Proof.
  intros [Hn ->] -> He. rewrite flat_map_app. cbn [flat_map]. rewrite app_nil_r, map_app. split; [|done]. by apply Forall_app.
Qed.
Lemma collected_step fs st i f st' :
  Collected fs st -> add_fragment localeCompare st (i, f) = Ok st' -> Collected (fs ++ [f]) st'.
Proof.
  intros [Hr (Hg1 & Hg2 & Hg3) (Ha1 & Ha2 & Ha3) Hs Hv Hc]. unfold add_fragment, isRecord.
  destruct (is_record f) eqn:Ef; cbn [negb]; [|done]. destruct (_ && _); [done|].
  intros (context & Hctx & H)%bind_Ok. destruct (_ && _ && _ && _) in H; [done|].
  apply bind_Ok in H as (gates & Hgi & H). apply bind_Ok in H as ([kg paths] & Hgates & H).
  apply bind_Ok in H as (arts & Hai & H). apply bind_Ok in H as ([ka paths'] & Harts & H).
  apply bind_Ok in H as (sig & Hsig & H). apply bind_Ok in H as (rev & Hrev & H%Ok_inj). subst st'.
  apply add_entries_ok in Hgates as (Hgn & Hgk & Hgd); [|done]. apply add_entries_ok in Harts as (Han & Hak & Had); [|done].
  cbn [fst] in *. apply addContexts_ok in Hctx as [Hm Hcf].
  destruct (items_step "name" "gates" fs (merge_gates st) f gates) as [Hg1' Hg2']; [done|by eapply iterate_items|done|].
  destruct (items_step "kind" "artifacts" fs (merge_artifacts st) f arts) as [Ha1' Ha2']; [done|by eapply iterate_items|done|].
  constructor; cbn [merge_gates merge_artifacts merge_signature merge_review merge_context].
  - apply Forall_app; split; [done|by constructor].
  - split_and!; [done| |done]. by rewrite Hgk.
  - split_and!; [done| |done]. by rewrite Hak.
  - rewrite flat_map_app, <- Hs. cbn. rewrite app_nil_r. by eapply add_descriptor_ok.
  - rewrite flat_map_app, <- Hv. cbn. rewrite app_nil_r. by eapply add_descriptor_ok.
  - intros field g w Hin Hfs Hw. apply elem_of_app in Hfs as [Hfs|E]; [|apply list_elem_of_singleton in E as ->; by apply Hcf].
    destruct (Hc field g w Hin Hfs Hw) as [->|[Hk Hsame]]; [by left|right]. by rewrite (Hm _ Hk).
Qed.
Lemma collected fs st :
  DeviceEvidence.foldM (add_fragment localeCompare) merge_start (indexed fs) = Ok st -> Collected fs st.
Proof.
  rewrite <- (indexed_from_snd fs 0) at 2. apply (foldM_inv _ (fun l st => Collected l.*2 st)); [apply collected_start|].
  intros pre [i f] s s' H1 H2. rewrite fmap_app. by eapply collected_step.
Qed.

(** ** The manifest *)

(** A pattern whose classes hold only units that are written as they are. *)
Fixpoint plain_re (r : re) : bool :=
  match r with
  | RNone | REps => true
  | RCls rs => forallb (fun '(lo, hi) => (32 <=? lo) && (hi <? 128) && negb ((lo <=? 34) && (34 <=? hi))
                          && negb ((lo <=? 92) && (92 <=? hi))) rs
  | RSeq a b | RAlt a b => plain_re a && plain_re b
  | RStar a => plain_re a
  end.
Lemma plain_re_plain r s : matches r s -> plain_re r = true -> plain s.
Proof.
  induction 1 as [|rs c Hc|r1 r2 s1 s2 _ IH1 _ IH2|r1 r2 s _ IH|r1 r2 s _ IH| |r s1 s2 _ IH1 _ IH2]; cbn [plain_re];
    rewrite ?andb_true_iff; intros Hp; try by constructor.
  - constructor; [|done]. apply existsb_exists in Hc as ([lo hi] & Hin & Hc). rewrite forallb_forall in Hp.
    apply Hp in Hin. rewrite !andb_true_iff, !negb_true_iff, !andb_false_iff in Hin. lia.
  - apply Forall_app. split; [apply IH1, Hp|apply IH2, Hp].
  - apply IH, Hp.
  - apply IH, Hp.
  - apply Forall_app. split; [by apply IH1|by apply IH2].
Qed.
Lemma sorted_values_values l :
  slots_of (sorted_values localeCompare l) = map Some (merge_sort (key_before localeCompare) l).*2.
Proof. done. Qed.
Lemma present_some (l : list val) : (present (map Some l)).*2 = l.
Proof. unfold present. generalize O. induction l as [|v l IH]; intros i; [done|]. cbn. by rewrite IH. Qed.
Lemma sorted_permutation kf l : (present (slots_of (sorted_values localeCompare (map (keyed kf) l)))).*2 ≡ₚ l.
Proof.
  rewrite sorted_values_values, present_some, merge_sort_Permutation. induction l as [|e l IH]; [done|]. cbn. by rewrite IH.
Qed.

(** What a manifest merged from [fragments] is. *)
Record Merged_from (fragments : list val) (m : val) : Prop := {
  merged_accepted : Manifest_wf no_context m;
  merged_gates : gates m ≡ₚ flat_map (items "gates") fragments;
  merged_artifacts : release_artifacts m ≡ₚ flat_map (items "artifacts") fragments;
  merged_signature : flat_map (fun f => defined f.["signature"]) fragments = [m.["signature"]];
  merged_review : flat_map (fun f => defined f.["independentReview"]) fragments = [m.["independentReview"]];
  merged_release : forall field f w, field ∈ map js ["commit"; "packageVersion"]%string -> f ∈ fragments ->
    own f field = Some w -> no_functions w -> w = VUndef \/ w = get m field;
  merged_toolchains : forall f w, f ∈ fragments -> own f (js "toolchains") = Some w -> consistent m.["toolchains"] w;
}.
Lemma manifest_fields st createdAt : let m := merged_manifest localeCompare st createdAt in
  (forall field, field ∈ context_fields -> get m field = known (merge_context st) field) /\
  m.["gates"] = sorted_values localeCompare (merge_gates st) /\
  m.["artifacts"] = sorted_values localeCompare (merge_artifacts st) /\
  m.["signature"] = merge_signature st /\ m.["independentReview"] = merge_review st.
Proof.
  cbn zeta. unfold merged_manifest.
  destruct (is_undefined (merge_signature st)) eqn:Es, (is_undefined (merge_review st)) eqn:Ev;
    repeat match goal with H : is_undefined _ = true |- _ => apply is_undefined_spec in H end;
    (split_and!; [|done|done|by rewrite ?Es|by rewrite ?Ev]); intros field Hf;
    repeat (apply elem_of_cons in Hf as [->|Hf]; [done|]); by apply not_elem_of_nil in Hf.
Qed.
Lemma consistent_plain r k w : matching r k -> plain_re r = true -> no_functions w -> consistent k w -> w = VUndef \/ w = k.
Proof.
  intros (s & -> & Hm) Hp Hf [->|[_ [->|H]]]; [by left|by right|right]. apply sameValue_plain in H; [done| |done].
  by eapply plain_re_plain.
Qed.

Lemma merged_faithful fragments createdAt now m :
  mergeReleaseEvidence localeCompare fragments createdAt now = Ok m -> Merged_from fragments m.
Proof.
  unfold mergeReleaseEvidence. destruct fragments as [|f0 fs0] eqn:Ef; [done|]. rewrite <- Ef. clear f0 fs0 Ef.
  intros (st & Hst%collected & H)%bind_Ok. cbv zeta in H. revert H.
  set (m' := merged_manifest _ _ _). intros (findings & Hf & H)%bind_Ok.
  destruct findings as [|? ?]; cbn in H; [|done]. apply Ok_inj in H as <-.
  destruct (validateReleaseEvidence no_context m') as [fs|] eqn:Hv in Hf; [|done]. apply Ok_inj in Hf as ->.
  apply validateReleaseEvidence_wf in Hv as Hwf. destruct Hst as [_ (_ & Hg & _) (_ & Ha & _) Hs Hr Hc].
  destruct (manifest_fields st match createdAt with VUndef | VNull => VStr now | _ => createdAt end) as (Hm1 & Hm2 & Hm3 & Hm4 & Hm5).
  fold m' in Hm1, Hm2, Hm3, Hm4, Hm5.
  constructor; [done| | | | | |].
  - unfold gates. rewrite Hm2, Hg. apply sorted_permutation.
  - unfold release_artifacts. rewrite Hm3, Ha. apply sorted_permutation.
  - rewrite <- Hs, <- Hm4. unfold defined. destruct Hwf as [_ _ _ _ _ _ _ _ _ _ [Hrec _ _ _ _ _ _] _ _ _]. by destruct m'.["signature"].
  - rewrite <- Hr, <- Hm5. unfold defined. destruct Hwf as [_ _ _ _ _ _ _ _ _ _ _ [Hrec _ _ _ _ _ _] _ _]. by destruct m'.["independentReview"].
  - intros field f w Hin Hfs Hw Hnf. assert (Hin' : field ∈ context_fields).
    { revert Hin. unfold context_fields. cbn [map]. rewrite !elem_of_cons. tauto. }
    pose proof (Hc field f w Hin' Hfs Hw) as Hcons. rewrite <- (Hm1 field Hin') in Hcons.
    destruct Hwf as [_ _ _ [Hcm _] _ [Hvm _] _ _ _ _ _ _ _ _].
    apply elem_of_cons in Hin as [->|[->|Hin]%elem_of_cons]; [| |by apply not_elem_of_nil in Hin].
    + by apply (consistent_plain COMMIT).
    + by apply (consistent_plain VERSION).
  - intros f w Hfs Hw. assert (Ht : js "toolchains" ∈ context_fields) by (by right; right; left).
    rewrite (Hm1 _ Ht). exact (Hc _ f w Ht Hfs Hw).
Qed.

(** C18. A merge upgrades nothing: the manifest it returns is one the release gate's
    validator accepts, its gates and artifacts are exactly the fragments' own, unchanged,
    its two descriptors are the only ones the fragments hold, and every fragment that
    names a commit or package version names the manifest's. *)
Theorem mergeReleaseEvidence_faithful fragments createdAt now m :
  mergeReleaseEvidence localeCompare fragments createdAt now = Ok m -> Merged_from fragments m.
Proof. apply merged_faithful. Qed.
End merge.

(** The sample release in four fragments, merged under the order of code units. *)
Fixpoint code_unit_compare (x y : jsstr) : Z :=
  match x, y with
  | [], [] => 0
  | [], _ => -1
  | _, [] => 1
  | a :: x', b :: y' => if a =? b then code_unit_compare x' y' else a - b
  end.
Definition sample_release : list (String.string * val) :=
  [("commit", sample_manifest.["commit"]); ("packageVersion", sample_manifest.["packageVersion"])]%string.
Definition sample_fragments : list val :=
  [vobj (("schemaVersion"%string, vnum 1) :: ("toolchains"%string, sample_manifest.["toolchains"]) :: sample_release
     ++ [("gates"%string, varr (map gate_entry (take 8 gate_records)))]);
   vobj (sample_release ++ [("gates"%string, varr (map gate_entry (drop 8 gate_records)));
     ("artifacts"%string, varr (map artifact_entry required_artifacts))]);
   vobj (("signature"%string, sample_manifest.["signature"]) :: sample_release);
   vobj (("independentReview"%string, sample_manifest.["independentReview"]) :: sample_release)].
Definition sample_merge : result thrown val :=
  @mergeReleaseEvidence release_host code_unit_compare sample_fragments VUndef (js "2026-08-22T10:00:00.000Z").
Lemma mergeReleaseEvidence_faithful_witness :
  exists m, sample_merge = Ok m /\ @Merged_from code_unit_compare sample_fragments m.
Proof.
  destruct sample_merge as [m|e] eqn:E; [|vm_compute in E; discriminate E].
  exists m. split; [reflexivity|].
  unfold sample_merge in E. eapply mergeReleaseEvidence_faithful, E.
Defined.
(** Fragments of two commits do not merge. *)
Example other_commit_conflicts :
  @mergeReleaseEvidence release_host code_unit_compare
    (sample_fragments ++ [vobj [("commit", VStr (repeat 98 40)); ("gates", varr [])]%string]) VUndef [] =
  Throw (Err (js "fragment 4 conflicts on commit")).
Proof. vm_compute. reflexivity. Qed.
