(* ===== verification/FragmentSet.v ===== *)
(** * scripts/check-release-fragment-set.mjs

    The files of a release are checked to name every gate exactly once before they are
    merged.  The paths are strings, as the command line gives them. *)

From S2P Require Import Prelude JsNumber Regex JsValue JsText JsJson Host PathProps ContractsSpec EvidenceSpec DeviceEvidenceProps ReleaseEvidence.
From S2P Require Import ReleaseProps ReleaseSample MergeEvidence.
From S2P Require ReleaseFragment ReleaseFiles.
Open Scope js_scope.

Section fragment_set.
Context {host : Host}.

Definition containedFragmentPath (root relativePath : jsstr) : result jsstr jsstr :=
  if negb (EvidenceReader.isSafeRelativePath (VStr relativePath))
  then Throw (js "fragment path must be a safe relative path: " ++ relativePath) else
  realRoot ← realpathSync root;
  let absolutePath := resolve2 cwd realRoot relativePath in
  link ← pathHasSymlinkComponent realRoot absolutePath;
  if (link : bool) then Throw (js "fragment path must not resolve through symbolic links: " ++ relativePath) else
  realPath ← realpathSync absolutePath;
  if ReleaseFiles.outside (relative cwd realRoot realPath)
  then Throw (js "fragment path must resolve inside the evidence root: " ++ relativePath)
  else Ok realPath.
(** [lstat] of what is not a link is [stat]. *)
Definition readFragment (root relativePath : jsstr) : result jsstr val :=
  fragmentPath ← containedFragmentPath root relativePath;
  link ← lstat_isSymbolicLink fragmentPath;
  if (link : bool) then Throw (js "fragment path must reference a regular file: " ++ relativePath) else
  stats ← statSync fragmentPath;
  if negb (isFile stats) then Throw (js "fragment path must reference a regular file: " ++ relativePath) else
  if size stats =? 0 then Throw (js "fragment file must not be empty: " ++ relativePath) else
  if MAX_RELEASE_FRAGMENT_BYTES <? size stats
  then Throw (js "fragment file must not exceed " ++ dec MAX_RELEASE_FRAGMENT_BYTES ++ js " bytes: " ++ relativePath) else
  match (bytes ← readFileSync fragmentPath; JSON_parse (utf8_decode bytes)) with
  | Ok fragment => Ok fragment
  | Throw message => Throw (js "fragment file must contain valid JSON: " ++ relativePath ++ js ": " ++ message)
  end.

(** The names of the gates so far, in the order they were met. *)
Definition check_fragment_gate (relativePath : jsstr) (gates : list jsstr) (gate : val) : result jsstr (list jsstr) :=
  match isRecord gate, gate.["name"] with
  | true, VStr ((_ :: _) as name) =>
      if negb (str_in name REQUIRED_RELEASE_GATES)
      then Throw (js "fragment contains an unsupported release gate: " ++ name) else
      if set_has name gates then Throw (js "duplicate release gate fragment: " ++ name) else Ok (set_add name gates)
  | _, _ => Throw (js "fragment contains an invalid gate: " ++ relativePath)
  end.
Definition check_fragment (root : jsstr) (st : list jsstr * list jsstr) (relativePath : jsstr)
    : result jsstr (list jsstr * list jsstr) :=
  let '(seenPaths, gates) := st in
  if set_has relativePath seenPaths then Throw (js "duplicate release fragment path: " ++ relativePath) else
  fragment ← readFragment root relativePath;
  if negb (isRecord fragment) then Throw (js "fragment must be a JSON object: " ++ relativePath) else
  match fragment.["gates"] with
  | VArr slots =>
      gates ← DeviceEvidence.foldM (check_fragment_gate relativePath) gates (iterated slots);
      Ok (set_add relativePath seenPaths, gates)
  | _ => Ok (set_add relativePath seenPaths, gates)
  end.

Record FragmentSet := { fragmentPaths : list jsstr; gateNames : list jsstr }.
Definition checkReleaseFragmentSet (root : jsstr) (paths : list jsstr) : result jsstr FragmentSet :=
  match root, paths with
  | [], _ => Throw (js "evidence root is required")
  | _, [] => Throw (js "at least one release fragment path is required")
  | _, _ =>
      '(seenPaths, gates) ← DeviceEvidence.foldM (check_fragment root) ([], []) paths;
      match filter (fun gateName => set_has gateName gates = false) REQUIRED_RELEASE_GATES with
      | [] => Ok {| fragmentPaths := seenPaths; gateNames := sort_units gates |}
      | missing => Throw (js "missing required release gate fragments: " ++ join (js ", ") missing)
      end
  end.

(** ** The set *)

(** A gate of a fragment: an object with the name of a required gate. *)
Definition Supported (gate : val) : Prop := is_record gate = true /\ one_of REQUIRED_RELEASE_GATES gate.["name"].
Lemma check_fragment_gate_ok p gates gate gates' :
  check_fragment_gate p gates gate = Ok gates' <->
  Supported gate /\ unseen gates (name_of gate) /\ gates' = gates ++ name_of gate.
Proof.
  unfold check_fragment_gate, Supported, one_of, name_of, isRecord. destruct (is_record gate).
  2: { split; [done|by intros ([? _] & _)]. }
  destruct gate.["name"] as [| | | |[|c s]| | | | | |]; try (split; [done|by intros ([_ (? & ? & _)] & _)]).
  { split; [done|]. intros ([_ (? & [= <-] & H)] & _). vm_compute in H.
    repeat (apply elem_of_cons in H as [H|H]; [discriminate|]). by apply not_elem_of_nil in H. }
  cbn [str_of]. rewrite unseen_single. pose proof (str_in_elem (c :: s) REQUIRED_RELEASE_GATES) as Hin.
  destruct (str_in _ _); cbn [negb].
  2: { split; [done|]. intros ([_ (? & [= <-] & H%Hin)] & _). done. }
  unfold set_has. case_bool_decide as Hg; [by split; [|intros (_ & ? & _)]|]. unfold set_add, set_has.
  rewrite bool_decide_eq_false_2 by done. split.
  - intros <-%Ok_inj. split_and!; try done. exists (c :: s). split; [done|by apply Hin].
  - by intros (_ & _ & ->).
Qed.
Lemma check_fragment_gates_ok p gates l gates' :
  DeviceEvidence.foldM (check_fragment_gate p) gates l = Ok gates' <->
  Forall Supported l /\ unseen gates (flat_map name_of l) /\ gates' = gates ++ flat_map name_of l.
Proof.
  revert gates; induction l as [|g l IH]; intros gates; cbn [DeviceEvidence.foldM flat_map].
  - rewrite app_nil_r. split; [intros <-%Ok_inj; split_and!; [done|apply unseen_nil|done]|by intros (_ & _ & ->)].
  - rewrite bind_Ok, Forall_cons, unseen_app. setoid_rewrite check_fragment_gate_ok. setoid_rewrite IH. split.
    + intros (gs & (Hg & Hf & ->) & Hl & Hfl & ->). by rewrite <- app_assoc in *.
    + intros ([Hg Hl] & [Hf Hfl] & ->). exists (gates ++ name_of g). by rewrite <- app_assoc.
Qed.
Definition fragment_gate_names (fragment : val) : list jsstr := flat_map name_of (items "gates" fragment).
Lemma check_fragment_ok root seen gates p st :
  check_fragment root (seen, gates) p = Ok st <->
  (p ∉ seen) /\ (exists f, readFragment root p = Ok f /\ is_record f = true /\ Forall Supported (items "gates" f) /\
    unseen gates (fragment_gate_names f) /\ st = (seen ++ [p], gates ++ fragment_gate_names f)).
Proof.
  unfold check_fragment, fragment_gate_names, items, isRecord. unfold set_add, set_has at 1.
  case_bool_decide as Hp; [by split; [|intros [? _]]|]. unfold set_has. rewrite bool_decide_eq_false_2 by done.
  rewrite bind_Ok. transitivity (exists f, readFragment root p = Ok f /\ is_record f = true /\ Forall Supported (items "gates" f) /\
    unseen gates (fragment_gate_names f) /\ st = (seen ++ [p], gates ++ fragment_gate_names f)); [|by naive_solver].
  apply exist_proper. intros f. unfold fragment_gate_names, items. destruct (is_record f); cbn [negb]; [|naive_solver].
  destruct f.["gates"] as [| | | | | | | |slots| |] eqn:Eg; change (js "gates") with (js "gates"); rewrite ?Eg; cbn [flat_map];
    rewrite ?app_nil_r;
    try (split; [intros [? <-%Ok_inj]; split_and!; try done; apply unseen_nil|by intros (? & _ & _ & _ & ->)]).
  rewrite bind_Ok. setoid_rewrite check_fragment_gates_ok. split.
  - intros (? & gs & (? & ? & ->) & <-%Ok_inj). done.
  - intros (? & _ & ? & ? & ->). split; [done|]. by eexists.
Qed.
Lemma check_fragments_ok root seen gates paths st :
  DeviceEvidence.foldM (check_fragment root) (seen, gates) paths = Ok st <->
  unseen seen paths /\ exists fs, Forall2 (fun p f => readFragment root p = Ok f) paths fs /\ Forall (fun f => is_record f = true) fs /\
    Forall Supported (flat_map (items "gates") fs) /\ unseen gates (flat_map name_of (flat_map (items "gates") fs)) /\
    st = (seen ++ paths, gates ++ flat_map name_of (flat_map (items "gates") fs)).
Proof.
  revert seen gates; induction paths as [|p paths IH]; intros seen gates; cbn [DeviceEvidence.foldM].
  - rewrite app_nil_r. split.
    + intros <-%Ok_inj. split; [apply unseen_nil|]. exists []. cbn. rewrite app_nil_r. split_and!; try done. apply unseen_nil.
    + intros (_ & fs & Hfs & _ & _ & _ & ->). inversion Hfs; subst. cbn. by rewrite app_nil_r.
  - change (p :: paths) with ([p] ++ paths). rewrite bind_Ok, unseen_app, unseen_single. split.
    + intros ([seen1 gates1] & (Hp & f & Hf & Hr & Hs & Hn & [= -> ->])%check_fragment_ok & H).
      apply IH in H as (Hps & fs & Hfs & Hrs & Hss & Hns & ->). split; [done|]. exists (f :: fs). cbn [flat_map app].
      rewrite flat_map_app, unseen_app, !Forall_app, <- !app_assoc. split_and!; try done; by constructor.
    + intros ((Hp & Hps) & fs & Hfs & Hrs & Hss & Hns & ->). inversion Hfs as [|? f ? fs' Hf Hfs']; subst. cbn [flat_map] in *.
      rewrite flat_map_app, unseen_app in Hns. apply Forall_app in Hss as [Hs Hss]. apply Forall_cons in Hrs as [Hr Hrs].
      exists (seen ++ [p], gates ++ fragment_gate_names f). rewrite check_fragment_ok, IH. split; [split; [done|by exists f; naive_solver]|].
      split; [done|]. exists fs'. rewrite flat_map_app, <- !app_assoc. by split_and!; try apply Hns.
Qed.

(** The files of a complete set: distinct paths, each holding an object, whose gates
    together are the required ones, each once. *)
Definition Complete_set (root : jsstr) (paths : list jsstr) : Prop :=
  root <> [] /\ NoDup paths /\
  exists fragments, Forall2 (fun p f => readFragment root p = Ok f) paths fragments /\
    Forall (fun f => is_record f = true) fragments /\ Forall Supported (flat_map (items "gates") fragments) /\
    flat_map name_of (flat_map (items "gates") fragments) ≡ₚ REQUIRED_RELEASE_GATES.

Lemma missing_names gates :
  filter (fun gateName => set_has gateName gates = false) REQUIRED_RELEASE_GATES = [] <-> REQUIRED_RELEASE_GATES ⊆ gates.
Proof.
  unfold set_has. split.
  - intros E x Hx. destruct (decide (x ∈ gates)) as [|Hn]; [done|]. exfalso. apply (not_elem_of_nil x). rewrite <- E.
    apply list_elem_of_filter. split; [by apply bool_decide_eq_false|done].
  - intros H. apply elem_of_nil_inv. intros x Hx. apply list_elem_of_filter in Hx as [Hx%bool_decide_eq_false Hin]. by apply Hx, H.
Qed.
Lemma complete_names fs : Forall Supported (flat_map (items "gates") fs) ->
  NoDup (flat_map name_of (flat_map (items "gates") fs)) ->
  REQUIRED_RELEASE_GATES ⊆ flat_map name_of (flat_map (items "gates") fs) ->
  flat_map name_of (flat_map (items "gates") fs) ≡ₚ REQUIRED_RELEASE_GATES.
Proof.
  intros Hs Hd Hreq. apply (anti_symm submseteq); apply NoDup_submseteq; try done; [|apply gates_NoDup].
  intros x (g & Hg & Hx)%elem_of_flat_map. rewrite Forall_forall in Hs. destruct (Hs g Hg) as [_ (n & Hn & Hin)].
  unfold name_of in Hx. rewrite Hn in Hx. by apply list_elem_of_singleton in Hx as ->.
Qed.

(** C37. The set check succeeds exactly for a non-empty root and distinct paths, each
    readable as an object, whose gates together name every required gate exactly once;
    it then returns the paths in order and the required names sorted, whatever the order
    of the files. *)
Theorem checkReleaseFragmentSet_correct root paths r :
  checkReleaseFragmentSet root paths = Ok r <->
  Complete_set root paths /\ r = {| fragmentPaths := paths; gateNames := sort_units REQUIRED_RELEASE_GATES |}.
Proof.
  unfold checkReleaseFragmentSet, Complete_set. destruct root as [|c root]; [by split; [|intros [[? _] _]]|].
  destruct paths as [|p paths].
  { split; [done|]. intros [(_ & _ & fs & Hfs & _ & _ & Hperm) _]. inversion Hfs; subst. by apply Permutation_nil_l in Hperm. }
  rewrite bind_Ok. setoid_rewrite check_fragments_ok. split.
  - intros ([seen gates] & (Hp & fs & Hfs & Hr & Hs & Hn & [= -> ->]) & Hres). cbn [app] in Hres.
    apply unseen_empty in Hn, Hp. destruct (filter _ _) eqn:E; [|done]. apply missing_names in E. apply Ok_inj in Hres as <-.
    pose proof (complete_names fs Hs Hn E) as Hperm. split; [split_and!; try done; by exists fs|]. f_equal. by apply sort_units_canonical.
  - intros [(_ & Hp & fs & Hfs & Hr & Hs & Hperm) ->]. eexists (_, _). split.
    + split; [by apply unseen_empty|]. exists fs. split_and!; try done. apply unseen_empty. rewrite Hperm. apply gates_NoDup.
    + cbn [app]. rewrite (proj2 (missing_names _)); [|by rewrite Hperm]. f_equal. f_equal. by apply sort_units_canonical.
Qed.
End fragment_set.

(** Two files that name every gate. *)
Definition set_host : Host := {|
  cwd := @cwd release_host; realpathSync := @realpathSync release_host;
  lstat_isSymbolicLink := @lstat_isSymbolicLink release_host; statSync := @statSync release_host;
  readFileSync := @readFileSync release_host; sha256 := @sha256 release_host;
  JSON_parse := fun text => Ok (nth (if str_eqb text (in_root (js "a.json")) then 0 else 1)%nat sample_fragments VNull);
  public_key_type := @public_key_type release_host; verify := @verify release_host;
  other_format := @other_format release_host; error_message := @error_message release_host |}.
Example sample_set_complete :
  fragmentPaths <$> (match @checkReleaseFragmentSet set_host evidence_root [js "a.json"; js "b.json"] with Ok r => Some r | Throw _ => None end)
  = Some [js "a.json"; js "b.json"].
Proof. vm_compute. reflexivity. Qed.
Example sample_set_duplicate :
  @checkReleaseFragmentSet set_host evidence_root [js "b.json"; js "c.json"] =
  Throw (js "duplicate release gate fragment: linux-leak-sanitizer").
Proof. vm_compute. reflexivity. Qed.
