(* ===== verification/Disk.v ===== *)
(** * A file system that scripts write

    [Disk] is a class of file systems: in each state a [Host] can read it, and a few
    calls change it.  The laws are what Node documents of the exclusive calls: a new file
    is created only where none was, and no call changes the bytes of another file.  The
    programs are state-and-error computations, so what happened before an error stays.
    A file system in memory satisfies the laws. *)

From S2P Require Import Prelude JsNumber JsValue JsText Host PathProps.

Inductive FileKind := RegularFile | Directory | SymbolicLink | SpecialFile.
#[export] Instance FileKind_eq_dec : EqDecision FileKind.
Proof. solve_decision. Defined.
Record Dirent := { entry_name : jsstr; entry_kind : FileKind }.
Record FsError := { fs_code : jsstr; fs_message : jsstr }.

Class Disk := {
  working_directory : jsstr;
  fs : Type;
  observe : fs -> Host;
  lstatSync : fs -> jsstr -> result FsError FileKind;
  (** What [opendirSync] and [readSync] until null deliver. *)
  readdirSync : fs -> jsstr -> result FsError (list Dirent);
  (** [mkdirSync(p, { recursive: true })] *)
  mkdirSync : jsstr -> fs -> result FsError unit * fs;
  (** [copyFileSync(source, destination, COPYFILE_EXCL)] *)
  copyFileSync : jsstr -> jsstr -> fs -> result FsError unit * fs;
  (** [chmodSync(p, 0o600)] *)
  chmodSync : jsstr -> fs -> result FsError unit * fs;
  (** [writeFileSync(p, bytes, { mode: 0o600, flag: "wx" })] *)
  writeFileSync : jsstr -> list Z -> fs -> result FsError unit * fs;
}.

(** ** Programs *)

Section disk.
Context {disk : Disk}.

Definition io (A : Type) : Type := fs -> result jsstr A * fs.
#[export] Instance io_ret : MRet io := fun A a s => (Ok a, s).
#[export] Instance io_bind : MBind io := fun A B k m s =>
  match m s with (Ok a, s') => k a s' | (Throw e, s') => (Throw e, s') end.
Definition fail {A} (message : jsstr) : io A := fun s => (Throw message, s).
(** A computation that only reads the present state. *)
Definition reading {A} (f : fs -> result jsstr A) : io A := fun s => (f s, s).
Definition fs_error {A} (r : result FsError A) : result jsstr A :=
  match r with Ok a => Ok a | Throw e => Throw (fs_message e) end.
Definition call {A} (op : fs -> result FsError A * fs) : io A := fun s => let '(r, s') := op s in (fs_error r, s').
Fixpoint foldIO {S A} (f : S -> A -> io S) (st : S) (l : list A) : io S :=
  match l with [] => mret st | x :: l' => st ← f st x; foldIO f st l' end.

(** [pathHasSymlinkComponent] in the present state. *)
Definition has_link (root absolutePath : jsstr) : io bool :=
  reading (fun s => @pathHasSymlinkComponent (observe s) root absolutePath).
Definition realpath (p : jsstr) : io jsstr := reading (fun s => @realpathSync (observe s) p).

(** ** Laws *)

(** The file [p] can be read and holds [bytes]. *)
Definition content (s : fs) (p : jsstr) (bytes : list Z) : Prop := @readFileSync (observe s) p = Ok bytes.
(** A change that leaves every readable file as it is. *)
Definition preserves (s s' : fs) : Prop := forall p bytes, content s p bytes -> content s' p bytes.
#[export] Instance preserves_preorder : PreOrder preserves.
Proof. split; [by intros s p b|]. intros a b c H1 H2 p bytes H. by apply H2, H1. Qed.
End disk.

Record DiskLaws (disk : Disk) : Prop := {
  cwd_fixed : forall s, @cwd (observe s) = working_directory;
  readdir_proper : forall s p es, readdirSync s p = Ok es -> Forall (fun e => proper (entry_name e)) es;
  mkdir_files : forall p s q bytes, content (mkdirSync p s).2 q bytes <-> content s q bytes;
  copy_preserves : forall a b s, preserves s (copyFileSync a b s).2;
  chmod_preserves : forall p s, preserves s (chmodSync p s).2;
  write_preserves : forall p bytes s, preserves s (writeFileSync p bytes s).2;
  copy_exclusive : forall a b s s', copyFileSync a b s = (Ok tt, s') ->
    (forall bytes, ~ content s b bytes) /\ exists bytes, content s a bytes /\ content s' b bytes;
  write_exclusive : forall p bytes s s', writeFileSync p bytes s = (Ok tt, s') ->
    (forall bytes, ~ content s p bytes) /\ content s' p bytes;
  stat_size : forall s p stats bytes, @statSync (observe s) p = Ok stats -> content s p bytes ->
    size stats = Z.of_nat (length bytes);
}.

(** ** Rules *)

Section rules.
Context {disk : Disk}.

Lemma io_bind_ok {A B} (m : io A) (k : A -> io B) s r s' :
  (m ≫= k) s = (Ok r, s') <-> exists a s1, m s = (Ok a, s1) /\ k a s1 = (Ok r, s').
Proof.
  unfold mbind, io_bind. destruct (m s) as [[a|e] s1]; [|naive_solver]. split; [by eauto|]. by intros (a' & s1' & [= -> ->] & H).
Qed.
(** A reflexive and transitive relation of states is kept by a program when every call
    keeps it, whether it ends with a value or an error. *)
Definition keeps {A} (R : relation fs) (m : io A) : Prop := forall s, R s (m s).2.
Lemma keeps_ret {A} (R : relation fs) `{!PreOrder R} (a : A) : keeps R (mret a).
Proof. intros s. cbn. reflexivity. Qed.
Lemma keeps_fail {A} (R : relation fs) `{!PreOrder R} m : keeps R (@fail _ A m).
Proof. intros s. cbn. reflexivity. Qed.
Lemma keeps_reading {A} (R : relation fs) `{!PreOrder R} (f : fs -> result jsstr A) : keeps R (reading f).
Proof. intros s. cbn. reflexivity. Qed.
Lemma keeps_bind {A B} (R : relation fs) `{!PreOrder R} (m : io A) (k : A -> io B) :
  keeps R m -> (forall a, keeps R (k a)) -> keeps R (m ≫= k).
Proof.
  intros Hm Hk s. unfold mbind, io_bind. specialize (Hm s). destruct (m s) as [[a|e] s1]; [|done]. by etransitivity; [|apply Hk].
Qed.
Lemma keeps_call {A} (R : relation fs) (op : fs -> result FsError A * fs) :
  (forall s, R s (op s).2) -> keeps R (call op).
Proof. intros H s. specialize (H s). unfold call. by destruct (op s). Qed.
Lemma keeps_foldIO {S A} (R : relation fs) `{!PreOrder R} (f : S -> A -> io S) l st :
  (forall st x, keeps R (f st x)) -> keeps R (foldIO f st l).
Proof.
  intros Hf. revert st; induction l as [|x l IH]; intros st; cbn [foldIO]; [by apply keeps_ret|]. apply keeps_bind; [done|apply Hf|done].
Qed.
Lemma call_ok {A} (op : fs -> result FsError A * fs) s a s' : call op s = (Ok a, s') <-> op s = (Ok a, s').
Proof. unfold call. destruct (op s) as [[]]; cbn; naive_solver. Qed.
Lemma reading_ok {A} (f : fs -> result jsstr A) s a s' : reading f s = (Ok a, s') <-> f s = Ok a /\ s' = s.
Proof. unfold reading. split; [intros H; by injection H as -> ->|by intros [-> ->]]. Qed.
(** An invariant of a loop over what it has consumed. *)
Lemma foldIO_inv {S A} (f : S -> A -> io S) (P : list A -> S -> fs -> Prop) l st s st' s' :
  P [] st s -> (forall done x st s st' s', P done st s -> f st x s = (Ok st', s') -> P (done ++ [x]) st' s') ->
  foldIO f st l s = (Ok st', s') -> P l st' s'.
Proof.
  intros H0 Hstep. change l with ([] ++ l) at 2. revert st s H0. generalize (@nil A).
  induction l as [|x l IH]; intros pre st s Hs; cbn [foldIO].
  - unfold mret, io_ret. intros H; injection H as <- <-. by rewrite app_nil_r.
  - intros (st1 & s1 & H1 & H)%io_bind_ok. replace (pre ++ x :: l) with ((pre ++ [x]) ++ l) by by rewrite <- app_assoc. eauto.
Qed.
End rules.

(** The programs that keep a relation, by their structure; lemmas about named programs
    are in the database. *)
Create HintDb keeps discriminated.
Ltac solve_keeps := cbv zeta; repeat first
  [ apply keeps_ret; apply _ | apply keeps_fail; apply _ | apply keeps_reading; apply _ | solve [auto with keeps]
  | apply keeps_call; by auto | apply keeps_foldIO; [apply _|intros] | apply keeps_bind; [apply _| |intros] | case_match ].

(** ** A file system in memory

    A map from absolute paths to bytes: directories are implicit and there are no links.
    It obeys [DiskLaws], so theorems about every disk have an instance to run on. *)

Abbreviation tree := (gmap jsstr (list Z)).
(** Where [p] lies below the directory [d]. *)
Definition below (d p : jsstr) : option jsstr :=
  if startsWith p (d ++ sep) then Some (drop (S (length d)) p) else None.
#[export] Instance Dirent_eq_dec : EqDecision Dirent.
Proof. solve_decision. Defined.
Definition dirent_of (rest : jsstr) : Dirent :=
  match split slash rest with
  | [name] => {| entry_name := name; entry_kind := RegularFile |}
  | name :: _ => {| entry_name := name; entry_kind := Directory |}
  | [] => {| entry_name := []; entry_kind := SpecialFile |}
  end.
Definition is_proper (c : jsstr) : bool :=
  negb (str_eqb c []) && negb (str_eqb c (js ".")) && negb (str_eqb c (js "..")) && negb (includes c sep).
Definition dirents (t : tree) (d : jsstr) : list Dirent :=
  filter (fun e => is_proper (entry_name e) = true)
    (remove_dups (map dirent_of (omap (fun kv => below d kv.1) (map_to_list t)))).
Definition is_directory (t : tree) (p : jsstr) : bool :=
  match dirents t p with [] => false | _ => true end.

(** Hashing and parsing are those of [base]. *)
Definition memory_host (base : Host) (t : tree) : Host := {|
  cwd := js "/work";
  realpathSync := fun p => Ok (resolve1 (js "/work") p);
  lstat_isSymbolicLink := fun _ => Ok false;
  statSync := fun p =>
    match t !! p with
    | Some bytes => Ok {| isFile := true; size := Z.of_nat (length bytes) |}
    | None => if is_directory t p then Ok {| isFile := false; size := 4096 |} else Throw (js "ENOENT")
    end;
  readFileSync := fun p => match t !! p with Some bytes => Ok bytes | None => Throw (js "ENOENT") end;
  sha256 := @sha256 base; JSON_parse := @JSON_parse base; public_key_type := @public_key_type base;
  verify := @verify base; other_format := @other_format base; error_message := @error_message base;
|}.
Definition fs_throw {A} (c : String.string) : result FsError A := Throw {| fs_code := js c; fs_message := js c |}.
Definition create (t : tree) (p : jsstr) (bytes : list Z) : result FsError unit * tree :=
  match t !! p with Some _ => (fs_throw "EEXIST", t) | None => (Ok tt, <[p := bytes]> t) end.
Definition memory_disk (base : Host) : Disk := {|
  working_directory := js "/work";
  fs := tree;
  observe := memory_host base;
  lstatSync := fun t p =>
    match t !! p with
    | Some _ => Ok RegularFile
    | None => if is_directory t p then Ok Directory else fs_throw "ENOENT"
    end;
  readdirSync := fun t p => Ok (dirents t p);
  mkdirSync := fun p t => (match t !! p with Some _ => fs_throw "EEXIST" | None => Ok tt end, t);
  copyFileSync := fun a b t => match t !! a with Some bytes => create t b bytes | None => (fs_throw "ENOENT", t) end;
  chmodSync := fun p t => (Ok tt, t);
  writeFileSync := fun p bytes t => create t p bytes;
|}.

Lemma memory_content (base : Host) (t : tree) (p : jsstr) (bytes : list Z) : @content (memory_disk base) t p bytes <-> t !! p = Some bytes.
Proof. unfold content. cbn. destruct (t !! p) as [b|]; [|by split]. split; intros H; by injection H as ->. Qed.
Lemma create_preserves (base : Host) (t : tree) (p : jsstr) (bytes : list Z) : @preserves (memory_disk base) t (create t p bytes).2.
Proof.
  unfold create. destruct (t !! p) eqn:E; [reflexivity|]. intros q b. rewrite !memory_content. cbn.
  intros H. change ((<[p := bytes]> t : tree) !! q = Some b). rewrite lookup_insert_ne; [done|]. congruence.
Qed.
Lemma create_exclusive (base : Host) (t : tree) (p : jsstr) (bytes : list Z) (t' : tree) : create t p bytes = (Ok tt, t') ->
  (forall b, ~ @content (memory_disk base) t p b) /\ @content (memory_disk base) t' p bytes.
Proof.
  unfold create. destruct (t !! p) eqn:E; [done|]. intros [= <-]. setoid_rewrite memory_content. split; [congruence|].
  apply lookup_insert_eq.
Qed.
Lemma is_proper_proper c : is_proper c = true -> proper c.
Proof.
  unfold is_proper, proper, component. rewrite !andb_true_iff, !negb_true_iff. intros [[[H1 H2] H3] H4].
  split_and!; try (intros ->; done). intros Hin. revert H4. revert Hin. clear. induction c as [|x l IH]; [by intros ?%not_elem_of_nil|]. cbn [includes].
  intros [<-|Hin]%elem_of_cons.
  - by destruct l.
  - rewrite orb_false_iff. intros [_ H]. by apply IH.
Qed.
Lemma memory_disk_laws (base : Host) : DiskLaws (memory_disk base).
Proof.
  constructor; cbn.
  - done.
  - intros t p es H. injection H as <-. apply Forall_forall. intros e He. apply list_elem_of_filter in He as [He _].
    by apply is_proper_proper.
  - done.
  - intros a b t. destruct (t !! a); [apply create_preserves|reflexivity].
  - reflexivity.
  - intros. apply create_preserves.
  - intros a b t t'. destruct (t !! a) as [bytes|] eqn:E; [|done]. intros H. destruct (create_exclusive base _ _ _ _ H) as [H1 H2].
    split; [done|]. exists bytes. split; [by apply memory_content|done].
  - intros p bytes t t' H. by apply create_exclusive.
  - intros t p stats bytes Hst Hc%memory_content. rewrite Hc in Hst. by injection Hst as <-.
Qed.
