(* ===== verification/StageEvidence.v ===== *)
(** * scripts/stage-release-evidence.mjs

    Three untrusted directory trees are copied into one.  The walk threads its two
    budgets, the copying threads the set of paths and the byte total, and both run on a
    [Disk].  Directories are read one at a time in their entirety. *)

From S2P Require Import Prelude JsNumber Regex JsValue JsText JsJson Host Disk.
From S2P Require LsanEvidence ReleaseFiles DeviceEvidence.

Definition CANDIDATE_SIGNED_EVIDENCE : jsstr := js "evidence/signed-release.json".
(** [/(?:private|signing[-_]?key|password|secret|\.pem$|\.key$)/i] *)
Definition PRIVATE_MATERIAL_PATH (p : jsstr) : bool :=
  re_search (ralts [rlit_ci (js "private");
    RSeq (rlit_ci (js "signing")) (RSeq (ropt (RCls [(45, 45); (95, 95)])) (rlit_ci (js "key")));
    rlit_ci (js "password"); rlit_ci (js "secret")]) p
  || re_match (RSeq (RStar rany) (ralts [rlit_ci (js ".pem"); rlit_ci (js ".key")])) p.
Definition MAX_STAGED_FILE_BYTES : Z := 512 * 1024 * 1024.
Definition MAX_STAGED_TOTAL_BYTES : Z := 2 * 1024 * 1024 * 1024.
Definition MAX_STAGED_FILE_COUNT : Z := 16384.
Definition MAX_STAGED_DIRECTORY_COUNT : Z := 16384.
Definition MAX_STAGED_PATH_DEPTH : Z := 64.
Definition isSafeRelativePath : val -> bool := LsanEvidence.isSafeRelativePath.

(** [path.posix.join(a, b)] for a relative [a] and a directory entry [b]: neither has an
    empty, dot or parent component. *)
Definition posix_join (a b : jsstr) : jsstr := a ++ sep ++ b.

Section stage.
Context {disk : Disk}.
Definition requireDirectory (directory label : jsstr) : io jsstr :=
  entry ← reading (fun s => match lstatSync s directory with
                           | Ok entry => Ok entry
                           | Throw e => Throw (label ++ js " could not be read: " ++ fs_message e)
                           end);
  if bool_decide (entry = SymbolicLink) || negb (bool_decide (entry = Directory))
  then fail (label ++ js " must be a real directory") else realpath directory.
Definition ensureContained (root relativePath label : jsstr) : result jsstr jsstr :=
  if negb (isSafeRelativePath (VStr relativePath)) then Throw (label ++ js " must be a safe relative path") else
  let absolutePath := resolve2 working_directory root relativePath in
  if ReleaseFiles.outside (relative working_directory root absolutePath)
  then Throw (label ++ js " must resolve inside the staging root") else Ok absolutePath.

(** ** The walk *)

Record Budgets := { file_count : Z; directory_count : Z }.
Definition depth_of (relativePath : jsstr) : Z :=
  match relativePath with [] => 0 | _ => Z.of_nat (length (split slash relativePath)) end.
Definition child_path (relativePath name : jsstr) : jsstr :=
  match relativePath with [] => name | _ => posix_join relativePath name end.
Section walk.
Context (s : fs) (sourceRoot : jsstr).

(** One directory entry; [walk] descends into a directory. *)
Definition walk_entry (walk : jsstr -> Budgets -> result jsstr (list jsstr * Budgets)) (relativePath : jsstr)
    (st : list jsstr * Budgets) (entry : Dirent) : result jsstr (list jsstr * Budgets) :=
  let '(files, budgets) := st in
  let childPath := child_path relativePath (entry_name entry) in
  match entry_kind entry with
  | SymbolicLink => Throw (childPath ++ js ": symlinks are not allowed in release evidence inputs")
  | Directory =>
      '(more, budgets) ← walk childPath budgets;
      Ok (files ++ more, budgets)
  | RegularFile =>
      let budgets := {| file_count := file_count budgets + 1; directory_count := directory_count budgets |} in
      if MAX_STAGED_FILE_COUNT <? file_count budgets
      then Throw (js "staged evidence must not contain more than " ++ dec MAX_STAGED_FILE_COUNT ++ js " regular files")
      else Ok (files ++ [childPath], budgets)
  | SpecialFile => Throw (childPath ++ js ": only regular files are allowed in release evidence inputs")
  end.
Definition walk_directory (relativePath : jsstr) : result jsstr jsstr :=
  match relativePath with
  | [] => Ok sourceRoot
  | _ => ensureContained sourceRoot relativePath (js "release evidence input directory")
  end.
(** The depth bound ends the recursion: the fuel is never used up ([walk_fuel_enough]). *)
Fixpoint walkFiles (fuel : nat) (relativePath : jsstr) (budgets : Budgets) : result jsstr (list jsstr * Budgets) :=
  if MAX_STAGED_PATH_DEPTH <? depth_of relativePath
  then Throw (js "release evidence input directory depth must not exceed " ++ dec MAX_STAGED_PATH_DEPTH ++ js " components") else
  let budgets := {| file_count := file_count budgets; directory_count := directory_count budgets + 1 |} in
  if MAX_STAGED_DIRECTORY_COUNT <? directory_count budgets
  then Throw (js "staged evidence must not contain more than " ++ dec MAX_STAGED_DIRECTORY_COUNT ++ js " directories") else
  directory ← walk_directory relativePath;
  entries ← fs_error (readdirSync s directory);
  match fuel with
  | O => Throw []
  | S fuel' =>
      '(files, budgets) ← DeviceEvidence.foldM (walk_entry (walkFiles fuel') relativePath) ([], budgets) entries;
      Ok (sort_units files, budgets)
  end.
End walk.
Definition walk_fuel : nat := 65.

(** ** Copying *)

Record Staging := { staged_paths : list jsstr; totalBytes : Z }.
(** The entry of the source, once it is known to be a file. *)
Definition require_regular (sourcePath relativePath : jsstr) : io unit :=
  sourceEntry ← reading (fun s => fs_error (lstatSync s sourcePath));
  if bool_decide (sourceEntry = SymbolicLink)
  then fail (relativePath ++ js ": symlinks are not allowed in release evidence inputs") else
  if negb (bool_decide (sourceEntry = RegularFile))
  then fail (relativePath ++ js ": only regular files are allowed in release evidence inputs") else mret tt.
Definition reject_link (root directory relativePath : jsstr) : io unit :=
  link ← has_link root directory;
  if (link : bool) then fail (relativePath ++ js ": output path must not resolve through symbolic links") else mret tt.
(** [copyFileSync] with its [catch]. *)
Definition copy_exclusively (sourcePath outputPath relativePath : jsstr) : io unit := fun s =>
  let '(r, s') := copyFileSync sourcePath outputPath s in
  (match r with
   | Ok u => Ok u
   | Throw e => if str_eqb (fs_code e) (js "EEXIST") then Throw (js "duplicate release evidence path " ++ relativePath)
                else Throw (fs_message e)
   end, s').
Definition copyFileToOutput (sourcePath outputRoot relativePath : jsstr) (state : Staging) : io Staging :=
  if PRIVATE_MATERIAL_PATH relativePath
  then fail (relativePath ++ js ": private signing material or secret files are not allowed in release evidence inputs") else
  _ ← require_regular sourcePath relativePath;
  if set_has relativePath (staged_paths state) then fail (js "duplicate release evidence path " ++ relativePath) else
  stats ← reading (fun s => @statSync (observe s) sourcePath);
  if MAX_STAGED_FILE_BYTES <? size stats
  then fail (relativePath ++ js ": file must not exceed " ++ dec MAX_STAGED_FILE_BYTES ++ js " bytes before staging") else
  if MAX_STAGED_TOTAL_BYTES - size stats <? totalBytes state
  then fail (js "staged evidence must not exceed " ++ dec MAX_STAGED_TOTAL_BYTES ++ js " bytes") else
  outputPath ← reading (fun _ => ensureContained outputRoot relativePath (js "release evidence output path"));
  let outputParent := dirname outputPath in
  _ ← reject_link outputRoot outputParent relativePath;
  _ ← call (mkdirSync outputParent);
  _ ← reject_link outputRoot outputParent relativePath;
  _ ← copy_exclusively sourcePath outputPath relativePath;
  _ ← call (chmodSync outputPath);
  mret {| staged_paths := set_add relativePath (staged_paths state); totalBytes := totalBytes state + size stats |}.
Definition copyRegularFile (sourceRoot outputRoot : jsstr) (state : Staging) (relativePath : jsstr) : io Staging :=
  sourcePath ← reading (fun _ => ensureContained sourceRoot relativePath (js "release evidence input path"));
  copyFileToOutput sourcePath outputRoot relativePath state.

(** ** Staging *)

(** One source root: walked, then its files copied in order. *)
Definition stage_root (outputRoot : jsstr) (st : Staging * Budgets) (sourceRoot : jsstr) : io (Staging * Budgets) :=
  let '(state, budgets) := st in
  '(files, budgets) ← reading (fun s => walkFiles s sourceRoot walk_fuel [] budgets);
  state ← foldIO (copyRegularFile sourceRoot outputRoot) state files;
  mret (state, budgets).
Definition require_input (roots : list jsstr) (entry : nat * jsstr) : io (list jsstr) :=
  root ← requireDirectory entry.2 (js "release evidence input " ++ dec_nat (S entry.1));
  mret (roots ++ [root]).
Definition is_fragment (relativePath : jsstr) : bool :=
  startsWith relativePath (js "fragments/") && startsWith (rev relativePath) (rev (js ".json")).
Definition stageReleaseEvidence (outputDirectory : jsstr) (inputDirectories : list jsstr) : io (list jsstr) :=
  match outputDirectory with [] => fail (js "release evidence output directory is required") | _ =>
  if negb (length inputDirectories =? 3)%nat
  then fail (js "release evidence requires candidate, CI, and external input directories") else
  sourceDirectories ← foldIO require_input [] (indexed inputDirectories);
  _ ← call (mkdirSync outputDirectory);
  outputRoot ← requireDirectory outputDirectory (js "release evidence output");
  '(state, _) ← foldIO (stage_root outputRoot)
    ({| staged_paths := []; totalBytes := 0 |}, {| file_count := 0; directory_count := 0 |}) sourceDirectories;
  if negb (set_has CANDIDATE_SIGNED_EVIDENCE (staged_paths state))
  then fail (js "candidate signed-release evidence is missing") else
  mret (sort_units (filter (fun p => is_fragment p = true) (staged_paths state)))
  end.
End stage.
