(* ===== verification/StageProps.v ===== *)
(** * What staging does

    The walk lists exactly the regular files below a root and needs no more fuel than the
    depth bound gives it; staging copies what it lists and changes no other file. *)

From S2P Require Import Prelude JsNumber JsValue JsText JsJson Host PathProps EvidenceSpec DeviceClaims Disk StageEvidence.
From S2P Require DeviceEvidence.

(** ** Trees of directory entries *)

Section tree.
Context (lists : jsstr -> list Dirent -> Prop) (lists_fun : forall rel es es', lists rel es -> lists rel es' -> es = es').

(** [p] is an entry of kind [k] below the directory [rel]. *)
Inductive found (rel : jsstr) : jsstr -> FileKind -> Prop :=
  | found_here es e : lists rel es -> e ∈ es -> found rel (child_path rel (entry_name e)) (entry_kind e)
  | found_below es e p k : lists rel es -> e ∈ es -> entry_kind e = Directory ->
      found (child_path rel (entry_name e)) p k -> found rel p k.
Definition found_by (rel : jsstr) (es : list Dirent) (p : jsstr) (k : FileKind) : Prop :=
  exists e, e ∈ es /\ ((p = child_path rel (entry_name e) /\ k = entry_kind e) \/
    (entry_kind e = Directory /\ found (child_path rel (entry_name e)) p k)).
Lemma found_iff rel es p k : lists rel es -> found rel p k <-> found_by rel es p k.
Proof using lists_fun.
  intros Hl. split.
  - destruct 1 as [es' e Hl' He|es' e p k Hl' He Hk Hf]; rewrite (lists_fun _ _ _ Hl' Hl) in He; exists e; eauto.
  - intros (e & He & [[-> ->]|[Hk Hf]]); [by eapply found_here|by eapply found_below].
Qed.
Lemma found_by_app rel a e p k : found_by rel (a ++ [e]) p k <-> found_by rel a p k \/ found_by rel [e] p k.
Proof using.
  unfold found_by. setoid_rewrite elem_of_app. naive_solver.
Qed.
Lemma found_by_one rel e p k : found_by rel [e] p k <->
  (p = child_path rel (entry_name e) /\ k = entry_kind e) \/ (entry_kind e = Directory /\ found (child_path rel (entry_name e)) p k).
Proof using. unfold found_by. setoid_rewrite list_elem_of_singleton. naive_solver. Qed.
Lemma found_by_none rel p k : ~ found_by rel [] p k.
Proof using. by intros (e & ?%not_elem_of_nil & _). Qed.
End tree.

Section walk.
Context {disk : Disk} (laws : DiskLaws disk) (s : fs) (root : jsstr).

(** ** The walk *)

(** The entries of the directory [rel] below the root. *)
Definition lists (rel : jsstr) (es : list Dirent) : Prop :=
  exists d, walk_directory root rel = Ok d /\ readdirSync s d = Ok es.
Lemma lists_fun rel es es' : lists rel es -> lists rel es' -> es = es'.
Proof. intros (d & H1 & H2) (d' & H1' & H2'). rewrite H1 in H1'. apply Ok_inj in H1' as <-. rewrite H2 in H2'. by apply Ok_inj in H2'. Qed.
Notation found := (found lists).
Notation found_by := (found_by lists).

(** The walk of the entries [es] of [rel], or of all of them: what was listed, of which
    kinds and how deep, and the budgets. *)
Record Level (entry : jsstr -> FileKind -> Prop) (b : Budgets) (st : list jsstr * Budgets) : Prop := {
  level_files : forall p, p ∈ st.1 <-> entry p RegularFile;
  level_kinds : forall p k, entry p k -> k = RegularFile \/ k = Directory;
  level_depth : forall p, entry p Directory -> depth_of p <= MAX_STAGED_PATH_DEPTH;
  level_count : file_count st.2 = file_count b + Z.of_nat (length st.1);
  level_file_bound : file_count b <= MAX_STAGED_FILE_COUNT -> file_count st.2 <= MAX_STAGED_FILE_COUNT;
  level_directories : directory_count b < directory_count st.2 <= MAX_STAGED_DIRECTORY_COUNT;
}.
Lemma level_entry fuel rel b pre e st st' :
  (forall rel b l b', walkFiles s root fuel rel b = Ok (l, b') ->
     Level (found rel) b (l, b') /\ depth_of rel <= MAX_STAGED_PATH_DEPTH) ->
  Level (found_by rel pre) b st -> walk_entry (walkFiles s root fuel) rel st e = Ok st' ->
  Level (found_by rel (pre ++ [e])) b st'.
Proof.
  intros IH [H1 H2 H3 H4 H5 H6] H. destruct st as [files b1]. unfold walk_entry in H. cbn [fst snd] in *.
  destruct (entry_kind e) eqn:Ek; try done.
  - destruct (Z.ltb_spec MAX_STAGED_FILE_COUNT (file_count b1 + 1)) as [|Hc]; cbn [file_count] in *; [|].
    { by destruct (Z.ltb_spec MAX_STAGED_FILE_COUNT (file_count b1 + 1)); [|lia]. }
    destruct (Z.ltb_spec MAX_STAGED_FILE_COUNT (file_count b1 + 1)); [lia|]. apply Ok_inj in H as <-.
    constructor; cbn [fst snd file_count directory_count].
    + intros p. rewrite elem_of_app, list_elem_of_singleton, found_by_app, found_by_one, Ek, H1. naive_solver.
    + intros p k. rewrite found_by_app, found_by_one, Ek. naive_solver.
    + intros p. rewrite found_by_app, found_by_one, Ek. naive_solver.
    + rewrite length_app. cbn. lia.
    + lia.
    + lia.
  - apply bind_Ok in H as ([more b2] & Hw & H). apply Ok_inj in H as <-. apply IH in Hw as [[G1 G2 G3 G4 G5 G6] Hdepth].
    cbn [fst snd] in *. constructor; cbn [fst snd].
    + intros p. rewrite elem_of_app, found_by_app, found_by_one, Ek, H1, G1. naive_solver.
    + intros p k. rewrite found_by_app, found_by_one, Ek. naive_solver.
    + intros p. rewrite found_by_app, found_by_one, Ek. naive_solver.
    + rewrite length_app. lia.
    + lia.
    + lia.
Qed.
Lemma walkFiles_level fuel rel b l b' :
  walkFiles s root fuel rel b = Ok (l, b') -> Level (found rel) b (l, b') /\ depth_of rel <= MAX_STAGED_PATH_DEPTH.
Proof.
  revert rel b l b'; induction fuel as [|fuel IH]; intros rel b l b'; cbn [walkFiles];
    destruct (Z.ltb_spec MAX_STAGED_PATH_DEPTH (depth_of rel)) as [|Hdepth]; try done;
    cbn [directory_count]; destruct (Z.ltb_spec MAX_STAGED_DIRECTORY_COUNT (directory_count b + 1)) as [|Hdir]; try done;
    intros (d & Hd & H)%bind_Ok; apply bind_Ok in H as (es & Hes & H); [done|].
  assert (Hl : lists rel es). { exists d. split; [done|]. unfold fs_error in Hes. destruct (readdirSync s d); [|done]. by apply Ok_inj in Hes as ->. }
  apply bind_Ok in H as ([files b1] & Hf & H). apply Ok_inj, pair_equal_spec in H as [<- <-]. split; [|done].
  apply (foldM_inv _ (fun es st => Level (found_by rel es) b st)) in Hf.
  - destruct Hf as [H1 H2 H3 H4 H5 H6]. constructor; cbn [fst snd] in *; try done.
    + intros p. rewrite sort_units_perm, H1. symmetry. apply found_iff; [apply lists_fun|done].
    + intros p k Hp. apply (H2 p). by apply (found_iff lists lists_fun _ es).
    + intros p Hp. apply H3. by apply (found_iff lists lists_fun _ es).
    + by rewrite sort_units_perm.
  - constructor; cbn [fst snd file_count directory_count]; try lia.
    + intros p. split; [by intros ?%not_elem_of_nil|by intros (e & ?%not_elem_of_nil & _)].
    + by intros p k (e & ?%not_elem_of_nil & _).
    + by intros p (e & ?%not_elem_of_nil & _).
    + cbn. lia.
  - intros pre e st st' Hst Hstep. by eapply level_entry.
Qed.

(** ** Fuel *)

Lemma split_nonempty a : split slash a <> [].
Proof. destruct a as [|c a]; [done|]. cbn. destruct (c =? slash); [done|]. by destruct (split slash a). Qed.
Lemma split_app a b : split slash (a ++ slash :: b) = split slash a ++ split slash b.
Proof.
  induction a as [|c a IH]; [done|]. cbn [app split]. rewrite IH. destruct (c =? slash); [done|].
  pose proof (split_nonempty a) as Ha. by destruct (split slash a).
Qed.
Lemma depth_child rel name : proper name -> depth_of (child_path rel name) = depth_of rel + 1.
Proof.
  intros ((Hne & Hs) & _). pose proof (proj2 (split_cons_free name [] Hs)) as Hn. unfold child_path, posix_join.
  destruct rel as [|c rel].
  - unfold depth_of. destruct name; [done|]. by rewrite Hn.
  - change (sep ++ name) with (slash :: name). unfold depth_of at 1. cbn [app].
    change (c :: rel ++ slash :: name) with ((c :: rel) ++ slash :: name). rewrite split_app, Hn, length_app. cbn [depth_of length]. lia.
Qed.
Lemma foldM_ext {E S A} (f g : S -> A -> result E S) l st :
  (forall st x, x ∈ l -> f st x = g st x) -> DeviceEvidence.foldM f st l = DeviceEvidence.foldM g st l.
Proof.
  revert st; induction l as [|x l IH]; intros st H; [done|]. cbn. rewrite H by by left. destruct (g st x); [|done]. cbn.
  apply IH. intros st' y Hy. apply H. by right.
Qed.
Lemma walk_more_fuel fuel k rel b :
  MAX_STAGED_PATH_DEPTH < depth_of rel + Z.of_nat fuel ->
  walkFiles s root (fuel + k) rel b = walkFiles s root fuel rel b.
Proof.
  revert rel b; induction fuel as [|fuel IH]; intros rel b Hf.
  - destruct k; [done|]. cbn [Nat.add walkFiles]. by destruct (Z.ltb_spec MAX_STAGED_PATH_DEPTH (depth_of rel)); [|lia].
  - cbn [Nat.add walkFiles]. destruct (_ <? _); [done|]. cbn [directory_count]. destruct (_ <? _); [done|].
    destruct (walk_directory root rel) as [d|]; [|done]. cbn [mbind result_bind].
    destruct (readdirSync s d) as [es|] eqn:Ees; [|done]. cbn [fs_error mbind result_bind].
    rewrite (foldM_ext _ (walk_entry (walkFiles s root fuel) rel)); [done|]. intros [files b'] e He. unfold walk_entry.
    destruct (entry_kind e); try done. rewrite IH; [done|]. pose proof (readdir_proper _ laws _ _ _ Ees) as Hp.
    rewrite Forall_forall in Hp. rewrite depth_child by by apply Hp. lia.
Qed.

(** C40. The depth bound makes the walk terminate: from the root no more fuel than the
    bound plus one is ever used, whatever the directories hold. *)
Theorem walk_terminates k b : walkFiles s root (walk_fuel + k) [] b = walkFiles s root walk_fuel [] b.
Proof. apply walk_more_fuel. by vm_compute. Qed.
End walk.

Section stage.
Context {disk : Disk} (laws : DiskLaws disk).

(** ** Nothing else changes *)

Lemma mkdir_preserves p s : preserves s (mkdirSync p s).2.
Proof. intros q bytes H. by apply (mkdir_files _ laws). Qed.
Lemma copy_exclusively_keeps a b rel : keeps preserves (copy_exclusively a b rel).
Proof. intros s. unfold copy_exclusively. pose proof (copy_preserves _ laws a b s) as H. by destruct (copyFileSync a b s). Qed.
Lemma chmod_keeps p s : preserves s (chmodSync p s).2.
Proof. apply (chmod_preserves _ laws). Qed.
Hint Resolve mkdir_preserves chmod_keeps : core.
Hint Resolve copy_exclusively_keeps : keeps.
Lemma copyRegularFile_keeps a b st rel : keeps preserves (copyRegularFile a b st rel).
Proof. unfold copyRegularFile, copyFileToOutput, require_regular, reject_link, has_link. solve_keeps. Qed.
Hint Resolve copyRegularFile_keeps : keeps.
Lemma stageReleaseEvidence_keeps out inputs : keeps preserves (stageReleaseEvidence out inputs).
Proof. unfold stageReleaseEvidence, require_input, requireDirectory, stage_root, realpath. solve_keeps. Qed.

(** ** One file *)

Definition place (root rel : jsstr) : jsstr := resolve2 working_directory root rel.
Definition strictly_inside (root p : jsstr) : Prop := ReleaseFiles.outside (relative working_directory root p) = false.
(** The file [rel] of a source root and its copy hold [bytes], both inside their roots. *)
Record Copied (s : fs) (outputRoot : jsstr) (job : jsstr * jsstr) (bytes : list Z) : Prop := {
  copied_source : content s (place job.1 job.2) bytes;
  copied_output : content s (place outputRoot job.2) bytes;
  copied_inside : strictly_inside job.1 (place job.1 job.2) /\ strictly_inside outputRoot (place outputRoot job.2);
}.
Lemma copied_later s s' outputRoot job bytes : preserves s s' -> Copied s outputRoot job bytes -> Copied s' outputRoot job bytes.
Proof. intros H [? ? ?]. constructor; auto. Qed.
Lemma ensureContained_ok root rel label p :
  ensureContained root rel label = Ok p -> p = place root rel /\ strictly_inside root (place root rel).
Proof.
  unfold ensureContained, strictly_inside, place. destruct (isSafeRelativePath _); [|done]. cbn [negb].
  destruct (ReleaseFiles.outside _) eqn:E; [done|]. by intros <-%Ok_inj.
Qed.
Lemma require_regular_ok a rel s s' : require_regular a rel s = (Ok tt, s') -> s' = s.
Proof.
  unfold require_regular. intros (k & s1 & H1%reading_ok & H)%io_bind_ok. destruct H1 as [_ ->].
  repeat case_bool_decide; try done; cbn in H; by injection H.
Qed.
Lemma reject_link_ok root d rel s s' : reject_link root d rel s = (Ok tt, s') -> s' = s.
Proof.
  unfold reject_link, has_link. intros (k & s1 & H1%reading_ok & H)%io_bind_ok. destruct H1 as [_ ->]. destruct k; [done|]. by injection H.
Qed.
(** A copy that succeeded: the checks, then the directory, the copy and its mode. *)
Lemma copyRegularFile_steps srcRoot outRoot st rel s st' s' :
  copyRegularFile srcRoot outRoot st rel s = (Ok st', s') -> exists stats s1 s2,
    st' = {| staged_paths := staged_paths st ++ [rel]; totalBytes := totalBytes st + size stats |} /\
    (rel ∉ staged_paths st) /\ PRIVATE_MATERIAL_PATH rel = false /\
    size stats <= MAX_STAGED_FILE_BYTES /\ totalBytes st' <= MAX_STAGED_TOTAL_BYTES /\
    strictly_inside srcRoot (place srcRoot rel) /\ strictly_inside outRoot (place outRoot rel) /\
    @statSync (observe s) (place srcRoot rel) = Ok stats /\
    mkdirSync (dirname (place outRoot rel)) s = (Ok tt, s1) /\
    copyFileSync (place srcRoot rel) (place outRoot rel) s1 = (Ok tt, s2) /\
    chmodSync (place outRoot rel) s2 = (Ok tt, s').
Proof.
  unfold copyRegularFile. intros (src & s0 & [Hsrc ->]%reading_ok & H)%io_bind_ok. apply ensureContained_ok in Hsrc as [-> Hin].
  unfold copyFileToOutput in H. destruct (PRIVATE_MATERIAL_PATH rel) eqn:Hpriv; [done|].
  apply io_bind_ok in H as ([] & s1 & H1 & H). apply require_regular_ok in H1 as ->.
  unfold set_has in H. case_bool_decide as Hp; [done|]. apply io_bind_ok in H as (stats & s1 & [Hst ->]%reading_ok & H).
  destruct (Z.ltb_spec MAX_STAGED_FILE_BYTES (size stats)) as [|Hmax]; [done|].
  destruct (Z.ltb_spec (MAX_STAGED_TOTAL_BYTES - size stats) (totalBytes st)) as [|Htot]; [done|].
  apply io_bind_ok in H as (dst & s1 & [Hdst ->]%reading_ok & H). apply ensureContained_ok in Hdst as [-> Hout].
  apply io_bind_ok in H as ([] & s1 & H1 & H). apply reject_link_ok in H1 as ->.
  apply io_bind_ok in H as ([] & s1 & Hmk%call_ok & H). apply io_bind_ok in H as ([] & s2 & H1 & H). apply reject_link_ok in H1 as ->.
  apply io_bind_ok in H as ([] & s2 & Hcp & H). apply io_bind_ok in H as ([] & s3 & Hch%call_ok & H).
  unfold copy_exclusively in Hcp. destruct (copyFileSync _ _ s1) as [[[]|e] s2'] eqn:Ec.
  2: { by destruct (str_eqb _ _). }
  injection Hcp as ->. injection H as <- <-. exists stats, s1, s2. cbn [totalBytes].
  unfold set_add, set_has. rewrite bool_decide_eq_false_2 by done. split_and!; done || lia.
Qed.
Lemma copyRegularFile_ok srcRoot outRoot st rel s st' s' :
  copyRegularFile srcRoot outRoot st rel s = (Ok st', s') -> exists bytes,
    st' = {| staged_paths := staged_paths st ++ [rel]; totalBytes := totalBytes st + Z.of_nat (length bytes) |} /\
    (rel ∉ staged_paths st) /\ PRIVATE_MATERIAL_PATH rel = false /\ Z.of_nat (length bytes) <= MAX_STAGED_FILE_BYTES /\
    totalBytes st' <= MAX_STAGED_TOTAL_BYTES /\ Copied s' outRoot (srcRoot, rel) bytes.
Proof.
  intros (stats & s1 & s2 & -> & Hrel & Hpriv & Hmax & Htot & Hin & Hout & Hst & Hmk & Hcp & Hch)%copyRegularFile_steps.
  destruct (copy_exclusive _ laws _ _ _ _ Hcp) as (_ & bytes & Hb1 & Hb2).
  assert (Hb0 : content s (place srcRoot rel) bytes).
  { apply (mkdir_files _ laws (dirname (place outRoot rel))). by rewrite Hmk. }
  pose proof (stat_size _ laws _ _ _ _ Hst Hb0) as Hsize.
  assert (Hpres : preserves s2 s'). { pose proof (chmod_keeps (place outRoot rel) s2) as Hc. by rewrite Hch in Hc. }
  assert (Hpres' : preserves s1 s2). { pose proof (copy_preserves _ laws (place srcRoot rel) (place outRoot rel) s1) as Hc. by rewrite Hcp in Hc. }
  exists bytes. cbn [totalBytes] in *. rewrite <- Hsize. split_and!; try done. constructor; cbn; auto.
Qed.

(** ** All files *)

Definition total_length (l : list (list Z)) : Z := foldr (fun b n => Z.of_nat (length b) + n) 0 l.
Lemma total_length_app a b : total_length (a ++ b) = total_length a + total_length b.
Proof. induction a as [|x a IH]; [done|]. cbn. unfold total_length in *. lia. Qed.
(** The state after copying [jobs], pairs of a source root and a path. *)
Record Progress (outputRoot : jsstr) (jobs : list (jsstr * jsstr)) (st : Staging) (s : fs) : Prop := {
  progress_paths : staged_paths st = jobs.*2;
  progress_distinct : NoDup jobs.*2;
  progress_private : Forall (fun job => PRIVATE_MATERIAL_PATH job.2 = false) jobs;
  progress_copied : exists contents, Forall2 (Copied s outputRoot) jobs contents /\
    Forall (fun bytes => Z.of_nat (length bytes) <= MAX_STAGED_FILE_BYTES) contents /\ totalBytes st = total_length contents;
  progress_total : totalBytes st <= MAX_STAGED_TOTAL_BYTES;
}.
Lemma progress_step outRoot jobs root rel st s st' s' :
  Progress outRoot jobs st s -> copyRegularFile root outRoot st rel s = (Ok st', s') ->
  Progress outRoot (jobs ++ [(root, rel)]) st' s'.
Proof.
  intros [H1 H2 H3 (bs & H4 & H5 & H6) H7] H. pose proof (copyRegularFile_keeps root outRoot st rel s) as Hpres. rewrite H in Hpres.
  apply copyRegularFile_ok in H as (bytes & -> & Hrel & Hpriv & Hmax & Htot & Hcp). rewrite H1 in Hrel.
  constructor; cbn [staged_paths totalBytes] in *.
  - by rewrite fmap_app, H1.
  - rewrite fmap_app. apply NoDup_app. split_and!; [done| |apply NoDup_singleton]. intros x Hx E. apply list_elem_of_singleton in E as ->. done.
  - apply Forall_app. split; [done|by constructor].
  - exists (bs ++ [bytes]). rewrite total_length_app, <- H6. split_and!.
    + apply Forall2_app; [|by constructor]. eapply Forall2_impl; [exact H4|]. intros job b. by apply copied_later.
    + apply Forall_app. split; [done|by constructor].
    + cbn. lia.
  - done.
Qed.
Lemma progress_root outRoot jobs root files st s st' s' :
  Progress outRoot jobs st s -> foldIO (copyRegularFile root outRoot) st files s = (Ok st', s') ->
  Progress outRoot (jobs ++ map (pair root) files) st' s'.
Proof.
  intros H0. apply (foldIO_inv _ (fun files st s => Progress outRoot (jobs ++ map (pair root) files) st s)).
  - by rewrite app_nil_r.
  - intros pre rel st1 s1 st2 s2 H1 H2. rewrite map_app, app_assoc. by eapply progress_step.
Qed.

(** ** Nothing else appears *)

(** [a] and [b] are names of one file. *)
Definition same_file (s : fs) (a b : jsstr) : Prop :=
  exists r, @realpathSync (observe s) a = Ok r /\ @realpathSync (observe s) b = Ok r.
(** What each call may add to the readable files, and that the real path of a readable
    file stays: a copy creates its destination, a directory holds no file, and setting
    the mode of a file that can be read makes no other readable. *)
Record DiskFrames : Prop := {
  copy_new : forall a b s s' q bytes, copyFileSync a b s = (Ok tt, s') -> content s' q bytes ->
    content s q bytes \/ same_file s' q b;
  chmod_new : forall p s s' c q bytes, chmodSync p s = (Ok tt, s') -> content s p c -> content s' q bytes ->
    content s q bytes;
  mkdir_real : forall p s s' q bytes r, mkdirSync p s = (Ok tt, s') -> content s q bytes ->
    @realpathSync (observe s) q = Ok r -> @realpathSync (observe s') q = Ok r;
  copy_real : forall a b s s' q bytes r, copyFileSync a b s = (Ok tt, s') -> content s q bytes ->
    @realpathSync (observe s) q = Ok r -> @realpathSync (observe s') q = Ok r;
  chmod_real : forall p s s' q bytes r, chmodSync p s = (Ok tt, s') -> content s q bytes ->
    @realpathSync (observe s) q = Ok r -> @realpathSync (observe s') q = Ok r;
}.
Context (frames : DiskFrames).

(** The files of [s] were there in [s0], or are copies of [paths]. *)
Definition Only (s0 : fs) (outputRoot : jsstr) (paths : list jsstr) (s : fs) : Prop :=
  forall q bytes, content s q bytes ->
    content s0 q bytes \/ exists rel, rel ∈ paths /\ same_file s q (place outputRoot rel).
Lemma same_file_kept s s' a b c d :
  (forall q bytes r, content s q bytes -> @realpathSync (observe s) q = Ok r -> @realpathSync (observe s') q = Ok r) ->
  content s a c -> content s b d -> same_file s a b -> same_file s' a b.
Proof. intros H Ha Hb (r & H1 & H2). exists r. split; eapply H; eauto. Qed.
Lemma only_step s0 outRoot jobs root rel st s st' s' :
  Progress outRoot jobs st s -> Only s0 outRoot jobs.*2 s ->
  copyRegularFile root outRoot st rel s = (Ok st', s') -> Only s0 outRoot (jobs ++ [(root, rel)]).*2 s'.
Proof using laws frames.
  intros Hp Ho (stats & s1 & s2 & _ & _ & _ & _ & _ & _ & _ & _ & Hmk & Hcp & Hch)%copyRegularFile_steps q bytes Hq.
  destruct (copy_exclusive _ laws _ _ _ _ Hcp) as (_ & c & _ & Hc).
  assert (Hreal : forall q b r, content s q b -> @realpathSync (observe s) q = Ok r -> @realpathSync (observe s') q = Ok r).
  { intros q' b r H1 H2. assert (H3 : content s1 q' b) by (pose proof (mkdir_preserves (dirname (place outRoot rel)) s _ _ H1) as H3; by rewrite Hmk in H3).
    assert (H4 : content s2 q' b) by (pose proof (copy_preserves _ laws (place root rel) (place outRoot rel) s1 _ _ H3) as H4; by rewrite Hcp in H4).
    eapply chmod_real; [done|exact Hch|exact H4|]. eapply copy_real; [done|exact Hcp|exact H3|]. by eapply mkdir_real. }
  rewrite fmap_app. pose proof (chmod_new frames _ _ _ _ _ _ Hch Hc Hq) as H2.
  destruct (copy_new frames _ _ _ _ _ _ Hcp H2) as [H1|(r & Hr1 & Hr2)].
  - assert (H0 : content s q bytes) by (apply (mkdir_files _ laws (dirname (place outRoot rel))); by rewrite Hmk).
    destruct (Ho q bytes H0) as [|(rel' & Hin & Hsame)]; [by left|right]. exists rel'.
    split; [by apply elem_of_app; left|]. apply list_elem_of_fmap in Hin as (job & -> & Hjob).
    destruct (progress_copied _ _ _ _ Hp) as (cs & Hcs & _). apply list_elem_of_lookup in Hjob as [i Hi].
    destruct (Forall2_lookup_l _ _ _ _ _ Hcs Hi) as (cb & _ & [_ Hcopy _]). by eapply same_file_kept.
  - right. exists rel. split; [apply elem_of_app; right; by apply list_elem_of_singleton|].
    exists r. split; eapply chmod_real; eauto.
Qed.
Lemma only_root s0 outRoot jobs root files st s st' s' :
  Progress outRoot jobs st s -> Only s0 outRoot jobs.*2 s ->
  foldIO (copyRegularFile root outRoot) st files s = (Ok st', s') ->
  Progress outRoot (jobs ++ map (pair root) files) st' s' /\ Only s0 outRoot (jobs ++ map (pair root) files).*2 s'.
Proof using laws frames.
  intros H0 H1. apply (foldIO_inv _ (fun files st s => Progress outRoot (jobs ++ map (pair root) files) st s /\
    Only s0 outRoot (jobs ++ map (pair root) files).*2 s)).
  - by rewrite app_nil_r.
  - intros pre rel st1 s1 st2 s2 [H2 H3] H. rewrite map_app, app_assoc.
    split; [by eapply progress_step|by eapply only_step].
Qed.

(** ** The three inputs *)

(** [files] are the regular files below [root] in a state between [s] and [s'], and
    there is nothing but files and directories. *)
Definition Listing (s s' : fs) (root : jsstr) (files : list jsstr) : Prop := exists t,
  preserves s t /\ preserves t s' /\
  (forall p, p ∈ files <-> found (lists t root) [] p RegularFile) /\
  (forall p k, found (lists t root) [] p k -> k = RegularFile \/ k = Directory) /\
  (forall p, found (lists t root) [] p Directory -> depth_of p <= MAX_STAGED_PATH_DEPTH).
Definition jobs_of (roots : list jsstr) (listings : list (list jsstr)) : list (jsstr * jsstr) :=
  concat (zip_with (fun root files => map (pair root) files) roots listings).
Record Staged_roots (s0 : fs) (outputRoot : jsstr) (roots : list jsstr) (listings : list (list jsstr)) (st : Staging * Budgets) (s : fs) : Prop := {
  roots_since : preserves s0 s;
  roots_listed : Forall2 (Listing s0 s) roots listings;
  roots_progress : Progress outputRoot (jobs_of roots listings) st.1 s;
  roots_only : Only s0 outputRoot (jobs_of roots listings).*2 s;
  roots_count : file_count st.2 = Z.of_nat (length (jobs_of roots listings));
  roots_bound : file_count st.2 <= MAX_STAGED_FILE_COUNT;
}.
Lemma jobs_of_snoc roots listings root files : length roots = length listings ->
  jobs_of (roots ++ [root]) (listings ++ [files]) = jobs_of roots listings ++ map (pair root) files.
Proof. intros H. unfold jobs_of. rewrite zip_with_app by done. rewrite concat_app. cbn. by rewrite app_nil_r. Qed.
Lemma listing_later s s1 s2 root files : preserves s1 s2 -> Listing s s1 root files -> Listing s s2 root files.
Proof. intros H (t & H1 & H2 & Hl). exists t. split; [done|]. split; [by etransitivity|done]. Qed.
Lemma stage_root_step s0 outRoot roots listings root st s st' s' :
  Staged_roots s0 outRoot roots listings st s -> stage_root outRoot st root s = (Ok st', s') ->
  exists files, Staged_roots s0 outRoot (roots ++ [root]) (listings ++ [files]) st' s'.
Proof using laws frames.
  destruct st as [state budgets]. intros [H0 H1 H2 H2' H3 H4] H. unfold stage_root in H.
  apply io_bind_ok in H as ([files b] & s1 & [Hw ->]%reading_ok & H). apply io_bind_ok in H as (state' & s1 & Hf & H).
  injection H as <- <-. apply walkFiles_level in Hw as [[G1 G2 G3 G4 G5 G6] _]. cbn [fst snd] in *. exists files.
  assert (Hp : preserves s s1).
  { pose proof (keeps_foldIO preserves (copyRegularFile root outRoot) files state (copyRegularFile_keeps root outRoot) s) as Hk.
    by rewrite Hf in Hk. }
  apply (only_root s0 _ _ _ _ _ _ _ _ H2 H2') in Hf as [Hf1 Hf2]. pose proof (Forall2_length _ _ _ H1) as Hlen.
  constructor; cbn [fst snd]; rewrite ?jobs_of_snoc by done; try done.
  - by etransitivity.
  - apply Forall2_app; [eapply Forall2_impl; [exact H1|]; intros; by eapply listing_later|].
    constructor; [|done]. by exists s.
  - rewrite length_app, length_map. lia.
  - lia.
Qed.

(** [directory] is a real directory, whose real path is [root]. *)
Definition Real_directory (s : fs) (directory root : jsstr) : Prop :=
  lstatSync s directory = Ok Directory /\ @realpathSync (observe s) directory = Ok root.
Lemma requireDirectory_ok directory label s root s' :
  requireDirectory directory label s = (Ok root, s') -> s' = s /\ Real_directory s directory root.
Proof.
  unfold requireDirectory, realpath. intros (k & s1 & [Hk ->]%reading_ok & H)%io_bind_ok.
  destruct (lstatSync s directory) as [k'|] eqn:El; [|done]. apply Ok_inj in Hk as ->.
  case_bool_decide as H1; [done|]. case_bool_decide as H2; [|done]. cbn in H. apply reading_ok in H as [H ->].
  split; [done|]. by split; [rewrite El, H2|].
Qed.
Lemma require_inputs_ok inputs s roots s' :
  foldIO require_input [] (indexed inputs) s = (Ok roots, s') -> s' = s /\ Forall2 (Real_directory s) inputs roots.
Proof.
  intros H. rewrite <- (indexed_from_snd inputs 0). fold (indexed inputs). revert H.
  apply (foldIO_inv _ (fun l roots t => t = s /\ Forall2 (Real_directory s) l.*2 roots)); [by split|].
  intros pre e rs t rs' t' [-> Hp] (r & t1 & [-> Hr]%requireDirectory_ok & H)%io_bind_ok.
  injection H as <- <-. split; [done|]. rewrite fmap_app. apply Forall2_app; [done|]. by constructor.
Qed.

(** What a finished staging did, from the state [s] to [s']. *)
Record Staged (s s' : fs) (outputDirectory : jsstr) (inputs : list jsstr)
    (outputRoot : jsstr) (roots : list jsstr) (listings : list (list jsstr)) (fragments : list jsstr) : Prop := {
  staged_inputs : length inputs = 3%nat /\ Forall2 (Real_directory s) inputs roots;
  staged_output : exists s1, mkdirSync outputDirectory s = (Ok tt, s1) /\ Real_directory s1 outputDirectory outputRoot;
  staged_listings : Forall2 (Listing s s') roots listings;
  staged_files : exists st, Progress outputRoot (jobs_of roots listings) st s';
  staged_only : Only s outputRoot (jobs_of roots listings).*2 s';
  staged_count : Z.of_nat (length (jobs_of roots listings)) <= MAX_STAGED_FILE_COUNT;
  staged_candidate : CANDIDATE_SIGNED_EVIDENCE ∈ (jobs_of roots listings).*2;
  staged_fragments : fragments = sort_units (filter (fun p => is_fragment p = true) (jobs_of roots listings).*2);
}.

(** C17. Staging copies the three inputs and nothing else.  Whether it succeeds or fails,
    every file that could be read still holds its bytes.  When it succeeds, the three
    inputs given were real directories, each holds only files and directories, and the
    regular files below each have been copied to the same relative path below the output
    directory given, with their bytes; the names are distinct and none
    suggests key material; the bounds on one file, on all bytes and on the number of
    files hold, and the candidate's signed evidence is among them; every file that can be
    read afterwards was there before or is one of these copies, given that a call adds no
    file but its destination ([DiskFrames]); and the fragments
    returned are those names below fragments/. *)
Theorem stageReleaseEvidence_faithful outputDirectory inputs s r s' :
  stageReleaseEvidence outputDirectory inputs s = (r, s') ->
  preserves s s' /\
  forall fragments, r = Ok fragments ->
    exists outputRoot roots listings, Staged s s' outputDirectory inputs outputRoot roots listings fragments.
Proof using laws frames.
  intros H. split. { pose proof (stageReleaseEvidence_keeps outputDirectory inputs s) as Hk. by rewrite H in Hk. }
  intros fragments ->. unfold stageReleaseEvidence in H. destruct outputDirectory as [|c out]; [done|].
  destruct (Nat.eqb_spec (length inputs) 3) as [Hlen|]; [|done]. cbn [negb] in H.
  apply io_bind_ok in H as (roots & s1 & [-> Hroots]%require_inputs_ok & H).
  apply io_bind_ok in H as ([] & s2 & Hmk%call_ok & H).
  apply io_bind_ok in H as (outRoot & s3 & [-> Hout]%requireDirectory_ok & H).
  apply io_bind_ok in H as ([st b] & s4 & Hst & H).
  assert (Hmk0 : preserves s s2) by (pose proof (mkdir_preserves (c :: out) s) as Hm; by rewrite Hmk in Hm).
  assert (Hmk1 : Only s outRoot [] s2).
  { intros q bytes Hq. left. apply (mkdir_files _ laws (c :: out)). by rewrite Hmk. }
  assert (Hs : exists listings, Staged_roots s outRoot roots listings (st, b) s4).
  { revert Hst. apply (foldIO_inv _ (fun roots st t => exists listings, Staged_roots s outRoot roots listings st t)).
    - exists []. constructor; try done. constructor; try done; [constructor|]. by exists [].
    - intros pre root st1 t1 st2 t2 [listings Hl] Hstep. destruct (stage_root_step _ _ _ _ _ _ _ _ _ Hl Hstep) as [files Hf]. by eexists. }
  destruct Hs as [listings [H0 H1 H2 H2' H3 H4]]. unfold set_has in H. case_bool_decide as Hc; [|done]. cbn [negb] in H. injection H as <- <-.
  cbn [fst snd] in *. pose proof (progress_paths _ _ _ _ H2) as Hpaths. rewrite Hpaths in *.
  exists outRoot, roots, listings. constructor; try done; [by exists s2|by exists st|lia].
Qed.
End stage.

(** Three small inputs in memory. *)
Definition sample_base : Host := plain_host VNull.
Definition sample_disk : Disk := memory_disk sample_base.
Definition sample_tree : @fs sample_disk := list_to_map
  [(js "/in/candidate/evidence/signed-release.json", js "signed"); (js "/in/candidate/fragments/b.json", js "two");
   (js "/in/ci/fragments/a.json", js "one"); (js "/in/external/logs/web.log", js "log"); (js "/out/notes", js "kept")].
Definition sample_inputs : list jsstr := map js ["/in/candidate"; "/in/ci"; "/in/external"]%string.
Definition sample_staging : result jsstr (list jsstr) * @fs sample_disk :=
  @stageReleaseEvidence sample_disk (js "/out") sample_inputs sample_tree.
Example sample_staging_fragments : sample_staging.1 = Ok (map js ["fragments/a.json"; "fragments/b.json"]%string).
Proof. vm_compute. reflexivity. Qed.
Lemma memory_disk_frames (base : Host) : @DiskFrames (memory_disk base).
Proof.
  constructor; cbn; try done.
  - intros a b t t' q bytes. destruct (t !! a) as [ba|]; [|done]. unfold create. destruct (t !! b) eqn:Eb; [done|].
    intros H. injection H as <-. rewrite !memory_content. destruct (decide (q = b)) as [->|Hne].
    + intros _. right. by eexists.
    + rewrite lookup_insert_ne by congruence. by left.
  - intros p t t' c q bytes H. by injection H as <-.
Qed.
Lemma stageReleaseEvidence_faithful_witness :
  exists outputRoot roots listings,
    @Staged sample_disk sample_tree sample_staging.2 (js "/out") sample_inputs outputRoot roots listings
      (map js ["fragments/a.json"; "fragments/b.json"]%string).
Proof.
  apply (proj2 (@stageReleaseEvidence_faithful sample_disk (memory_disk_laws sample_base) (memory_disk_frames sample_base)
    (js "/out") sample_inputs sample_tree
    sample_staging.1 sample_staging.2 eq_refl)).
  vm_compute. reflexivity.
Defined.
Lemma walk_terminates_witness :
  @walkFiles sample_disk sample_tree (js "/in/ci") (walk_fuel + 7) [] {| file_count := 0; directory_count := 0 |} =
  Ok ([js "fragments/a.json"], {| file_count := 1; directory_count := 2 |}).
Proof.
  rewrite (@walk_terminates sample_disk (memory_disk_laws sample_base) sample_tree (js "/in/ci") 7).
  vm_compute. reflexivity.
Defined.
(** The same name in two inputs is refused. *)
Example duplicate_refused :
  (@stageReleaseEvidence sample_disk (js "/out") (map js ["/in/ci"; "/in/ci"; "/in/external"]%string) sample_tree).1 =
  Throw (js "duplicate release evidence path fragments/a.json").
Proof. vm_compute. reflexivity. Qed.
