(* ===== verification/EvidenceWriter.v ===== *)
(** * Writing evidence

    JSON text, and [writeJson], which the emitters of CI, web, device and gate evidence
    and the merger each hold a copy of: a new file below the evidence root, never over an
    existing one. *)

From S2P Require Import Prelude JsNumber JsValue JsText JsJson Host EvidenceReader Disk.
From S2P Require Import ReleaseFragment.

Section text.
Context {host : Host}.
(** [Buffer.from(`${JSON.stringify(v, null, 2)}\n`, "utf8")] *)
Definition json_bytes (v : val) : result thrown (list Z) :=
  text ← lang (JSON_stringify_2 v);
  Ok (utf8_encode (default (js "undefined") text ++ [10])).
Definition thrown_message (e : thrown) : jsstr := match e with Err m => m | Lang e => error_message e end.
(** The message of whatever was thrown. *)
Definition messages {A} (r : result thrown A) : result jsstr A :=
  match r with Ok a => Ok a | Throw e => Throw (thrown_message e) end.
Lemma messages_ok {A} (r : result thrown A) a : messages r = Ok a <-> r = Ok a.
Proof. destruct r; cbn; split; congruence. Qed.
End text.

Section writer.
Context {disk : Disk}.

(** [`..${path.sep}`] at the front or absolute; the root itself is inside. *)
Definition escapes (relative : jsstr) : bool := startsWith relative (js "../") || isAbsolute relative.
(** [what] is the name the messages give the path. *)
Definition refuse_link (what root directory : jsstr) : io unit :=
  link ← has_link root directory;
  if (link : bool) then fail (what ++ js " must not resolve through symbolic links") else mret tt.
Definition make_parent (what root parent : jsstr) : io unit :=
  _ ← refuse_link what root parent;
  _ ← call (mkdirSync parent);
  refuse_link what root parent.
Definition refuse_escape (what root parent : jsstr) : io unit :=
  realParent ← realpath parent;
  if escapes (relative working_directory root realParent)
  then fail (what ++ js " must resolve inside the evidence root") else mret tt.
(** The [try] block: the error of a path that exists has no code and is thrown again. *)
Definition refuse_existing (what p : jsstr) : io unit := reading (fun s =>
  match lstatSync s p with
  | Ok _ => Throw (what ++ js " must not already exist")
  | Throw e => if str_eqb (fs_code e) (js "ENOENT") then Ok tt else Throw (fs_message e)
  end).
Definition OUTPUT : jsstr := js "output path".
(** [unsafe] is the message for an unsafe path; the contents are computed when all
    checks have passed. *)
Definition write_new (unsafe root : jsstr) (relativePath : val) (contents : fs -> result jsstr (list Z)) : io jsstr :=
  match relativePath with
  | VStr rel =>
      if negb (isSafeRelativePath relativePath) then fail unsafe else
      realRoot ← realpath root;
      let absolutePath := resolve2 working_directory realRoot rel in
      _ ← make_parent OUTPUT realRoot (dirname absolutePath);
      _ ← refuse_escape OUTPUT realRoot (dirname absolutePath);
      _ ← refuse_existing OUTPUT absolutePath;
      bytes ← reading contents;
      _ ← call (writeFileSync absolutePath bytes);
      mret absolutePath
  | _ => fail unsafe
  end.
Definition UNSAFE_OUTPUT : jsstr := js "output path must be a safe relative path".
Definition writeJson (root : jsstr) (relativePath : val) (bytes : list Z) : io jsstr :=
  write_new UNSAFE_OUTPUT root relativePath (fun _ => Ok bytes).
(** The writer that is given the value. *)
Definition write_value (root : jsstr) (relativePath : val) (v : val) : io jsstr :=
  write_new UNSAFE_OUTPUT root relativePath (fun s => @messages (observe s) _ (json_bytes v)).
(** What an emitter has before it writes: the root, the record with its bytes, and the
    fragment; the text of the fragment is made when the record is written. *)
Record Prepared := { p_root : jsstr; p_record : val; p_bytes : list Z; p_fragment : val }.
Definition write_evidence (unsafe : jsstr) (evidencePath fragmentPath : val) (o : Prepared) : io (val * val) :=
  _ ← write_new unsafe (p_root o) evidencePath (fun _ => Ok (p_bytes o));
  bytes ← reading (fun s => @messages (observe s) _ (json_bytes (p_fragment o)));
  _ ← write_new unsafe (p_root o) fragmentPath (fun _ => Ok bytes);
  mret (p_record o, p_fragment o).
(** The line a command prints and its exit code: the [try] block around its work. *)
Definition command (failure : jsstr) (work : io jsstr) (s : fs) : jsstr * Z * fs :=
  match work s with
  | (Ok line, s') => (line, 0, s')
  | (Throw message, s') => (failure ++ message, 1, s')
  end.
End writer.

Section rules.
Context {disk : Disk} (laws : DiskLaws disk).

(** The file [rel] below [root] as the writer places it. *)
Definition Written (s s' : fs) (root : jsstr) (relativePath : val) (p : jsstr) (bytes : list Z) : Prop :=
  exists rel realRoot realParent s1,
    relativePath = VStr rel /\ @realpathSync (observe s) root = Ok realRoot /\
    p = resolve2 working_directory realRoot rel /\
    @realpathSync (observe s1) (dirname p) = Ok realParent /\ escapes (relative working_directory realRoot realParent) = false /\
    (forall b, ~ content s p b) /\ content s' p bytes.
Lemma mkdir_keeps p s : preserves s (mkdirSync p s).2.
Proof. intros q b H. by apply (mkdir_files _ laws). Qed.
Lemma write_keeps p bytes s : preserves s (writeFileSync p bytes s).2.
Proof. apply (write_preserves _ laws). Qed.
Lemma make_parent_keeps what root parent : keeps preserves (make_parent what root parent).
Proof. pose proof mkdir_keeps. unfold make_parent, refuse_link, has_link. solve_keeps. Qed.
Lemma make_parent_ok what root parent s s' : make_parent what root parent s = (Ok tt, s') -> mkdirSync parent s = (Ok tt, s').
Proof.
  assert (Hlink : forall s s', refuse_link what root parent s = (Ok tt, s') -> s' = s).
  { intros t t' (k & t1 & [_ ->]%reading_ok & H)%io_bind_ok. destruct k; [done|]. by injection H. }
  intros ([] & s1 & ->%Hlink & H)%io_bind_ok. by apply io_bind_ok in H as ([] & s2 & Hm%call_ok & ->%Hlink).
Qed.
Lemma refuse_escape_ok what root parent s s' : refuse_escape what root parent s = (Ok tt, s') ->
  s' = s /\ exists realParent, @realpathSync (observe s) parent = Ok realParent /\ escapes (relative working_directory root realParent) = false.
Proof.
  intros (P & s1 & [HP ->]%reading_ok & H)%io_bind_ok. destruct (escapes _) eqn:E; [done|]. injection H as <-. by eauto.
Qed.
(** A file that was not there is there. *)
Definition Created (s s' : fs) (p : jsstr) (bytes : list Z) : Prop := (forall b, ~ content s p b) /\ content s' p bytes.
Lemma write_created p bytes s0 s s' : preserves s0 s -> call (writeFileSync p bytes) s = (Ok tt, s') -> Created s0 s' p bytes.
Proof. intros Hk [Hn Hc]%call_ok%(write_exclusive _ laws). split; [|done]. intros b Hb. by apply (Hn b), Hk. Qed.
Lemma write_new_keeps unsafe root rel contents : keeps preserves (write_new unsafe root rel contents).
Proof.
  pose proof make_parent_keeps. pose proof write_keeps. unfold write_new, refuse_escape, refuse_existing, realpath.
  solve_keeps.
Qed.
Lemma write_new_ok unsafe root rel contents s p s' :
  write_new unsafe root rel contents s = (Ok p, s') ->
  preserves s s' /\ exists s1 bytes, contents s1 = Ok bytes /\ Written s s' root rel p bytes.
Proof.
  intros H. split. { pose proof (write_new_keeps unsafe root rel contents s) as Hk. by rewrite H in Hk. }
  unfold write_new in H. destruct rel as [| | | |rel| | | | | |]; try done. destruct (isSafeRelativePath _); [|done]. cbn [negb] in H.
  apply io_bind_ok in H as (R & s1 & [HR ->]%reading_ok & H). cbv zeta in H.
  apply io_bind_ok in H as ([] & s1 & Hmk%make_parent_ok & H).
  apply io_bind_ok in H as ([] & s2 & [-> (P & HP & Ee)]%refuse_escape_ok & H).
  apply io_bind_ok in H as ([] & s2 & [_ ->]%reading_ok & H). apply io_bind_ok in H as (bytes & s2 & [Hb ->]%reading_ok & H).
  apply io_bind_ok in H as ([] & s2 & Hw & H). injection H as <- <-. exists s1, bytes. split; [done|]. exists rel, R, P, s1.
  pose proof (mkdir_keeps (dirname (resolve2 working_directory R rel)) s) as Hk. rewrite Hmk in Hk.
  destruct (write_created _ _ _ _ _ Hk Hw). by split_and!.
Qed.
Lemma writeJson_keeps root rel bytes : keeps preserves (writeJson root rel bytes).
Proof. apply write_new_keeps. Qed.
Lemma writeJson_ok root rel bytes s p s' :
  writeJson root rel bytes s = (Ok p, s') -> preserves s s' /\ Written s s' root rel p bytes.
Proof. intros [? (s1 & b & [= <-] & ?)]%write_new_ok. done. Qed.
Lemma write_value_keeps root rel v : keeps preserves (write_value root rel v).
Proof. apply write_new_keeps. Qed.
Lemma write_value_ok root rel v s p s' :
  write_value root rel v s = (Ok p, s') ->
  preserves s s' /\ exists bytes, json_bytes v = Ok bytes /\ Written s s' root rel p bytes.
Proof.
  intros [? (s1 & b & Hb & ?)]%write_new_ok. split; [done|]. exists b. split; [|done].
  by apply (proj1 (messages_ok (host := observe s1) _ _)) in Hb.
Qed.
(** What was written is still there after a change that keeps files. *)
Lemma Written_content s s' root rel p bytes : Written s s' root rel p bytes -> content s' p bytes.
Proof. by intros (_ & _ & _ & _ & _ & _ & _ & _ & _ & _ & ?). Qed.
Lemma Written_new s s' root rel p bytes b : Written s s' root rel p bytes -> ~ content s p b.
Proof. by intros (_ & _ & _ & _ & _ & _ & _ & _ & _ & ? & _). Qed.
(** The two files of an emitter: both new, both there at the end, at different paths. *)
Record Emitted_files (s s' : fs) (evidencePath fragmentPath : val) (o : Prepared) : Prop := {
  emitted_files : exists s1 p q bytes, Written s s1 (p_root o) evidencePath p (p_bytes o) /\
    json_bytes (p_fragment o) = Ok bytes /\ Written s1 s' (p_root o) fragmentPath q bytes /\
    p <> q /\ content s' p (p_bytes o) /\ content s' q bytes;
}.
Lemma write_evidence_keeps unsafe e f o : keeps preserves (write_evidence unsafe e f o).
Proof. pose proof write_new_keeps. unfold write_evidence. solve_keeps. Qed.
Lemma write_evidence_ok unsafe e f o s r s' :
  write_evidence unsafe e f o s = (Ok r, s') -> r = (p_record o, p_fragment o) /\ Emitted_files s s' e f o.
Proof.
  unfold write_evidence. intros (p & s1 & [_ (? & ? & [= <-] & Hw)]%write_new_ok & H)%io_bind_ok.
  apply io_bind_ok in H as (bytes & s2 & [Hb ->]%reading_ok & H).
  apply (proj1 (messages_ok (host := observe s1) _ _)) in Hb.
  apply io_bind_ok in H as (q & s2 & [Hk (? & ? & [= <-] & Hw')]%write_new_ok & H). injection H as <- <-. split; [done|].
  constructor. exists s1, p, q, bytes. pose proof (Written_content _ _ _ _ _ _ Hw) as Hc. split_and!; try done.
  - intros ->. by apply (Written_new _ _ _ _ _ _ (p_bytes o) Hw').
  - by apply Hk.
  - by eapply Written_content.
Qed.
Lemma command_runs failure work s line code s' :
  keeps preserves work -> command failure work s = (line, code, s') ->
  preserves s s' /\ (code = 0 -> work s = (Ok line, s')).
Proof.
  intros Hk H. specialize (Hk s). unfold command in H. destruct (work s) as [[l|m] s1]; injection H as <- <- <-; by split.
Qed.
End rules.
#[export] Hint Resolve make_parent_keeps write_new_keeps writeJson_keeps write_value_keeps write_evidence_keeps : keeps.
