(* ===== verification/CiEvidence.v ===== *)
(** * scripts/emit-ci-gate-evidence.mjs

    The record of a gate that a CI job owns, and the writing of the record and of the
    fragment built from its bytes; the release gate accepts both on the same root. *)

From S2P Require Import Prelude JsNumber Regex JsValue JsDate JsText JsJson Host ReleaseEvidence EvidenceReader ReleaseFragment Disk EvidenceWriter.
From S2P Require LsanEvidence ReleaseFiles.
From S2P Require Import PathProps.
From S2P Require Import ContractsSpec PlatformSupportProps EvidenceSpec DeviceEvidenceProps DeviceRecord DeviceFilesProps DeviceClaims LsanProps.
From S2P Require Import ReviewReport ReviewProps ReleaseProps ReleaseFilesProps ReleaseGateProps ReleaseClaims ReleaseSample.
From S2P Require Import FragmentProps.
Import ReleaseFiles (DEVICE_RELEASE_GATE_POLICIES, verifyFileDigest, verifyGateEvidenceRecord, MAX_GATE_EVIDENCE_BYTES).
Open Scope js_scope.

Definition LABEL : re := ReleaseFiles.CI_CHECK_LABEL.
Definition ISO_TIMESTAMP : re := LsanEvidence.ISO_TIMESTAMP.

(** The input, an object of these members. *)
Record CiInput := {
  ci_root : val;
  ci_commit : val;
  ci_packageVersion : val;
  ci_gateName : val;
  ci_evidencePath : val;
  ci_fragmentPath : val;
  ci_runner : val;
  ci_check_list : val;
  ci_recordedAt : val;
  ci_toolchains : val;
}.

Section record.
Context {host : Host}.

Definition validateTimestamp (value : val) : result thrown unit :=
  let bad := Throw (Err (js "recordedAt must be an ISO-8601 UTC timestamp")) in
  match value with
  | VStr s =>
      if negb (re_match ISO_TIMESTAMP s) then bad else
      r ← lang (reformat other_format s);
      if negb (str_eqb r s) then bad else Ok tt
  | _ => bad
  end.
Definition validateLabel (value : val) (field : jsstr) : result thrown unit :=
  if negb (is_matching LABEL value) then Throw (Err (field ++ js " must be a sanitized check label")) else Ok tt.
Definition check_labels (checks : list val) : result thrown unit :=
  DeviceEvidence.foldM (fun _ check => validateLabel check (js "check")) tt checks.
Definition ci_record_of (input : CiInput) (slots : list (option val)) : val := vobj
  [("schemaVersion", vnum 1); ("status", vstr "pass"); ("commit", ci_commit input); ("gate", ci_gateName input);
   ("evidenceKind", vstr "ci-command"); ("runner", ci_runner input); ("recordedAt", ci_recordedAt input);
   ("checks", varr (iterated slots))]%string.
Definition buildCiGateEvidence (input : CiInput) : result thrown val :=
  if negb (is_matching COMMIT (ci_commit input))
  then Throw (Err (js "commit must be a 40-character lowercase commit SHA")) else
  if negb (includes_str REQUIRED_RELEASE_GATES (ci_gateName input)) then Throw (Err (js "unsupported release gate")) else
  _ ← validateLabel (ci_runner input) (js "runner");
  match ci_check_list input with
  | VArr slots =>
      if (length slots =? 0)%nat || (64 <? length slots)%nat
      then Throw (Err (js "checks must contain one to 64 sanitized check labels")) else
      _ ← check_labels (present slots).*2;
      _ ← validateTimestamp (ci_recordedAt input);
      Ok (ci_record_of input slots)
  | _ => Throw (Err (js "checks must contain one to 64 sanitized check labels"))
  end.

Definition fragment_input (input : CiInput) (bytes : list Z) : FragmentInput := {|
  in_commit := ci_commit input; in_packageVersion := ci_packageVersion input; in_gateName := ci_gateName input;
  in_evidencePath := ci_evidencePath input; in_evidenceBytes := ByteEvidence bytes; in_toolchains := ci_toolchains input |}.
(** What [writeCiGateEvidence] computes before it writes: the root, the record and the
    fragment, each with its bytes. *)
Record Outputs := { out_root : jsstr; out_record : val; out_bytes : list Z; out_fragment : val; out_fragment_bytes : list Z }.
Definition prepareCiGateEvidence (input : CiInput) : result thrown Outputs :=
  match ci_root input with
  | VStr ((_ :: _) as root) =>
      if negb (is_matching VERSION (ci_packageVersion input))
      then Throw (Err (js "packageVersion must be a semantic version")) else
      if negb (isSafeRelativePath (ci_evidencePath input)) || negb (isSafeRelativePath (ci_fragmentPath input))
      then Throw (Err (js "output path must be a safe relative path")) else
      if strict_eq (ci_evidencePath input) (ci_fragmentPath input)
      then Throw (Err (js "fragment output must not overwrite the evidence record")) else
      record ← buildCiGateEvidence input;
      bytes ← json_bytes record;
      fragment ← buildReleaseGateFragment (fragment_input input bytes);
      fragment_bytes ← json_bytes fragment;
      Ok {| out_root := root; out_record := record; out_bytes := bytes; out_fragment := fragment;
            out_fragment_bytes := fragment_bytes |}
  | _ => Throw (Err (js "evidence root is required"))
  end.
End record.

Section write.
Context {disk : Disk}.

Definition writeCiGateEvidence (input : CiInput) : io (val * val) :=
  o ← reading (fun s => @messages (observe s) _ (@prepareCiGateEvidence (observe s) input));
  _ ← writeJson (out_root o) (ci_evidencePath input) (out_bytes o);
  _ ← writeJson (out_root o) (ci_fragmentPath input) (out_fragment_bytes o);
  mret (out_record o, out_fragment o).
End write.

(** ** CI evidence is accepted

    What the emitter writes, the release gate verifies; and it writes two new files and
    changes nothing else. *)

Section record.
Context {host : Host}.

Lemma validateLabel_ok v field : validateLabel v field = Ok tt <-> matching LABEL v.
Proof.
  unfold validateLabel, is_matching. rewrite <- is_matching_spec. by destruct (PlatformSupport.is_matching LABEL v).
Qed.
Lemma check_labels_ok l : check_labels l = Ok tt -> Forall (matching LABEL) l.
Proof.
  apply (foldM_inv _ (fun l _ => Forall (matching LABEL) l)); [done|]. intros pre v [] [] Hp H. apply Forall_app.
  split; [done|]. constructor; [by apply (validateLabel_ok v (js "check"))|done].
Qed.
(** The members of a built record. *)
Record Built (input : CiInput) (record : val) : Prop := {
  built_commit : matching COMMIT (ci_commit input);
  built_gate : one_of REQUIRED_RELEASE_GATES (ci_gateName input);
  built_runner : matching LABEL (ci_runner input);
  built_recorded : is_string (ci_recordedAt input) = true;
  built_checks : exists slots, ci_check_list input = VArr slots /\ Forall (matching LABEL) (present slots).*2 /\
    record = ci_record_of input slots;
}.
Lemma buildCiGateEvidence_ok input record : buildCiGateEvidence input = Ok record -> Built input record.
Proof.
  unfold buildCiGateEvidence, is_matching. destruct (PlatformSupport.is_matching COMMIT _) eqn:Hc; cbn [negb]; [|done].
  destruct (includes_str _ _) eqn:Hn; cbn [negb]; [|done]. intros ([] & Hr & H)%bind_Ok.
  destruct (ci_check_list input) as [| | | | | | | |slots| |] eqn:Es; try done. destruct (_ || _); [done|].
  apply bind_Ok in H as ([] & Hl & H). apply bind_Ok in H as ([] & Ht & H%Ok_inj).
  constructor; [by apply is_matching_spec|by apply includes_one_of|by eapply validateLabel_ok| |].
  - unfold validateTimestamp in Ht. by destruct (ci_recordedAt input).
  - exists slots. split; [done|]. split; [by apply check_labels_ok|done].
Qed.
Lemma iterated_of_present l v : v ∈ iterated l -> v = VUndef \/ v ∈ (present l).*2.
Proof.
  unfold iterated, present. generalize O. induction l as [|o l IH]; intros i; [by intros ?%not_elem_of_nil|]. cbn [map].
  intros [->|Hv]%elem_of_cons.
  - destruct o; cbn; [right; left|by left].
  - destruct (IH (S i) Hv) as [->|H]; [by left|]. right. destruct o; cbn [present_from fmap list_fmap]; [by right|done].
Qed.
(** The record's members have public names and hold strings. *)
Lemma built_secret_free input record : Built input record -> free_of ReleaseEvidence.SECRET_KEY record.
Proof.
  intros [(c & Hc & _) (n & Hn & _) (r & Hr & _) Ht (slots & _ & Hl & ->)]. unfold ci_record_of, vobj. apply free_of_obj.
  rewrite Hc, Hn, Hr. destruct (ci_recordedAt input); try done.
  repeat (apply List.Forall_cons; [split; [by vm_compute|]; first [by apply free_of_leaf|idtac]|]); [|constructor].
  unfold varr. apply free_of_arr. apply Forall_forall. intros o Ho. apply list_elem_of_fmap in Ho as (v & -> & Hv).
  cbn. apply iterated_of_present in Hv as [->|Hv]; [by apply free_of_leaf|]. rewrite Forall_forall in Hl.
  destruct (Hl v Hv) as (u & -> & _). by apply free_of_leaf.
Qed.
End record.

Section gate.
Context {host : Host} (laws : HostLaws host).
Context (hex_digests : forall bytes, matches SHA256 (sha256 bytes)).
Context (json_dense : forall text record, JSON_parse text = Ok record -> dense record).

(** The gates that neither a device matrix nor the sanitizer campaign decides. *)
Definition plain_gate (n : jsstr) : Prop :=
  n <> js "linux-leak-sanitizer" /\ table_find DEVICE_RELEASE_GATE_POLICIES n = None.
Lemma prepare_ok input o : prepareCiGateEvidence input = Ok o ->
  ci_root input = VStr (out_root o) /\
  Built input (out_record o) /\ json_bytes (out_record o) = Ok (out_bytes o) /\
  buildReleaseGateFragment (fragment_input input (out_bytes o)) = Ok (out_fragment o) /\
  json_bytes (out_fragment o) = Ok (out_fragment_bytes o) /\
  strict_eq (ci_evidencePath input) (ci_fragmentPath input) = false.
Proof.
  unfold prepareCiGateEvidence. destruct (ci_root input) as [| | | |[|c root]| | | | | |]; try done.
  destruct (is_matching _ _); [|done]. cbn [negb]. destruct (_ || _); [done|]. destruct (strict_eq _ _) eqn:Es; [done|].
  intros (record & Hr & H)%bind_Ok. apply bind_Ok in H as (bytes & Hb & H). apply bind_Ok in H as (f & Hf & H).
  apply bind_Ok in H as (fb & Hfb & <-%Ok_inj). cbn. split_and!; try done. by apply buildCiGateEvidence_ok.
Qed.

(** CI evidence is accepted end to end: when the emitter prepares a record and
    fragment for a gate that only CI decides, and the record's text is read back as the
    record, then the fragment holds one gate of the manifest's shape, and the release
    gate, run on a root where the record lies at its path, reports nothing about it. *)
Theorem ci_evidence_verifies input o root field p n artifacts toolchains :
  prepareCiGateEvidence input = Ok o ->
  JSON_parse (utf8_decode (out_bytes o)) = Ok (out_record o) ->
  ci_gateName input = VStr n -> plain_gate n ->
  ci_evidencePath input = VStr p -> safe_path p -> evidence_file root p MAX_GATE_EVIDENCE_BYTES (out_bytes o) ->
  exists gate, gates (out_fragment o) = [gate] /\ (forall context, Gate_wf context (out_fragment o) gate) /\
    (findings ← verifyFileDigest [] root field gate.["evidencePath"] gate.["sha256"] MAX_GATE_EVIDENCE_BYTES;
     verifyGateEvidenceRecord findings root field gate artifacts toolchains) = Ok [].
Proof.
  intros (_ & Hb & _ & Hf & _)%prepare_ok Hj Hn [Hlsan Hdev] Hp Hsafe Hfile.
  destruct (emitted_gate_meets laws hex_digests json_dense (fragment_input input (out_bytes o)) (out_fragment o) root field p (out_bytes o)
    artifacts toolchains Hf Hp Hsafe eq_refl Hfile) as (n' & record & gate & Hn' & Hj' & Hg & _ & Hwf & Hv).
  exists gate. split_and!; try done. apply Hv. rewrite Hj in Hj'. apply Ok_inj in Hj' as <-.
  cbn [in_gateName fragment_input] in Hn'. rewrite Hn in Hn'. injection Hn' as <-.
  split_and!; [by eapply built_secret_free|done|]. intros policy Hpol. congruence.
Qed.
End gate.

(** ** Writing *)

Section write.
Context {disk : Disk} (laws : DiskLaws disk).

Lemma writeCiGateEvidence_keeps input : keeps preserves (writeCiGateEvidence input).
Proof. unfold writeCiGateEvidence. solve_keeps. Qed.
Lemma writeCiGateEvidence_writes input s record fragment s' :
  writeCiGateEvidence input s = (Ok (record, fragment), s') -> exists o s1 p q,
    @prepareCiGateEvidence (observe s) input = Ok o /\ record = out_record o /\ fragment = out_fragment o /\
    Written s s1 (out_root o) (ci_evidencePath input) p (out_bytes o) /\
    Written s1 s' (out_root o) (ci_fragmentPath input) q (out_fragment_bytes o) /\
    p <> q /\ content s' p (out_bytes o).
Proof.
  unfold writeCiGateEvidence. intros (o & s0 & [Ho ->]%reading_ok & H)%io_bind_ok. apply io_bind_ok in H as (p & s1 & H1 & H).
  apply io_bind_ok in H as (q & s2 & H2 & H). injection H as <- <- <-. apply (proj1 (messages_ok (host := observe s) _ _)) in Ho.
  apply (writeJson_ok laws) in H1 as [Hp1 Hw1]. apply (writeJson_ok laws) in H2 as [Hp2 Hw2].
  pose proof (Written_content _ _ _ _ _ _ Hw1) as Hc. exists o, s1, p, q. split_and!; try done; [|by apply Hp2].
  intros ->. by apply (Written_new _ _ _ _ _ _ (out_bytes o) Hw2).
Qed.
End write.

(** ** A CI job *)

Definition sample_ci : CiInput := {|
  ci_root := vstr "/work/evidence"; ci_commit := sample_hex 40; ci_packageVersion := vstr "0.1.0"; ci_gateName := vstr "rust-workspace";
  ci_evidencePath := VStr rust_path; ci_fragmentPath := vstr "fragments/rust.json"; ci_runner := vstr "ubuntu-24.04";
  ci_check_list := varr [vstr "job-rust"]; ci_recordedAt := sample_time; ci_toolchains := vobj [("rust", vstr "1.88.0")]%string |}.
Definition sample_ci_record : val := ci_record_of sample_ci [Some (vstr "job-rust")].
Definition sample_ci_bytes : list Z := match json_bytes sample_ci_record with Ok bytes => bytes | Throw _ => [] end.
(** A host on which every file holds the record's bytes. *)
Definition ci_host : Host := {|
  cwd := js "/work"; realpathSync := fun p => Ok (resolve1 (js "/work") p);
  lstat_isSymbolicLink := fun _ => Ok false; statSync := fun _ => Ok {| isFile := true; size := 64 |};
  readFileSync := fun _ => Ok sample_ci_bytes; sha256 := sample_digest; JSON_parse := fun _ => Ok sample_ci_record;
  public_key_type := fun _ => Throw []; verify := fun _ _ _ => Ok false; other_format := fun _ => None;
  error_message := fun _ => js "error" |}.
Lemma ci_host_laws : HostLaws ci_host.
Proof. destruct (plain_host_laws VNull) as [H1 H2]. constructor; [exact H1|exact H2]. Qed.
Lemma ci_host_dense text record : @JSON_parse ci_host text = Ok record -> dense record.
Proof. intros <-%Ok_inj. by apply denseb_dense. Qed.
Lemma ci_host_file : @evidence_file ci_host evidence_root rust_path MAX_GATE_EVIDENCE_BYTES sample_ci_bytes.
Proof.
  exists (in_root rust_path). split.
  - destruct (proj1 (@release_contained_nil ci_host ci_host_laws [] evidence_root [] rust_path
      (Some (in_root rust_path)) rust_path_safe)) as (_ & file & [= <-] & Hf); [by vm_compute|exact Hf].
  - exists {| isFile := true; size := 64 |}. split_and!; [done|done|done|by vm_compute|done].
Qed.
Lemma rust_plain : plain_gate (js "rust-workspace").
Proof. split; [by vm_compute|reflexivity]. Qed.
Definition sample_prepared : result thrown Outputs := @prepareCiGateEvidence ci_host sample_ci.
Lemma ci_evidence_verifies_witness :
  exists o gate, sample_prepared = Ok o /\ gates (out_fragment o) = [gate] /\ (forall context, Gate_wf context (out_fragment o) gate).
Proof.
  assert (E : sample_prepared = Ok {| out_root := js "/work/evidence"; out_record := sample_ci_record; out_bytes := sample_ci_bytes;
    out_fragment := ReleaseFragment.fragment_of (host := ci_host) (fragment_input sample_ci sample_ci_bytes) (ci_toolchains sample_ci) sample_ci_bytes;
    out_fragment_bytes := match json_bytes (ReleaseFragment.fragment_of (host := ci_host) (fragment_input sample_ci sample_ci_bytes)
      (ci_toolchains sample_ci) sample_ci_bytes) with Ok b => b | Throw _ => [] end |}) by (vm_compute; reflexivity).
  unfold sample_prepared in *. eexists.
  destruct (@ci_evidence_verifies ci_host ci_host_laws sample_digest_hex ci_host_dense sample_ci _ evidence_root [] rust_path
    (js "rust-workspace") VUndef VUndef E eq_refl eq_refl rust_plain eq_refl rust_path_safe ci_host_file)
    as (gate & Hg & Hw & _).
  exists gate. split; [exact E|]. split; [exact Hg|exact Hw].
Defined.
(** Writing it into an empty memory. *)
Definition ci_disk : Disk := memory_disk ci_host.
Definition sample_ci_run : result jsstr (val * val) * @fs ci_disk := @writeCiGateEvidence ci_disk sample_ci (∅ : tree).
Example sample_ci_run_ok : match sample_ci_run.1 with Ok (record, _) => record | Throw _ => VNull end = sample_ci_record.
Proof. vm_compute. reflexivity. Qed.
Example sample_ci_prepared_bytes :
  match @prepareCiGateEvidence (@observe ci_disk (∅ : tree)) sample_ci with Ok o => out_bytes o | Throw _ => [] end = sample_ci_bytes.
Proof. vm_compute. reflexivity. Qed.
