(* ===== verification/MergeCommand.v ===== *)
(** * scripts/merge-release-evidence.mjs: the command

    Fragments are read below the evidence root, merged, written as a new manifest and
    verified where they lie.  The order is the script's: the manifest is written before
    its files are verified, so a failing verification leaves it in place.
    Exit code 0 means a new manifest whose files and signatures verify. *)

From S2P Require Import Prelude JsNumber Regex JsValue JsText JsJson Host EvidenceReader Disk EvidenceWriter.
From S2P Require Import ReleaseEvidence ReleaseFiles ReleaseFragment MergeEvidence CiEvidence.
Open Scope js_scope.

Section read.
Context {host : Host}.

Definition readFragment (root relativePath : jsstr) : result jsstr val :=
  let attempt :=
    filePath ← containedPath root (VStr relativePath) (js "fragment path");
    bytes ← readBounded (js "fragment") MAX_RELEASE_FRAGMENT_BYTES filePath;
    JSON_parse (utf8_decode bytes) in
  match attempt with
  | Ok fragment => Ok fragment
  | Throw message => Throw (js "could not read evidence fragment " ++ relativePath ++ js ": " ++ message)
  end.
End read.

Section command.
Context {disk : Disk} (localeCompare : jsstr -> jsstr -> Z) (now : jsstr) (git_head : result jsstr jsstr).

Definition currentCommit : option jsstr := match git_head with Ok output => Some (trim output) | Throw _ => None end.
Definition writeMergedEvidence (root : jsstr) (outputPath : val) (manifest : val) : io jsstr :=
  write_value root outputPath manifest.
(** Whether [path] is one of the files the manifest references. *)
Definition references (manifest : val) (path : jsstr) : bool :=
  let slots field := match get manifest field with VArr slots => iterated slots | _ => [] end in
  existsb (fun v => eq_str v path)
    (map (fun gate => gate.["evidencePath"]) (slots (js "gates")) ++ map (fun artifact => artifact.["path"]) (slots (js "artifacts"))).
(** The [try] block, to the line it prints. *)
Definition merge_and_verify (rootArgument outputPath : jsstr) (fragmentPaths : list jsstr) : io jsstr :=
  root ← realpath (resolve1 working_directory rootArgument);
  fragments ← reading (fun s => traverse (@readFragment (observe s) root) fragmentPaths);
  manifest ← reading (fun s => @messages (observe s) _ (@mergeReleaseEvidence (observe s) localeCompare fragments (VStr now) now));
  if references manifest outputPath then fail (js "output path must not overwrite a referenced evidence file") else
  output ← writeMergedEvidence root (VStr outputPath) manifest;
  fileFindings ← reading (fun s => @messages (observe s) _ (lang (@verifyReleaseEvidenceFiles (observe s) manifest root)));
  if (0 <? length fileFindings)%nat then fail (join [10] fileFindings) else
  match currentCommit with
  | Some ((_ :: _) as expectedCommit) =>
      if negb (eq_str manifest.["commit"] expectedCommit)
      then fail (js "merged release evidence commit does not match the current checkout")
      else mret (js "release evidence merged and verified: " ++ relative working_directory working_directory output)
  | _ => mret (js "release evidence merged and verified: " ++ relative working_directory working_directory output)
  end.
(** The line written and the exit code. *)
Definition merge_main (argv : list jsstr) (s : fs) : jsstr * Z * fs :=
  match argv with
  | ((_ :: _) as rootArgument) :: ((_ :: _) as outputPath) :: ((_ :: _) as fragmentPaths) =>
      command (js "release evidence merge failed: ") (merge_and_verify rootArgument outputPath fragmentPaths) s
  | _ => (js "usage: node scripts/merge-release-evidence.mjs <evidence-root> <output-json> <fragment-json>...", 64, s)
  end.
End command.

(** ** What a successful merge command did

    Exit code 0: the manifest it wrote is a faithful merge of the fragments it read, and
    every file it references is verified where it lies. *)

From S2P Require Import PathProps ContractsSpec EvidenceSpec DeviceFilesProps DeviceClaims.
From S2P Require Import ReleaseProps ReleaseFilesProps ReleaseGateProps ReleaseClaims ReleaseSample.

Section command.
Context {disk : Disk} (laws : DiskLaws disk) (host_laws : forall s, HostLaws (observe s)).
Context (localeCompare : jsstr -> jsstr -> Z) (now : jsstr) (git_head : result jsstr jsstr).

Lemma merge_and_verify_keeps root out paths : keeps preserves (merge_and_verify localeCompare now git_head root out paths).
Proof.
  unfold merge_and_verify, writeMergedEvidence, realpath.
  solve_keeps.
Qed.

(** The merge that printed its success: [manifest] was written to [p]. *)
Record Merge_done (s s' : fs) (rootArgument outputPath : jsstr) (fragmentPaths : list jsstr) (root p : jsstr) (manifest : val) : Prop := {
  done_root : @realpathSync (observe s) (resolve1 working_directory rootArgument) = Ok root;
  done_merge : exists fragments, Forall2 (fun path f => @readFragment (observe s) root path = Ok f) fragmentPaths fragments /\
    Merged_from localeCompare fragments manifest;
  done_written : exists bytes, json_bytes manifest = Ok bytes /\ Written s s' root (VStr outputPath) p bytes;
  done_unreferenced : references manifest outputPath = false;
  done_gates : Forall (@gate_ok (observe s') root manifest) (gates manifest);
  done_artifacts : Forall (@artifact_ok (observe s') root) (release_artifacts manifest);
  done_signatures : @Signature_ok (observe s') root manifest "signature" /\ @Signature_ok (observe s') root manifest "independentReview";
  done_commit : (exists c, currentCommit git_head = Some c /\ c <> [] /\ manifest.["commit"] = VStr c) \/
    currentCommit git_head = Some [] \/ currentCommit git_head = None;
}.
Lemma merge_and_verify_done rootArgument outputPath fragmentPaths s line s' :
  merge_and_verify localeCompare now git_head rootArgument outputPath fragmentPaths s = (Ok line, s') ->
  exists root p manifest, Merge_done s s' rootArgument outputPath fragmentPaths root p manifest.
Proof.
  intros H. unfold merge_and_verify in H.
  apply io_bind_ok in H as (root & s1 & [Hroot ->]%reading_ok & H). apply io_bind_ok in H as (fragments & s1 & [Hf ->]%reading_ok & H).
  apply io_bind_ok in H as (manifest & s1 & [Hm ->]%reading_ok & H). destruct (references _ _) eqn:Eref; [done|].
  apply io_bind_ok in H as (p & s1 & Hw & H). unfold writeMergedEvidence in Hw.
  apply (write_value_ok laws) in Hw as [Hpres Hw].
  apply io_bind_ok in H as (fs & s2 & [Hv ->]%reading_ok & H). destruct fs as [|? ?]; [|done]. cbn [length Nat.ltb Nat.leb] in H.
  apply (proj1 (messages_ok (host := observe s1) _ _)) in Hv. apply (proj1 (messages_ok (host := observe s) _ _)) in Hm.
  destruct (@verifyReleaseEvidenceFiles (observe s1) manifest root) as [fs|] eqn:Ev in Hv; [|done]. apply Ok_inj in Hv as ->.
  apply (@merged_faithful (observe s)) in Hm. pose proof (merged_accepted _ _ _ Hm) as Hwf.
  apply (@verifyReleaseEvidenceFiles_wf (observe s1) (host_laws s1) _ _ _ Hwf) in Ev as (Hg & Ha & Hs1 & Hs2).
  exists root, p, manifest. assert (s' = s1) as ->. { repeat case_match; try done; by injection H. }
  constructor; try done.
  - exists fragments. split; [by apply traverse_Ok|done].
  - destruct (currentCommit git_head) as [[|u c]|]; [by right; left| |by right; right].
    destruct (eq_str manifest.["commit"] (u :: c)) eqn:E; [|done]. left. exists (u :: c). by apply eq_str_spec in E.
Qed.

(** C16. The merge command is safe and sound: it never changes a file that could be read,
    whatever its exit code; when the code is 0, it read every fragment below the root, wrote
    one new file there holding their faithful merge, that file is none of those referenced,
    and every gate record, artifact and both signatures verify in the resulting file
    system.  The merged commit is the one checked out when git reports one; when git fails,
    or reports nothing, the commit is not compared and the code is still 0. *)
Theorem merge_main_sound argv s line code s' :
  merge_main localeCompare now git_head argv s = (line, code, s') ->
  preserves s s' /\
  (code = 0 -> exists rootArgument outputPath fragmentPaths root p manifest,
     argv = rootArgument :: outputPath :: fragmentPaths /\
     Merge_done s s' rootArgument outputPath fragmentPaths root p manifest).
Proof.
  unfold merge_main. destruct argv as [|[|a root] [|[|b out] [|q paths]]];
    try (by intros H; injection H as <- <- <-).
  intros [Hp H]%command_runs; [|apply merge_and_verify_keeps]. split; [done|].
  intros (R & p & manifest & Hd)%H%merge_and_verify_done. by exists (a :: root), (b :: out), (q :: paths), R, p, manifest.
Qed.
End command.

(** ** The sample release, merged in memory *)

Definition fragment_names : list jsstr := map js ["f0.json"; "f1.json"; "f2.json"; "f3.json"]%string.
Definition merge_json (text : jsstr) : val :=
  match find (fun nf => str_eqb text (in_root nf.1)) (zip fragment_names sample_fragments) with
  | Some nf => nf.2
  | None => sample_json text
  end.
Definition merge_base : Host := {|
  cwd := js "/work"; realpathSync := @realpathSync release_host; lstat_isSymbolicLink := @lstat_isSymbolicLink release_host;
  statSync := @statSync release_host; readFileSync := @readFileSync release_host; sha256 := sample_digest;
  JSON_parse := fun text => Ok (merge_json text);
  public_key_type := @public_key_type release_host; verify := @verify release_host; other_format := @other_format release_host;
  error_message := @error_message release_host |}.
Definition merge_disk : Disk := memory_disk merge_base.
(** Every file the sample refers to, each holding what the sample host reads. *)
Definition sample_paths : list jsstr :=
  fragment_names ++ map (fun g => js "gates/" ++ js g.1) gate_records ++ map (fun k => js "candidate/" ++ k) required_artifacts
  ++ map LsanEvidence.expectedLogPath LsanEvidence.LSAN_TARGETS
  ++ flat_map (fun g => flat_map (fun r => match r.1.2 with VStr p => [p] | _ => [] end) (DeviceFiles.references g.2)) gate_records.
Definition merge_tree : tree := list_to_map (map (fun p => (in_root p, sample_file (in_root p))) sample_paths).
Definition merge_git : result jsstr jsstr := Ok (repeat 97 40 ++ [10]).
Definition merge_argv : list jsstr := js "evidence" :: js "release.json" :: fragment_names.
Definition merge_run : jsstr * Z * @fs merge_disk :=
  @merge_main merge_disk code_unit_compare (js "2026-08-22T10:00:00.000Z") merge_git merge_argv merge_tree.
Example merge_run_code : merge_run.1 = (js "release evidence merged and verified: evidence/release.json", 0).
Proof. vm_compute. reflexivity. Qed.
Lemma merge_host_laws t : HostLaws (@observe merge_disk t).
Proof. destruct (plain_host_laws VNull) as [H1 H2]. constructor; [exact H1|exact H2]. Qed.
Lemma merge_main_sound_witness :
  exists rootArgument outputPath fragmentPaths root p manifest,
    merge_argv = rootArgument :: outputPath :: fragmentPaths /\
    @Merge_done merge_disk code_unit_compare merge_git (merge_tree : @fs merge_disk) merge_run.2
      rootArgument outputPath fragmentPaths root p manifest.
Proof.
  pose proof merge_run_code as Hc.
  pose proof (@merge_main_sound merge_disk (memory_disk_laws merge_base) merge_host_laws code_unit_compare
    (js "2026-08-22T10:00:00.000Z") merge_git merge_argv merge_tree) as H. unfold merge_run in *.
  destruct (@merge_main merge_disk code_unit_compare (js "2026-08-22T10:00:00.000Z") merge_git merge_argv merge_tree) as [[line code] s'].
  cbn [fst snd] in *. injection Hc as -> ->. destruct (H _ _ _ eq_refl) as [_ H']. exact (H' eq_refl).
Defined.
(** The command fails open: without git the same fragments merge with exit code 0. *)
Example merge_without_git :
  (@merge_main merge_disk code_unit_compare (js "2026-08-22T10:00:00.000Z") (Throw (js "ENOENT")) merge_argv merge_tree).1 =
  merge_run.1.
Proof. vm_compute. reflexivity. Qed.
(** The manifest is written before its files are verified and stays when that fails. *)
Definition bad_tree : tree := <[in_root (js "candidate/release-signature") := [1]]> merge_tree.
Example failing_merge_leaves_manifest :
  let '(_, code, t) := @merge_main merge_disk code_unit_compare (js "2026-08-22T10:00:00.000Z") merge_git merge_argv bad_tree in
  code = 1 /\ is_Some ((t : tree) !! in_root (js "release.json")).
Proof. vm_compute. split; [reflexivity|by eexists]. Qed.
