(* ===== verification/EvidenceReaderProps.v ===== *)
(** * What the emitters' readers and tests mean

    A file the shared reader opens is the file the device gate locates, and the patterns
    of labels and timestamps give the single-line texts the gates ask for. *)

From S2P Require Import Prelude JsNumber Regex JsValue JsDate JsText Host PathProps.
From S2P Require Import ContractsSpec DeviceEvidence EvidenceSpec DeviceFilesProps DeviceFiles.
From S2P Require EvidenceReader LsanEvidence ReleaseFiles ReleaseFragment CiEvidence.

Section reader.
Context {host : Host} (laws : HostLaws host).

Lemma safe_path_loose p : safe_path p -> EvidenceReader.isSafeRelativePath (VStr p) = true.
Proof.
  intros (cs & Hne & Hp & -> & Hb). pose proof (proj2 (isSafeRelativePath_spec (VStr (join sep cs)))) as Hs.
  specialize (Hs (ex_intro _ _ (conj eq_refl (ex_intro _ cs (conj Hne (conj Hp (conj eq_refl Hb))))))).
  cbn [isSafeRelativePath] in Hs. unfold EvidenceReader.isSafeRelativePath, LsanEvidence.isSafeRelativePath.
  apply andb_true_iff in Hs as [Hs Hc]. rewrite Hs. cbn [andb]. apply negb_true_iff, not_true_iff_false. intros Hin%str_in_elem.
  rewrite forallb_Forall, Forall_forall in Hc. specialize (Hc _ Hin). rewrite !andb_true_iff in Hc. by destruct Hc as [_ Hc].
Qed.
Lemma containedPath_located root p label file :
  safe_path p -> EvidenceReader.containedPath root (VStr p) label = Ok file -> Located root p file.
Proof.
  intros Hp H. pose proof (containedFilePath_nil laws [] root [] p (Some file) Hp) as [Hc _].
  destruct Hc as (_ & f & [= <-] & Hl); [|done]. unfold containedFilePath.
  rewrite (proj2 (isSafeRelativePath_spec (VStr p)) (ex_intro _ p (conj eq_refl Hp))). cbn [negb].
  unfold EvidenceReader.containedPath in H. rewrite safe_path_loose in H by done. cbn [negb] in H.
  apply bind_Ok in H as (R & -> & H). cbn [mbind result_bind]. cbv zeta in H. apply bind_Ok in H as ([] & Hs & H); [done|].
  rewrite Hs. cbn [mbind result_bind]. apply bind_Ok in H as (F & -> & H). cbn [mbind result_bind].
  change (DeviceFiles.outside) with ReleaseFiles.outside. destruct (ReleaseFiles.outside _); [done|]. by apply Ok_inj in H as ->.
Qed.
(** A file read with the bound of the device gate, as that gate reads it. *)
Lemma readBounded_readable what file bytes :
  EvidenceReader.readBounded what MAX_DEVICE_EVIDENCE_FILE_BYTES file = Ok bytes ->
  readable file bytes /\ exists stats, statSync file = Ok stats /\ size stats <> 0.
Proof. intros (stats & Hs & _ & H0 & Hb & Hr)%EvidenceReader.readBounded_ok. split; exists stats; by split_and!. Qed.
End reader.

Section texts.
Lemma text_of_pattern r s :
  units_ok (fun c => negb (is_space c)) r = true -> nullable r = false -> matches r s -> (length s <= 120)%nat -> text s.
Proof.
  intros Hu Hn Hm Hl. pose proof (units_ok_correct _ _ _ Hu Hm) as Hs. rewrite Forall_forall in Hs.
  split_and!; [done|intros H; by specialize (Hs _ H)|intros H; by specialize (Hs _ H)|].
  destruct s as [|c s]; [by apply matches_nonempty in Hm|]. exists c. split; [left|]. apply negb_true_iff, Hs. left.
Qed.
Lemma validateTimestamp_ok {host : Host} v : CiEvidence.validateTimestamp v = Ok tt <-> text_val v /\ timestamp v.
Proof.
  unfold CiEvidence.validateTimestamp, timestamp, text_val.
  destruct v as [| | | |s| | | | | |]; try (split; [done|by intros [_ (? & ? & _)]]).
  destruct (re_match CiEvidence.ISO_TIMESTAMP s) eqn:E; cbn [negb].
  2: { split; [done|]. intros [_ (s' & [= <-] & Hm & _)]. apply re_match_correct in Hm.
       change CiEvidence.ISO_TIMESTAMP with ISO_TIMESTAMP in E. congruence. }
  apply re_match_correct in E. change CiEvidence.ISO_TIMESTAMP with ISO_TIMESTAMP in E.
  assert (Ht : text s).
  { apply (text_of_pattern ISO_TIMESTAMP); [by vm_compute|by vm_compute|done|].
    etransitivity; [by apply (max_length_correct ISO_TIMESTAMP s 24)|lia]. }
  split.
  - intros (r & Hr & H)%bind_Ok. destruct (str_eqb r s) eqn:Eq; [|done]. apply str_eqb_eq in Eq as ->.
    destruct (reformat other_format s) as [r|] eqn:Er; [|done]. apply Ok_inj in Hr as ->. apply reformat_fixed in Er.
    split; exists s; [done|]. by split_and!.
  - intros [_ (s' & [= <-] & _ & Hi)]. rewrite (proj2 (reformat_fixed other_format s) Hi). cbn. by rewrite str_eqb_refl.
Qed.
End texts.

(** ** Records without bad keys, by evaluation *)

Fixpoint freeb (bad : jsstr -> bool) (v : val) : bool :=
  match v with
  | VArr l => forallb (fun o => match o with Some w => freeb bad w | None => true end) l
  | VObj ps => forallb (fun kv => negb (bad kv.1) && freeb bad kv.2) ps
  | _ => true
  end.
Lemma freeb_free bad v : freeb bad v = true -> free_of bad v.
Proof.
  induction v as [| | | | | | | | l IH|ps IH|] using val_nested_ind; intros Hb; try by apply free_of_leaf.
  - apply free_of_arr. cbn [freeb] in Hb. rewrite forallb_Forall in Hb. rewrite Forall_forall in *. intros [w|] Hw; cbn; [|done].
    by apply (IH (Some w)); [|apply (Hb (Some w))].
  - apply free_of_obj. cbn [freeb] in Hb. rewrite forallb_Forall in Hb. rewrite Forall_forall in *. intros kv Hkv.
    specialize (Hb kv Hkv). apply andb_true_iff in Hb as [H1%negb_true_iff H2]. split; [done|by apply IH].
Qed.
