(* ===== verification/EmitCommand.v ===== *)
(** * The commands of the emitters

    What the commands of emit-ci-gate-evidence.mjs, emit-release-gate-evidence.mjs,
    emit-web-browser-evidence.mjs and emit-native-device-evidence.mjs share, the first two
    commands, and emit-lsan-gate-evidence.mjs. *)

From S2P Require Import Prelude JsNumber Regex JsValue JsText JsJson Host ReleaseEvidence ReleaseFragment Disk.
From S2P Require Import EvidenceReader EvidenceWriter CiEvidence.
From S2P Require LsanEvidence.
Open Scope js_scope.

(** ** The checkout *)

(** The output of [git status --porcelain=v1 --untracked-files=all] and of
    [git rev-parse HEAD], the repository's directory and [new Date().toISOString()]. *)
Record Checkout := {
  git_status : result jsstr jsstr;
  git_head : result jsstr jsstr;
  repository : jsstr;
  now : jsstr;
}.
(** [what] is what the emitter's message says it emits. *)
Definition currentCommit (what : jsstr) (checkout : Checkout) : result jsstr jsstr :=
  status ← git_status checkout;
  match trim status with
  | [] =>
      head ← git_head checkout;
      let commit := trim head in
      if negb (re_match COMMIT commit) then Throw (js "current checkout commit is not an immutable SHA") else Ok commit
  | _ => Throw (js "current checkout must be clean before emitting " ++ what)
  end.
Section package.
Context {host : Host}.
(** A JSON file of the repository, and a member of the value. *)
Definition read_package (checkout : Checkout) (relativePath : jsstr) : result jsstr val :=
  bytes ← readFileSync (path_join (repository checkout) relativePath); JSON_parse (utf8_decode bytes).
Definition member_of (v : val) (k : jsstr) : result jsstr val :=
  match v with VNull | VUndef => Throw (error_message TypeError) | _ => Ok (get v k) end.
Definition currentPackageVersion (checkout : Checkout) : result jsstr jsstr :=
  packageJson ← read_package checkout (js "packages/contracts/package.json");
  version ← member_of packageJson (js "version");
  match version with
  | VStr v => if negb (re_match VERSION v) then Throw (js "current contracts package version is invalid") else Ok v
  | _ => Throw (js "current contracts package version is invalid")
  end.
End package.

(** ** Options *)

Fixpoint index_of (c : Z) (s : jsstr) : option nat :=
  match s with [] => None | x :: s' => if x =? c then Some 0%nat else S <$> index_of c s' end.
(** [name=rest]; [None] where the separator is missing or first. *)
Definition name_value (value : jsstr) : option (jsstr * jsstr) :=
  match index_of 61 value with
  | Some (S k) => Some (take (S k) value, drop (S (S k)) value)
  | _ => None
  end.
(** [o[name] = v] on a fresh object: the members so far, in the order of their first
    assignment.  The setter of [__proto__] adds no member. *)
Fixpoint assign_member (ps : list (jsstr * val)) (name : jsstr) (v : val) : list (jsstr * val) :=
  match ps with
  | [] => [(name, v)]
  | (k, w) :: ps' => if str_eqb name k then (k, v) :: ps' else (k, w) :: assign_member ps' name v
  end.
Definition assign (ps : list (jsstr * val)) (name : jsstr) (v : val) : list (jsstr * val) :=
  if str_eqb name (js "__proto__") then ps else assign_member ps name v.

(** ** emit-ci-gate-evidence.mjs *)

Record CiOptions := { o_runner : val; o_checks : list val; o_toolchains : list (jsstr * val) }.
Definition no_ci_options : CiOptions := {| o_runner := VUndef; o_checks := []; o_toolchains := [] |}.
Definition ci_option (st : CiOptions) (option value : jsstr) : result jsstr CiOptions :=
  if str_eqb option (js "--runner")
  then Ok {| o_runner := VStr value; o_checks := o_checks st; o_toolchains := o_toolchains st |} else
  if str_eqb option (js "--check")
  then Ok {| o_runner := o_runner st; o_checks := o_checks st ++ [VStr value]; o_toolchains := o_toolchains st |} else
  if str_eqb option (js "--toolchain") then
    match name_value value with
    | Some (name, (_ :: _) as version) =>
        match assoc name (o_toolchains st) with
        | Some _ => Throw (js "toolchain " ++ name ++ js " must be specified once")
        | None => Ok {| o_runner := o_runner st; o_checks := o_checks st; o_toolchains := assign (o_toolchains st) name (VStr version) |}
        end
    | _ => Throw (js "toolchain option must use --toolchain name=version")
    end
  else Throw (js "options must use --runner value, --check value, and --toolchain name=version").
(** The options in pairs; an option without a value is no option. *)
Fixpoint parse_pairs {S} (step : S -> jsstr -> jsstr -> result jsstr S) (bad : jsstr) (st : S) (l : list jsstr) : result jsstr S :=
  match l with
  | [] => Ok st
  | option :: value :: l' => st ← step st option value; parse_pairs step bad st l'
  | [_] => Throw bad
  end.
Definition ci_parseOptions : list jsstr -> result jsstr CiOptions :=
  parse_pairs ci_option (js "options must use --runner value, --check value, and --toolchain name=version") no_ci_options.

Section ci.
Context {disk : Disk} (checkout : Checkout).

Definition emit_ci (rootArgument gateName evidencePath fragmentPath : jsstr) (options : list jsstr) : io jsstr :=
  let root := resolve1 working_directory rootArgument in
  _ ← call (mkdirSync root);
  o ← reading (fun _ => ci_parseOptions options);
  commit ← reading (fun _ => currentCommit (js "CI evidence") checkout);
  version ← reading (fun s => @currentPackageVersion (observe s) checkout);
  _ ← writeCiGateEvidence {|
        ci_root := VStr root; ci_commit := VStr commit; ci_packageVersion := VStr version; ci_gateName := VStr gateName;
        ci_evidencePath := VStr evidencePath; ci_fragmentPath := VStr fragmentPath; ci_runner := o_runner o;
        ci_check_list := varr (o_checks o); ci_recordedAt := VStr (now checkout); ci_toolchains := fromEntries (o_toolchains o) |};
  mret (js "CI release gate evidence emitted: " ++ relative working_directory working_directory root).
Definition ci_main (argv : list jsstr) (s : fs) : jsstr * Z * fs :=
  match argv with
  | ((_ :: _) as rootArgument) :: ((_ :: _) as gateName) :: ((_ :: _) as evidencePath) :: ((_ :: _) as fragmentPath) :: options =>
      command (js "CI release gate evidence failed: ") (emit_ci rootArgument gateName evidencePath fragmentPath options) s
  | _ => (js "usage: node scripts/emit-ci-gate-evidence.mjs <evidence-root> <gate-name> <evidence-json> <fragment-json> --runner <label> --check <label>... [--toolchain name=version]...", 64, s)
  end.
End ci.

(** ** emit-release-gate-evidence.mjs *)

Definition toolchain_option (st : list (jsstr * val)) (option value : jsstr) : result jsstr (list (jsstr * val)) :=
  if negb (str_eqb option (js "--toolchain")) then Throw (js "toolchain options must use --toolchain name=version") else
  match name_value value with
  | Some (name, version) => Ok (assign st name (VStr version))
  | None => Throw (js "toolchain options must use --toolchain name=version")
  end.
Definition parseToolchains : list jsstr -> result jsstr (list (jsstr * val)) :=
  parse_pairs toolchain_option (js "toolchain options must use --toolchain name=version") [].

Section gate.
Context {disk : Disk} (checkout : Checkout).

Definition writeFragment (root : jsstr) (outputPath fragment : val) : io jsstr := write_value root outputPath fragment.
Definition emit_gate (rootArgument outputPath gateName evidencePath : jsstr) (options : list jsstr) : io jsstr :=
  root ← realpath (resolve1 working_directory rootArgument);
  evidenceFile ← reading (fun s => @containedFile (observe s) root (VStr evidencePath));
  evidenceBytes ← reading (fun s => @messages (observe s) _ (@readBoundedEvidenceFile (observe s) evidenceFile));
  commit ← reading (fun _ => currentCommit (js "release evidence") checkout);
  version ← reading (fun s => @currentPackageVersion (observe s) checkout);
  toolchains ← reading (fun _ => parseToolchains options);
  fragment ← reading (fun s => @messages (observe s) _ (@buildReleaseGateFragment (observe s) {|
    in_commit := VStr commit; in_packageVersion := VStr version; in_gateName := VStr gateName; in_evidencePath := VStr evidencePath;
    in_evidenceBytes := ByteEvidence evidenceBytes; in_toolchains := fromEntries toolchains |}));
  if str_eqb outputPath evidencePath then fail (js "fragment output must not overwrite the evidence record") else
  output ← writeFragment root (VStr outputPath) fragment;
  mret (js "release gate fragment emitted: " ++ relative working_directory working_directory output).
Definition gate_main (argv : list jsstr) (s : fs) : jsstr * Z * fs :=
  match argv with
  | ((_ :: _) as rootArgument) :: ((_ :: _) as outputPath) :: ((_ :: _) as gateName) :: ((_ :: _) as evidencePath) :: options =>
      command (js "release gate fragment failed: ") (emit_gate rootArgument outputPath gateName evidencePath options) s
  | _ => (js "usage: node scripts/emit-release-gate-evidence.mjs <evidence-root> <fragment-json> <gate-name> <evidence-json> [--toolchain name=version]...", 64, s)
  end.
End gate.

(** ** emit-lsan-gate-evidence.mjs *)

Record LsanInput := {
  ls_logRoot : jsstr;
  ls_outputRoot : val;
  ls_commit : val;
  ls_packageVersion : val;
  ls_evidencePath : val;
  ls_fragmentPath : val;
  ls_runner : val;
  ls_recordedAt : val;
  ls_pathPrefix : jsstr;
}.
Section lsan.
Context {disk : Disk} (checkout : Checkout).

(** This copy of [writeJson] does not look where the parent really is. *)
Definition lsan_writeJson (root : jsstr) (relativePath : val) (bytes : list Z) : io unit :=
  match relativePath with
  | VStr rel =>
      if negb (isSafeRelativePath relativePath) then fail UNSAFE_OUTPUT else
      realRoot ← realpath root;
      let absolutePath := resolve2 working_directory realRoot rel in
      _ ← make_parent OUTPUT realRoot (dirname absolutePath);
      _ ← refuse_existing OUTPUT absolutePath;
      call (writeFileSync absolutePath bytes)
  | _ => fail UNSAFE_OUTPUT
  end.
Definition lsan_thrown {A} (r : result LsanEvidence.build_error A) : result thrown A :=
  match r with
  | Ok a => Ok a
  | Throw (LsanEvidence.BuildError message) => Throw (Err message)
  | Throw (LsanEvidence.BuildThrew e) => Throw (Lang e)
  end.
Definition lsan_fragment_input (input : LsanInput) (recordBytes : list Z) : FragmentInput := {|
  in_commit := ls_commit input; in_packageVersion := ls_packageVersion input; in_gateName := vstr "linux-leak-sanitizer";
  in_evidencePath := ls_evidencePath input; in_evidenceBytes := ByteEvidence recordBytes; in_toolchains := VUndef |}.
(** The record with its bytes, and the fragment. *)
Definition prepareLsanGateEvidence {host : Host} (input : LsanInput) : result thrown (val * list Z * val) :=
  record ← lsan_thrown (LsanEvidence.buildLsanGateEvidence (ls_logRoot input) (ls_pathPrefix input) (ls_commit input)
    (ls_runner input) (ls_recordedAt input));
  recordBytes ← json_bytes record;
  fragment ← buildReleaseGateFragment (lsan_fragment_input input recordBytes);
  Ok (record, recordBytes, fragment).
Definition writeLsanGateEvidence (input : LsanInput) : io (val * val) :=
  match ls_outputRoot input with
  | VStr ((_ :: _) as outputRoot) =>
      if negb (is_matching VERSION (ls_packageVersion input)) then fail (js "packageVersion is invalid") else
      if negb (isSafeRelativePath (ls_evidencePath input)) || negb (isSafeRelativePath (ls_fragmentPath input))
      then fail (js "output paths must be safe relative paths") else
      if strict_eq (ls_evidencePath input) (ls_fragmentPath input)
      then fail (js "fragment output must not overwrite the evidence record") else
      _ ← call (mkdirSync outputRoot);
      '(record, recordBytes, fragment) ← reading (fun s => @messages (observe s) _ (@prepareLsanGateEvidence (observe s) input));
      _ ← lsan_writeJson outputRoot (ls_evidencePath input) recordBytes;
      fragmentBytes ← reading (fun s => @messages (observe s) _ (json_bytes fragment));
      _ ← lsan_writeJson outputRoot (ls_fragmentPath input) fragmentBytes;
      mret (record, fragment)
  | _ => fail (js "outputRoot is required")
  end.
Definition emit_lsan (logRoot outputRoot evidencePath fragmentPath runner : jsstr) : io jsstr :=
  commit ← reading (fun _ => currentCommit (js "LSAN evidence") checkout);
  version ← reading (fun s => @currentPackageVersion (observe s) checkout);
  _ ← writeLsanGateEvidence {|
        ls_logRoot := resolve1 working_directory logRoot; ls_outputRoot := VStr (resolve1 working_directory outputRoot);
        ls_commit := VStr commit; ls_packageVersion := VStr version; ls_evidencePath := VStr evidencePath;
        ls_fragmentPath := VStr fragmentPath; ls_runner := VStr runner; ls_recordedAt := VStr (now checkout);
        ls_pathPrefix := LsanEvidence.LSAN_LOG_PATH_PREFIX |};
  mret (js "Linux LeakSanitizer release evidence emitted").
Definition LSAN_USAGE : jsstr := js "usage: node scripts/emit-lsan-gate-evidence.mjs <log-root> <output-root> <evidence-json> <fragment-json> --runner <label>".
Definition lsan_main (argv : list jsstr) (s : fs) : jsstr * Z * fs :=
  match argv with
  | ((_ :: _) as logRoot) :: ((_ :: _) as outputRoot) :: ((_ :: _) as evidencePath) :: ((_ :: _) as fragmentPath)
      :: runnerFlag :: ((_ :: _) as runner) :: _ =>
      if negb (str_eqb runnerFlag (js "--runner")) then (LSAN_USAGE, 64, s) else
      command (js "Linux LeakSanitizer evidence failed: ") (emit_lsan logRoot outputRoot evidencePath fragmentPath runner) s
  | _ => (LSAN_USAGE, 64, s)
  end.
End lsan.
