(* ===== verification/WebEvidence.v ===== *)
(** * scripts/emit-web-browser-evidence.mjs

    The record of the browser matrix, made from three smoke-test logs.  The bytes of a
    log are hashed and referenced; of the text only the browser's version enters the
    record. *)

From S2P Require Import Prelude JsNumber Regex JsValue JsText JsJson Host ReleaseEvidence ReleaseFragment Disk.
From S2P Require Import EvidenceReader EvidenceWriter CiEvidence EmitCommand.
From S2P Require DeviceFiles.
Open Scope js_scope.

(** [/^[a-z0-9][a-z0-9._+:-]{0,120}$/], [/^[A-Za-z0-9][A-Za-z0-9._+-]{0,63}$/] *)
Definition LABEL : re :=
  RSeq (RCls [(97, 122); (48, 57)]) (rupto 120 (RCls [(97, 122); (48, 57); (46, 46); (95, 95); (43, 43); (58, 58); (45, 45)])).
Definition BROWSER_VERSION : re :=
  RSeq (RCls [(65, 90); (97, 122); (48, 57)])
    (rupto 63 (RCls [(65, 90); (97, 122); (48, 57); (46, 46); (95, 95); (43, 43); (45, 45)])).
Definition BROWSERS : list jsstr := map js ["chromium"; "firefox"; "webkit"]%string.
Definition WEB_TEST_CASES : val := vobj
  [("passkeySecureContext", vstr "pass"); ("originAndRpId", vstr "pass"); ("boundedOptions", vstr "pass");
   ("fallbackWarning", vstr "pass")]%string.

(** ** The logs *)

(** What an element of [logs] may be; the bytes are a string, a byte array or something
    else. *)
Inductive log_slot := Hole | NotAnObject | Log (browser path : val) (bytes : evidence_bytes).
Record BrowserLog := { log_browser : jsstr; log_path : jsstr; log_bytes : list Z; log_version : jsstr }.

Definition validateLabel (value : val) (field : jsstr) : result thrown unit :=
  if negb (is_matching LABEL value) then Throw (Err (field ++ js " must be a bounded label")) else Ok tt.
Definition nonEmptyBoundedBrowserVersion (value : jsstr) : bool := (0 <? length value)%nat && (length value <=? 120)%nat.
Definition smoke_prefix (browser : jsstr) : jsstr := browser ++ js "@".
(** [/^<browser>@(<version>): secure-context pass; webauthn=[a-z0-9-]+$/] *)
Definition smoke_line (browser : jsstr) : re :=
  RSeq (rlit (smoke_prefix browser)) (RSeq BROWSER_VERSION
    (RSeq (rlit (js ": secure-context pass; webauthn=")) (rplus (RCls [(97, 122); (48, 57); (45, 45)])))).
(** The units before the first [c]: the version has no colon, so the group of the
    pattern ends at the first one. *)
Fixpoint until (c : Z) (s : jsstr) : jsstr := match s with [] => [] | x :: s' => if x =? c then [] else x :: until c s' end.
Definition parseBrowserSmokeVersion (browser : jsstr) (bytes : list Z) : result thrown jsstr :=
  let bad := Throw (Err (browser ++ js " log must contain the checked-in browser smoke result with its runtime version")) in
  match find (fun candidate => startsWith candidate (smoke_prefix browser)) (split_lines (utf8_decode bytes)) with
  | Some line =>
      let version := until 58 (drop (length (smoke_prefix browser)) line) in
      if negb (re_match (smoke_line browser) line) || negb (re_match BROWSER_VERSION version) then bad else Ok version
  | None => bad
  end.
Definition LOGS_MESSAGE : jsstr := js "logs must contain exactly one log for chromium, firefox, and webkit".
Definition find_log (byBrowser : list BrowserLog) (browser : jsstr) : option BrowserLog :=
  find (fun log => str_eqb (log_browser log) browser) byBrowser.
(** The bytes of a log, as [Buffer.from] copies them. *)
Definition checked_bytes : evidence_bytes -> result thrown (list Z) :=
  bounded_bytes (js "browser log bytes") DeviceFiles.MAX_DEVICE_EVIDENCE_FILE_BYTES.
(** One step of [logs.forEach]; the map holds the logs in the order they were set. *)
Definition add_log (byBrowser : list BrowserLog) (log : log_slot) : result thrown (list BrowserLog) :=
  match log with
  | Hole => Ok byBrowser
  | NotAnObject => Throw (Err (js "browser log must be an object"))
  | Log browser path bytes =>
      match browser with
      | VStr name =>
          if negb (str_in name BROWSERS) then Throw (Err (js "browser log must name chromium, firefox, or webkit")) else
          match find_log byBrowser name with
          | Some _ => Throw (Err (js "browser logs must not repeat a browser"))
          | None =>
              match path with
              | VStr p =>
                  if negb (isSafeRelativePath path) then Throw (Err (js "browser log path must be a safe relative path")) else
                  bytes ← checked_bytes bytes;
                  version ← parseBrowserSmokeVersion name bytes;
                  Ok (byBrowser ++ [{| log_browser := name; log_path := p; log_bytes := bytes; log_version := version |}])
              | _ => Throw (Err (js "browser log path must be a safe relative path"))
              end
          end
      | _ => Throw (Err (js "browser log must name chromium, firefox, or webkit"))
      end
  end.
(** [None] is no array. *)
Definition orderedLogs (logs : option (list log_slot)) : result thrown (list BrowserLog) :=
  match logs with
  | Some slots =>
      if negb (length slots =? length BROWSERS)%nat then Throw (Err LOGS_MESSAGE) else
      byBrowser ← DeviceEvidence.foldM add_log [] slots;
      traverse (fun browser => match find_log byBrowser browser with Some log => Ok log | None => Throw (Err LOGS_MESSAGE) end) BROWSERS
  | None => Throw (Err LOGS_MESSAGE)
  end.

(** ** The record *)

Section record.
Context {host : Host}.

Definition log_artifact (log : BrowserLog) : val := vobj
  [("kind", VStr (js "browser-report-" ++ log_browser log)); ("path", VStr (log_path log));
   ("sha256", VStr (sha256 (log_bytes log)))]%string.
Definition version_summary (logs : list BrowserLog) : jsstr :=
  join (js ",") (map (fun log => log_browser log ++ js "@" ++ log_version log) logs).
Definition web_record (commit frameworkVersion runner recordedAt : val) (first : BrowserLog) (rest : list BrowserLog) : val := vobj
  [("schemaVersion", vnum 1); ("status", vstr "pass"); ("commit", commit); ("gate", vstr "web-browser-matrix");
   ("platform", vstr "web"); ("framework", vstr "web"); ("frameworkVersion", frameworkVersion); ("recordedAt", recordedAt);
   ("physicalDevice", VBool false);
   ("device", vobj [("browser", vstr "chromium+firefox+webkit"); ("browserVersion", VStr (version_summary (first :: rest)));
                    ("osVersion", runner); ("secureContext", VBool true)]);
   ("testCases", WEB_TEST_CASES); ("sanitizedLogs", VBool true); ("logPath", VStr (log_path first));
   ("logSha256", VStr (sha256 (log_bytes first))); ("artifacts", varr (map log_artifact rest))]%string.
(** The logs are given apart from the other members of the input. *)
Definition buildWebBrowserEvidence (input : val) (logs : option (list log_slot)) : result thrown val :=
  if negb (is_record input) then Throw (Err (js "web evidence input must be an object")) else
  if negb (is_matching COMMIT input.["commit"]) then Throw (Err (js "commit must be a 40-character lowercase commit SHA")) else
  _ ← validateLabel input.["frameworkVersion"] (js "frameworkVersion");
  _ ← validateLabel input.["runner"] (js "runner");
  _ ← validateTimestamp input.["recordedAt"];
  logs ← orderedLogs logs;
  if negb (nonEmptyBoundedBrowserVersion (version_summary logs))
  then Throw (Err (js "browser runtime version summary must be bounded")) else
  match logs with
  | first :: rest => Ok (web_record input.["commit"] input.["frameworkVersion"] input.["runner"] input.["recordedAt"] first rest)
  | [] => Throw (Lang TypeError)
  end.

(** ** Reading the logs *)

Definition readBoundedBrowserLog (root : jsstr) (relativePath : val) : result jsstr (list Z) :=
  filePath ← containedPath root relativePath (js "browser log path");
  readBounded (js "browser log") DeviceFiles.MAX_DEVICE_EVIDENCE_FILE_BYTES filePath.
(** [input.logs.map(...)]: a hole stays one, any other element becomes an object. *)
Definition read_log (root : jsstr) (slot : option val) : result thrown log_slot :=
  match slot with
  | None => Ok Hole
  | Some log => bytes ← err (readBoundedBrowserLog root log.["path"]); Ok (Log log.["browser"] log.["path"] (ByteEvidence bytes))
  end.
Definition web_fragment_input (input : val) (bytes : list Z) : FragmentInput := {|
  in_commit := input.["commit"]; in_packageVersion := input.["packageVersion"]; in_gateName := vstr "web-browser-matrix";
  in_evidencePath := input.["evidencePath"]; in_evidenceBytes := ByteEvidence bytes; in_toolchains := VUndef |}.
(** [writeWebBrowserEvidence] before it writes. *)
Definition prepareWebBrowserEvidence (input : val) : result thrown Prepared :=
  if negb (is_record input) then Throw (Err (js "web evidence input must be an object")) else
  match input.["root"] with
  | VStr ((_ :: _) as root) =>
      if negb (is_matching VERSION input.["packageVersion"])
      then Throw (Err (js "packageVersion must be a semantic version")) else
      if negb (isSafeRelativePath input.["evidencePath"]) || negb (isSafeRelativePath input.["fragmentPath"])
      then Throw (Err UNSAFE_OUTPUT) else
      if strict_eq input.["evidencePath"] input.["fragmentPath"]
      then Throw (Err (js "fragment output must not overwrite the evidence record")) else
      match input.["logs"] with
      | VArr slots =>
          logs ← traverse (read_log root) slots;
          record ← buildWebBrowserEvidence input (Some logs);
          bytes ← json_bytes record;
          fragment ← buildReleaseGateFragment (web_fragment_input input bytes);
          Ok {| p_root := root; p_record := record; p_bytes := bytes; p_fragment := fragment |}
      | _ => Throw (Err LOGS_MESSAGE)
      end
  | _ => Throw (Err (js "evidence root is required"))
  end.

(** ** The pinned framework *)

Definition currentPlaywrightFrameworkVersion (checkout : Checkout) : result jsstr jsstr :=
  packageJson ← read_package checkout (js "package.json");
  devDependencies ← member_of packageJson (js "devDependencies");
  match devDependencies.["playwright"] with
  | VStr version =>
      if negb (re_match VERSION version)
      then Throw (js "current Playwright dependency version is invalid or not exact") else Ok (js "playwright-" ++ version)
  | _ => Throw (js "current Playwright dependency version is invalid or not exact")
  end.
End record.

(** ** The command *)

Record WebOptions := { w_frameworkVersion : val; w_runner : val; w_logs : list val }.
Definition WEB_OPTIONS : jsstr := js "options must use --framework-version, --runner, and --log".
Definition web_option (st : WebOptions) (option value : jsstr) : result jsstr WebOptions :=
  if str_eqb option (js "--framework-version")
  then Ok {| w_frameworkVersion := VStr value; w_runner := w_runner st; w_logs := w_logs st |} else
  if str_eqb option (js "--runner")
  then Ok {| w_frameworkVersion := w_frameworkVersion st; w_runner := VStr value; w_logs := w_logs st |} else
  if str_eqb option (js "--log") then
    match name_value value with
    | Some (browser, path) =>
        Ok {| w_frameworkVersion := w_frameworkVersion st; w_runner := w_runner st;
              w_logs := w_logs st ++ [vobj [("browser", VStr browser); ("path", VStr path)]%string] |}
    | None => Throw (js "browser logs must use --log browser=relative/path")
    end
  else Throw WEB_OPTIONS.
Definition web_parseOptions : list jsstr -> result jsstr WebOptions :=
  parse_pairs web_option WEB_OPTIONS {| w_frameworkVersion := VUndef; w_runner := VUndef; w_logs := [] |}.

Section command.
Context {disk : Disk} (checkout : Checkout).

Definition writeWebBrowserEvidence (input : val) : io (val * val) :=
  o ← reading (fun s => @messages (observe s) _ (@prepareWebBrowserEvidence (observe s) input));
  write_evidence UNSAFE_OUTPUT input.["evidencePath"] input.["fragmentPath"] o.
Definition web_input (root commit version evidencePath fragmentPath : jsstr) (o : WebOptions) : val := vobj
  [("root", VStr root); ("commit", VStr commit); ("packageVersion", VStr version); ("evidencePath", VStr evidencePath);
   ("fragmentPath", VStr fragmentPath); ("frameworkVersion", w_frameworkVersion o); ("runner", w_runner o);
   ("recordedAt", VStr (now checkout)); ("logs", varr (w_logs o))]%string.
Definition emit_web (rootArgument evidencePath fragmentPath : jsstr) (options : list jsstr) : io jsstr :=
  let root := resolve1 working_directory rootArgument in
  _ ← call (mkdirSync root);
  o ← reading (fun _ => web_parseOptions options);
  expectedFrameworkVersion ← reading (fun s => @currentPlaywrightFrameworkVersion (observe s) checkout);
  if negb (eq_str (w_frameworkVersion o) expectedFrameworkVersion)
  then fail (js "frameworkVersion must match the pinned workspace dependency (" ++ expectedFrameworkVersion ++ js ")") else
  commit ← reading (fun _ => currentCommit (js "web evidence") checkout);
  version ← reading (fun s => @currentPackageVersion (observe s) checkout);
  _ ← writeWebBrowserEvidence (web_input root commit version evidencePath fragmentPath o);
  mret (js "web browser release evidence emitted: " ++ relative working_directory working_directory root).
Definition web_main (argv : list jsstr) (s : fs) : jsstr * Z * fs :=
  match argv with
  | ((_ :: _) as rootArgument) :: ((_ :: _) as evidencePath) :: ((_ :: _) as fragmentPath) :: options =>
      command (js "web browser release evidence failed: ") (emit_web rootArgument evidencePath fragmentPath options) s
  | _ => (js "usage: node scripts/emit-web-browser-evidence.mjs <evidence-root> <evidence-json> <fragment-json> --framework-version <label> --runner <label> --log browser=relative/path...", 64, s)
  end.
End command.
