(* ===== verification/WebEvidenceProps.v ===== *)
(** * Browser evidence meets the release gate

    What the emitter of the browser matrix builds, and the exact conditions under which
    the release gate takes it. *)

From S2P Require Import Prelude JsNumber Regex JsValue JsDate JsText JsJson Host PathProps.
From S2P Require Import ContractsSpec PlatformSupportProps EvidenceSpec DeviceEvidenceProps DeviceRecord DeviceFilesProps DeviceClaims LsanProps.
From S2P Require Import ReleaseEvidence ReviewReport ReviewProps ReleaseProps ReleaseFiles ReleaseFilesProps ReleaseGateProps ReleaseClaims ReleaseSample.
From S2P Require Import FragmentProps EvidenceReader EvidenceReaderProps Disk EvidenceWriter CiEvidence EmitCommand WebEvidence.
From S2P Require DeviceFiles.
From S2P Require ReleaseFragment.
Import ReleaseFragment (thrown, evidence_bytes, TextEvidence, ByteEvidence, OtherEvidence, in_gateName, in_evidencePath, in_evidenceBytes, gate_of, buildReleaseGateFragment).
Open Scope js_scope.

(** ** The logs *)

Definition visible (s : jsstr) : Prop := Forall (fun c => negb (is_space c) = true) s.
Lemma until_spec c s : exists r, s = until c s ++ r.
Proof. induction s as [|x s [r IH]]; cbn [until]; [by exists []|]. destruct (x =? c); [by exists (x :: s)|]. exists r. cbn. by rewrite <- IH. Qed.
(** What the emitter established of a log it took from an element of the input. *)
Record Log_from (slot : log_slot) (log : BrowserLog) : Prop := {
  from_slot : exists bytes, slot = Log (VStr (log_browser log)) (VStr (log_path log)) bytes /\ checked_bytes bytes = Ok (log_bytes log);
  from_version : visible (log_version log);
}.
Lemma parse_version_visible browser bytes version : parseBrowserSmokeVersion browser bytes = Ok version -> visible version.
Proof.
  unfold parseBrowserSmokeVersion. destruct (find _ _); [|done]. destruct (re_match BROWSER_VERSION _) eqn:E; [|by rewrite orb_true_r].
  destruct (re_match (smoke_line browser) _); [|done]. cbn [negb orb]. intros <-%Ok_inj. apply re_match_correct in E.
  by apply (units_ok_correct _ BROWSER_VERSION).
Qed.
Lemma add_log_ok st slot st' :
  add_log st slot = Ok st' -> st' = st \/ exists log, st' = st ++ [log] /\ Log_from slot log.
Proof.
  destruct slot as [| |browser path bytes]; cbn [add_log]; [by intros <-%Ok_inj; left|done|].
  destruct browser as [| | | |name| | | | | |]; try done. destruct (str_in name BROWSERS); [|done]. cbn [negb].
  destruct (find_log st name); [done|]. destruct path as [| | | |p| | | | | |]; try done.
  destruct (isSafeRelativePath (VStr p)); [|done]. cbn [negb]. intros (copied & Hc & H)%bind_Ok.
  apply bind_Ok in H as (version & Hv & <-%Ok_inj). right. eexists. split; [done|]. constructor; [by exists bytes|].
  by eapply parse_version_visible.
Qed.
Lemma orderedLogs_ok slots logs :
  orderedLogs (Some slots) = Ok logs ->
  map log_browser logs = BROWSERS /\ Forall (fun log => exists slot, slot ∈ slots /\ Log_from slot log) logs.
Proof.
  cbn [orderedLogs]. destruct (_ =? _)%nat; [|done]. cbn [negb]. intros (st & Hst & Hl)%bind_Ok.
  assert (Hall : Forall (fun log => exists slot, slot ∈ slots /\ Log_from slot log) st).
  { revert Hst. apply (foldM_inv add_log (fun done st => Forall (fun log => exists slot, slot ∈ done /\ Log_from slot log) st)); [done|].
    intros pre slot s s' Hs H. assert (Hs' : Forall (fun log => exists slot0, slot0 ∈ pre ++ [slot] /\ Log_from slot0 log) s).
    { eapply Forall_impl; [exact Hs|]. intros log (x & Hx & Hf). exists x. split; [|done]. apply elem_of_app. by left. }
    apply add_log_ok in H as [->|(log & -> & Hlog)]; [done|]. apply Forall_app. split; [done|]. constructor; [|done].
    exists slot. split; [|done]. apply elem_of_app. right. by left. }
  apply traverse_Ok in Hl. split.
  - generalize dependent BROWSERS. induction 1 as [|browser log bs logs H _ IH]; [done|]. cbn. rewrite IH. f_equal.
    destruct (find_log st browser) as [l|] eqn:E; [|done]. apply Ok_inj in H as ->. apply find_some in E as [_ E]. by apply str_eqb_eq.
  - generalize dependent BROWSERS. induction 1 as [|browser log bs logs H _ IH]; [done|]. constructor; [|done].
    destruct (find_log st browser) as [l|] eqn:E; [|done]. apply Ok_inj in H as ->. apply find_some in E as [E _].
    rewrite Forall_forall in Hall. by apply Hall, list_elem_of_In.
Qed.

Section record.
Context {host : Host} (laws : HostLaws host).

(** The logs of an input, as they were read below a root. *)
Definition Read_logs (root : jsstr) (input : val) (logs : list BrowserLog) : Prop :=
  exists slots raw, input.["logs"] = VArr slots /\ traverse (read_log root) slots = Ok raw /\ orderedLogs (Some raw) = Ok logs.
Lemma read_logs_file root input logs log :
  Read_logs root input logs -> log ∈ logs ->
  exists file, containedPath root (VStr (log_path log)) (js "browser log path") = Ok file /\
    readBounded (js "browser log") DeviceFiles.MAX_DEVICE_EVIDENCE_FILE_BYTES file = Ok (log_bytes log).
Proof.
  intros (slots & raw & _ & Hr & [_ Ho]%orderedLogs_ok) Hlog. rewrite Forall_forall in Ho.
  destruct (Ho log Hlog) as (slot & Hslot & [(bytes & -> & Hc) _]). apply traverse_Ok in Hr.
  apply list_elem_of_lookup in Hslot as [i Hi]. destruct (Forall2_lookup_r _ _ _ _ _ Hr Hi) as ([v|] & _ & Hv); [|done].
  cbn [read_log] in Hv. apply bind_Ok in Hv as (b & Hb & Hv). injection Hv as _ Hpath Hbytes. rewrite Hpath in Hb.
  destruct (readBoundedBrowserLog root (VStr (log_path log))) as [b'|] eqn:Er; [|done]. apply Ok_inj in Hb as ->. subst bytes.
  unfold readBoundedBrowserLog in Er. apply bind_Ok in Er as (file & Hf & Hread). exists file. split; [done|].
  by apply ReleaseFragment.bounded_bytes_ok in Hc as [-> _].
Qed.

(** What a built record is made of. *)
Record Web_built (input : val) (logs : list BrowserLog) (record : val) : Prop := {
  web_commit : matching COMMIT input.["commit"];
  web_framework : matching LABEL input.["frameworkVersion"];
  web_runner : matching LABEL input.["runner"];
  web_recorded : text_val input.["recordedAt"] /\ timestamp input.["recordedAt"];
  web_summary : text (version_summary logs);
  web_browsers : map log_browser logs = BROWSERS;
  web_record_is : exists first rest, logs = first :: rest /\
    record = web_record input.["commit"] input.["frameworkVersion"] input.["runner"] input.["recordedAt"] first rest;
}.
Lemma validateLabel_matching v field : validateLabel v field = Ok tt <-> matching LABEL v.
Proof. unfold validateLabel, is_matching. rewrite <- is_matching_spec. by destruct (PlatformSupport.is_matching LABEL v). Qed.
Lemma summary_visible logs :
  map log_browser logs = BROWSERS -> Forall (fun log => visible (log_version log)) logs -> visible (version_summary logs).
Proof.
  intros Hb Hv. unfold version_summary. assert (Hall : Forall (fun log => visible (log_browser log ++ js "@" ++ log_version log)) logs).
  { rewrite Forall_forall in Hv |- *. intros log Hlog. apply Forall_app. split; [|apply Forall_app; split; [by repeat constructor|by apply Hv]].
    assert (Hin : log_browser log ∈ BROWSERS) by (rewrite <- Hb; by apply list_elem_of_fmap_2).
    assert (Hb3 : Forall visible BROWSERS) by (apply (bool_decide_unpack _); by vm_compute). rewrite Forall_forall in Hb3. by apply Hb3. }
  clear -Hall. induction Hall as [|log logs Hlog Hall IH]; [constructor|]. cbn [map join]. destruct logs as [|l logs]; [done|].
  cbn [map] in *. apply Forall_app. split; [done|]. apply Forall_app. split; [by repeat constructor|done].
Qed.
Lemma buildWeb_ok input raw record :
  buildWebBrowserEvidence input (Some raw) = Ok record -> exists logs, orderedLogs (Some raw) = Ok logs /\ Web_built input logs record.
Proof.
  unfold buildWebBrowserEvidence, is_matching. destruct (is_record input); [|done]. cbn [negb].
  destruct (PlatformSupport.is_matching COMMIT _) eqn:Hc; [|done]. cbn [negb]. intros ([] & Hf & H)%bind_Ok.
  apply bind_Ok in H as ([] & Hr & H). apply bind_Ok in H as ([] & Ht & H). apply bind_Ok in H as (logs & Hl & H).
  destruct (nonEmptyBoundedBrowserVersion _) eqn:Hs; [|done]. cbn [negb] in H. exists logs. split; [done|].
  destruct logs as [|first rest]; [done|]. apply Ok_inj in H as <-. apply orderedLogs_ok in Hl as [Hb Hl].
  constructor; try done; [by apply is_matching_spec|by apply validateLabel_matching in Hf|by apply validateLabel_matching in Hr
    |by apply validateTimestamp_ok| |by exists first, rest].
  unfold nonEmptyBoundedBrowserVersion in Hs. apply andb_true_iff in Hs as [H0%Nat.ltb_lt H1%Nat.leb_le].
  assert (Hv : visible (version_summary (first :: rest))).
  { apply summary_visible; [done|]. eapply Forall_impl; [exact Hl|]. by intros log (? & _ & []). }
  unfold visible in Hv. rewrite Forall_forall in Hv.
  split_and!; [done|intros H; by specialize (Hv _ H)|intros H; by specialize (Hv _ H)|].
  destruct (version_summary (first :: rest)) as [|c s]; [cbn in H0; lia|]. exists c. split; [left|]. apply negb_true_iff, Hv. left.
Qed.
End record.

(** ** The gate *)

Section gate.
Context {host : Host} (laws : HostLaws host).
Context (hex_digests : forall bytes, matches SHA256 (sha256 bytes)).
Context (json_dense : forall text record, JSON_parse text = Ok record -> dense record).

Definition short (v : val) : Prop := exists s, v = VStr s /\ (length s <= 120)%nat.
Lemma label_text v : matching LABEL v -> text_val v <-> short v.
Proof.
  intros (s & -> & Hm). split; intros (s' & [= <-] & H); exists s; (split; [done|]); [by destruct H|].
  by apply (text_of_pattern LABEL).
Qed.
Lemma device_commit s : matches COMMIT s -> matches DeviceEvidence.COMMIT s.
Proof.
  unfold COMMIT, DeviceEvidence.COMMIT. rewrite !matches_exactly_cls. intros [? H]. split; [done|]. eapply Forall_impl; [exact H|].
  intros c. unfold DeviceEvidence.lower_hex, in_cls. cbn [existsb]. rewrite !orb_false_r, orb_comm. done.
Qed.
Lemma three_logs (logs : list BrowserLog) : map log_browser logs = BROWSERS -> exists a b c, logs = [a; b; c].
Proof. destruct logs as [|a [|b [|c [|d logs]]]]; try done. by exists a, b, c. Qed.
Lemma sha_digest bytes : sha_val (VStr (sha256 bytes)).
Proof. exists (sha256 bytes). split; [done|]. apply hex_digests. Qed.
Lemma web_free bad input logs record :
  Web_built input logs record -> freeb bad (web_record VNull VNull VNull VNull (Build_BrowserLog [] [] [] []) [Build_BrowserLog [] [] [] []; Build_BrowserLog [] [] [] []]) = true ->
  free_of bad record.
Proof.
  intros [(co & Hco & _) (fv & Hf & _) (ru & Hru & _) [(re & Hre & _) _] _ Hb (first & rest & -> & ->)] H.
  destruct (three_logs _ Hb) as (a & b & c & [= -> ->]). rewrite Hco, Hf, Hru, Hre. apply freeb_free. exact H.
Qed.

Lemma log_artifact_wf log : safe_path (log_path log) -> DeviceEvidenceProps.Artifact_wf false (log_artifact log).
Proof. intros H. split_and!; [done|by exists (log_path log)|apply sha_digest|done]. Qed.

Section record.
Context (options : DeviceEvidence.Options) (input : val) (logs : list BrowserLog) (record : val).
Context (Hbuilt : Web_built input logs record).
Context (Hcommit : DeviceEvidence.expectedCommit options = input.["commit"]).
Context (Hgate : DeviceEvidence.expectedGate options = vstr "web-browser-matrix").

Lemma web_evidence_wf : Evidence_wf options record <->
  short input.["frameworkVersion"] /\ short input.["runner"] /\ Forall safe_path (map log_path logs) /\ NoDup (map log_path logs).
Proof.
  pose proof (web_free DeviceEvidence.FORBIDDEN_KEYS _ _ _ Hbuilt ltac:(by vm_compute)) as Hfree.
  destruct Hbuilt as [(co & Hco & Hcm) Hf Hr [Ht1 Ht2] Hs Hb (first & rest & -> & ->)].
  destruct (three_logs _ Hb) as (a & b & c & [= -> ->]). rewrite <- (label_text _ Hf), <- (label_text _ Hr).
  assert (Hfiles : evidence_files (web_record input.["commit"] input.["frameworkVersion"] input.["runner"] input.["recordedAt"] a [b; c]) =
    map log_path [a; b; c]) by reflexivity.
  assert (Hnp : forall p, DeviceEvidence.physicalNative options (web_record input.["commit"] input.["frameworkVersion"] input.["runner"] input.["recordedAt"] a [b; c]) = p -> p = false).
  { intros p <-. unfold DeviceEvidence.physicalNative. by rewrite andb_false_r. }
  split.
  - intros [_ _ _ _ _ _ Hfw _ _ _ [_ [Hd _]] _ _ [Hp _] [_ Ha] Hn _]. split; [exact Hfw|].
    split; [apply (Forall_lookup_1 _ _ 2%nat _ Hd eq_refl)|]. rewrite Hfiles in Hn. split; [|exact Hn].
    destruct Hp as (pa & [= <-] & Hpa). apply Forall_cons in Ha as [(_ & (pb & [= <-] & Hpb) & _) Ha].
    apply Forall_cons in Ha as [(_ & (pc & [= <-] & Hpc) & _) _]. by repeat constructor.
  - intros (Hfw & Hru & Hp & Hn). apply Forall_cons in Hp as [Hpa Hp]. apply Forall_cons in Hp as [Hpb Hp].
    apply Forall_cons in Hp as [Hpc _]. constructor; try done.
    + exists co. split_and!; [exact Hco|by apply device_commit|right; by rewrite Hcommit].
    + exists (js "web-browser-matrix"), (js "web"). split_and!; [done..| |right; by rewrite Hgate]. exists (js "web"). split; [done|by left].
    + by exists false.
    + split; [done|]. cbn. split; [|done]. repeat constructor; [exists (js "chromium+firefox+webkit")|by exists (version_summary [a; b; c])|exact Hru].
      split; [done|]. apply (text_of_pattern (rlit (js "chromium+firefox+webkit"))); [by vm_compute..|by apply matches_lit|by vm_compute; lia].
    + split; [done|]. by repeat constructor.
    + split; [by exists (log_path a)|apply sha_digest].
    + split; [by eexists _, _|]. rewrite (Hnp _ eq_refl). by repeat constructor; apply log_artifact_wf.
    + intros H%Hnp. done.
Qed.
End record.

(** A log that was read below the root is what the gate finds there. *)
Lemma log_reference root input logs log field :
  Read_logs root input logs -> log ∈ logs -> safe_path (log_path log) ->
  Ref_ok root (field, VStr (log_path log), VStr (sha256 (log_bytes log))) <-> clean_content (log_bytes log).
Proof.
  intros Hr Hlog Hsafe. destruct (read_logs_file root input logs log Hr Hlog) as (file & Hc & Hb).
  apply (containedPath_located laws) in Hc; [|done]. apply readBounded_readable in Hb as [Hread Hsize]. split.
  - intros H. destruct (H (log_path log) eq_refl Hsafe) as (h & file' & bytes & _ & Hl & (? & _ & _ & Hbytes) & Hclean & _).
    rewrite (Located_fun _ _ _ _ Hl Hc) in Hbytes. destruct Hread as (_ & _ & _ & Hread). rewrite Hread in Hbytes.
    by apply Ok_inj in Hbytes as ->.
  - intros Hclean p [= <-] _. exists (sha256 (log_bytes log)), file, (log_bytes log). by split_and!.
Qed.
(** What the gate asks beyond what the emitter checked: labels within its shorter bound,
    canonical and distinct paths, logs without secrets. *)
Record Web_ready (input : val) (logs : list BrowserLog) : Prop := {
  ready_framework : short input.["frameworkVersion"];
  ready_runner : short input.["runner"];
  ready_paths : Forall safe_path (map log_path logs);
  ready_distinct : NoDup (map log_path logs);
  ready_clean : Forall (fun log => clean_content (log_bytes log)) logs;
}.
Lemma web_device_ok root input logs record gate artifacts toolchains policy :
  Web_built input logs record -> Read_logs root input logs ->
  gate.["commit"] = input.["commit"] -> gate.["name"] = vstr "web-browser-matrix" ->
  table_find DEVICE_RELEASE_GATE_POLICIES (js "web-browser-matrix") = Some policy ->
  Device_gate_ok root gate artifacts toolchains policy record <-> Web_ready input logs.
Proof.
  intros Hbuilt Hread Hcommit Hname Hpolicy.
  pose proof (web_evidence_wf (device_options gate toolchains policy) input logs record Hbuilt Hcommit Hname) as Hwf.
  pose proof Hbuilt as [_ _ _ _ _ Hb (first & rest & -> & ->)]. destruct (three_logs _ Hb) as (a & b & c & [= -> ->]).
  assert (Hrefs : Forall safe_path (map log_path [a; b; c]) ->
    Forall (Ref_ok root) (DeviceFiles.references (web_record input.["commit"] input.["frameworkVersion"] input.["runner"] input.["recordedAt"] a [b; c])) <->
    Forall (fun log => clean_content (log_bytes log)) [a; b; c]).
  { intros [Ha [Hb' [Hc _]%Forall_cons]%Forall_cons]%Forall_cons.
    change (DeviceFiles.references _) with (map (fun '(field, log) => (field, VStr (log_path log), VStr (sha256 (log_bytes log))))
      [(js "log", a); (DeviceEvidence.nth_of (js "artifacts") 0, b); (DeviceEvidence.nth_of (js "artifacts") 1, c)]).
    cbn [map]. rewrite !Forall_cons. rewrite !(log_reference root input [a; b; c]) by (done || by repeat (first [by left|right])).
    split; intros (? & ? & ? & _); by split_and!. }
  split.
  - intros [_ H Hf _]. apply Hwf in H as (H1 & H2 & H3 & H4). constructor; try done. by apply Hrefs.
  - intros [H1 H2 H3 H4 H5]. constructor; [|by apply Hwf|by apply Hrefs|].
    + vm_compute in Hpolicy. by injection Hpolicy as <-.
    + intros platform kind device release d k [= <-] Hk. by vm_compute in Hk.
Qed.
Lemma prepare_web_ok input o : prepareWebBrowserEvidence input = Ok o ->
  input.["root"] = VStr (p_root o) /\
  (exists logs, Read_logs (p_root o) input logs /\ Web_built input logs (p_record o)) /\
  json_bytes (p_record o) = Ok (p_bytes o) /\
  buildReleaseGateFragment (web_fragment_input input (p_bytes o)) = Ok (p_fragment o) /\
  strict_eq input.["evidencePath"] input.["fragmentPath"] = false.
Proof.
  unfold prepareWebBrowserEvidence. destruct (is_record input); [|done]. cbn [negb].
  destruct (input.["root"]) as [| | | |[|c root]| | | | | |]; try done.
  destruct (is_matching _ _); [|done]. cbn [negb]. destruct (_ || _); [done|]. destruct (strict_eq _ _) eqn:Es; [done|].
  destruct (input.["logs"]) as [| | | | | | | |slots| |] eqn:El; try done. intros (raw & Hr & H)%bind_Ok.
  apply bind_Ok in H as (record & Hrec & H). apply bind_Ok in H as (bytes & Hb & H). apply bind_Ok in H as (f & Hf & <-%Ok_inj).
  cbn. apply buildWeb_ok in Hrec as (logs & Hlogs & Hbuilt). split_and!; try done. exists logs. split; [|done]. by exists slots, raw.
Qed.

End gate.
