(* ===== verification/NativeEvidence.v ===== *)
(** * scripts/emit-native-device-evidence.mjs

    The record of a physical device: read below the evidence root, checked by the device
    validator itself, and written with its fragment.  Raw bytes are read only to be
    hashed. *)

From S2P Require Import Prelude JsNumber Regex JsValue JsText JsJson Host ReleaseEvidence ReleaseFragment Disk.
From S2P Require Import EvidenceReader EvidenceWriter CiEvidence EmitCommand.
From S2P Require DeviceEvidence DeviceFiles.
Open Scope js_scope.

(** ** Number of a string

    The conversion [Number(s)] of the language: StringToNumber with the rounding of
    binary64, subnormal values included. *)

(** [m * 2^e] rounded to binary64, ties to even. *)
Definition round_binary64 (m e : Z) : jsnum :=
  let d := Z.max 0 (Z.max (Z.log2 (Z.abs m) + 1 - 53) (-1074 - e)) in
  round53 (let q := m / 2 ^ d in
           let r := 2 * (m mod 2 ^ d) in
           if r <? 2 ^ d then q else if 2 ^ d <? r then q + 1 else if Z.even q then q else q + 1) (e + d).
(** [m * 10^k]: a negative power is divided to 64 bits beyond the quotient's first and a
    sticky bit, so that rounding once more is exact. *)
Definition decimal_value (m k : Z) : jsnum :=
  if m =? 0 then num 0 else
  if 0 <=? k then round_binary64 (m * 10 ^ k) 0 else
  let p := 10 ^ (- k) in
  let s := 64 + Z.log2 p in
  let q := m * 2 ^ s / p in
  round_binary64 (2 * q + (if m * 2 ^ s mod p =? 0 then 0 else 1)) (- s - 1).

Definition is_digit (c : Z) : bool := (48 <=? c) && (c <=? 57).
(** The digits at the front and the rest. *)
Fixpoint span (f : Z -> bool) (s : jsstr) : jsstr * jsstr :=
  match s with [] => ([], []) | c :: s' => if f c then let '(a, b) := span f s' in (c :: a, b) else ([], s) end.
(** The exponent part, to the end of the string. *)
Definition exponent (s : jsstr) : option Z :=
  match s with
  | [] => Some 0
  | c :: s' =>
      if (c =? 101) || (c =? 69) then
        let '(neg, ds) := match s' with
          | x :: r => if x =? 45 then (true, r) else if x =? 43 then (false, r) else (false, s')
          | [] => (false, [])
          end in
        match ds with
        | [] => None
        | _ => if forallb is_digit ds then Some (if (neg : bool) then - digits_value ds else digits_value ds) else None
        end
      else None
  end.
(** StrUnsignedDecimalLiteral without Infinity: digits, fraction, exponent. *)
Definition unsigned_decimal (s : jsstr) : option jsnum :=
  let '(whole, rest) := span is_digit s in
  let '(fraction, rest) := match rest with
    | c :: r => if c =? 46 then span is_digit r else ([], rest)
    | [] => ([], [])
    end in
  match whole ++ fraction with
  | [] => None
  | ds => k ← exponent rest; Some (decimal_value (digits_value ds) (k - Z.of_nat (length fraction)))
  end.
Definition hex_value (c : Z) : option Z :=
  if is_digit c then Some (c - 48) else if (97 <=? c) && (c <=? 102) then Some (c - 87)
  else if (65 <=? c) && (c <=? 70) then Some (c - 55) else None.
(** The digits after [0x], [0o] or [0b]; there is at least one. *)
Definition radix_literal (radix : Z) (s : jsstr) : option jsnum :=
  match s with
  | [] => None
  | _ =>
      value ← foldl (fun acc c => n ← acc; d ← hex_value c; if d <? radix then Some (n * radix + d) else None) (Some 0) s;
      Some (round_binary64 value 0)
  end.
Definition Number_ (s : jsstr) : jsnum :=
  let t := trim s in
  let signed r := default NaN (if str_eqb r (js "Infinity") then Some (Inf false) else unsigned_decimal r) in
  match t with
  | [] => num 0
  | c :: r =>
      if c =? 45 then num_neg (signed r) else if c =? 43 then signed r else
      match r with
      | x :: ds =>
          if (c =? 48) && ((x =? 120) || (x =? 88)) then default NaN (radix_literal 16 ds) else
          if (c =? 48) && ((x =? 111) || (x =? 79)) then default NaN (radix_literal 8 ds) else
          if (c =? 48) && ((x =? 98) || (x =? 66)) then default NaN (radix_literal 2 ds) else signed t
      | [] => signed t
      end
  end.

Example Number_ex :
  map (fun s => num_toZ (Number_ (js s)))
    ["34"; " 34 "; ""; "3.4e1"; "0x22"; "0b2"; "340e-1"; ".5e1"; "1e-400"; "9007199254740993"; "3 4"; "1.5"; "-7"; "5."; "."]%string =
  [Some 34; Some 34; Some 0; Some 34; Some 34; None; Some 34; Some 5; Some 0; Some 9007199254740992; None; None; Some (-7); Some 5; None].
Proof. vm_compute. reflexivity. Qed.
Example Number_fraction_ex : num_eqb (Number_ (js "0.1")) (Fin 3602879701896397 (-55)) = true /\
  num_eqb (Number_ (js "5e-324")) (Fin 1 (-1074)) = true /\ Number_ (js "1e400") = Inf false.
Proof. vm_compute. done. Qed.

(** [/^[^\r\n]{1,120}$/], [/^[a-z0-9][a-z0-9._:-]{0,80}$/] *)
Definition LABEL : re := rbetween 1 120 (RCls [(0, 9); (11, 12); (14, 65535)]).
Definition KIND : re :=
  RSeq (RCls [(97, 122); (48, 57)]) (rupto 80 (RCls [(97, 122); (48, 57); (46, 46); (95, 95); (58, 58); (45, 45)])).
Definition MAX_NATIVE_EVIDENCE_FILE_BYTES : Z := DeviceFiles.MAX_DEVICE_EVIDENCE_FILE_BYTES.
Definition NATIVE_TEST_CASES : list jsstr := DeviceEvidence.NATIVE_TESTS.
Definition REQUIRED_NATIVE_ARTIFACT_KINDS : list jsstr := DeviceEvidence.REQUIRED_PHYSICAL_NATIVE_ARTIFACT_KINDS.
Definition FRAMEWORKS : list (jsstr * list jsstr) :=
  [(js "ios", map js ["native"; "react-native"; "flutter"]%string); (js "android", map js ["native"; "react-native"; "flutter"]%string)].
Definition GATES : list (jsstr * jsstr) := [(js "ios", js "ios-device-matrix"); (js "android", js "android-device-matrix")].
(** A member of a table under an own key; a symbol is no key of it. *)
Definition row {A} (table : list (jsstr * A)) (key : jsstr) : option A := snd <$> find (fun kv => str_eqb kv.1 key) table.
Definition own {A} (table : list (jsstr * A)) (v : val) : result thrown (option A) :=
  key ← lang (DeviceEvidence.to_property_key v); Ok (k ← key; row table k).

Definition validateLabel (value : val) (field : jsstr) : result thrown unit :=
  let bad := Throw (Err (field ++ js " must be a bounded single-line label")) in
  match value with
  | VStr s => if negb (re_match LABEL s) || (length (trim s) =? 0)%nat then bad else Ok tt
  | _ => bad
  end.
Definition validateBytes (value : evidence_bytes) (field : jsstr) : result thrown (list Z) :=
  bounded_bytes field MAX_NATIVE_EVIDENCE_FILE_BYTES value.
Definition normalizeTestCases (testCases : val) : result thrown val :=
  if negb (is_record testCases) then Throw (Err (js "testCases must be an object")) else
  match find (fun name => negb (str_in name NATIVE_TEST_CASES)) (keys testCases) with
  | Some name => Throw (Err (js "unsupported test case " ++ name))
  | None =>
      match find (fun name => negb (eq_str (get testCases name) (js "pass"))) NATIVE_TEST_CASES with
      | Some name => Throw (Err (js "testCases." ++ name ++ js " must be exactly 'pass'"))
      | None => Ok (VObj (map (fun name => (name, vstr "pass")) NATIVE_TEST_CASES))
      end
  end.
(** [map] leaves a hole a hole. *)
Definition map_slots {A B} (f : A -> result thrown B) (slots : list (option A)) : result thrown (list (option B)) :=
  traverse (fun slot => match slot with Some x => Some <$> f x | None => Ok None end) slots.
Definition normalizeHostMode (hostMode : val) : result thrown val :=
  if negb (is_record hostMode) then Throw (Err (js "host mode must be an object")) else
  let normalized := [(js "framework", hostMode.["framework"]); (js "frameworkVersion", hostMode.["frameworkVersion"]);
                     (js "status", hostMode.["status"])] in
  let evidence := hostMode.["evidence"] in
  if is_undefined evidence then Ok (VObj normalized) else
  if negb (is_record evidence) then Throw (Err (js "host mode evidence must be an object")) else
  Ok (VObj (normalized ++ [(js "evidence",
    vobj [("logPath", evidence.["logPath"]); ("logSha256", evidence.["logSha256"])]%string)])).
Definition normalizeHostModes (hostModes : val) : result thrown (list (option val)) :=
  match hostModes with
  | VArr slots => map_slots normalizeHostMode slots
  | _ => Throw (Err (js "hostModes must contain both react-native and flutter"))
  end.

(** ** The record *)

(** The log and the artifacts of the input, which hold bytes; an artifact may be no
    object. *)
Record Source := { src_path : val; src_bytes : evidence_bytes }.
Definition artifact_slot : Type := option (val * Source).

Section record.
Context {host : Host}.

Definition native_artifact (kind path : val) (bytes : list Z) : val :=
  vobj [("kind", kind); ("path", path); ("sha256", VStr (sha256 bytes))]%string.
(** The kinds, the paths and the normalised artifacts so far. *)
Definition add_artifact (st : list jsstr * list jsstr * list val) (artifact : artifact_slot)
    : result thrown (list jsstr * list jsstr * list val) :=
  let '(kinds, paths, normalized) := st in
  match artifact with
  | None => Throw (Err (js "artifact must be an object"))
  | Some (kind, source) =>
      _ ← validateLabel kind (js "artifact kind");
      match kind with
      | VStr k =>
          if negb (re_match KIND k) then Throw (Err (js "artifact kind must be a sanitized label")) else
          match src_path source with
          | VStr p =>
              if negb (isSafeRelativePath (src_path source)) then Throw (Err (js "artifact path must be safe and relative")) else
              bytes ← validateBytes (src_bytes source) (js "artifact " ++ k ++ js " bytes");
              if set_has k kinds then Throw (Err (js "duplicate artifact kind " ++ k)) else
              if set_has p paths then Throw (Err (js "duplicate artifact path " ++ p)) else
              Ok (set_add k kinds, set_add p paths, normalized ++ [native_artifact kind (src_path source) bytes])
          | _ => Throw (Err (js "artifact path must be safe and relative"))
          end
      | _ => Throw (Err (js "artifact kind must be a bounded single-line label"))
      end
  end.
(** [None] is no array. *)
Definition validateArtifactInputs (artifacts : option (list artifact_slot)) : result thrown (list val) :=
  match artifacts with
  | Some l =>
      if (length l =? 0)%nat || (64 <? length l)%nat then Throw (Err (js "artifacts must contain one to 64 entries")) else
      '(kinds, _, normalized) ← DeviceEvidence.foldM add_artifact ([], [], []) l;
      match find (fun kind => negb (set_has kind kinds)) REQUIRED_NATIVE_ARTIFACT_KINDS with
      | Some kind => Throw (Err (js "artifacts must contain " ++ kind))
      | None => Ok normalized
      end
  | None => Throw (Err (js "artifacts must contain one to 64 entries"))
  end.
Definition native_device (input : val) : val := VObj
  ([(js "model", input.["model"]); (js "osVersion", input.["osVersion"]); (js "osBuild", input.["osBuild"]);
    (js "securityPatchLevel", input.["securityPatchLevel"])]
   ++ (if eq_str input.["platform"] (js "android") then [(js "apiLevel", input.["apiLevel"])] else [])).
Definition native_record (input : val) (gate : jsstr) (hostModes : list (option val)) (testCases logPath : val) (log : list Z)
    (artifacts : list val) : val := vobj
  [("schemaVersion", vnum 1); ("status", vstr "pass"); ("commit", input.["commit"]); ("gate", VStr gate);
   ("platform", input.["platform"]); ("framework", input.["framework"]); ("frameworkVersion", input.["frameworkVersion"]);
   ("hostModes", VArr hostModes); ("recordedAt", input.["recordedAt"]); ("physicalDevice", VBool true);
   ("device", native_device input); ("testCases", testCases); ("testEvidence", input.["testEvidence"]);
   ("sanitizedLogs", VBool true); ("logPath", logPath); ("logSha256", VStr (sha256 log)); ("artifacts", varr artifacts)]%string.
Definition native_options (commit : val) : DeviceEvidence.Options := {|
  DeviceEvidence.requirePhysicalDevice := true; DeviceEvidence.requireNativeHostModes := true;
  DeviceEvidence.requirePlatformSupport := true; DeviceEvidence.expectedCommit := commit;
  DeviceEvidence.expectedGate := VUndef; DeviceEvidence.expectedHostModeVersions := VUndef |}.
(** [throw new Error(findings.join("\n"))] *)
Definition no_findings (findings : list jsstr) : result thrown unit :=
  if (0 <? length findings)%nat then Throw (Err (join [10] findings)) else Ok tt.
(** The host modes, the log ([None]: no object) and the artifacts are given apart from
    the other members of the input. *)
Definition buildNativeDeviceEvidence (input hostModes : val) (log : option Source) (artifacts : option (list artifact_slot))
    : result thrown val :=
  if negb (is_record input) then Throw (Err (js "native evidence input must be an object")) else
  if negb (is_matching COMMIT input.["commit"]) then Throw (Err (js "commit must be a 40-character lowercase commit SHA")) else
  frameworks ← own FRAMEWORKS input.["platform"];
  match frameworks with
  | None => Throw (Err (js "platform must be ios or android"))
  | Some frameworks =>
      if negb (includes_str frameworks input.["framework"])
      then Throw (Err (js "framework is not supported for the selected platform")) else
      _ ← validateLabel input.["frameworkVersion"] (js "frameworkVersion");
      _ ← validateLabel input.["model"] (js "model");
      _ ← validateLabel input.["osVersion"] (js "osVersion");
      _ ← validateLabel input.["osBuild"] (js "osBuild");
      _ ← validateLabel input.["securityPatchLevel"] (js "securityPatchLevel");
      if eq_str input.["platform"] (js "android") && negb match input.["apiLevel"] with VNum n => is_safe_integer n | _ => false end
      then Throw (Err (js "apiLevel must be a safe integer for Android evidence")) else
      _ ← validateTimestamp input.["recordedAt"];
      hostModes ← normalizeHostModes hostModes;
      match log with
      | None => Throw (Err (js "log must be an object"))
      | Some log =>
          if negb (isSafeRelativePath (src_path log)) then Throw (Err (js "log path must be safe and relative")) else
          bytes ← validateBytes (src_bytes log) (js "log bytes");
          gate ← own GATES input.["platform"];
          testCases ← normalizeTestCases input.["testCases"];
          artifacts ← validateArtifactInputs artifacts;
          let record := native_record input (default [] gate) hostModes testCases (src_path log) bytes artifacts in
          findings ← lang (DeviceEvidence.validateDeviceEvidence (native_options input.["commit"]) record);
          _ ← no_findings findings;
          Ok record
      end
  end.

(** ** Reading *)

(** [realpath] has resolved every link, so that [lstat] of the result is [stat]. *)
Definition readEvidenceFile (root : jsstr) (relativePath : val) (field : jsstr) : result jsstr (list Z) :=
  filePath ← containedPath root relativePath field;
  link ← lstat_isSymbolicLink filePath;
  if (link : bool) then Throw (field ++ js " must resolve to a regular file") else
  stats ← statSync filePath;
  if negb (isFile stats) then Throw (field ++ js " must resolve to a regular file") else
  if size stats =? 0 then Throw (field ++ js " must not be empty") else
  if MAX_NATIVE_EVIDENCE_FILE_BYTES <? size stats
  then Throw (field ++ js " must not exceed " ++ dec MAX_NATIVE_EVIDENCE_FILE_BYTES ++ js " bytes") else
  readFileSync filePath.

(** The map from frameworks to log paths. *)
Definition add_host_log (pathsByFramework : list (jsstr * val)) (hostLog : val) : result thrown (list (jsstr * val)) :=
  match is_record hostLog, hostLog.["framework"] with
  | true, VStr framework =>
      match assoc framework pathsByFramework with
      | Some _ => Throw (Err (js "duplicate host mode log for " ++ framework))
      | None => Ok (pathsByFramework ++ [(framework, hostLog.["path"])])
      end
  | _, _ => Throw (Err (js "host mode log must contain a framework and path"))
  end.
Definition attach_log (root : jsstr) (pathsByFramework : list (jsstr * val)) (hostMode : val) : result thrown val :=
  match (match hostMode.["framework"] with VStr f => assoc f pathsByFramework | _ => None end) with
  | None => framework ← lang (to_string hostMode.["framework"]); Throw (Err (js "missing host mode log for " ++ framework))
  | Some logPath =>
      framework ← lang (to_string hostMode.["framework"]);
      bytes ← err (readEvidenceFile root logPath (framework ++ js " host mode log path"));
      Ok (VObj (assign_member (entries hostMode) (js "evidence")
        (vobj [("logPath", logPath); ("logSha256", VStr (sha256 bytes))]%string)))
  end.
Definition attachHostModeLogs (root : jsstr) (hostModes : list (option val)) (hostModeLogPaths : val)
    : result thrown (list (option val)) :=
  match hostModeLogPaths with
  | VUndef => Ok hostModes
  | VArr slots =>
      pathsByFramework ← DeviceEvidence.foldM add_host_log [] (iterated slots);
      let declared framework := existsb (fun hostMode => eq_str hostMode.["framework"] framework) (present hostModes).*2 in
      match find (fun entry => negb (declared entry.1)) pathsByFramework with
      | Some (framework, _) => Throw (Err (js "host mode log for " ++ framework ++ js " is not declared"))
      | None => map_slots (attach_log root pathsByFramework) hostModes
      end
  | _ => Throw (Err (js "hostModeLogPaths must be an array"))
  end.
Definition read_artifact (root : jsstr) (artifact : val) : result thrown (val * Source) :=
  if negb (is_record artifact) then Throw (Err (js "artifact path must be an object")) else
  kind ← lang (to_string artifact.["kind"]);
  bytes ← err (readEvidenceFile root artifact.["path"] (js "artifact " ++ kind ++ js " path"));
  Ok (artifact.["kind"], {| src_path := artifact.["path"]; src_bytes := ByteEvidence bytes |}).
Definition native_fragment_input (input record : val) (bytes : list Z) : FragmentInput := {|
  in_commit := input.["commit"]; in_packageVersion := input.["packageVersion"]; in_gateName := record.["gate"];
  in_evidencePath := input.["evidencePath"]; in_evidenceBytes := ByteEvidence bytes; in_toolchains := VUndef |}.
(** [writeNativeDeviceEvidence] before it writes. *)
Definition prepareNativeDeviceEvidence (input : val) : result thrown Prepared :=
  if negb (is_record input) then Throw (Err (js "native evidence input must be an object")) else
  match input.["root"] with
  | VStr ((_ :: _) as root) =>
      version ← lang (String_ input.["packageVersion"]);
      if negb (re_match VERSION version) then Throw (Err (js "packageVersion must be a semantic version")) else
      if negb (isSafeRelativePath input.["evidencePath"]) || negb (isSafeRelativePath input.["fragmentPath"])
      then Throw (Err (js "output paths must be safe and relative")) else
      if strict_eq input.["evidencePath"] input.["fragmentPath"]
      then Throw (Err (js "fragment output must not overwrite the evidence record")) else
      match input.["artifactPaths"] with
      | VArr artifactPaths =>
          bytes ← err (readEvidenceFile root input.["logPath"] (js "log path"));
          artifacts ← map_slots (read_artifact root) artifactPaths;
          hostModes ← normalizeHostModes input.["hostModes"];
          hostModes ← attachHostModeLogs root hostModes input.["hostModeLogPaths"];
          record ← buildNativeDeviceEvidence input (VArr hostModes)
            (Some {| src_path := input.["logPath"]; src_bytes := ByteEvidence bytes |}) (Some artifacts);
          fileFindings ← lang (DeviceFiles.verifyDeviceEvidenceFiles record root);
          _ ← no_findings fileFindings;
          evidenceBytes ← json_bytes record;
          fragment ← buildReleaseGateFragment (native_fragment_input input record evidenceBytes);
          Ok {| p_root := root; p_record := record; p_bytes := evidenceBytes; p_fragment := fragment |}
      | _ => Throw (Err (js "artifactPaths must be an array"))
      end
  | _ => Throw (Err (js "evidence root is required"))
  end.
End record.

(** ** The command *)

Record NativeOptions := {
  n_fields : list (jsstr * val);
  n_hostModes : option (list val);
  n_hostLogs : list val;
  n_artifacts : list val;
  n_testCases : list (jsstr * val);
  n_testEvidence : list (jsstr * val);
}.
Definition no_native_options : NativeOptions :=
  {| n_fields := []; n_hostModes := None; n_hostLogs := []; n_artifacts := []; n_testCases := []; n_testEvidence := [] |}.
(** The options whose value is a field. *)
Definition FIELD_OPTIONS : list (jsstr * jsstr) :=
  [(js "--platform", js "platform"); (js "--framework", js "framework"); (js "--framework-version", js "frameworkVersion");
   (js "--model", js "model"); (js "--os-version", js "osVersion"); (js "--os-build", js "osBuild");
   (js "--security-patch-level", js "securityPatchLevel"); (js "--api-level", js "apiLevel"); (js "--log", js "logPath")].
Definition NATIVE_OPTIONS : jsstr := js "options must use --platform, --framework, --framework-version, --host-mode, --host-log, --model, --os-version, --os-build, --security-patch-level, --api-level, --log, --artifact, --test-case, and --test-evidence".
Definition set_field (st : NativeOptions) (field : jsstr) (v : val) : NativeOptions :=
  {| n_fields := assign (n_fields st) field v; n_hostModes := n_hostModes st; n_hostLogs := n_hostLogs st;
     n_artifacts := n_artifacts st; n_testCases := n_testCases st; n_testEvidence := n_testEvidence st |}.
Definition add_host_mode (st : NativeOptions) (v : val) : NativeOptions :=
  {| n_fields := n_fields st; n_hostModes := Some (default [] (n_hostModes st) ++ [v]); n_hostLogs := n_hostLogs st;
     n_artifacts := n_artifacts st; n_testCases := n_testCases st; n_testEvidence := n_testEvidence st |}.
Definition add_log_path (st : NativeOptions) (v : val) : NativeOptions :=
  {| n_fields := n_fields st; n_hostModes := n_hostModes st; n_hostLogs := n_hostLogs st ++ [v];
     n_artifacts := n_artifacts st; n_testCases := n_testCases st; n_testEvidence := n_testEvidence st |}.
Definition add_artifact_path (st : NativeOptions) (v : val) : NativeOptions :=
  {| n_fields := n_fields st; n_hostModes := n_hostModes st; n_hostLogs := n_hostLogs st;
     n_artifacts := n_artifacts st ++ [v]; n_testCases := n_testCases st; n_testEvidence := n_testEvidence st |}.
Definition set_test_case (st : NativeOptions) (name : jsstr) : NativeOptions :=
  {| n_fields := n_fields st; n_hostModes := n_hostModes st; n_hostLogs := n_hostLogs st; n_artifacts := n_artifacts st;
     n_testCases := assign (n_testCases st) name (vstr "pass"); n_testEvidence := n_testEvidence st |}.
(** An array under the name [__proto__] becomes the prototype, which no test case is
    looked up in. *)
Definition set_test_evidence (st : NativeOptions) (name : jsstr) (paths : list jsstr) : NativeOptions :=
  {| n_fields := n_fields st; n_hostModes := n_hostModes st; n_hostLogs := n_hostLogs st; n_artifacts := n_artifacts st;
     n_testCases := n_testCases st; n_testEvidence := assign (n_testEvidence st) name (varr (map VStr paths)) |}.
Definition pair_option (value message : jsstr) : result jsstr (jsstr * jsstr) :=
  match name_value value with Some name_rest => Ok name_rest | None => Throw message end.
Definition native_option (st : NativeOptions) (option value : jsstr) : result jsstr NativeOptions :=
  match row FIELD_OPTIONS option with
  | Some field => Ok (set_field st field (if str_eqb option (js "--api-level") then VNum (Number_ value) else VStr value))
  | None =>
      if str_eqb option (js "--host-mode") then
        '(framework, version) ← pair_option value (js "host modes must use --host-mode framework=version");
        Ok (add_host_mode st (vobj [("framework", VStr framework); ("frameworkVersion", VStr version); ("status", vstr "pass")]%string))
      else if str_eqb option (js "--host-log") then
        '(framework, path) ← pair_option value (js "host logs must use --host-log framework=relative/path");
        Ok (add_log_path st (vobj [("framework", VStr framework); ("path", VStr path)]%string))
      else if str_eqb option (js "--test-case") then Ok (set_test_case st value)
      else if str_eqb option (js "--test-evidence") then
        '(testCase, rest) ← pair_option value (js "test evidence must use --test-evidence testCase=path[,path]");
        match nonempty (split 44 rest) with
        | [] => Throw (js "test evidence must include at least one path")
        | paths => Ok (set_test_evidence st testCase paths)
        end
      else if str_eqb option (js "--artifact") then
        '(kind, path) ← pair_option value (js "artifacts must use --artifact kind=relative/path");
        Ok (add_artifact_path st (vobj [("kind", VStr kind); ("path", VStr path)]%string))
      else Throw NATIVE_OPTIONS
  end.
Definition native_parseOptions : list jsstr -> result jsstr NativeOptions := parse_pairs native_option NATIVE_OPTIONS no_native_options.

Section command.
Context {disk : Disk} (checkout : Checkout).

Definition writeNativeDeviceEvidence (input : val) : io (val * val) :=
  o ← reading (fun s => @messages (observe s) _ (@prepareNativeDeviceEvidence (observe s) input));
  write_evidence (js "output path must be safe and relative") input.["evidencePath"] input.["fragmentPath"] o.
Definition native_input (root commit version evidencePath fragmentPath : jsstr) (o : NativeOptions) : val := VObj
  (map (fun '(k, v) => (js k, v))
    [("root", VStr root); ("commit", VStr commit); ("packageVersion", VStr version); ("evidencePath", VStr evidencePath);
     ("fragmentPath", VStr fragmentPath); ("recordedAt", VStr (now checkout)); ("testCases", fromEntries (n_testCases o));
     ("testEvidence", fromEntries (n_testEvidence o)); ("artifactPaths", varr (n_artifacts o));
     ("hostModeLogPaths", varr (n_hostLogs o))]%string
   ++ n_fields o
   ++ match n_hostModes o with Some l => [(js "hostModes", varr l)] | None => [] end).
Definition emit_native (rootArgument evidencePath fragmentPath : jsstr) (options : list jsstr) : io jsstr :=
  let root := resolve1 working_directory rootArgument in
  _ ← call (mkdirSync root);
  o ← reading (fun _ => native_parseOptions options);
  commit ← reading (fun _ => currentCommit (js "native evidence") checkout);
  version ← reading (fun s => @currentPackageVersion (observe s) checkout);
  _ ← writeNativeDeviceEvidence (native_input root commit version evidencePath fragmentPath o);
  mret (js "native device release evidence emitted: " ++ relative working_directory working_directory root).
Definition native_main (argv : list jsstr) (s : fs) : jsstr * Z * fs :=
  match argv with
  | ((_ :: _) as rootArgument) :: ((_ :: _) as evidencePath) :: ((_ :: _) as fragmentPath) :: options =>
      command (js "native device release evidence failed: ") (emit_native rootArgument evidencePath fragmentPath options) s
  | _ => (js "usage: node scripts/emit-native-device-evidence.mjs <evidence-root> <evidence-json> <fragment-json> --platform <ios|android> --framework <native|react-native|flutter> --framework-version <label> --host-mode <react-native|flutter>=<version> --host-log <react-native|flutter>=<relative/path> --model <label> --os-version <label> --os-build <label> --security-patch-level <version|YYYY-MM-DD> [--api-level <number>] --log <relative/path> --artifact <kind=relative/path> --test-case <name> --test-evidence <testCase=path[,path]>", 64, s)
  end.
End command.
