(* ===== verification/NativeEvidenceProps.v ===== *)
(** * Device evidence meets the release gate

    A record the native emitter prepares is well formed, its files are verified where
    they lie, and the release gate takes it exactly when the two things only the
    manifest knows agree: the pinned toolchains and the packaged native library. *)

From S2P Require Import Prelude JsNumber Regex JsValue JsDate JsText JsJson Host PathProps.
From S2P Require Import ContractsSpec PlatformSupportProps EvidenceSpec DeviceEvidenceProps DeviceRecord DeviceFilesProps DeviceClaims LsanProps.
From S2P Require Import ReleaseEvidence ReviewReport ReviewProps ReleaseProps ReleaseFiles ReleaseFilesProps ReleaseGateProps ReleaseClaims ReleaseSample.
From S2P Require Import FragmentProps EvidenceReader EvidenceReaderProps Disk EvidenceWriter CiEvidence EmitCommand NativeEvidence.
From S2P Require DeviceEvidence DeviceFiles.
From S2P Require ReleaseFragment.
Import ReleaseFragment (thrown, evidence_bytes, TextEvidence, ByteEvidence, OtherEvidence, in_gateName, in_evidencePath, in_evidenceBytes, gate_of, buildReleaseGateFragment).
Open Scope js_scope.

(** ** The parts of a record *)

Lemma map_slots_ok {A B} (f : A -> result thrown B) slots slots' (P : B -> Prop) :
  (forall a b, f a = Ok b -> P b) -> map_slots f slots = Ok slots' -> Forall (from_option P True) slots'.
Proof.
  intros Hf H%traverse_Ok. induction H as [|slot slot' slots slots' H _ IH]; constructor; [|done].
  destruct slot as [a|]; [|by apply Ok_inj in H as <-]. apply fmap_Ok in H as (b & Hb & ->). cbn. by eapply Hf.
Qed.
(** A normalised host mode: three members, and the evidence where there is some. *)
Definition Host_shape (v : val) : Prop := exists f ver s e,
  v = VObj ([(js "framework", f); (js "frameworkVersion", ver); (js "status", s)] ++
    match e with Some (p, h) => [(js "evidence", vobj [("logPath", p); ("logSha256", h)]%string)] | None => [] end).
Lemma normalizeHostMode_shape hm v : normalizeHostMode hm = Ok v -> Host_shape v.
Proof.
  unfold normalizeHostMode, Host_shape. cbv zeta. destruct (is_record hm); [|done]. cbn [negb].
  destruct (is_undefined _); [intros <-%Ok_inj; by eexists _, _, _, None|]. destruct (is_record hm.["evidence"]); [|done]. intros <-%Ok_inj.
  by exists hm.["framework"], hm.["frameworkVersion"], hm.["status"], (Some ((hm.["evidence"]).["logPath"], (hm.["evidence"]).["logSha256"])).
Qed.
Lemma normalizeHostModes_shape v slots : normalizeHostModes v = Ok slots -> Forall (from_option Host_shape True) slots.
Proof. unfold normalizeHostModes. destruct v; try done. apply map_slots_ok, normalizeHostMode_shape. Qed.

Section record.
Context {host : Host}.

Definition Artifact_shape (v : val) : Prop := exists k p bytes, v = native_artifact (VStr k) (VStr p) bytes.
Lemma add_artifact_shape st a st' : add_artifact st a = Ok st' -> Forall Artifact_shape st.2 -> Forall Artifact_shape st'.2.
Proof.
  destruct st as [[kinds paths] normalized], a as [[kind source]|]; cbn [add_artifact]; [|done]. intros ([] & _ & H)%bind_Ok.
  destruct kind as [| | | |k| | | | | |]; try done. destruct (re_match KIND k); [|done]. cbn [negb] in H.
  destruct (src_path source) as [| | | |p| | | | | |]; try done. destruct (isSafeRelativePath _); [|done]. cbn [negb] in H.
  apply bind_Ok in H as (bytes & _ & H). destruct (set_has k kinds); [done|]. destruct (set_has p paths); [done|].
  apply Ok_inj in H as <-. intros Hn. apply Forall_app. split; [done|]. constructor; [by exists k, p, bytes|constructor].
Qed.
Lemma validateArtifactInputs_shape l artifacts : validateArtifactInputs l = Ok artifacts -> Forall Artifact_shape artifacts.
Proof.
  unfold validateArtifactInputs. destruct l as [l|]; [|done]. destruct (_ || _); [done|]. intros ([[kinds paths] normalized] & H & Hn)%bind_Ok.
  destruct (find _ _); [done|]. apply Ok_inj in Hn as <-. change normalized with (kinds, paths, normalized).2.
  revert H. apply (foldM_inv add_artifact (fun _ st => Forall Artifact_shape st.2)); [constructor|].
  intros _ a st st' Hs H. by eapply add_artifact_shape.
Qed.
Lemma native_label v field : validateLabel v field = Ok tt -> is_string v = true.
Proof. unfold validateLabel. by destruct v. Qed.
Lemma no_findings_ok findings : no_findings findings = Ok tt -> findings = [].
Proof. by destruct findings. Qed.

(** What the builder established of its record. *)
Record Native_built (input record : val) : Prop := {
  nat_commit : matching COMMIT input.["commit"];
  nat_labels : Forall (fun k => is_string (get input (js k)) = true) ["model"; "osVersion"; "osBuild"; "securityPatchLevel"]%string;
  nat_api : eq_str input.["platform"] (js "android") = true -> exists n, input.["apiLevel"] = VNum n;
  nat_record : exists gate hostModes logPath log artifacts,
    row GATES (match input.["platform"] with VStr p => p | _ => [] end) = Some gate /\
    Forall (from_option Host_shape True) hostModes /\ Forall Artifact_shape artifacts /\
    record = native_record input gate hostModes (VObj (map (fun name => (name, vstr "pass")) NATIVE_TEST_CASES)) (VStr logPath) log artifacts;
  nat_wf : Evidence_wf (native_options input.["commit"]) record;
}.
Lemma buildNative_ok input hostModes log artifacts record :
  buildNativeDeviceEvidence input hostModes log artifacts = Ok record -> Native_built input record.
Proof.
  unfold buildNativeDeviceEvidence, is_matching. destruct (is_record input); [|done]. cbn [negb].
  destruct (PlatformSupport.is_matching COMMIT _) eqn:Hc; [|done]. cbn [negb]. intros (fws & Hfw & H)%bind_Ok.
  destruct fws as [fws|]; [|done]. destruct (includes_str _ _); [|done]. cbn [negb] in H.
  apply bind_Ok in H as ([] & Hv & H). apply bind_Ok in H as ([] & Hm & H). apply bind_Ok in H as ([] & Ho & H).
  apply bind_Ok in H as ([] & Hb & H). apply bind_Ok in H as ([] & Hp & H).
  destruct (_ && _) eqn:Hapi; [done|]. apply bind_Ok in H as ([] & Ht & H). apply bind_Ok in H as (modes & Hmodes & H).
  destruct log as [log|]; [|done]. destruct (isSafeRelativePath _) eqn:Hsafe; [|done]. cbn [negb] in H.
  apply bind_Ok in H as (bytes & _ & H). apply bind_Ok in H as (gate & Hg & H). apply bind_Ok in H as (tests & Htests & H).
  apply bind_Ok in H as (arts & Harts & H). apply bind_Ok in H as (findings & Hf & H). apply bind_Ok in H as ([] & Hnone & H%Ok_inj).
  apply no_findings_ok in Hnone as ->. destruct (DeviceEvidence.validateDeviceEvidence _ _) as [fs|] eqn:Ev in Hf; [|done].
  apply Ok_inj in Hf as ->. apply validateDeviceEvidence_wf in Ev. rewrite H in Ev.
  destruct (src_path log) as [| | | |logPath| | | | | |] eqn:El; try done.
  unfold normalizeTestCases in Htests. destruct (is_record input.["testCases"]); [|done]. cbn [negb] in Htests.
  destruct (find _ (keys _)); [done|]. destruct (find _ NATIVE_TEST_CASES); [done|]. apply Ok_inj in Htests as <-.
  constructor; [by apply is_matching_spec| | | |done].
  - repeat constructor; by eapply native_label.
  - intros Ha. rewrite Ha in Hapi. cbn [andb] in Hapi. destruct (input.["apiLevel"]); try done. by eexists.
  - destruct (ev_gate _ _ Ev) as (g & p & Hgate & Hplat & _). rewrite <- H in Hgate, Hplat.
    change (VStr (default [] gate) = VStr g) in Hgate. change (input.["platform"] = VStr p) in Hplat.
    unfold own in Hg. rewrite Hplat in Hg. cbn in Hg. apply Ok_inj in Hg. unfold own in Hfw. rewrite Hplat in Hfw. cbn in Hfw. apply Ok_inj in Hfw.
    exists (default [] gate), modes, logPath, bytes, arts. rewrite Hplat. split_and!; [|by eapply normalizeHostModes_shape|by eapply validateArtifactInputs_shape|done].
    unfold row in *. cbn [find GATES FRAMEWORKS fst] in *. by repeat (destruct (str_eqb _ p); [by rewrite <- Hg|]).
Qed.

(** ** No secrets *)

Lemma native_platform input record : Native_built input record ->
  (record.["platform"] = vstr "ios" /\ record.["gate"] = vstr "ios-device-matrix" \/
   record.["platform"] = vstr "android" /\ record.["gate"] = vstr "android-device-matrix") /\
  DeviceEvidence.isNativePlatform record = true.
Proof.
  intros [_ _ _ (gate & hostModes & logPath & log & artifacts & Hg & _ & _ & ->) _]. unfold DeviceEvidence.isNativePlatform.
  change ((native_record _ _ _ _ _ _ _).["platform"]) with (input.["platform"]).
  change ((native_record _ _ _ _ _ _ _).["gate"]) with (VStr gate).
  destruct (input.["platform"]) as [| | | |p| | | | | |]; try done. unfold row in Hg. cbn [find GATES fst] in Hg.
  destruct (str_eqb (js "ios") p) eqn:E; [apply str_eqb_eq in E as <-; injection Hg as <-; split; [by left|done]|].
  destruct (str_eqb (js "android") p) eqn:E'; [|done]. apply str_eqb_eq in E' as <-. injection Hg as <-. split; [by right|done].
Qed.
Lemma leaf_string v : is_string v = true -> forall bad, free_of bad v.
Proof. intros H bad. apply free_of_leaf. by destruct v. Qed.
Lemma text_string v : text_val v -> is_string v = true.
Proof. by intros (s & -> & _). Qed.
Lemma path_string v : path_val v -> is_string v = true.
Proof. by intros (s & -> & _). Qed.
Lemma matching_string r v : matching r v -> is_string v = true.
Proof. by intros (s & -> & _). Qed.
Lemma one_of_string l v : one_of l v -> is_string v = true.
Proof. by intros (s & -> & _). Qed.
Definition native_keys : list String.string :=
  ["schemaVersion"; "status"; "commit"; "gate"; "platform"; "framework"; "frameworkVersion"; "hostModes"; "recordedAt"; "physicalDevice";
   "device"; "model"; "osVersion"; "osBuild"; "securityPatchLevel"; "apiLevel"; "testCases"; "testEvidence"; "sanitizedLogs"; "logPath";
   "logSha256"; "artifacts"; "kind"; "path"; "sha256"; "evidence"]%string.
Lemma assoc_elem_of ps k w : NoDup ps.*1 -> (k, w) ∈ ps -> assoc k ps = Some w.
Proof.
  induction ps as [|[k' w'] ps IH]; [by intros _ ?%not_elem_of_nil|]. cbn [fmap list_fmap fst assoc].
  intros [Hk Hd]%NoDup_cons [[= <- <-]|H]%elem_of_cons; [by rewrite str_eqb_refl|]. destruct (str_eqb k k') eqn:E; [|by apply IH].
  apply str_eqb_eq in E as ->. destruct Hk. apply (list_elem_of_fmap_2 fst _ _ H).
Qed.
Section free.
Context (bad : jsstr -> bool) (Hkeys : Forall (fun k => bad (js k) = false) native_keys) (Htests : Forall (fun k => bad k = false) NATIVE_TEST_CASES).

Lemma native_key k : k ∈ native_keys -> bad (js k) = false.
Proof. rewrite Forall_forall in Hkeys. apply Hkeys. Qed.
Ltac key := apply native_key; apply (bool_decide_unpack _); by vm_compute.
Lemma host_free req versions v : Host_shape v -> HostMode_wf req versions v -> free_of bad v.
Proof.
  intros (f & ver & s & e & ->) [_ _ Hf Hv _ Hs He]. change (one_of (map js ["native"; "react-native"; "flutter"]%string) f) in Hf.
  change (text_val ver) in Hv. change (s = vstr "pass") in Hs. apply free_of_obj. apply one_of_string in Hf. apply text_string in Hv. subst s.
  apply Forall_app. split; [repeat constructor; try key; by apply leaf_string|]. destruct e as [[p h]|]; [|constructor].
  constructor; [|constructor]. split; [key|]. destruct He as [[He _]|(_ & _ & Hp%path_string & Hh%matching_string)]; [done|].
  change (is_string p = true) in Hp. change (is_string h = true) in Hh. apply free_of_obj. repeat constructor; try key; by apply leaf_string.
Qed.
Lemma artifact_free v : Artifact_shape v -> free_of bad v.
Proof. intros (k & p & bytes & ->). apply free_of_obj. repeat constructor; try key; by apply leaf_string. Qed.
Lemma test_evidence_free v citable pairs :
  NoDup (keys v) -> keys_within v NATIVE_TEST_CASES -> Forall (Test_ok citable pairs v) NATIVE_TEST_CASES -> free_of bad v.
Proof.
  intros Hd Hk Ht. destruct v as [| | | | | | | |l|ps|]; try by apply free_of_leaf.
  { exfalso. apply Forall_cons in Ht as [(ps & Hp & _) _]. discriminate Hp. }
  apply free_of_obj, Forall_forall. intros [k w] Hin. assert (Hkin : k ∈ NATIVE_TEST_CASES) by (apply Hk, (list_elem_of_fmap_2 fst _ _ Hin)).
  cbn. rewrite Forall_forall in Htests, Ht. split; [by apply Htests|]. destruct (Ht k Hkin) as (paths & Hp & _).
  assert (Hw : get (VObj ps) k = w). { cbn [get]. by rewrite (assoc_elem_of ps k w Hd Hin). }
  rewrite <- Hw, Hp. apply free_of_arr, Forall_forall. intros o Ho. apply list_elem_of_fmap in Ho as (p & -> & _). by apply free_of_leaf.
Qed.
Lemma native_free input record : NoDup (keys input.["testEvidence"]) -> Native_built input record -> free_of bad record.
Proof.
  intros Hd Hb. pose proof (native_platform _ _ Hb) as [Hplat Hnative].
  destruct Hb as [(co & Hco & _) Hlabels Hapi (gate & hostModes & logPath & log & artifacts & Hg & Hhosts & Harts & ->) Hwf].
  destruct Hwf as [_ _ _ _ _ (g & p & _ & Hp & _ & Hf & _) Hfv Hh [Hrec _] _ _ _ _ _ _ _ Hphys].
  specialize (Hh Hnative). destruct Hh as [[? _]|(slots & [= <-] & _ & Hmodes & _)]; [done|].
  destruct (Hphys Hnative) as (_ & _ & _ & _ & Hwithin & Htest).
  change (input.["platform"] = VStr p) in Hp. apply one_of_string in Hf. change (is_string input.["framework"] = true) in Hf.
  apply text_string in Hfv, Hrec. change (is_string input.["frameworkVersion"] = true) in Hfv. change (is_string input.["recordedAt"] = true) in Hrec.
  unfold native_record, vobj. apply free_of_obj. rewrite Hco, Hp.
  repeat (apply List.Forall_cons; [split; [key|]; first [by apply free_of_leaf|by apply leaf_string|idtac]|]); [..|constructor].
  - apply free_of_arr, Forall_forall. intros [hm|] Ho; [|done]. rewrite Forall_forall in Hhosts. rewrite Forall_forall in Hmodes.
    eapply host_free; [by apply (Hhosts (Some hm))|]. apply Hmodes. unfold iterated. apply list_elem_of_fmap. by exists (Some hm).
  - unfold native_device. apply free_of_obj. apply Forall_app. split.
    + apply Forall_cons in Hlabels as [H1 [H2 [H3 [H4 _]%Forall_cons]%Forall_cons]%Forall_cons].
      repeat constructor; try key; by apply leaf_string.
    + destruct (eq_str _ _) eqn:E; [|constructor]. destruct (Hapi eq_refl) as [n ->]. constructor; [|constructor]. split; [key|by apply free_of_leaf].
  - apply free_of_obj, Forall_forall. intros kv Hkv. apply list_elem_of_fmap in Hkv as (k & -> & Hk). cbn.
    rewrite Forall_forall in Htests. split; [by apply Htests|by apply free_of_leaf].
  - by eapply test_evidence_free.
  - apply free_of_arr, Forall_forall. intros o Ho. apply list_elem_of_fmap in Ho as (a & -> & Ha). cbn. apply artifact_free.
    rewrite Forall_forall in Harts. by apply Harts.
Qed.
End free.
End record.

(** ** The gate *)

Section gate.
Context {host : Host} (laws : HostLaws host).
Context (hex_digests : forall bytes, matches SHA256 (sha256 bytes)).
Context (json_dense : forall text record, JSON_parse text = Ok record -> dense record).

(** Every host mode has the version the manifest pins for its framework. *)
Definition pinned_versions (toolchains : val) : val :=
  if is_record toolchains
  then vobj [("react-native", toolchains.["reactNative"]); ("flutter", toolchains.["flutter"])]%string else VUndef.
Definition Versions_pinned (toolchains record : val) : Prop :=
  Forall (fun hm => version_pinned (pinned_versions toolchains) hm.["framework"] hm.["frameworkVersion"])
    (iterated (slots_of record.["hostModes"])).
Lemma host_mode_pinned req versions hm :
  HostMode_wf req versions hm <-> HostMode_wf req VUndef hm /\ version_pinned versions hm.["framework"] hm.["frameworkVersion"].
Proof.
  split; [intros [? ? ? ? ? ? ?]|intros [[? ? ? ? ? ? ?] ?]]; [split; [constructor; try done|done]|by constructor].
Qed.
Lemma device_evidence_pinned gate toolchains policy commit record :
  gate.["commit"] = commit -> gate.["name"] = record.["gate"] -> policy_physical policy = true ->
  DeviceEvidence.isNativePlatform record = true -> Evidence_wf (native_options commit) record ->
  Evidence_wf (device_options gate toolchains policy) record <-> Versions_pinned toolchains record.
Proof.
  intros Hc Hn Hp Hnative Hwf. destruct policy as [platform physical]. cbn in Hp. subst physical. unfold Versions_pinned.
  change (pinned_versions toolchains) with
    (DeviceEvidence.expectedHostModeVersions (device_options gate toolchains {| policy_platform := platform; policy_physical := true |})).
  set (options := device_options gate toolchains _). split.
  - intros H. destruct (ev_hosts _ _ H Hnative) as [[_ ?]|(slots & Hs & _ & Hm & _)]; [done|]. rewrite Hs. cbn [slots_of].
    eapply Forall_impl; [exact Hm|]. by intros hm [? ?]%host_mode_pinned.
  - intros Hpin. destruct Hwf as [? ? ? ? (c & Hcommit & Hm & Hec) (g & p & Hg & Hpl & Ha & Hf & _) ? Hh ? ? ? ? ? ? ? ? ?].
    constructor; try done.
    + exists c. split_and!; [done|done|]. cbn in Hec |- *. by rewrite Hc.
    + exists g, p. split_and!; try done. right. cbn. by rewrite Hn.
    + intros _. right. destruct (Hh Hnative) as [[_ ?]|(slots & Hs & Hl & Hmodes & Hrest)]; [done|]. exists slots. split; [done|]. split; [done|]. split; [|exact Hrest].
      rewrite Hs in Hpin. cbn [slots_of] in Hpin. rewrite Forall_forall in Hpin, Hmodes |- *.
      intros hm Hhm. apply host_mode_pinned. split; [by apply Hmodes|by apply Hpin].
Qed.
Lemma prepare_native_ok input o : prepareNativeDeviceEvidence input = Ok o ->
  input.["root"] = VStr (p_root o) /\
  Native_built input (p_record o) /\ Forall (Ref_ok (p_root o)) (DeviceFiles.references (p_record o)) /\
  json_bytes (p_record o) = Ok (p_bytes o) /\
  buildReleaseGateFragment (native_fragment_input input (p_record o) (p_bytes o)) = Ok (p_fragment o) /\
  strict_eq input.["evidencePath"] input.["fragmentPath"] = false.
Proof.
  unfold prepareNativeDeviceEvidence. destruct (is_record input); [|done]. cbn [negb].
  destruct (input.["root"]) as [| | | |[|c root]| | | | | |]; try done. intros (version & _ & H)%bind_Ok.
  destruct (re_match VERSION version); [|done]. cbn [negb] in H. destruct (_ || _); [done|]. destruct (strict_eq _ _) eqn:Es; [done|].
  destruct (input.["artifactPaths"]) as [| | | | | | | |slots| |]; try done. apply bind_Ok in H as (bytes & _ & H).
  apply bind_Ok in H as (artifacts & _ & H). apply bind_Ok in H as (modes & _ & H). apply bind_Ok in H as (modes' & _ & H).
  apply bind_Ok in H as (record & Hr & H). apply bind_Ok in H as (findings & Hf & H). apply bind_Ok in H as ([] & Hn & H).
  apply bind_Ok in H as (evidence & He & H). apply bind_Ok in H as (f & Hfr & <-%Ok_inj). cbn.
  apply no_findings_ok in Hn as ->. destruct (DeviceFiles.verifyDeviceEvidenceFiles _ _) as [fs|] eqn:Ev in Hf; [|done]. apply Ok_inj in Hf as ->.
  apply verifyDeviceEvidenceFiles_wf in Ev as [_ Hrefs]; [|done]. split_and!; try done. by eapply buildNative_ok.
Qed.

End gate.
