(* ===== verification/EmitCommandProps.v ===== *)
(** * What the emitter commands do

    Whatever happens, an emitter changes no file that could be read; with exit code 0 it
    wrote a record and a fragment that binds its bytes, for the gate and paths given and
    the commit checked out, in two new files. *)

From S2P Require Import Prelude JsNumber Regex JsValue JsText JsJson Host PathProps.
From S2P Require Import ContractsSpec PlatformSupportProps EvidenceSpec DeviceFilesProps ReleaseEvidence ReleaseProps ReleaseFilesProps.
From S2P Require Import FragmentProps EvidenceReader EvidenceReaderProps Disk EvidenceWriter CiEvidence.
From S2P Require Import EmitCommand WebEvidence WebEvidenceProps NativeEvidence NativeEvidenceProps.
From S2P Require ReleaseFragment.
Import ReleaseFragment (in_commit, in_packageVersion, in_evidenceBytes, ByteEvidence, fragment_of, gate_of, bounded_bytes_ok, buildReleaseGateFragment).
Open Scope js_scope.

(** The checkout is clean and at a commit. *)
Definition At_commit (checkout : Checkout) (commit : jsstr) : Prop :=
  matches COMMIT commit /\ (exists status, git_status checkout = Ok status /\ trim status = []) /\
  exists head, git_head checkout = Ok head /\ trim head = commit.
Lemma currentCommit_ok what checkout commit : currentCommit what checkout = Ok commit <-> At_commit checkout commit.
Proof.
  unfold currentCommit, At_commit. split.
  - intros (status & Hs & H)%bind_Ok. destruct (trim status) eqn:Et; [|done]. apply bind_Ok in H as (head & Hh & H). cbv zeta in H.
    destruct (re_match COMMIT (trim head)) eqn:Em; [|done]. apply Ok_inj in H as <-. apply re_match_correct in Em. by eauto 10.
  - intros (Hm & (status & Hs & Et) & head & Hh & <-). rewrite Hs. cbn [mbind result_bind]. rewrite Et, Hh. cbn [mbind result_bind].
    apply re_match_correct in Hm. by rewrite Hm.
Qed.

Section emit.
Context {disk : Disk} (laws : DiskLaws disk) (host_laws : forall s, HostLaws (observe s)) (checkout : Checkout).

(** A finished emission of [o] for [gate], prepared in the state [s1]: the record is of
    the gate, the commit checked out and the time of the run; the fragment is of that
    commit and the checkout's version, and its one gate binds the record's bytes, which
    are the record's text; both are in new files at [e] and [f] below the root. *)
Record Emission (s s' s1 : fs) (rootArgument gate e f commit version : jsstr) (o : Prepared) : Prop := {
  emission_root : p_root o = resolve1 working_directory rootArgument;
  emission_checkout : At_commit checkout commit /\ @currentPackageVersion (observe s1) checkout = Ok version;
  emission_record : (p_record o).["commit"] = VStr commit /\ (p_record o).["gate"] = VStr gate /\
    (p_record o).["status"] = vstr "pass" /\ (p_record o).["recordedAt"] = VStr (now checkout);
  emission_bytes : json_bytes (p_record o) = Ok (p_bytes o);
  emission_fragment : (p_fragment o).["commit"] = VStr commit /\ (p_fragment o).["packageVersion"] = VStr version /\
    gates (p_fragment o) = [vobj [("name", VStr gate); ("commit", VStr commit); ("status", vstr "pass");
      ("evidencePath", VStr e); ("sha256", VStr (@sha256 (observe s1) (p_bytes o)))]%string];
  emission_files : preserves s s1 /\ Emitted_files s1 s' (VStr e) (VStr f) o;
}.
(** The arguments of the three commands: the evidence root, the record's path, the
    fragment's, and the gate, which only the CI command is given. *)
Inductive Invoked : (list jsstr -> fs -> jsstr * Z * fs) -> list jsstr -> jsstr -> jsstr -> jsstr -> jsstr -> Prop :=
  | Invoked_ci root gate e f options : Invoked (ci_main checkout) (root :: gate :: e :: f :: options) root gate e f
  | Invoked_web root e f options : Invoked (web_main checkout) (root :: e :: f :: options) root (js "web-browser-matrix") e f
  | Invoked_native root gate e f options : gate ∈ map js ["ios-device-matrix"; "android-device-matrix"]%string ->
      Invoked (native_main checkout) (root :: e :: f :: options) root gate e f.

Lemma fragment_binds {host : Host} input bytes f :
  in_evidenceBytes input = ByteEvidence bytes -> buildReleaseGateFragment input = Ok f ->
  f.["commit"] = in_commit input /\ f.["packageVersion"] = in_packageVersion input /\ gates f = [gate_of input bytes].
Proof.
  intros Hb H. unfold buildReleaseGateFragment in H.
  repeat (destruct (negb _) in H; [done || by apply bind_Ok in H as (? & _ & ?)|]).
  apply bind_Ok in H as (bs & Hbs & H). rewrite Hb in Hbs. apply bounded_bytes_ok in Hbs as [-> _].
  apply bind_Ok in H as (record & _ & H). apply bind_Ok in H as (findings & _ & H).
  destruct (0 <? length findings)%nat; [done|]. apply bind_Ok in H as (toolchains & _ & <-%Ok_inj).
  split; [apply fragment_commit|]. split; [by unfold fragment_of; destruct (is_undefined toolchains)|apply fragment_gates].
Qed.
Lemma mkdir_then {A} p (k : unit -> io A) s r s' : (call (mkdirSync p) ≫= k) s = (Ok r, s') ->
  exists s1, preserves s s1 /\ k tt s1 = (Ok r, s').
Proof.
  intros ([] & s1 & Hm%call_ok & H)%io_bind_ok. exists s1. split; [|done]. pose proof (mkdir_keeps laws p s) as Hk. by rewrite Hm in Hk.
Qed.

Lemma emit_ci_emission root gate e f options s line s' :
  emit_ci checkout root gate e f options s = (Ok line, s') ->
  exists s1 commit version o, Emission s s' s1 root gate e f commit version o.
Proof.
  unfold emit_ci. cbv zeta. intros (s1 & Hk & H)%mkdir_then. apply io_bind_ok in H as (opts & s2 & [_ ->]%reading_ok & H).
  apply io_bind_ok in H as (commit & s2 & [Hc%currentCommit_ok ->]%reading_ok & H).
  apply io_bind_ok in H as (version & s2 & [Hv ->]%reading_ok & H). apply io_bind_ok in H as ([record fragment] & s2 & H & Hr).
  injection Hr as _ <-. set (input := Build_CiInput _ _ _ _ _ _ _ _ _ _) in H.
  destruct (writeCiGateEvidence_writes laws input s1 record fragment s2 H) as (o & sm & p & q & Ho & -> & -> & Hp & Hq & Hne & Hcp).
  apply (@prepare_ok (observe s1)) in Ho as (Hroot & Hb & Hbytes & Hf & Hfb & _).
  exists s1, commit, version, {| p_root := out_root o; p_record := out_record o; p_bytes := out_bytes o; p_fragment := out_fragment o |}.
  apply (@fragment_binds (observe s1) _ (out_bytes o)) in Hf as (Hfc & Hfv & Hfg); [|done].
  destruct (built_checks _ _ Hb) as (slots & _ & _ & Hrec). constructor; cbn [p_root p_record p_bytes p_fragment]; rewrite ?Hrec; try done.
  - by injection Hroot.
  - by rewrite <- Hrec.
  - split; [done|]. constructor. exists sm, p, q, (out_fragment_bytes o). split_and!; try done. by eapply Written_content.
Qed.
Lemma emit_web_emission root e f options s line s' :
  emit_web checkout root e f options s = (Ok line, s') ->
  exists s1 commit version o, Emission s s' s1 root (js "web-browser-matrix") e f commit version o.
Proof.
  unfold emit_web. cbv zeta. intros (s1 & Hk & H)%mkdir_then. apply io_bind_ok in H as (opts & s2 & [_ ->]%reading_ok & H).
  apply io_bind_ok in H as (expected & s2 & [_ ->]%reading_ok & H). destruct (eq_str _ _); [|done]. cbn [negb] in H.
  apply io_bind_ok in H as (commit & s2 & [Hc%currentCommit_ok ->]%reading_ok & H).
  apply io_bind_ok in H as (version & s2 & [Hv ->]%reading_ok & H). apply io_bind_ok in H as (r & s2 & H & Hr). injection Hr as _ <-.
  unfold writeWebBrowserEvidence in H. apply io_bind_ok in H as (o & s3 & [Ho ->]%reading_ok & H).
  apply (proj1 (messages_ok (host := observe s1) _ _)) in Ho.
  apply (@prepare_web_ok (observe s1)) in Ho as (Hroot & (logs & _ & Hb) & Hbytes & Hf & _).
  apply (write_evidence_ok laws) in H as [_ H]. exists s1, commit, version, o.
  apply (@fragment_binds (observe s1) _ (p_bytes o)) in Hf as (Hfc & Hfv & Hfg); [|done].
  destruct (web_record_is _ _ _ Hb) as (first & rest & _ & Hrec). constructor; try done.
  - by injection Hroot.
  - by rewrite Hrec.
Qed.
Lemma native_gates platform gate : row GATES platform = Some gate -> gate ∈ map js ["ios-device-matrix"; "android-device-matrix"]%string.
Proof.
  unfold row, GATES. cbn [find fst]. destruct (str_eqb _ _); [intros [= <-]; by left|].
  destruct (str_eqb _ _); [intros [= <-]; by right; left|done].
Qed.
Lemma emit_native_emission root e f options s line s' :
  emit_native checkout root e f options s = (Ok line, s') ->
  exists s1 gate commit version o, gate ∈ map js ["ios-device-matrix"; "android-device-matrix"]%string /\
    Emission s s' s1 root gate e f commit version o.
Proof.
  unfold emit_native. cbv zeta. intros (s1 & Hk & H)%mkdir_then. apply io_bind_ok in H as (opts & s2 & [_ ->]%reading_ok & H).
  apply io_bind_ok in H as (commit & s2 & [Hc%currentCommit_ok ->]%reading_ok & H).
  apply io_bind_ok in H as (version & s2 & [Hv ->]%reading_ok & H). apply io_bind_ok in H as (r & s2 & H & Hr). injection Hr as _ <-.
  unfold writeNativeDeviceEvidence in H. apply io_bind_ok in H as (o & s3 & [Ho ->]%reading_ok & H).
  apply (proj1 (messages_ok (host := observe s1) _ _)) in Ho.
  apply (prepare_native_ok (host_laws s1)) in Ho as (Hroot & Hb & _ & Hbytes & Hf & _).
  apply (write_evidence_ok laws) in H as [_ H].
  apply (@fragment_binds (observe s1) _ (p_bytes o)) in Hf as (Hfc & Hfv & Hfg); [|done].
  destruct (nat_record _ _ Hb) as (gate & modes & lp & log & arts & Hgate%native_gates & _ & _ & Hrec).
  exists s1, gate, commit, version, o. split; [done|]. constructor; try done.
  - by injection Hroot.
  - by rewrite Hrec.
  - split_and!; [done..|]. rewrite Hfg. unfold native_fragment_input. by rewrite Hrec.
Qed.
Lemma emit_ci_keeps root gate e f options : keeps preserves (emit_ci checkout root gate e f options).
Proof. pose proof (mkdir_keeps laws). unfold emit_ci, writeCiGateEvidence. solve_keeps. Qed.
Lemma emit_web_keeps root e f options : keeps preserves (emit_web checkout root e f options).
Proof. pose proof (mkdir_keeps laws). unfold emit_web, writeWebBrowserEvidence. solve_keeps. Qed.
Lemma emit_native_keeps root e f options : keeps preserves (emit_native checkout root e f options).
Proof. pose proof (mkdir_keeps laws). unfold emit_native, writeNativeDeviceEvidence. solve_keeps. Qed.
Lemma emit_gate_keeps root out gate e options : keeps preserves (emit_gate checkout root out gate e options).
Proof. unfold emit_gate, writeFragment, realpath. solve_keeps. Qed.

(** C23. The emitters are exclusive and bound to the checkout: the CI, browser and device
    commands never change a file that could be read, whatever their exit code; when the
    code is 0, the checkout was clean and at a commit; below the evidence root that was
    given, two files that did not exist before hold the text of the record, at the path
    given for it, and of the fragment; the record names the gate - the one given, the
    browser matrix, or the matrix of a device platform -, the commit checked out and the
    time of the run; and the fragment names the commit and the version of the checkout,
    its one gate the gate, the commit, the record's path and the digest of the bytes
    written there. *)
Theorem emitters_exclusive main argv s line code s' :
  main ∈ [ci_main checkout; web_main checkout; native_main checkout] ->
  main argv s = (line, code, s') ->
  preserves s s' /\ (code = 0 -> exists root gate e f s1 commit version o,
    Invoked main argv root gate e f /\ Emission s s' s1 root gate e f commit version o).
Proof.
  intros Hmain.
  assert (Husage : forall (P : Prop) usage, (usage, 64, s) = (line, code, s') -> preserves s s' /\ (code = 0 -> P)).
  { intros P usage H. injection H as _ <- <-. by split. }
  apply elem_of_cons in Hmain as [->|[->|[->|[]%not_elem_of_nil]%elem_of_cons]%elem_of_cons].
  - unfold ci_main at 1. destruct argv as [|[|a root] [|[|b gate] [|[|c e] [|[|d f] options]]]]; try apply Husage.
    intros [Hp H]%command_runs; [|apply emit_ci_keeps]. split; [done|]. intros (s1 & commit & version & o & Ho)%H%emit_ci_emission.
    exists (a :: root), (b :: gate), (c :: e), (d :: f), s1, commit, version, o. split; [constructor|done].
  - unfold web_main at 1. destruct argv as [|[|a root] [|[|c e] [|[|d f] options]]]; try apply Husage.
    intros [Hp H]%command_runs; [|apply emit_web_keeps]. split; [done|]. intros (s1 & commit & version & o & Ho)%H%emit_web_emission.
    eexists (a :: root), _, (c :: e), (d :: f), s1, commit, version, o. split; [constructor|done].
  - unfold native_main at 1. destruct argv as [|[|a root] [|[|c e] [|[|d f] options]]]; try apply Husage.
    intros [Hp H]%command_runs; [|apply emit_native_keeps]. split; [done|].
    intros (s1 & gate & commit & version & o & Hg & Ho)%H%emit_native_emission.
    exists (a :: root), gate, (c :: e), (d :: f), s1, commit, version, o. split; [by constructor|done].
Qed.
End emit.
