(* ===== verification/SignedEvidence.v ===== *)
(** * scripts/emit-signed-release-evidence.mjs

    The gate record of a signed bundle, built only when the detached signature verifies
    over the bytes found, the complete fragment around it, and the command; and the
    command of scripts/emit-signed-release-fragment.mjs. *)

From S2P Require Import Prelude JsNumber Regex JsValue JsDate JsText JsJson Host ReleaseEvidence ReleaseFragment Disk.
From S2P Require Import EvidenceReader EvidenceWriter EmitCommand.
From S2P Require LsanEvidence ReleaseFiles CiEvidence.
Open Scope js_scope.

Definition MAX_RELEASE_ARTIFACT_BYTES : Z := 512 * 1024 * 1024.
Definition MAX_PUBLIC_KEY_BYTES : Z := 1024.
Definition ED25519_SIGNATURE_BYTES : Z := 64.

(** ** Reading the signed files *)

Section read.
Context {host : Host}.

(** [lstat] says a regular file; of what is no link it says what [stat] says. *)
Definition lstat_isFile (p : jsstr) : result jsstr bool :=
  link ← lstat_isSymbolicLink p;
  if (link : bool) then Ok false else stats ← statSync p; Ok (isFile stats).
(** The scripts for signatures and reviews share all but what becomes of an error of
    [lstat]. *)
Definition regularPath (root : jsstr) (relativePath : val) (field : jsstr) (unreadable : jsstr -> jsstr) : result jsstr jsstr :=
  match relativePath with
  | VStr rel =>
      if negb (isSafeRelativePath relativePath) then Throw (field ++ js " must be a safe relative path") else
      realRoot ← realpathSync root;
      let absolutePath := resolve2 cwd realRoot rel in
      link ← pathHasSymlinkComponent realRoot absolutePath;
      if (link : bool) then Throw (field ++ js " must not resolve through symbolic links") else
      if ReleaseFiles.outside (relative cwd realRoot absolutePath)
      then Throw (field ++ js " must resolve inside the evidence root") else
      match lstat_isFile absolutePath with
      | Ok true => Ok absolutePath
      | Ok false => Throw (field ++ js " must reference a regular file")
      | Throw message => Throw (unreadable message)
      end
  | _ => Throw (field ++ js " must be a safe relative path")
  end.
(** The bytes of the file, by the size [stat] gives. *)
Definition readSized (field : jsstr) (maximumBytes : Z) (absolutePath : jsstr) : result jsstr (list Z) :=
  stats ← statSync absolutePath;
  if size stats =? 0 then Throw (field ++ js " must not be empty") else
  if maximumBytes <? size stats then Throw (field ++ js " must not exceed " ++ dec maximumBytes ++ js " bytes") else
  readFileSync absolutePath.
Definition containedPath (root : jsstr) (relativePath : val) (field : jsstr) : result jsstr jsstr :=
  regularPath root relativePath field (fun message => field ++ js " could not be read: " ++ message).
Definition readArtifact (root : jsstr) (relativePath : val) (field : jsstr) (maximumBytes : Z) : result jsstr (list Z) :=
  absolutePath ← containedPath root relativePath field;
  readSized field maximumBytes absolutePath.

(** ** The record *)

Definition validateCommit (commit : val) : result jsstr unit :=
  if negb (is_matching COMMIT commit) then Throw (js "commit must be a 40-character lowercase commit SHA") else Ok tt.
Definition validatePackageVersion (packageVersion : val) : result jsstr unit :=
  if negb (is_matching VERSION packageVersion) then Throw (js "packageVersion must be a semantic version") else Ok tt.
(** [Date.parse] is tested before [toISOString] could throw. *)
Definition validateTimestamp (recordedAt : val) : result jsstr unit :=
  match CiEvidence.validateTimestamp recordedAt with
  | Ok _ => Ok tt
  | Throw _ => Throw (js "recordedAt must be an ISO-8601 UTC timestamp")
  end.
Definition signed_record (input recordedAt : val) (bundle signature publicKeyDer : list Z) : val := vobj
  [("schemaVersion", vnum 1); ("gate", vstr "signed-release"); ("status", vstr "pass"); ("evidenceKind", vstr "signed-release");
   ("recordedAt", recordedAt); ("commit", input.["commit"]); ("packageVersion", input.["packageVersion"]);
   ("algorithm", vstr "ed25519"); ("bundlePath", input.["bundlePath"]); ("bundleSha256", VStr (sha256 bundle));
   ("signaturePath", input.["signaturePath"]); ("signatureSha256", VStr (sha256 signature));
   ("publicKeyPath", input.["publicKeyPath"]); ("publicKeySha256", VStr (sha256 publicKeyDer))]%string.
(** [createPublicKey] throws on bytes that are no key; [publicKey] is then those bytes. *)
Definition buildSignedReleaseEvidence (now : jsstr) (input : val) : result jsstr val :=
  if negb (is_record input || is_array input) then Throw (js "signed-release input must be an object") else
  let recordedAt := match input.["recordedAt"] with VUndef | VNull => VStr now | v => v end in
  match input.["root"] with
  | VStr ((_ :: _) as root) =>
      _ ← validateCommit input.["commit"];
      _ ← validatePackageVersion input.["packageVersion"];
      _ ← validateTimestamp recordedAt;
      if strict_eq input.["bundlePath"] input.["signaturePath"] || strict_eq input.["bundlePath"] input.["publicKeyPath"]
         || strict_eq input.["signaturePath"] input.["publicKeyPath"]
      then Throw (js "signed-release artifact paths must be distinct") else
      bundle ← readArtifact root input.["bundlePath"] (js "bundlePath") MAX_RELEASE_ARTIFACT_BYTES;
      signature ← readArtifact root input.["signaturePath"] (js "signaturePath") ED25519_SIGNATURE_BYTES;
      publicKeyDer ← readArtifact root input.["publicKeyPath"] (js "publicKeyPath") MAX_PUBLIC_KEY_BYTES;
      if negb (Z.of_nat (length signature) =? ED25519_SIGNATURE_BYTES)
      then Throw (js "signaturePath must contain a 64-byte Ed25519 signature") else
      match public_key_type publicKeyDer with
      | Throw message => Throw (js "publicKeyPath must contain a valid DER public key: " ++ message)
      | Ok keyType =>
          if negb (str_eqb keyType (js "ed25519")) then Throw (js "publicKeyPath must contain an Ed25519 public key") else
          valid ← verify bundle publicKeyDer signature;
          if negb (valid : bool) then Throw (js "signaturePath does not verify the release bundle") else
          Ok (signed_record input recordedAt bundle signature publicKeyDer)
      end
  | _ => Throw (js "root must be a directory")
  end.

(** ** The fragment *)

Definition descriptor (kind : String.string) (path digest : val) : val :=
  vobj [("kind", vstr kind); ("path", path); ("sha256", digest)]%string.
Definition signed_descriptors (record : val) : list val :=
  [descriptor "release-bundle" record.["bundlePath"] record.["bundleSha256"];
   descriptor "release-public-key" record.["publicKeyPath"] record.["publicKeySha256"];
   descriptor "release-signature" record.["signaturePath"] record.["signatureSha256"]].
Definition check_descriptor (_ : unit) (d : val) : result thrown unit :=
  kind ← lang (to_string d.["kind"]);
  if negb (isSafeRelativePath d.["path"]) then Throw (Err (kind ++ js " path must be safe and relative")) else
  digest ← lang (String_ d.["sha256"]);
  if negb (re_match SHA256 digest) then Throw (Err (kind ++ js " sha256 must be a lowercase SHA-256 digest")) else Ok tt.
Definition signed_fragment_input (record evidencePath : val) (evidenceBytes : evidence_bytes) : FragmentInput := {|
  in_commit := record.["commit"]; in_packageVersion := record.["packageVersion"]; in_gateName := vstr "signed-release";
  in_evidencePath := evidencePath; in_evidenceBytes := evidenceBytes; in_toolchains := VUndef |}.
Definition signature_of (record : val) : val := vobj
  [("algorithm", vstr "ed25519"); ("publicKeyPath", record.["publicKeyPath"]); ("signedArtifactPath", record.["bundlePath"]);
   ("signaturePath", record.["signaturePath"]); ("publicKeySha256", record.["publicKeySha256"])]%string.
(** The bytes are given apart from the other members of the input. *)
Definition buildSignedReleaseFragment (input : val) (evidenceBytes : evidence_bytes) : result thrown val :=
  if negb (is_record input) then Throw (Err (js "signed-release fragment input must be an object")) else
  let record := input.["record"] in
  if negb (is_record record) then Throw (Err (js "signed-release record must be an object")) else
  if negb (eq_str record.["gate"] (js "signed-release")) || negb (eq_str record.["status"] (js "pass"))
     || negb (eq_str record.["evidenceKind"] (js "signed-release"))
  then Throw (Err (js "signed-release record must be a passing signed-release evidence record")) else
  if negb (eq_str record.["algorithm"] (js "ed25519"))
  then Throw (Err (js "signed-release record algorithm must be ed25519")) else
  _ ← DeviceEvidence.foldM check_descriptor tt (signed_descriptors record);
  if negb (isSafeRelativePath input.["evidencePath"])
  then Throw (Err (js "signed-release evidencePath must be safe and relative")) else
  gateFragment ← buildReleaseGateFragment (signed_fragment_input record input.["evidencePath"] evidenceBytes);
  Ok (VObj (entries gateFragment ++
    [(js "artifacts", varr (signed_descriptors record)); (js "signature", signature_of record)])).
End read.

(** ** Options *)

Definition given (values : list (jsstr * val)) (option : String.string) : val := default VUndef (assoc (js option) values).
(** An option of one value; an empty value does not count as given. *)
Definition single_option (allowed : list jsstr) (message : jsstr) (values : list (jsstr * val)) (option value : jsstr)
    : result jsstr (list (jsstr * val)) :=
  if negb (str_in option allowed) then Throw message else
  if truthy (default VUndef (assoc option values)) then Throw (option ++ js " must be specified once") else
  Ok (assign values option (VStr value)).

Section command.
Context {disk : Disk} (checkout : Checkout).

(** Unlike the other emitters this one does not ask for a clean checkout. *)
Definition currentCommit : result jsstr val :=
  head ← git_head checkout;
  let commit := VStr (trim head) in
  _ ← validateCommit commit; Ok commit.
Definition currentPackageVersion (s : fs) : result jsstr val :=
  packageJson ← @read_package (observe s) checkout (js "packages/contracts/package.json");
  version ← @member_of (observe s) packageJson (js "version");
  _ ← validatePackageVersion version; Ok version.
Definition resolveIdentity (values : list (jsstr * val)) (s : fs) : result jsstr (val * val) :=
  let explicit := negb (is_undefined (given values "--commit")) in
  if negb (Bool.eqb explicit (negb (is_undefined (given values "--package-version"))))
  then Throw (js "commit and package-version must be supplied together") else
  commit ← (if explicit then Ok (given values "--commit") else currentCommit);
  packageVersion ← (if explicit then Ok (given values "--package-version") else currentPackageVersion s);
  _ ← validateCommit commit;
  _ ← validatePackageVersion packageVersion;
  Ok (commit, packageVersion).
Definition SIGNED_OPTIONS : jsstr := js "options must use --bundle, --signature, --public-key, --commit, and --package-version".
Definition signed_parseOptions (argumentsList : list jsstr) (s : fs) : result jsstr (list (jsstr * val)) :=
  values ← parse_pairs (single_option (map js ["--bundle"; "--signature"; "--public-key"; "--commit"; "--package-version"]%string)
    SIGNED_OPTIONS) SIGNED_OPTIONS [] argumentsList;
  if negb (truthy (given values "--bundle")) || negb (truthy (given values "--signature")) || negb (truthy (given values "--public-key"))
  then Throw (js "bundle, signature, and public-key paths are required") else
  _ ← resolveIdentity values s; Ok values.

(** ** The command *)

Definition OUTPUT_PATH : jsstr := js "outputPath".
Definition writeEvidence (root outputPath : jsstr) (record : val) : io unit :=
  if negb (isSafeRelativePath (VStr outputPath)) then fail (OUTPUT_PATH ++ js " must be a safe relative path") else
  realRoot ← realpath root;
  let absolutePath := resolve2 working_directory realRoot outputPath in
  if ReleaseFiles.outside (relative working_directory realRoot absolutePath)
  then fail (OUTPUT_PATH ++ js " must resolve inside the evidence root") else
  _ ← make_parent OUTPUT_PATH realRoot (dirname absolutePath);
  _ ← refuse_escape OUTPUT_PATH realRoot (dirname absolutePath);
  _ ← refuse_existing OUTPUT_PATH absolutePath;
  bytes ← reading (fun s => @messages (observe s) _ (json_bytes record));
  call (writeFileSync absolutePath bytes).
Definition signed_input (root : jsstr) (identity : val * val) (values : list (jsstr * val)) : val := vobj
  [("root", VStr root); ("commit", identity.1); ("packageVersion", identity.2); ("bundlePath", given values "--bundle");
   ("signaturePath", given values "--signature"); ("publicKeyPath", given values "--public-key")]%string.
Definition emit_signed (rootArgument outputPath : jsstr) (options : list jsstr) : io jsstr :=
  root ← realpath (resolve1 working_directory rootArgument);
  values ← reading (signed_parseOptions options);
  identity ← reading (resolveIdentity values);
  record ← reading (fun s => @buildSignedReleaseEvidence (observe s) (now checkout) (signed_input root identity values));
  _ ← writeEvidence root outputPath record;
  mret (js "signed-release evidence emitted: " ++ relative working_directory working_directory (path_join root outputPath)).
Definition signed_main (argv : list jsstr) (s : fs) : jsstr * Z * fs :=
  match argv with
  | ((_ :: _) as rootArgument) :: ((_ :: _) as outputPath) :: options =>
      command (js "signed-release evidence failed: ") (emit_signed rootArgument outputPath options) s
  | _ => (js "usage: node scripts/emit-signed-release-evidence.mjs <evidence-root> <evidence-json> --bundle <relative-path> --signature <relative-path> --public-key <relative-path> [--commit <sha> --package-version <version>]", 64, s)
  end.

(** ** scripts/emit-signed-release-fragment.mjs

    The fragment around a record that was emitted before. *)

(** [root] is already a real path. *)
Definition evidenceFile {host : Host} (root relativePath field : jsstr) : result jsstr jsstr :=
  if negb (isSafeRelativePath (VStr relativePath)) then Throw (field ++ js " must be a safe relative path") else
  let absolutePath := resolve2 cwd root relativePath in
  if ReleaseFiles.outside (relative cwd root absolutePath)
  then Throw (field ++ js " must resolve inside the evidence root") else
  link ← pathHasSymlinkComponent root absolutePath;
  if (link : bool) then Throw (field ++ js " must not resolve through symbolic links") else
  file ← lstat_isFile absolutePath;
  if (file : bool) then Ok absolutePath else Throw (field ++ js " must reference a regular file").
Definition readEvidence {host : Host} (root relativePath : jsstr) : result jsstr (val * list Z) :=
  absolutePath ← evidenceFile root relativePath (js "signed-release evidence path");
  bytes ← readSized (js "signed-release evidence") MAX_GATE_EVIDENCE_BYTES absolutePath;
  match JSON_parse (utf8_decode bytes) with
  | Throw message => Throw (js "signed-release evidence must be valid JSON: " ++ message)
  | Ok record => Ok (record, bytes)
  end.
Definition FRAGMENT_OUTPUT : jsstr := js "signed-release fragment output".
(** Also [writeFragment] of emit-release-artifact-fragment.mjs. *)
Definition writeFragment (what root outputPath : jsstr) (fragment : val) : io unit :=
  if negb (isSafeRelativePath (VStr outputPath)) then fail (what ++ js " must be safe and relative") else
  let absolutePath := resolve2 working_directory root outputPath in
  if ReleaseFiles.outside (relative working_directory root absolutePath)
  then fail (what ++ js " must resolve inside the evidence root") else
  _ ← make_parent what root (dirname absolutePath);
  _ ← refuse_existing what absolutePath;
  bytes ← reading (fun s => @messages (observe s) _ (json_bytes fragment));
  call (writeFileSync absolutePath bytes).
Definition emit_signed_fragment (rootArgument outputPath evidencePath : jsstr) : io jsstr :=
  root ← realpath (resolve1 working_directory rootArgument);
  evidence ← reading (fun s => @readEvidence (observe s) root evidencePath);
  fragment ← reading (fun s => @messages (observe s) _ (@buildSignedReleaseFragment (observe s)
    (vobj [("record", evidence.1); ("evidencePath", VStr evidencePath)]%string) (ByteEvidence evidence.2)));
  _ ← writeFragment FRAGMENT_OUTPUT root outputPath fragment;
  mret (js "signed-release fragment emitted: " ++ relative working_directory working_directory (path_join root outputPath)).
(** Arguments after the third are ignored. *)
Definition signed_fragment_main (argv : list jsstr) (s : fs) : jsstr * Z * fs :=
  match argv with
  | ((_ :: _) as rootArgument) :: ((_ :: _) as outputPath) :: ((_ :: _) as evidencePath) :: _ =>
      command (js "signed-release fragment failed: ") (emit_signed_fragment rootArgument outputPath evidencePath) s
  | _ => (js "usage: node scripts/emit-signed-release-fragment.mjs <evidence-root> <fragment-json> <signed-release-evidence-json>", 64, s)
  end.
End command.
