(* ===== verification/ReviewFragment.v ===== *)
(** * scripts/emit-independent-review-fragment.mjs

    A review report is wrapped into a fragment only when the validator of the release
    gate accepts it and the reviewer's signature verifies over its bytes. *)

From S2P Require Import Prelude JsNumber Regex JsValue JsText JsJson Host ReleaseEvidence ReviewReport ReleaseFragment Disk.
From S2P Require Import EvidenceReader EvidenceWriter EmitCommand SignedEvidence.
From S2P Require StageEvidence ReleaseFiles.
Open Scope js_scope.

Definition PRIVATE_MATERIAL_PATH : jsstr -> bool := StageEvidence.PRIVATE_MATERIAL_PATH.
Definition MAX_REVIEW_REPORT_BYTES : Z := MAX_GATE_EVIDENCE_BYTES.
Definition MAX_PUBLIC_KEY_BYTES : Z := 1024.
Definition SIGNATURE_BYTES : Z := 64.
(** A path that passes both path tests. *)
Definition public_path (v : val) : bool :=
  isSafeRelativePath v && negb match v with VStr s => PRIVATE_MATERIAL_PATH s | _ => false end.

Definition validateIdentity (commit packageVersion : val) : result jsstr unit :=
  _ ← validateCommit commit; validatePackageVersion packageVersion.

(** ** The fragment *)

(** The input, an object of these members. *)
Record ReviewInput := {
  rv_commit : val;
  rv_packageVersion : val;
  rv_reportPath : val;
  rv_reportBytes : evidence_bytes;
  rv_signaturePath : val;
  rv_signatureBytes : evidence_bytes;
  rv_publicKeyPath : val;
  rv_publicKeyBytes : evidence_bytes;
  rv_evidencePath : val;
}.

Section fragment.
Context {host : Host}.

Definition byte_array (field : jsstr) (value : evidence_bytes) : result thrown (list Z) :=
  match value with
  | ByteEvidence [] => Throw (Err (field ++ js " must not be empty"))
  | ByteEvidence bytes => Ok bytes
  | _ => Throw (Err (field ++ js " must be a byte array"))
  end.
Definition parseReviewReport (reportBytes : list Z) (commit packageVersion : val) (publicKeySha256 : jsstr) : result thrown val :=
  match JSON_parse (utf8_decode reportBytes) with
  | Throw message => Throw (Err (js "review report must be valid JSON: " ++ message))
  | Ok report =>
      if negb (is_record report) then Throw (Err (js "review report must be a JSON object")) else
      findings ← lang (validateIndependentReviewReport
        {| review_commit := commit; review_version := packageVersion; review_key := VStr publicKeySha256 |} report);
      if (0 <? length findings)%nat then Throw (Err (js "review report is invalid: " ++ join (js "; ") findings)) else Ok report
  end.
Definition review_record (input : ReviewInput) (report : val) (reportBytes signatureBytes publicKeyBytes : list Z) : val := vobj
  [("schemaVersion", vnum 1); ("gate", vstr "independent-security-review"); ("status", vstr "pass");
   ("evidenceKind", vstr "independent-security-review"); ("commit", rv_commit input); ("packageVersion", rv_packageVersion input);
   ("reviewedCommit", report.["reviewedCommit"]); ("reviewedPackageVersion", report.["reviewedPackageVersion"]);
   ("reviewerPublicKeySha256", VStr (sha256 publicKeyBytes)); ("reportPath", rv_reportPath input);
   ("reportSha256", VStr (sha256 reportBytes)); ("signaturePath", rv_signaturePath input);
   ("signatureSha256", VStr (sha256 signatureBytes)); ("publicKeyPath", rv_publicKeyPath input)]%string.
Definition review_fragment_input (input : ReviewInput) (evidenceBytes : list Z) : FragmentInput := {|
  in_commit := rv_commit input; in_packageVersion := rv_packageVersion input; in_gateName := vstr "independent-security-review";
  in_evidencePath := rv_evidencePath input; in_evidenceBytes := ByteEvidence evidenceBytes; in_toolchains := VUndef |}.
Definition review_artifacts (input : ReviewInput) (reportBytes signatureBytes publicKeyBytes : list Z) : list val :=
  [descriptor "independent-review-report" (rv_reportPath input) (VStr (sha256 reportBytes));
   descriptor "independent-review-public-key" (rv_publicKeyPath input) (VStr (sha256 publicKeyBytes));
   descriptor "independent-review-signature" (rv_signaturePath input) (VStr (sha256 signatureBytes))].
Definition review_descriptor (input : ReviewInput) (report : val) (publicKeyBytes : list Z) : val := vobj
  [("algorithm", vstr "ed25519"); ("publicKeyPath", rv_publicKeyPath input); ("signedArtifactPath", rv_reportPath input);
   ("signaturePath", rv_signaturePath input); ("publicKeySha256", VStr (sha256 publicKeyBytes));
   ("reviewedCommit", report.["reviewedCommit"]); ("reviewedPackageVersion", report.["reviewedPackageVersion"])]%string.
Definition check_path (_ : unit) (field_value : jsstr * val) : result thrown unit :=
  if negb (public_path field_value.2) then Throw (Err (field_value.1 ++ js " must be a safe relative non-secret path")) else Ok tt.

Definition buildIndependentReviewFragment (input : ReviewInput) : result thrown val :=
  _ ← err (validateIdentity (rv_commit input) (rv_packageVersion input));
  reportBytes ← byte_array (js "reportBytes") (rv_reportBytes input);
  signatureBytes ← byte_array (js "signatureBytes") (rv_signatureBytes input);
  publicKeyBytes ← byte_array (js "publicKeyBytes") (rv_publicKeyBytes input);
  if MAX_REVIEW_REPORT_BYTES <? Z.of_nat (length reportBytes)
  then Throw (Err (js "reportBytes must not exceed 1048576 bytes")) else
  if negb (Z.of_nat (length signatureBytes) =? SIGNATURE_BYTES)
  then Throw (Err (js "signatureBytes must contain exactly 64 bytes")) else
  if MAX_PUBLIC_KEY_BYTES <? Z.of_nat (length publicKeyBytes)
  then Throw (Err (js "publicKeyBytes must not exceed 1024 bytes")) else
  if negb (public_path (rv_evidencePath input))
  then Throw (Err (js "evidencePath must be a safe relative non-secret path")) else
  if negb (set_size [rv_reportPath input; rv_signaturePath input; rv_publicKeyPath input; rv_evidencePath input] =? 4)%nat
  then Throw (Err (js "review evidence paths must be distinct")) else
  _ ← DeviceEvidence.foldM check_path tt
        [(js "reportPath", rv_reportPath input); (js "signaturePath", rv_signaturePath input); (js "publicKeyPath", rv_publicKeyPath input)];
  match public_key_type publicKeyBytes with
  | Throw message => Throw (Err (js "publicKeyBytes must contain a valid DER public key: " ++ message))
  | Ok keyType =>
      if negb (str_eqb keyType (js "ed25519")) then Throw (Err (js "review public key must be Ed25519")) else
      report ← parseReviewReport reportBytes (rv_commit input) (rv_packageVersion input) (sha256 publicKeyBytes);
      valid ← err (verify reportBytes publicKeyBytes signatureBytes);
      if negb (valid : bool) then Throw (Err (js "review signature does not verify the report")) else
      let evidenceRecord := review_record input report reportBytes signatureBytes publicKeyBytes in
      evidenceBytes ← json_bytes evidenceRecord;
      gateFragment ← buildReleaseGateFragment (review_fragment_input input evidenceBytes);
      Ok (VObj (entries gateFragment ++
        [(js "evidence", evidenceRecord);
         (js "artifacts", varr (review_artifacts input reportBytes signatureBytes publicKeyBytes));
         (js "independentReview", review_descriptor input report publicKeyBytes)]))
  end.

(** ** Reading *)

Definition containedPath (root : jsstr) (relativePath : val) (field : jsstr) : result jsstr jsstr :=
  if negb (isSafeRelativePath relativePath) then Throw (field ++ js " must be a safe relative path") else
  if negb (public_path relativePath) then Throw (field ++ js " must not reference private signing material") else
  regularPath root relativePath field (fun message => message).
Definition readBoundedFile (root : jsstr) (relativePath : val) (field : jsstr) (maximumBytes : Z) : result jsstr (list Z) :=
  absolutePath ← containedPath root relativePath field;
  readSized field maximumBytes absolutePath.
End fragment.

(** ** The command *)

Definition REVIEW_OPTIONS : jsstr := js "options must use --report, --signature, and --public-key".
Definition review_parseOptions (argumentsList : list jsstr) : result jsstr (list (jsstr * val)) :=
  values ← parse_pairs (single_option (map js ["--report"; "--signature"; "--public-key"]%string) REVIEW_OPTIONS) REVIEW_OPTIONS [] argumentsList;
  if negb (truthy (given values "--report")) || negb (truthy (given values "--signature")) || negb (truthy (given values "--public-key"))
  then Throw (js "report, signature, and public-key paths are required") else Ok values.

Section command.
Context {disk : Disk} (checkout : Checkout).

Definition validateOutputPath (root relativePath field : jsstr) : io jsstr :=
  if negb (isSafeRelativePath (VStr relativePath)) then fail (field ++ js " must be a safe relative path") else
  realRoot ← realpath root;
  let absolutePath := resolve2 working_directory realRoot relativePath in
  _ ← make_parent field realRoot (dirname absolutePath);
  _ ← refuse_existing field absolutePath;
  mret absolutePath.
(** What the command hands to the builder, in the order it reads it. *)
Definition review_input (root evidencePath : jsstr) (values : list (jsstr * val)) (s : fs) : result jsstr ReviewInput :=
  let host := observe s in
  commit ← EmitCommand.currentCommit (js "review evidence") checkout;
  packageVersion ← @EmitCommand.currentPackageVersion host checkout;
  reportBytes ← @readBoundedFile host root (given values "--report") (js "report path") MAX_REVIEW_REPORT_BYTES;
  signatureBytes ← @readBoundedFile host root (given values "--signature") (js "signature path") SIGNATURE_BYTES;
  publicKeyBytes ← @readBoundedFile host root (given values "--public-key") (js "public key path") MAX_PUBLIC_KEY_BYTES;
  Ok {| rv_commit := VStr commit; rv_packageVersion := VStr packageVersion;
        rv_reportPath := given values "--report"; rv_reportBytes := ByteEvidence reportBytes;
        rv_signaturePath := given values "--signature"; rv_signatureBytes := ByteEvidence signatureBytes;
        rv_publicKeyPath := given values "--public-key"; rv_publicKeyBytes := ByteEvidence publicKeyBytes;
        rv_evidencePath := VStr evidencePath |}.
(** Both output paths are tested before either file is written. *)
Definition emit_review (rootArgument evidencePath fragmentPath : jsstr) (options : list jsstr) : io jsstr :=
  root ← realpath (resolve1 working_directory rootArgument);
  values ← reading (fun _ => review_parseOptions options);
  input ← reading (review_input root evidencePath values);
  fragment ← reading (fun s => @messages (observe s) _ (@buildIndependentReviewFragment (observe s) input));
  evidencePathOnDisk ← validateOutputPath root evidencePath (js "evidence path");
  fragmentPathOnDisk ← validateOutputPath root fragmentPath (js "fragment path");
  evidenceBytes ← reading (fun s => @messages (observe s) _ (json_bytes fragment.["evidence"]));
  _ ← call (writeFileSync evidencePathOnDisk evidenceBytes);
  fragmentBytes ← reading (fun s => @messages (observe s) _ (json_bytes fragment));
  _ ← call (writeFileSync fragmentPathOnDisk fragmentBytes);
  mret (js "independent-review fragment emitted: " ++ relative working_directory working_directory fragmentPathOnDisk).
Definition review_main (argv : list jsstr) (s : fs) : jsstr * Z * fs :=
  match argv with
  | ((_ :: _) as rootArgument) :: ((_ :: _) as evidencePath) :: ((_ :: _) as fragmentPath) :: options =>
      command (js "independent-review fragment failed: ") (emit_review rootArgument evidencePath fragmentPath options) s
  | _ => (js "usage: node scripts/emit-independent-review-fragment.mjs <evidence-root> <evidence-json> <fragment-json> --report <relative-path> --signature <relative-path> --public-key <relative-path>", 64, s)
  end.
End command.
