(* ===== verification/ArtifactFragment.v ===== *)
(** * scripts/emit-release-artifact-fragment.mjs

    Descriptors of public release files, hashed from the bytes below the evidence root. *)

From S2P Require Import Prelude JsNumber Regex JsValue JsText JsJson Host ReleaseEvidence ReleaseFragment Disk.
From S2P Require Import EvidenceReader EvidenceWriter EmitCommand SignedEvidence ReviewFragment.
From S2P Require ReleaseFiles.
Open Scope js_scope.

(** [/^[a-z0-9][a-z0-9._-]{0,80}$/] *)
Definition LABEL : re :=
  RSeq (RCls [(97, 122); (48, 57)]) (rupto 80 (RCls [(97, 122); (48, 57); (46, 46); (95, 95); (45, 45)])).

(** ** The fragment *)

(** An element of [artifacts]; the bytes are a string, a byte array or something else. *)
Inductive artifact_slot := Hole | NotAnObject | Artifact (kind path : val) (bytes : evidence_bytes).

Section fragment.
Context {host : Host}.

Definition PRIVATE_MESSAGE : jsstr := js "private signing material or secret artifact paths are forbidden".
Definition normalizeBytes (bytes : evidence_bytes) (field : jsstr) : result thrown (list Z) :=
  bounded_bytes field MAX_RELEASE_ARTIFACT_BYTES bytes.
(** The kinds, the paths and the elements of the result so far; [map] leaves a hole. *)
Definition add_artifact (st : list jsstr * list jsstr * list (option val)) (artifact : artifact_slot)
    : result thrown (list jsstr * list jsstr * list (option val)) :=
  let '(kinds, paths, normalized) := st in
  match artifact with
  | Hole => Ok (kinds, paths, normalized ++ [None])
  | NotAnObject => Throw (Err (js "artifact must be an object"))
  | Artifact (VStr kind) path bytes =>
      if negb (re_match LABEL kind) then Throw (Err (js "artifact kind must be a sanitized label")) else
      match path with
      | VStr p =>
          if negb (isSafeRelativePath path) then Throw (Err (js "artifact path must be safe and relative")) else
          if PRIVATE_MATERIAL_PATH p then Throw (Err PRIVATE_MESSAGE) else
          if set_has kind kinds then Throw (Err (js "duplicate artifact kind " ++ kind)) else
          if set_has p paths then Throw (Err (js "duplicate artifact path " ++ p)) else
          bytes ← normalizeBytes bytes (js "artifact " ++ kind ++ js " bytes");
          Ok (set_add kind kinds, set_add p paths,
              normalized ++ [Some (vobj [("kind", VStr kind); ("path", path); ("sha256", VStr (sha256 bytes))]%string)])
      | _ => Throw (Err (js "artifact path must be safe and relative"))
      end
  | Artifact _ _ _ => Throw (Err (js "artifact kind must be a sanitized label"))
  end.
(** The artifacts ([None]: no array) are given apart from the other members. *)
Definition buildReleaseArtifactFragment (input : val) (artifacts : option (list artifact_slot)) : result thrown val :=
  if negb (is_record input) then Throw (Err (js "artifact fragment input must be an object")) else
  _ ← err (validateIdentity input.["commit"] input.["packageVersion"]);
  match artifacts with
  | Some slots =>
      if (length slots =? 0)%nat || (64 <? length slots)%nat
      then Throw (Err (js "artifacts must contain one to 64 entries")) else
      '(_, _, normalized) ← DeviceEvidence.foldM add_artifact ([], [], []) slots;
      Ok (vobj [("schemaVersion", vnum 1); ("commit", input.["commit"]); ("packageVersion", input.["packageVersion"]);
                ("artifacts", VArr normalized)]%string)
  | None => Throw (Err (js "artifacts must contain one to 64 entries"))
  end.

(** ** Reading *)

Definition containedFile (root relativePath : jsstr) : result jsstr jsstr :=
  if negb (isSafeRelativePath (VStr relativePath)) then Throw (js "artifact path must be safe and relative") else
  if PRIVATE_MATERIAL_PATH relativePath then Throw PRIVATE_MESSAGE else
  let absolutePath := resolve2 cwd root relativePath in
  if ReleaseFiles.outside (relative cwd root absolutePath)
  then Throw (js "artifact path must resolve inside the evidence root") else
  link ← pathHasSymlinkComponent root absolutePath;
  if (link : bool) then Throw (js "artifact path must not resolve through symbolic links") else
  regular ← lstat_isFile absolutePath;
  if negb (regular : bool) then Throw (js "artifact path must reference a regular file") else
  stats ← statSync absolutePath;
  if size stats =? 0 then Throw (js "artifact file must not be empty") else
  if MAX_RELEASE_ARTIFACT_BYTES <? size stats
  then Throw (js "artifact file must not exceed " ++ dec MAX_RELEASE_ARTIFACT_BYTES ++ js " bytes") else
  Ok absolutePath.
Definition read_artifact (root : jsstr) (artifact : jsstr * jsstr) : result jsstr artifact_slot :=
  absolutePath ← containedFile root artifact.2;
  bytes ← readFileSync absolutePath;
  Ok (Artifact (VStr artifact.1) (VStr artifact.2) (ByteEvidence bytes)).
End fragment.

(** ** The command *)

Record ArtifactOptions := { a_artifacts : list (jsstr * jsstr); a_identity : list (jsstr * val) }.
Definition ARTIFACT_OPTIONS : jsstr := js "options must use --artifact, --commit, and --package-version".
Definition artifact_option (st : ArtifactOptions) (option value : jsstr) : result jsstr ArtifactOptions :=
  if str_eqb option (js "--commit") || str_eqb option (js "--package-version") then
    match assoc option (a_identity st) with
    | Some _ => Throw (option ++ js " must be specified once")
    | None => Ok {| a_artifacts := a_artifacts st; a_identity := assign (a_identity st) option (VStr value) |}
    end
  else if negb (str_eqb option (js "--artifact")) then Throw ARTIFACT_OPTIONS else
  match name_value value with
  | Some (kind, (_ :: _) as path) => Ok {| a_artifacts := a_artifacts st ++ [(kind, path)]; a_identity := a_identity st |}
  | _ => Throw (js "artifact option must use --artifact kind=relative-path")
  end.

Section command.
Context {disk : Disk} (checkout : Checkout).

Definition resolveIdentity (identity : list (jsstr * val)) (s : fs) : result jsstr (val * val) :=
  let explicit := negb (is_undefined (given identity "--commit")) in
  if negb (Bool.eqb explicit (negb (is_undefined (given identity "--package-version"))))
  then Throw (js "commit and package-version must be supplied together") else
  commit ← (if explicit then Ok (given identity "--commit") else VStr <$> EmitCommand.currentCommit (js "artifact evidence") checkout);
  packageVersion ← (if explicit then Ok (given identity "--package-version")
                    else VStr <$> @EmitCommand.currentPackageVersion (observe s) checkout);
  _ ← validateIdentity commit packageVersion;
  Ok (commit, packageVersion).
(** A given identity is resolved at once, and only tested again by the command. *)
Definition artifact_parseOptions (argumentsList : list jsstr) (s : fs) : result jsstr ArtifactOptions :=
  o ← parse_pairs artifact_option ARTIFACT_OPTIONS {| a_artifacts := []; a_identity := [] |} argumentsList;
  match a_identity o with
  | [] => Ok o
  | identity => _ ← resolveIdentity identity s; Ok o
  end.
Definition writeFragment (root outputPath : jsstr) (fragment : val) : io unit :=
  SignedEvidence.writeFragment OUTPUT root outputPath fragment.
Definition emit_artifacts (rootArgument outputPath : jsstr) (options : list jsstr) : io jsstr :=
  root ← realpath (resolve1 working_directory rootArgument);
  parsed ← reading (artifact_parseOptions options);
  artifactInputs ← reading (fun s => traverse (@read_artifact (observe s) root) (a_artifacts parsed));
  identity ← reading (resolveIdentity (a_identity parsed));
  fragment ← reading (fun s => @messages (observe s) _ (@buildReleaseArtifactFragment (observe s)
    (vobj [("commit", identity.1); ("packageVersion", identity.2)]%string) (Some artifactInputs)));
  _ ← writeFragment root outputPath fragment;
  mret (js "release artifact fragment emitted: " ++ relative working_directory working_directory (path_join root outputPath)).
Definition artifact_main (argv : list jsstr) (s : fs) : jsstr * Z * fs :=
  match argv with
  | ((_ :: _) as rootArgument) :: ((_ :: _) as outputPath) :: ((_ :: _) as options) =>
      command (js "release artifact fragment failed: ") (emit_artifacts rootArgument outputPath options) s
  | _ => (js "usage: node scripts/emit-release-artifact-fragment.mjs <evidence-root> <fragment-json> [--commit <sha> --package-version <version>] --artifact kind=relative-path...", 64, s)
  end.
End command.
