(* ===== verification/PublishProps.v ===== *)
(** * Signed and reviewed fragments meet the release gate

    The emitters of signatures, reviews and artifacts verify what the release gate
    verifies again: what they emit is accepted by the gate run on the same evidence root,
    exactly when the paths are canonical (and the artifacts within the gate's bounds).
    Their commands, the gate command and the sanitizer's publish, in new files below the
    root, what their builders made of the files and options given. *)

From S2P Require Import Prelude JsNumber Regex JsValue JsDate JsText JsJson Host PathProps.
From S2P Require Import ContractsSpec PlatformSupportProps EvidenceSpec DeviceEvidenceProps DeviceFilesProps LsanProps.
From S2P Require Import ReleaseEvidence ReviewReport ReviewProps ReleaseProps ReleaseFilesProps ReleaseGateProps ReleaseClaims.
From S2P Require Import FragmentProps EvidenceReader EvidenceReaderProps Disk EvidenceWriter EmitCommand EmitCommandProps.
From S2P Require Import SignedEvidence ReviewFragment ArtifactFragment.
From S2P Require ReleaseFiles ReleaseFragment StageEvidence CiEvidence MergeEvidence.
Import ReleaseFragment (evidence_bytes, ByteEvidence, in_evidencePath, in_commit, in_gateName, in_evidenceBytes, buildReleaseGateFragment,
  bounded_bytes, bounded_bytes_ok, gate_of, fragment_of).
Import ReleaseFiles (verifyFileDigest, verifyGateEvidenceRecord, maxArtifactBytes, MAX_GATE_EVIDENCE_BYTES).
Open Scope js_scope.

(** What Node and POSIX say of a lookup: a path that can be examined has parents that
    can be examined, and [realpath] leaves a path without links alone. *)
Record LookupLaws (host : Host) : Prop := {
  lookup_plain : realpath_plain host;
  lookup_parent : forall r x b, r <> [] -> Forall proper (r ++ [x]) ->
    lstat_isSymbolicLink (abspath (r ++ [x])) = Ok b -> exists b', lstat_isSymbolicLink (abspath r) = Ok b';
}.

Section files.
Context {host : Host} (laws : HostLaws host) (lookup : LookupLaws host).

(** ** Located files *)

Lemma parents_examined r c b : Forall proper (r ++ c) -> c <> [] -> lstat_isSymbolicLink (abspath (r ++ c)) = Ok b ->
  forall k, (0 < k <= length c)%nat -> exists b', lstat_isSymbolicLink (abspath (r ++ take k c)) = Ok b'.
Proof.
  revert b. induction c as [|x c IH] using rev_ind; intros b Hp Hne Hl k Hk; [done|]. rewrite length_app in Hk. cbn in Hk.
  destruct (decide (k = S (length c))) as [->|Hk'].
  { rewrite take_ge by (rewrite length_app; cbn; lia). by exists b. }
  rewrite take_app_le by lia. destruct c as [|y c]; [cbn in *; lia|]. rewrite app_assoc in Hl, Hp.
  destruct (lookup_parent _ lookup (r ++ y :: c) x b ltac:(by destruct r) Hp Hl) as [b' Hb']. apply Forall_app in Hp as [Hp _].
  apply (IH b' Hp ltac:(done) Hb'). lia.
Qed.
Lemma plain_realpath r c : Forall proper (r ++ c) -> realpathSync (abspath r) = Ok (abspath r) ->
  (forall k, (0 < k <= length c)%nat -> lstat_isSymbolicLink (abspath (r ++ take k c)) = Ok false) ->
  realpathSync (abspath (r ++ c)) = Ok (abspath (r ++ c)).
Proof.
  induction c as [|x c IH] using rev_ind; intros Hp Hr Hl; [by rewrite app_nil_r|]. rewrite length_app in Hl. cbn in Hl.
  assert (Hlast := Hl (S (length c)) ltac:(lia)). rewrite take_ge in Hlast by (rewrite length_app; cbn; lia).
  rewrite app_assoc in Hp, Hlast |- *. apply (lookup_plain _ lookup); [done| |done].
  apply Forall_app in Hp as [Hp _]. apply IH; [done..|]. intros k Hk. specialize (Hl k ltac:(lia)). by rewrite take_app_le in Hl by lia.
Qed.
Lemma lstat_isFile_ok p : lstat_isFile p = Ok true <->
  lstat_isSymbolicLink p = Ok false /\ exists stats, statSync p = Ok stats /\ isFile stats = true.
Proof.
  unfold lstat_isFile. rewrite bind_Ok. split.
  - intros ([] & Hl & H); [done|]. split; [done|]. apply bind_Ok in H as (stats & Hs & H). apply Ok_inj in H. by exists stats.
  - intros (Hl & stats & Hs & Hf). exists false. split; [done|]. apply bind_Ok. exists stats. by rewrite Hf.
Qed.
(** The common part of the readers: a file they take is the one the gate finds. *)
Lemma taken_found root realRoot p absolutePath :
  safe_path p -> realpathSync root = Ok realRoot -> realRoot <> sep ->
  absolutePath = resolve2 cwd realRoot p -> pathHasSymlinkComponent realRoot absolutePath = Ok false ->
  lstat_isSymbolicLink absolutePath = Ok false -> Found root p absolutePath.
Proof.
  intros (c & Hne & Hc & -> & Hb) HR Hnot -> Hscan Hlink. destruct (realpath_normal host laws _ _ HR) as (r & Hr & ->).
  pose proof (realpath_canonical host laws _ _ HR) as Hcan. rewrite resolve2_proper in * by done.
  assert (Hrc : Forall proper (r ++ c)) by by apply Forall_app.
  assert (Hr0 : r <> []) by (intros ->; by apply Hnot).
  assert (Hall : forall k, (0 < k <= length c)%nat -> lstat_isSymbolicLink (abspath (r ++ take k c)) = Ok false).
  { unfold pathHasSymlinkComponent in Hscan. rewrite Hcan in Hscan. cbn [mbind result_bind] in Hscan. apply Ok_inj in Hscan.
    rewrite resolve1_abspath in Hscan by done. intros k Hk. destruct (parents_examined r c false Hrc Hne Hlink k Hk) as [[] Hk']; [|done].
    pose proof (proj2 (symlink_scan_spec (S (length (abspath (r ++ c)))) r c (proper_component _ Hrc)
      ltac:(pose proof (abspath_length r c (proper_component _ Hrc)); lia))) as Hs.
    rewrite Hs in Hscan; [done|]. split; [done|]. by exists k. }
  assert (Hreal := plain_realpath r c Hrc Hcan Hall). split.
  - exists r, c, (r ++ c). split_and!; try done; [|by left; exists c]. intros _ k Hk. by rewrite Hall.
  - intros r' c' Hr' Hj Hne' [Hpr' Hpc']%Forall_app Hr0'. rewrite HR in Hr'.
    apply Ok_inj, abspath_inj in Hr' as <-; [|by apply proper_component..].
    apply join_inj in Hj as <-; [|done|done|by apply proper_component..]. exact Hall.
Qed.
Lemma regularPath_found root p field unreadable file :
  safe_path p -> realpathSync root <> Ok sep -> regularPath root (VStr p) field unreadable = Ok file ->
  Found root p file /\ exists stats, statSync file = Ok stats /\ isFile stats = true.
Proof.
  intros Hp Hroot. unfold regularPath. rewrite (safe_path_loose p Hp). cbn [negb]. intros (R & HR & H)%bind_Ok. cbv zeta in H.
  apply bind_Ok in H as ([] & Hs & H); [done|]. destruct (ReleaseFiles.outside _); [done|].
  destruct (lstat_isFile _) as [[]|] eqn:El; try done. apply Ok_inj in H as <-. apply lstat_isFile_ok in El as [Hl Hst].
  split; [|done]. eapply taken_found; try done. by intros ->.
Qed.
Lemma readSized_ok field maximum p bytes : readSized field maximum p = Ok bytes <->
  exists stats, statSync p = Ok stats /\ size stats <> 0 /\ size stats <= maximum /\ readFileSync p = Ok bytes.
Proof.
  unfold readSized. rewrite bind_Ok. split.
  - intros (stats & Hs & H). destruct (Z.eqb_spec (size stats) 0); [done|]. destruct (Z.ltb_spec maximum (size stats)); [done|]. by exists stats.
  - intros (stats & Hs & H0 & Hm & H). exists stats. split; [done|]. destruct (Z.eqb_spec (size stats) 0); [done|].
    by destruct (Z.ltb_spec maximum (size stats)); [lia|].
Qed.
Lemma sized_evidence root p field field' unreadable maximum bytes :
  safe_path p -> realpathSync root <> Ok sep ->
  (file ← regularPath root (VStr p) field unreadable; readSized field' maximum file) = Ok bytes ->
  evidence_file root p maximum bytes.
Proof.
  intros Hp Hroot (file & Hf & Hr)%bind_Ok. apply regularPath_found in Hf as [Hfound (stats & Hs & Hfile)]; [|done..].
  apply readSized_ok in Hr as (stats' & Hs' & H0 & Hm & Hr). rewrite Hs in Hs'. apply Ok_inj in Hs' as <-.
  exists file. split; [done|]. by exists stats.
Qed.
End files.

(** ** What a fragment of a signed file promises *)

(** The release gate, run on [root], accepts the signature named [fieldName] of the
    fragment [f], its artifacts and its one gate. *)
Record Accepted {host : Host} (root : jsstr) (f : val) (fieldName : String.string) : Prop := {
  accepted_signature : Signature_ok root f fieldName;
  accepted_artifacts : Forall (fun a => Artifact_wf a /\ artifact_ok root a) (release_artifacts f);
  accepted_gate : exists gate, gates f = [gate] /\ (forall context, Gate_wf context f gate) /\
    forall field artifacts toolchains,
      (findings ← verifyFileDigest [] root field gate.["evidencePath"] gate.["sha256"] MAX_GATE_EVIDENCE_BYTES;
       verifyGateEvidenceRecord findings root field gate artifacts toolchains) = Ok [];
}.

Section gate.
Context {host : Host} (laws : HostLaws host) (lookup : LookupLaws host).
Context (hex_digests : forall bytes, matches SHA256 (sha256 bytes)).
Context (json_dense : forall text record, JSON_parse text = Ok record -> dense record).

Lemma plain_fragment input g bytes :
  buildReleaseGateFragment input = Ok g -> ReleaseFragment.in_toolchains input = VUndef ->
  in_evidenceBytes input = ByteEvidence bytes -> g = fragment_of input VUndef bytes.
Proof.
  intros Hg Ht Hb. destruct (buildReleaseGateFragment_ok json_dense _ _ Hg) as (n' & p' & b' & record' & [_ _ _ _ Hb' _ _ (tv & Htv & ->)]).
  rewrite Ht in Htv. apply Ok_inj in Htv as <-. rewrite Hb in Hb'. by apply bounded_bytes_ok in Hb' as [-> _].
Qed.
(** A gate that neither CI, a device nor the sanitizer decides, in a fragment with more
    members. *)
Lemma extended_gate input g extra root p bytes record n :
  buildReleaseGateFragment input = Ok g -> ReleaseFragment.in_toolchains input = VUndef ->
  in_gateName input = VStr n -> n <> js "linux-leak-sanitizer" -> table_find ReleaseFiles.DEVICE_RELEASE_GATE_POLICIES n = None ->
  in_evidencePath input = VStr p -> safe_path p -> in_evidenceBytes input = ByteEvidence bytes ->
  evidence_file root p MAX_GATE_EVIDENCE_BYTES bytes -> JSON_parse (utf8_decode bytes) = Ok record -> free_of SECRET_KEY record ->
  exists gate, gates (VObj (entries g ++ extra)) = [gate] /\ (forall context, Gate_wf context (VObj (entries g ++ extra)) gate) /\
    (forall field artifacts toolchains,
      (findings ← verifyFileDigest [] root field gate.["evidencePath"] gate.["sha256"] MAX_GATE_EVIDENCE_BYTES;
       verifyGateEvidenceRecord findings root field gate artifacts toolchains) = Ok []) /\
    g = fragment_of input VUndef bytes.
Proof.
  intros Hg Ht Hn Hl Hd Hp Hsafe Hb Hfile Hj Hfree.
  pose proof (plain_fragment _ _ _ Hg Ht Hb) as Heq. exists (gate_of input bytes). rewrite Heq. split; [done|].
  assert (H : forall field artifacts toolchains, (forall context, Gate_wf context (fragment_of input VUndef bytes) (gate_of input bytes)) /\ 
    (findings ← verifyFileDigest [] root field (gate_of input bytes).["evidencePath"] (gate_of input bytes).["sha256"] MAX_GATE_EVIDENCE_BYTES;
     verifyGateEvidenceRecord findings root field (gate_of input bytes) artifacts toolchains) = Ok []).
  { intros field artifacts toolchains. destruct (emitted_gate_meets laws hex_digests json_dense input g root field p bytes artifacts toolchains
      Hg Hp Hsafe Hb Hfile) as (n1 & record1 & gate & Hn1 & Hj1 & _ & -> & Hw & Hv).
    rewrite Heq in Hw. split; [exact Hw|]. apply Hv. rewrite Hn in Hn1. injection Hn1 as <-. rewrite Hj in Hj1. apply Ok_inj in Hj1 as <-.
    split_and!; [done|done|]. intros policy. by rewrite Hd. }
  split_and!; [|intros; apply H|done]. intros context. exact (proj1 (H [] VUndef VUndef) context).
Qed.

(** The gate needs canonical paths: of the gate's evidence and of each artifact. *)
Lemma extended_path input g extra bytes p root fieldName :
  buildReleaseGateFragment input = Ok g -> ReleaseFragment.in_toolchains input = VUndef ->
  in_evidenceBytes input = ByteEvidence bytes -> in_evidencePath input = VStr p ->
  Accepted root (VObj (entries g ++ extra)) fieldName -> safe_path p.
Proof.
  intros Hg Ht Hb Hp [_ _ (gate & Hgate & Hw & _)].
  rewrite (plain_fragment _ _ _ Hg Ht Hb) in Hgate, Hw. injection Hgate as <-.
  destruct (Hw {| expectedCommit := VUndef; expectedPackageVersion := VUndef; expectedReleasePublicKeySha256 := VUndef;
    expectedReviewerPublicKeySha256 := VUndef |}) as (_ & _ & _ & _ & (q & Hq & Hs) & _).
  change ((gate_of input bytes).["evidencePath"]) with (in_evidencePath input) in Hq. rewrite Hp in Hq. by injection Hq as ->.
Qed.
Lemma descriptor_path kind p digest : Artifact_wf (descriptor kind (VStr p) digest) -> safe_path p.
Proof. intros [_ _ (q & Hq & Hs) _]. by injection Hq as ->. Qed.

(** A descriptor of a file that was read. *)
Lemma described kind root p maximum bytes :
  kind <> ""%string -> safe_path p -> evidence_file root p maximum bytes -> maximum <= maxArtifactBytes (vstr kind) ->
  Artifact_wf (descriptor kind (VStr p) (VStr (sha256 bytes))) /\ artifact_ok root (descriptor kind (VStr p) (VStr (sha256 bytes))).
Proof.
  intros Hk Hp (file & Hf & stats & Hs & Hfile & H0 & Hm & Hb) Hle. split.
  - constructor; [done| |by exists p|by exists (sha256 bytes)]. exists (js kind). split; [done|]. by destruct kind.
  - intros p' [= <-]. exists bytes. split; [|done]. exists file. split; [done|]. exists stats. split_and!; try done.
    change ((descriptor kind (VStr p) (VStr (sha256 bytes))).["kind"]) with (vstr kind). lia.
Qed.

(** ** Signed releases *)

(** What the record of a signed release is made of. *)
Record Signed_built (now : jsstr) (input record : val) (root : jsstr) (bundle signature key : list Z) : Prop := {
  sb_root : input.["root"] = VStr root;
  sb_commit : matching COMMIT input.["commit"];
  sb_version : matching VERSION input.["packageVersion"];
  sb_bundle : readArtifact root input.["bundlePath"] (js "bundlePath") MAX_RELEASE_ARTIFACT_BYTES = Ok bundle;
  sb_signature : readArtifact root input.["signaturePath"] (js "signaturePath") ED25519_SIGNATURE_BYTES = Ok signature;
  sb_key : readArtifact root input.["publicKeyPath"] (js "publicKeyPath") SignedEvidence.MAX_PUBLIC_KEY_BYTES = Ok key;
  sb_length : length signature = 64%nat;
  sb_type : public_key_type key = Ok (js "ed25519");
  sb_verified : verify bundle key signature = Ok true;
  sb_record : exists recordedAt, record = signed_record input (VStr recordedAt) bundle signature key;
}.
Lemma buildSigned_ok now input record : buildSignedReleaseEvidence now input = Ok record ->
  exists root bundle signature key, Signed_built now input record root bundle signature key.
Proof.
  unfold buildSignedReleaseEvidence, validateCommit, validatePackageVersion, is_matching. destruct (_ || _); [|done]. cbn [negb]. cbv zeta.
  set (recordedAt := match input.["recordedAt"] with VUndef | VNull => _ | v => v end).
  destruct (input.["root"]) as [| | | |[|c root]| | | | | |] eqn:Er; try done.
  destruct (PlatformSupport.is_matching COMMIT _) eqn:Hc; [|done]. destruct (PlatformSupport.is_matching VERSION _) eqn:Hv; [|done].
  apply is_matching_spec in Hc, Hv. cbn [negb mbind result_bind]. intros ([] & Ht & H)%bind_Ok. destruct (_ || _); [done|].
  apply bind_Ok in H as (bundle & Hb & H). apply bind_Ok in H as (signature & Hs & H). apply bind_Ok in H as (key & Hk & H).
  destruct (Z.eqb_spec (Z.of_nat (length signature)) ED25519_SIGNATURE_BYTES) as [El|]; [|done]. cbn [negb] in H.
  destruct (public_key_type key) as [ty|] eqn:Ety; [|done]. destruct (str_eqb ty _) eqn:E; [|done]. apply str_eqb_eq in E as ->.
  cbn [negb] in H. apply bind_Ok in H as ([] & Hver & H); [|done]. apply Ok_inj in H as <-.
  exists (c :: root), bundle, signature, key. constructor; try done; [unfold ED25519_SIGNATURE_BYTES in El; lia|].
  unfold SignedEvidence.validateTimestamp in Ht. destruct (CiEvidence.validateTimestamp recordedAt) as [[]|] eqn:Et; [|done].
  apply validateTimestamp_ok in Et as [(s & Hs' & _) _]. exists s. by rewrite <- Hs'.
Qed.
Lemma buildSignedFragment_ok record p bytes f :
  buildSignedReleaseFragment (vobj [("record", record); ("evidencePath", VStr p)]%string) (ByteEvidence bytes) = Ok f ->
  exists g, buildReleaseGateFragment (signed_fragment_input record (VStr p) (ByteEvidence bytes)) = Ok g /\
    f = VObj (entries g ++ [(js "artifacts", varr (signed_descriptors record)); (js "signature", signature_of record)]).
Proof.
  unfold buildSignedReleaseFragment. change ((vobj _).["record"]) with record. change ((vobj _).["evidencePath"]) with (VStr p).
  cbn [is_record vobj negb]. destruct (is_record record); [|done]. cbn [negb]. destruct (_ || _); [done|]. destruct (negb _); [done|].
  intros ([] & _ & H)%bind_Ok. destruct (negb _); [done|]. apply bind_Ok in H as (g & Hg & H). apply Ok_inj in H as <-. by exists g.
Qed.

(** C24. A signed release is accepted by the release gate exactly when its paths are
    canonical: when the emitter has built the record and the fragment around the record's
    bytes, the record is read back, and it lies at its path if that is canonical, then the
    gate run on the same evidence root accepts the detached signature, the three artifacts
    with their digests and bounds, and the one gate of the fragment, if and only if the
    four paths have no empty or dot component - which the emitter does not ask (it takes
    [./b] and [a//b]).  Whatever the file system, so long as [lstat] and [realpath] of it
    behave as documented and the root is not the root directory [/], where the scan for
    symbolic links sees nothing. *)
Theorem signed_release_verifies now input record f root bundlePath signaturePath publicKeyPath p bytes :
  buildSignedReleaseEvidence now input = Ok record ->
  buildSignedReleaseFragment (vobj [("record", record); ("evidencePath", VStr p)]%string) (ByteEvidence bytes) = Ok f ->
  JSON_parse (utf8_decode bytes) = Ok record ->
  input.["root"] = VStr root -> realpathSync root <> Ok sep ->
  input.["bundlePath"] = VStr bundlePath -> input.["signaturePath"] = VStr signaturePath ->
  input.["publicKeyPath"] = VStr publicKeyPath ->
  (safe_path p -> evidence_file root p MAX_GATE_EVIDENCE_BYTES bytes) ->
  Accepted root f "signature" <-> Forall safe_path [bundlePath; signaturePath; publicKeyPath; p].
Proof.
  intros (root' & bundle & signature & key & [Hr Hc Hv Hb Hs Hk Hlen Hty Hver (at_ & Hrec)])%buildSigned_ok Hf Hj Hroot Hnot Hbp Hsp Hkp Hfile.
  rewrite Hroot in Hr. injection Hr as <-. rewrite Hbp in Hb. rewrite Hsp in Hs. rewrite Hkp in Hk.
  apply buildSignedFragment_ok in Hf as (g & Hg & ->).
  assert (Hd : signed_descriptors record = [descriptor "release-bundle" (VStr bundlePath) (VStr (sha256 bundle));
    descriptor "release-public-key" (VStr publicKeyPath) (VStr (sha256 key)); descriptor "release-signature" (VStr signaturePath) (VStr (sha256 signature))]).
  { rewrite <- Hbp, <- Hsp, <- Hkp, Hrec. done. }
  split.
  { intros Hacc. pose proof (extended_path _ _ _ _ p _ _ Hg eq_refl eq_refl eq_refl Hacc) as Sp.
    pose proof (accepted_artifacts _ _ _ Hacc) as Ha. rewrite (plain_fragment _ _ _ Hg eq_refl eq_refl) in Ha.
    change (release_artifacts _) with (signed_descriptors record) in Ha. rewrite Hd in Ha.
    apply Forall_cons in Ha as [[Sb%descriptor_path _] [[Sk%descriptor_path _] [[Ss%descriptor_path _] _]%Forall_cons]%Forall_cons].
    by repeat constructor. }
  intros Hsafe.
  apply Forall_cons in Hsafe as [Sb Hsafe]. apply Forall_cons in Hsafe as [Ss Hsafe]. apply Forall_cons in Hsafe as [Sk Hsafe].
  apply Forall_cons in Hsafe as [Sp _]. specialize (Hfile Sp). apply (sized_evidence laws lookup) in Hb, Hs, Hk; [|done..].
  destruct Hc as (c & Hc & _). destruct Hv as (v & Hv & _).
  assert (Hfree : free_of SECRET_KEY record).
  { rewrite Hrec. unfold signed_record. rewrite Hc, Hv, Hbp, Hsp, Hkp. apply freeb_free. by vm_compute. }
  destruct (extended_gate (signed_fragment_input record (VStr p) (ByteEvidence bytes)) g
    [(js "artifacts", varr (signed_descriptors record)); (js "signature", signature_of record)] root p bytes record (js "signed-release")
    Hg eq_refl eq_refl ltac:(done) eq_refl eq_refl Sp eq_refl Hfile Hj Hfree) as (gate & Hgate & Hw & Hver' & ->).
  constructor; [| |by exists gate].
  - exists publicKeyPath, bundlePath, signaturePath, key, bundle, signature. rewrite Hrec.
    by split_and!.
  - change (release_artifacts _) with (signed_descriptors record). rewrite Hd.
    repeat (apply Forall_cons; split; [eapply described; [done|done|eassumption|by vm_compute]|]). by constructor.
Qed.

(** ** Reviews *)

Lemma byte_array_ok field bytes out : byte_array field (ByteEvidence bytes) = Ok out -> out = bytes.
Proof. destruct bytes; [done|]. by intros <-%Ok_inj. Qed.
Lemma parseReviewReport_ok bytes commit version key report : parseReviewReport bytes commit version key = Ok report ->
  JSON_parse (utf8_decode bytes) = Ok report /\
  Review_wf {| review_commit := commit; review_version := version; review_key := VStr key |} report.
Proof.
  unfold parseReviewReport. destruct (JSON_parse _) as [r|] eqn:Ej; [|done]. destruct (is_record r); [|done]. cbn [negb].
  intros (findings & Hf & H)%bind_Ok. destruct findings as [|x l]; [|done]. cbn in H. apply Ok_inj in H as <-. split; [done|].
  destruct (validateIndependentReviewReport _ r) as [fs|] eqn:Ev in Hf; [|done]. apply Ok_inj in Hf as ->.
  by apply validateIndependentReviewReport_wf.
Qed.
(** What a review fragment is made of. *)
Record Review_built (input : ReviewInput) (f report : val) (reportBytes signatureBytes publicKeyBytes bytes : list Z) : Prop := {
  rb_commit : matching COMMIT (rv_commit input);
  rb_version : matching VERSION (rv_packageVersion input);
  rb_length : length signatureBytes = 64%nat;
  rb_type : public_key_type publicKeyBytes = Ok (js "ed25519");
  rb_report : JSON_parse (utf8_decode reportBytes) = Ok report;
  rb_wf : Review_wf {| review_commit := rv_commit input; review_version := rv_packageVersion input;
                       review_key := VStr (sha256 publicKeyBytes) |} report;
  rb_verified : verify reportBytes publicKeyBytes signatureBytes = Ok true;
  rb_bytes : json_bytes (review_record input report reportBytes signatureBytes publicKeyBytes) = Ok bytes;
  rb_fragment : exists g, buildReleaseGateFragment (review_fragment_input input bytes) = Ok g /\
    f = VObj (entries g ++
      [(js "evidence", review_record input report reportBytes signatureBytes publicKeyBytes);
       (js "artifacts", varr (review_artifacts input reportBytes signatureBytes publicKeyBytes));
       (js "independentReview", review_descriptor input report publicKeyBytes)]);
}.
Lemma buildReview_ok input f reportBytes signatureBytes publicKeyBytes :
  buildIndependentReviewFragment input = Ok f -> rv_reportBytes input = ByteEvidence reportBytes ->
  rv_signatureBytes input = ByteEvidence signatureBytes -> rv_publicKeyBytes input = ByteEvidence publicKeyBytes ->
  exists report bytes, Review_built input f report reportBytes signatureBytes publicKeyBytes bytes.
Proof.
  intros H Er Es Ek. unfold buildIndependentReviewFragment, validateIdentity, validateCommit, validatePackageVersion, is_matching in H.
  rewrite Er, Es, Ek in H.
  destruct (PlatformSupport.is_matching COMMIT _) eqn:Hc; [|done]. destruct (PlatformSupport.is_matching VERSION _) eqn:Hv; [|done].
  apply is_matching_spec in Hc, Hv. cbn [negb mbind result_bind ReleaseFragment.err] in H.
  apply bind_Ok in H as (r & ->%byte_array_ok & H). apply bind_Ok in H as (sg & ->%byte_array_ok & H).
  apply bind_Ok in H as (k & ->%byte_array_ok & H). destruct (_ <? _); [done|].
  destruct (Z.eqb_spec (Z.of_nat (length signatureBytes)) SIGNATURE_BYTES) as [El|]; [|done]. cbn [negb] in H.
  destruct (_ <? _); [done|]. destruct (negb _); [done|]. destruct (negb _); [done|]. apply bind_Ok in H as ([] & _ & H).
  destruct (public_key_type publicKeyBytes) as [ty|] eqn:Ety; [|done]. destruct (str_eqb ty _) eqn:E; [|done]. apply str_eqb_eq in E as ->.
  cbn [negb] in H. apply bind_Ok in H as (report & [Hj Hwf]%parseReviewReport_ok & H). apply bind_Ok in H as ([] & Hver & H); [|done].
  destruct (verify _ _ _) as [v|] eqn:Ever in Hver; [|done]. apply Ok_inj in Hver as ->. cbn [negb] in H. cbv zeta in H.
  apply bind_Ok in H as (bytes & Hb & H). apply bind_Ok in H as (g & Hg & H). apply Ok_inj in H as <-.
  exists report, bytes. constructor; try done; [unfold SIGNATURE_BYTES in El; lia|by exists g].
Qed.
Lemma read_public root v field maximum bytes p : v = VStr p -> safe_path p -> realpathSync root <> Ok sep ->
  readBoundedFile root v field maximum = Ok bytes -> evidence_file root p maximum bytes.
Proof.
  intros -> Hp Hroot. unfold readBoundedFile, ReviewFragment.containedPath. destruct (negb _); [done|]. destruct (negb _); [done|].
  by apply (sized_evidence laws lookup).
Qed.

(** C25. A review fragment is accepted by the release gate exactly when its paths are
    canonical: for an input whose bytes were read below the evidence root, if the emitter
    builds the fragment, the record it wrote is read back, and it lies at its path if that
    is canonical, then the gate run on the same root accepts the reviewer's signature over
    the well-formed report on this very commit and version, the three artifacts, and the
    one gate of the fragment, if and only if the four paths have no empty or dot
    component, which the emitter does not ask.  The root is not the root directory [/]. *)
Theorem review_fragment_verifies input f root reportPath signaturePath publicKeyPath p report signature key bytes :
  buildIndependentReviewFragment input = Ok f ->
  rv_reportPath input = VStr reportPath -> rv_signaturePath input = VStr signaturePath ->
  rv_publicKeyPath input = VStr publicKeyPath -> rv_evidencePath input = VStr p -> realpathSync root <> Ok sep ->
  rv_reportBytes input = ByteEvidence report -> readBoundedFile root (VStr reportPath) (js "report path") MAX_REVIEW_REPORT_BYTES = Ok report ->
  rv_signatureBytes input = ByteEvidence signature -> readBoundedFile root (VStr signaturePath) (js "signature path") SIGNATURE_BYTES = Ok signature ->
  rv_publicKeyBytes input = ByteEvidence key -> readBoundedFile root (VStr publicKeyPath) (js "public key path") ReviewFragment.MAX_PUBLIC_KEY_BYTES = Ok key ->
  json_bytes f.["evidence"] = Ok bytes -> JSON_parse (utf8_decode bytes) = Ok f.["evidence"] ->
  (safe_path p -> evidence_file root p MAX_GATE_EVIDENCE_BYTES bytes) ->
  Accepted root f "independentReview" <-> Forall safe_path [reportPath; signaturePath; publicKeyPath; p].
Proof.
  intros Hf Hrp Hsp Hkp Hep Hnot Er Hr Es Hs Ek Hk Hjb Hj Hfile.
  destruct (buildReview_ok _ _ _ _ _ Hf Er Es Ek) as (rep & bytes' & [(c & Hc & _) (v & Hv & _) Hlen Hty Hrj Hwf Hver Hb (g & Hg & ->)]).
  set (extra := [(js "evidence", _); (js "artifacts", _); _]) in *.
  pose proof (plain_fragment _ _ _ Hg eq_refl eq_refl) as Heq.
  assert (Hevidence : (VObj (entries g ++ extra)).["evidence"] = review_record input rep report signature key) by by rewrite Heq.
  assert (Ha : review_artifacts input report signature key = [descriptor "independent-review-report" (VStr reportPath) (VStr (sha256 report));
    descriptor "independent-review-public-key" (VStr publicKeyPath) (VStr (sha256 key));
    descriptor "independent-review-signature" (VStr signaturePath) (VStr (sha256 signature))]).
  { rewrite <- Hrp, <- Hsp, <- Hkp. done. }
  assert (Harts : release_artifacts (VObj (entries g ++ extra)) = review_artifacts input report signature key) by by rewrite Heq.
  split.
  { intros Hacc. pose proof (extended_path _ _ _ _ p _ _ Hg eq_refl eq_refl Hep Hacc) as Sp.
    pose proof (accepted_artifacts _ _ _ Hacc) as Hall. rewrite Harts, Ha in Hall.
    apply Forall_cons in Hall as [[Sr%descriptor_path _] [[Sk%descriptor_path _] [[Ss%descriptor_path _] _]%Forall_cons]%Forall_cons].
    by repeat constructor. }
  intros Hsafe. apply Forall_cons in Hsafe as [Sr Hsafe]. apply Forall_cons in Hsafe as [Ss Hsafe]. apply Forall_cons in Hsafe as [Sk Hsafe].
  apply Forall_cons in Hsafe as [Sp _]. specialize (Hfile Sp).
  apply (read_public _ _ _ _ _ reportPath eq_refl) in Hr; [|done..]. apply (read_public _ _ _ _ _ signaturePath eq_refl) in Hs; [|done..].
  apply (read_public _ _ _ _ _ publicKeyPath eq_refl) in Hk; [|done..].
  assert (Hfree : free_of SECRET_KEY (review_record input rep report signature key)).
  { destruct Hwf as [_ _ _ _ _ [(rc & Hrc & _) _] [(rv & Hrv & _) _] _ _ _ _]. unfold review_record.
    rewrite Hc, Hv, Hrp, Hsp, Hkp, Hrc, Hrv. apply freeb_free. by vm_compute. }
  rewrite Hevidence in Hjb, Hj. rewrite Hb in Hjb. apply Ok_inj in Hjb as ->.
  destruct (extended_gate (review_fragment_input input bytes) g extra root p bytes
    (review_record input rep report signature key) (js "independent-security-review") Hg eq_refl eq_refl
    ltac:(done) eq_refl Hep Sp eq_refl Hfile Hj Hfree) as (gate & Hgates & Hw & Hv' & _).
  constructor; [| |by exists gate].
  - rewrite Heq. exists publicKeyPath, reportPath, signaturePath, key, report, signature. split_and!; try done. intros _. by exists rep.
  - rewrite Harts, Ha. repeat (apply Forall_cons; split; [eapply described; [done|done|eassumption|by vm_compute]|]). by constructor.
Qed.
End gate.

(** ** Artifact fragments *)

Section artifacts.
Context {host : Host} (laws : HostLaws host) (lookup : LookupLaws host).
Context (hex_digests : forall bytes, matches SHA256 (sha256 bytes)).

(** An artifact as the command hands it over: kind, path and the bytes read. *)
Definition slot_of (x : jsstr * jsstr * list Z) : artifact_slot := Artifact (VStr x.1.1) (VStr x.1.2) (ByteEvidence x.2).
Definition described_as (x : jsstr * jsstr * list Z) : val :=
  vobj [("kind", VStr x.1.1); ("path", VStr x.1.2); ("sha256", VStr (sha256 x.2))]%string.
Lemma add_artifacts_ok l kinds paths out st :
  DeviceEvidence.foldM add_artifact (kinds, paths, out) (map slot_of l) = Ok st ->
  unseen kinds l.*1.*1 /\ unseen paths l.*1.*2 /\ Forall (fun x => x.1.1 <> [] /\ PRIVATE_MATERIAL_PATH x.1.2 = false) l /\
  st.2 = out ++ map Some (map described_as l).
Proof.
  revert kinds paths out. induction l as [|[[k p] b] l IH]; intros kinds paths out; cbn [map DeviceEvidence.foldM fmap list_fmap].
  - intros <-%Ok_inj. rewrite app_nil_r. split_and!; eauto using unseen_nil, Forall_nil_2.
  - intros (st1 & H1 & H)%bind_Ok. unfold add_artifact, slot_of in H1. cbn [fst snd] in H1.
    destruct (re_match LABEL k) eqn:Ek; [|done]. destruct (isSafeRelativePath (VStr p)); [|done]. cbn [negb] in H1.
    destruct (PRIVATE_MATERIAL_PATH p) eqn:Ep; [done|]. destruct (set_has k kinds) eqn:Hk; [done|]. destruct (set_has p paths) eqn:Hp; [done|].
    apply bind_Ok in H1 as (b' & [-> _]%bounded_bytes_ok & H1). apply Ok_inj in H1 as <-.
    unfold set_has in Hk, Hp. apply bool_decide_eq_false in Hk, Hp. rewrite !set_add_new in H by done.
    apply IH in H as (Hks & Hps & Hall & ->). cbn [fst snd]. rewrite <- app_assoc.
    change (k :: l.*1.*1) with ([k] ++ l.*1.*1). change (p :: l.*1.*2) with ([p] ++ l.*1.*2).
    rewrite !unseen_app, !unseen_single. split_and!; try done. constructor; [|done]. split; [|done]. cbn. intros ->. by vm_compute in Ek.
Qed.
Lemma containedFile_found root p file : realpathSync root = Ok root -> root <> sep -> safe_path p ->
  ArtifactFragment.containedFile root p = Ok file ->
  Found root p file /\ exists stats, statSync file = Ok stats /\ isFile stats = true /\ size stats <> 0 /\ size stats <= MAX_RELEASE_ARTIFACT_BYTES.
Proof.
  intros Hr Hroot Hp. unfold ArtifactFragment.containedFile. destruct (negb _); [done|]. destruct (PRIVATE_MATERIAL_PATH p); [done|].
  cbv zeta. destruct (ReleaseFiles.outside _); [done|]. intros ([] & Hs & H)%bind_Ok; [done|]. apply bind_Ok in H as ([] & Hl & H); [|done].
  cbn [negb] in H. apply bind_Ok in H as (stats & Hst & H). destruct (Z.eqb_spec (size stats) 0); [done|].
  destruct (Z.ltb_spec MAX_RELEASE_ARTIFACT_BYTES (size stats)); [done|]. apply Ok_inj in H as <-.
  apply lstat_isFile_ok in Hl as [Hl (stats' & Hst' & Hf)]. rewrite Hst in Hst'. apply Ok_inj in Hst' as <-.
  split; [by eapply taken_found|]. by exists stats.
Qed.
(** The specifications and the bytes found for them. *)
Lemma read_artifacts_ok root specs slots : realpathSync root = Ok root -> root <> sep ->
  traverse (read_artifact root) specs = Ok slots ->
  exists l, slots = map slot_of l /\ l.*1 = specs /\
    Forall (fun x => safe_path x.1.2 -> evidence_file root x.1.2 MAX_RELEASE_ARTIFACT_BYTES x.2) l.
Proof.
  intros Hr Hroot H%traverse_Ok. induction H as [|[k p] slot specs slots Hx _ (l & -> & <- & Hl)]; [by exists []|].
  unfold read_artifact in Hx. cbn [fst snd] in Hx. apply bind_Ok in Hx as (file & Hf & Hx). apply bind_Ok in Hx as (b & Hb & <-%Ok_inj).
  exists ((k, p, b) :: l). split_and!; try done. constructor; [|done]. cbn. intros Hp1.
  apply containedFile_found in Hf as (Hfound & stats & Hs & Hfile & H0 & Hm); [|done..]. exists file. split; [done|]. by exists stats.
Qed.
(** The file is within the bound the release gate has for its kind. *)
Definition Fits (root : jsstr) (spec : jsstr * jsstr) : Prop :=
  forall file stats, Found root spec.2 file -> statSync file = Ok stats -> size stats <= maxArtifactBytes (VStr spec.1).
Lemma fits_ok root x : safe_path x.1.2 -> evidence_file root x.1.2 MAX_RELEASE_ARTIFACT_BYTES x.2 ->
  artifact_ok root (described_as x) <-> Fits root x.1.
Proof.
  intros Hp (file & Hf & stats & Hs & Hfile & H0 & Hm & Hb). unfold artifact_ok, Fits.
  change ((described_as x).["path"]) with (VStr x.1.2). change ((described_as x).["kind"]) with (VStr x.1.1). split.
  - intros H file' stats' Hf' Hs'. rewrite (Found_fun _ _ _ _ Hf' Hf), Hs in Hs'. apply Ok_inj in Hs' as <-.
    destruct (H _ eq_refl) as (b & (file1 & Hf1 & stats1 & Hs1 & _ & _ & Hm1 & _) & _).
    rewrite (Found_fun _ _ _ _ Hf1 Hf), Hs in Hs1. by apply Ok_inj in Hs1 as <-.
  - intros H p [= <-]. exists x.2. split; [|done]. exists file. split; [done|]. exists stats. split_and!; try done. by apply (H file).
Qed.

(** The gate's view of one descriptor: its shape asks a canonical path, and then the file
    is verified when it is within the bound. *)
Lemma described_wf x : x.1.1 <> [] -> Artifact_wf (described_as x) <-> safe_path x.1.2.
Proof using hex_digests.
  intros Hk. split; [intros [_ _ (q & Hq & Hs) _]; by injection Hq as ->|]. intros Hp.
  constructor; [done|by exists x.1.1|by exists x.1.2|by exists (sha256 x.2)].
Qed.

(** C26. Artifact descriptors are faithful: when the command has read the artifacts below
    the (canonical) evidence root, which is not [/], and built the fragment, it lists
    exactly the given kinds and paths in order, each kind and each path once, no path of
    private material; every descriptor has the shape the manifest needs if and only if
    every path is canonical - the emitter also takes [./b] and [a//b] -; and the release
    gate accepts the shape and verifies the files on that root if and only if, moreover,
    every file is within the gate's bound for its kind, which the emitter does not test. *)
Theorem artifact_fragment_verifies root specs input slots f :
  realpathSync root = Ok root -> root <> sep ->
  traverse (read_artifact root) specs = Ok slots -> buildReleaseArtifactFragment input (Some slots) = Ok f ->
  flat_map kind_of (release_artifacts f) = specs.*1 /\ artifact_paths f = specs.*2 /\ NoDup specs.*1 /\ NoDup specs.*2 /\
  Forall (fun p => PRIVATE_MATERIAL_PATH p = false) specs.*2 /\
  (Forall Artifact_wf (release_artifacts f) <-> Forall safe_path specs.*2) /\
  (Forall (fun a => Artifact_wf a /\ artifact_ok root a) (release_artifacts f) <->
     Forall safe_path specs.*2 /\ Forall (Fits root) specs).
Proof.
  intros Hr Hroot Hread Hf. destruct (read_artifacts_ok root specs slots Hr Hroot Hread) as (l & -> & <- & Hl).
  unfold buildReleaseArtifactFragment in Hf. destruct (negb _); [done|]. apply bind_Ok in Hf as ([] & _ & Hf).
  destruct (_ || _); [done|]. apply bind_Ok in Hf as ([[kinds paths] normalized] & Hfold & Hf). apply Ok_inj in Hf as <-.
  apply add_artifacts_ok in Hfold as (Hk%unseen_empty & Hq%unseen_empty & Hall & Hn). cbn in Hn. rewrite Hn.
  assert (Ha : release_artifacts (vobj [("schemaVersion", vnum 1); ("commit", input.["commit"]); ("packageVersion", input.["packageVersion"]);
    ("artifacts", VArr (map Some (map described_as l)))]%string) = map described_as l) by apply MergeEvidence.present_some.
  unfold artifact_paths. rewrite Ha. clear Hn Ha Hread.
  rewrite Forall_forall in Hall. rewrite Forall_forall in Hl.
  split_and!; try done.
  - clear. induction l as [|x l IH]; [done|]. cbn. by rewrite <- IH.
  - clear. induction l as [|x l IH]; [done|]. cbn. by rewrite <- IH.
  - rewrite !Forall_fmap. apply Forall_forall. intros x Hx. by apply (Hall x).
  - rewrite Forall_map, !Forall_fmap, !Forall_forall. split; intros H x Hx; by apply (described_wf x ltac:(by apply (Hall x))), H.
  - rewrite Forall_map, !Forall_fmap, !Forall_forall. split.
    + intros H. split; intros x Hx; destruct (H x Hx) as [Hw%described_wf Hok]; try (by apply (Hall x)); [done|].
      by apply (fits_ok root x Hw (Hl x Hx Hw)).
    + intros [Hp H] x Hx. pose proof (Hp x Hx) as Hs. split; [by apply described_wf; [apply (Hall x)|]|].
      apply (fits_ok root x Hs (Hl x Hx Hs)). by apply H.
Qed.
End artifacts.

(** ** The commands *)

Section commands.
Context {disk : Disk} (laws : DiskLaws disk) (host_laws : forall s, HostLaws (observe s)) (checkout : Checkout).

(** The JSON text of [v] is in a new file, lexically below the real path of [root]: at
    [rel] without its empty and dot components. *)
Definition New_file (s s' : fs) (root rel : jsstr) (v : val) : Prop :=
  exists t r d bytes, preserves s t /\ @realpathSync (observe t) root = Ok (abspath r) /\ Forall proper (r ++ d) /\
    resolve2 working_directory (abspath r) rel = abspath (r ++ d) /\
    json_bytes v = Ok bytes /\ Created s s' (abspath (r ++ d)) bytes.

(** What a finished run of each of the six commands did with its arguments: where it
    found its root and inputs, what its builder was given and made of them, and the new
    files. *)
Inductive Published (s s' : fs) : (list jsstr -> fs -> jsstr * Z * fs) -> list jsstr -> Prop :=
  | Published_gate root out gate e options R commit version toolchains file bytes v :
      @realpathSync (observe s) (resolve1 working_directory root) = Ok R ->
      At_commit checkout commit -> @EmitCommand.currentPackageVersion (observe s) checkout = Ok version ->
      parseToolchains options = Ok toolchains ->
      @ReleaseFragment.containedFile (observe s) R (VStr e) = Ok file ->
      @ReleaseFragment.readBoundedEvidenceFile (observe s) file = Ok bytes ->
      @buildReleaseGateFragment (observe s) {| ReleaseFragment.in_commit := VStr commit;
        ReleaseFragment.in_packageVersion := VStr version; ReleaseFragment.in_gateName := VStr gate;
        ReleaseFragment.in_evidencePath := VStr e; ReleaseFragment.in_evidenceBytes := ByteEvidence bytes;
        ReleaseFragment.in_toolchains := fromEntries toolchains |} = Ok v ->
      out <> e -> New_file s s' R out v ->
      Published s s' (gate_main checkout) (root :: out :: gate :: e :: options)
  | Published_signed root out options R values identity record :
      @realpathSync (observe s) (resolve1 working_directory root) = Ok R ->
      signed_parseOptions checkout options s = Ok values ->
      SignedEvidence.resolveIdentity checkout values s = Ok identity ->
      @buildSignedReleaseEvidence (observe s) (now checkout) (signed_input R identity values) = Ok record ->
      New_file s s' R out record ->
      Published s s' (signed_main checkout) (root :: out :: options)
  | Published_signed_fragment root out e rest R record bytes v :
      @realpathSync (observe s) (resolve1 working_directory root) = Ok R ->
      @readEvidence (observe s) R e = Ok (record, bytes) ->
      @buildSignedReleaseFragment (observe s) (vobj [("record", record); ("evidencePath", VStr e)]%string) (ByteEvidence bytes) = Ok v ->
      New_file s s' R out v ->
      Published s s' signed_fragment_main (root :: out :: e :: rest)
  | Published_review root e f options R values input v :
      @realpathSync (observe s) (resolve1 working_directory root) = Ok R ->
      review_parseOptions options = Ok values -> review_input checkout R e values s = Ok input ->
      @buildIndependentReviewFragment (observe s) input = Ok v ->
      New_file s s' R e v.["evidence"] -> New_file s s' R f v ->
      Published s s' (review_main checkout) (root :: e :: f :: options)
  | Published_artifacts root out options R parsed slots identity v :
      @realpathSync (observe s) (resolve1 working_directory root) = Ok R ->
      artifact_parseOptions checkout options s = Ok parsed ->
      traverse (@read_artifact (observe s) R) (a_artifacts parsed) = Ok slots ->
      ArtifactFragment.resolveIdentity checkout (a_identity parsed) s = Ok identity ->
      @buildReleaseArtifactFragment (observe s) (vobj [("commit", identity.1); ("packageVersion", identity.2)]%string) (Some slots) = Ok v ->
      New_file s s' R out v ->
      Published s s' (artifact_main checkout) (root :: out :: options)
  | Published_lsan log root e f runner rest commit version s1 record bytes v :
      At_commit checkout commit -> @EmitCommand.currentPackageVersion (observe s) checkout = Ok version -> preserves s s1 ->
      @prepareLsanGateEvidence (observe s1) {| ls_logRoot := resolve1 working_directory log;
        ls_outputRoot := VStr (resolve1 working_directory root); ls_commit := VStr commit; ls_packageVersion := VStr version;
        ls_evidencePath := VStr e; ls_fragmentPath := VStr f; ls_runner := VStr runner; ls_recordedAt := VStr (now checkout);
        ls_pathPrefix := LsanEvidence.LSAN_LOG_PATH_PREFIX |} = Ok (record, bytes, v) ->
      New_file s s' (resolve1 working_directory root) e record -> New_file s s' (resolve1 working_directory root) f v ->
      Published s s' (lsan_main checkout) (log :: root :: e :: f :: js "--runner" :: runner :: rest).

(** A safe relative path stays below the root: its empty and dot components drop out. *)
Lemma split_some a : exists h t, split slash a = h :: t.
Proof.
  induction a as [|x a (h & t & IH)]; [by eexists _, _|]. cbn [split]. destruct (x =? slash); [by eexists _, _|].
  rewrite IH. by eexists _, _.
Qed.
Lemma split_sep a b : split slash (a ++ slash :: b) = split slash a ++ split slash b.
Proof.
  induction a as [|x a IH]; cbn [app split]; [by rewrite Z.eqb_refl|]. rewrite IH.
  destruct (x =? slash); [done|]. by destruct (split_some a) as (h & t & ->).
Qed.
Lemma collapse_loose comps acc : Forall (fun c => slash ∉ c) comps -> (js ".." ∉ comps) -> exists d, Forall proper d /\
  foldl (fun acc c => if str_eqb c [] || str_eqb c (js ".") then acc
    else if str_eqb c (js "..") then removelast acc else acc ++ [c]) acc comps = acc ++ d.
Proof.
  intros Hs. revert acc. induction Hs as [|c comps Hc _ IH]; intros acc Hn; cbn [foldl]; [exists []; by rewrite app_nil_r|].
  apply not_elem_of_cons in Hn as [Hne Hn]. destruct (str_eqb c []) eqn:E0; [by apply IH|].
  destruct (str_eqb c (js ".")) eqn:E1; [by apply IH|]. cbn [orb].
  destruct (str_eqb c (js "..")) eqn:E2; [by apply str_eqb_eq in E2|].
  destruct (IH (acc ++ [c]) Hn) as (d & Hd & ->). exists (c :: d). rewrite <- app_assoc. split; [|done].
  constructor; [|done]. split; [split; [|done]|split; [|done]]; intros ->; [done|by rewrite str_eqb_refl in E1].
Qed.
Lemma safe_below w l rel : Forall proper l -> isSafeRelativePath (VStr rel) = true ->
  exists d, Forall proper d /\ resolve2 w (abspath l) rel = abspath (l ++ d).
Proof.
  intros Hl Hs. unfold isSafeRelativePath, LsanEvidence.isSafeRelativePath in Hs.
  rewrite !andb_true_iff, !negb_true_iff in Hs. destruct Hs as [[[_ Ha] _] Hd]. unfold resolve2. rewrite Ha.
  change (abspath l) with (slash :: join sep l) at 1. cbn iota. unfold resolve1. change (isAbsolute (abspath l ++ sep ++ rel)) with true. cbn iota.
  change (abspath l ++ sep ++ rel) with (abspath l ++ slash :: rel). rewrite split_sep. unfold collapse. rewrite foldl_app.
  destruct (collapse_loose (split slash rel) (collapse (split slash (abspath l)))) as (d & Hp & Hd').
  - apply split_slash_free.
  - intros Hin. apply str_in_elem in Hin. congruence.
  - exists d. split; [done|]. unfold collapse in Hd'. rewrite Hd'. fold (collapse (split slash (abspath l))). by rewrite collapse_abspath.
Qed.
Lemma new_file s t s' root R rel v bytes :
  preserves s t -> isSafeRelativePath (VStr rel) = true -> @realpathSync (observe t) root = Ok R -> json_bytes v = Ok bytes ->
  Created s s' (resolve2 working_directory R rel) bytes -> New_file s s' root rel v.
Proof.
  intros Hk Hs HR Hb Hc. destruct (realpath_normal _ (host_laws t) _ _ HR) as (r & Hr & ->).
  destruct (safe_below working_directory r rel Hr Hs) as (d & Hd & He). rewrite He in Hc.
  exists t, r, d, bytes. split_and!; try done. by apply Forall_app.
Qed.
Lemma created_later s t s' p bytes : Created s t p bytes -> preserves t s' -> Created s s' p bytes.
Proof. intros [H1 H2] H. split; [done|by apply H]. Qed.
Lemma reading_json v s bytes s' : reading (fun s => @messages (observe s) _ (json_bytes v)) s = (Ok bytes, s') ->
  json_bytes v = Ok bytes /\ s' = s.
Proof. intros [H ->]%reading_ok. by apply (proj1 (messages_ok (host := observe s) _ _)) in H. Qed.
Lemma after_parent {A} what root parent (k : unit -> io A) s r s' :
  (make_parent what root parent ≫= k) s = (Ok r, s') -> exists s1, preserves s s1 /\ k tt s1 = (Ok r, s').
Proof.
  intros ([] & s1 & H1 & H)%io_bind_ok. exists s1. split; [|done]. pose proof (make_parent_keeps laws what root parent s) as Hk. by rewrite H1 in Hk.
Qed.
Lemma write_value_new root rel v s p s' : write_value root (VStr rel) v s = (Ok p, s') -> New_file s s' root rel v.
Proof.
  intros H. pose proof (write_value_ok laws _ _ _ _ _ _ H) as [_ (bytes & Hb & Hw)].
  destruct Hw as (rel' & R & P & s1 & Hrel & HR & -> & _ & _ & Hc). injection Hrel as <-.
  apply (new_file s s s' root R rel v bytes); [done| |done|done|exact Hc].
  unfold write_value, write_new in H. by destruct (isSafeRelativePath (VStr rel)).
Qed.
Lemma emit_gate_published root out gate e options s line s' :
  emit_gate checkout root out gate e options s = (Ok line, s') -> Published s s' (gate_main checkout) (root :: out :: gate :: e :: options).
Proof.
  unfold emit_gate. intros (R & s1 & [HR ->]%reading_ok & H)%io_bind_ok. apply io_bind_ok in H as (file & s1 & [Hfile ->]%reading_ok & H).
  apply io_bind_ok in H as (b & s1 & [Hbytes ->]%reading_ok & H). apply io_bind_ok in H as (c & s1 & [Hc%currentCommit_ok ->]%reading_ok & H).
  apply io_bind_ok in H as (v & s1 & [Hv ->]%reading_ok & H). apply io_bind_ok in H as (t & s1 & [Ht ->]%reading_ok & H).
  apply io_bind_ok in H as (fragment & s1 & [Hf ->]%reading_ok & H). destruct (str_eqb out e) eqn:Eo; [done|].
  apply io_bind_ok in H as (p & s1 & Hw%write_value_new & H). injection H as _ <-.
  apply (proj1 (messages_ok (host := observe s) _ _)) in Hf, Hbytes.
  eapply Published_gate; try done. by intros ->; rewrite str_eqb_refl in Eo.
Qed.
Lemma canonical_root root R (s : fs) : @realpathSync (observe s) root = Ok R -> @realpathSync (observe s) R = Ok R.
Proof. apply (realpath_canonical _ (host_laws s)). Qed.
Lemma writeEvidence_new root out v s s' : writeEvidence root out v s = (Ok tt, s') -> New_file s s' root out v.
Proof.
  unfold writeEvidence. destruct (isSafeRelativePath _) eqn:Es; [|done]. cbn [negb].
  intros (P & s2 & [HR ->]%reading_ok & H)%io_bind_ok. cbv zeta in H. destruct (ReleaseFiles.outside _); [done|].
  apply after_parent in H as (s2 & Hk & H). apply io_bind_ok in H as ([] & s3 & [-> _]%refuse_escape_ok & H).
  apply io_bind_ok in H as ([] & s3 & [_ ->]%reading_ok & H). apply io_bind_ok in H as (bytes & s3 & [Hb ->]%reading_json & H).
  eapply (new_file s s); [done..|]. by eapply (write_created laws).
Qed.
Lemma writeFragment_new what root R out v (s s' : fs) : @realpathSync (observe s) root = Ok R ->
  SignedEvidence.writeFragment what R out v s = (Ok tt, s') -> New_file s s' R out v.
Proof.
  intros HR%canonical_root. unfold SignedEvidence.writeFragment. destruct (isSafeRelativePath _) eqn:Es; [|done]. cbn [negb].
  cbv zeta. destruct (ReleaseFiles.outside _); [done|].
  intros (s1 & Hk & H)%after_parent. apply io_bind_ok in H as ([] & s2 & [_ ->]%reading_ok & H).
  apply io_bind_ok in H as (bytes & s2 & [Hb ->]%reading_json & H). eapply (new_file s s); [done..|]. by eapply (write_created laws).
Qed.
Lemma emit_signed_published root out options s line s' :
  emit_signed checkout root out options s = (Ok line, s') -> Published s s' (signed_main checkout) (root :: out :: options).
Proof.
  unfold emit_signed. intros (R & s1 & [HR ->]%reading_ok & H)%io_bind_ok. apply io_bind_ok in H as (o & s1 & [Ho ->]%reading_ok & H).
  apply io_bind_ok in H as (i & s1 & [Hi ->]%reading_ok & H). apply io_bind_ok in H as (record & s1 & [Hr ->]%reading_ok & H).
  apply io_bind_ok in H as ([] & s1 & Hw%writeEvidence_new & Hend). injection Hend as _ <-. by eapply Published_signed.
Qed.
Lemma emit_artifacts_published root out options s line s' :
  emit_artifacts checkout root out options s = (Ok line, s') -> Published s s' (artifact_main checkout) (root :: out :: options).
Proof.
  unfold emit_artifacts. intros (R & s1 & [HR ->]%reading_ok & H)%io_bind_ok.
  apply io_bind_ok in H as (o & s1 & [Ho ->]%reading_ok & H). apply io_bind_ok in H as (slots & s1 & [Hs ->]%reading_ok & H).
  apply io_bind_ok in H as (i & s1 & [Hi ->]%reading_ok & H). apply io_bind_ok in H as (fragment & s1 & [Hf ->]%reading_ok & H).
  apply (proj1 (messages_ok (host := observe s) _ _)) in Hf.
  apply io_bind_ok in H as ([] & s1 & Hw & H). apply (writeFragment_new _ _ _ _ _ _ _ HR) in Hw. injection H as _ <-.
  by eapply Published_artifacts.
Qed.
Lemma emit_signed_fragment_published root out e rest s line s' :
  emit_signed_fragment root out e s = (Ok line, s') -> Published s s' signed_fragment_main (root :: out :: e :: rest).
Proof.
  unfold emit_signed_fragment. intros (R & s1 & [HR ->]%reading_ok & H)%io_bind_ok.
  apply io_bind_ok in H as ([record bytes] & s1 & [He ->]%reading_ok & H). apply io_bind_ok in H as (fragment & s1 & [Hf ->]%reading_ok & H).
  apply (proj1 (messages_ok (host := observe s) _ _)) in Hf.
  apply io_bind_ok in H as ([] & s1 & Hw & H). apply (writeFragment_new _ _ _ _ _ _ _ HR) in Hw. injection H as _ <-.
  by eapply Published_signed_fragment.
Qed.
Lemma lsan_writeJson_keeps root rel bytes : keeps preserves (lsan_writeJson root rel bytes).
Proof. pose proof (write_keeps laws). pose proof (make_parent_keeps laws). unfold lsan_writeJson, refuse_existing, realpath. solve_keeps. Qed.
Lemma lsan_writeJson_new s0 root rel v bytes s s' : preserves s0 s -> json_bytes v = Ok bytes ->
  lsan_writeJson root (VStr rel) bytes s = (Ok tt, s') -> preserves s s' /\ New_file s0 s' root rel v.
Proof.
  intros K0 Hb H. split. { pose proof (lsan_writeJson_keeps root (VStr rel) bytes s) as Hk. by rewrite H in Hk. }
  revert H. unfold lsan_writeJson. destruct (isSafeRelativePath _) eqn:Es; [|done]. cbn [negb].
  intros (R & s1 & [HR ->]%reading_ok & H)%io_bind_ok.
  cbv zeta in H. apply after_parent in H as (s1 & Hk & H). apply io_bind_ok in H as ([] & s2 & [_ ->]%reading_ok & H).
  eapply (new_file s0 s); [done..|]. eapply (write_created laws); [|exact H]. by etransitivity.
Qed.
Lemma new_file_later s t s' root rel v : New_file s t root rel v -> preserves t s' -> New_file s s' root rel v.
Proof. intros (u & r & d & b & H1 & H2 & H3 & H4 & H5 & H6) H. exists u, r, d, b. split_and!; try done. by eapply created_later. Qed.
Lemma emit_lsan_published log root e f runner rest s line s' :
  emit_lsan checkout log root e f runner s = (Ok line, s') ->
  Published s s' (lsan_main checkout) (log :: root :: e :: f :: js "--runner" :: runner :: rest).
Proof.
  unfold emit_lsan, writeLsanGateEvidence. intros (c & s1 & [Hc%currentCommit_ok ->]%reading_ok & H)%io_bind_ok.
  apply io_bind_ok in H as (v & s1 & [Hv ->]%reading_ok & H). apply io_bind_ok in H as (r & s1 & H & Hend). injection Hend as _ <-.
  cbn [ls_outputRoot ls_evidencePath ls_fragmentPath] in H. destruct (resolve1 working_directory root) as [|x out] eqn:Eout; [done|]. rewrite <- Eout in *.
  do 3 (destruct (_ : bool) in H; [done|]).
  apply (mkdir_then laws) in H as (s2 & K1 & H). apply io_bind_ok in H as ([[record bytes] fragment] & s3 & [Hp ->]%reading_ok & H).
  apply (proj1 (messages_ok (host := observe s2) _ _)) in Hp.
  assert (Hbytes : json_bytes record = Ok bytes).
  { pose proof Hp as Hp'. unfold prepareLsanGateEvidence in Hp'. apply bind_Ok in Hp' as (rec & _ & Hp'). apply bind_Ok in Hp' as (b & Hb & Hp').
    apply bind_Ok in Hp' as (g & _ & Hp'). by injection Hp' as -> -> _. }
  apply io_bind_ok in H as ([] & s3 & H1 & H). apply (lsan_writeJson_new s _ _ record) in H1 as [K2 N1]; [|done..].
  apply io_bind_ok in H as (fb & s4 & [Hb ->]%reading_json & H). apply io_bind_ok in H as ([] & s4 & H2 & H).
  apply (lsan_writeJson_new s _ _ fragment) in H2 as [K3 N2]; [|by etransitivity|done]. injection H as _ <-.
  eapply Published_lsan; try done. by eapply new_file_later.
Qed.
Lemma validateOutputPath_keeps root p field : keeps preserves (validateOutputPath root p field).
Proof. pose proof (make_parent_keeps laws). unfold validateOutputPath, refuse_existing, realpath. solve_keeps. Qed.
Lemma validateOutputPath_ok root rel field s p s' : validateOutputPath root rel field s = (Ok p, s') ->
  preserves s s' /\ isSafeRelativePath (VStr rel) = true /\ exists R, @realpathSync (observe s) root = Ok R /\ p = resolve2 working_directory R rel.
Proof.
  intros H. split. { pose proof (validateOutputPath_keeps root rel field s) as Hk. by rewrite H in Hk. }
  unfold validateOutputPath in H. destruct (isSafeRelativePath _); [|done]. split; [done|]. cbn [negb] in H.
  apply io_bind_ok in H as (R & s1 & [HR ->]%reading_ok & H). cbv zeta in H. apply after_parent in H as (s1 & _ & H).
  apply io_bind_ok in H as ([] & s2 & _ & H). injection H as <- _. by exists R.
Qed.
Lemma emit_review_published root e f options s line s' :
  emit_review checkout root e f options s = (Ok line, s') -> Published s s' (review_main checkout) (root :: e :: f :: options).
Proof.
  unfold emit_review. intros (R & s1 & [HR ->]%reading_ok & H)%io_bind_ok. apply io_bind_ok in H as (o & s1 & [Ho ->]%reading_ok & H).
  apply io_bind_ok in H as (i & s1 & [Hi ->]%reading_ok & H). apply io_bind_ok in H as (fragment & s1 & [Hf ->]%reading_ok & H).
  apply (proj1 (messages_ok (host := observe s) _ _)) in Hf.
  apply io_bind_ok in H as (p & s1 & (K1 & Se & R1 & HR1 & ->)%validateOutputPath_ok & H).
  apply io_bind_ok in H as (q & s2 & (K2 & Sf & R2 & HR2 & ->)%validateOutputPath_ok & H).
  apply io_bind_ok in H as (b & s3 & [Hb ->]%reading_json & H). apply io_bind_ok in H as ([] & s3 & H3 & H).
  apply io_bind_ok in H as (bytes & s4 & [Hbytes ->]%reading_json & H). apply io_bind_ok in H as ([] & s4 & H4 & H). injection H as _ <-.
  assert (K3 : preserves s2 s3) by (pose proof (write_keeps laws (resolve2 working_directory R1 e) b s2) as K; apply call_ok in H3; by rewrite H3 in K).
  assert (K4 : preserves s3 s4) by (pose proof (write_keeps laws (resolve2 working_directory R2 f) bytes s3) as K; apply call_ok in H4; by rewrite H4 in K).
  eapply Published_review; try done.
  - apply (new_file_later _ s3); [|done]. eapply (new_file s s); [done..|]. eapply (write_created laws); [|exact H3]. by etransitivity.
  - eapply (new_file s s1); [done..|]. eapply (write_created laws); [|exact H4]. etransitivity; [exact K1|]. by etransitivity.
Qed.
Lemma emit_signed_keeps root out options : keeps preserves (emit_signed checkout root out options).
Proof. pose proof (write_keeps laws). pose proof (make_parent_keeps laws). unfold emit_signed, writeEvidence, refuse_escape, refuse_existing, realpath. solve_keeps. Qed.
Lemma emit_review_keeps root e f options : keeps preserves (emit_review checkout root e f options).
Proof. pose proof (write_keeps laws). pose proof validateOutputPath_keeps. unfold emit_review, realpath. solve_keeps. Qed.
Lemma emit_artifacts_keeps root out options : keeps preserves (emit_artifacts checkout root out options).
Proof. pose proof (write_keeps laws). pose proof (make_parent_keeps laws). unfold emit_artifacts, ArtifactFragment.writeFragment, SignedEvidence.writeFragment, refuse_existing, realpath. solve_keeps. Qed.
Lemma emit_signed_fragment_keeps root out e : keeps preserves (emit_signed_fragment root out e).
Proof. pose proof (write_keeps laws). pose proof (make_parent_keeps laws). unfold emit_signed_fragment, SignedEvidence.writeFragment, refuse_existing, realpath. solve_keeps. Qed.
Lemma emit_lsan_keeps log root e f runner : keeps preserves (emit_lsan checkout log root e f runner).
Proof. pose proof (mkdir_keeps laws). pose proof lsan_writeJson_keeps. unfold emit_lsan, writeLsanGateEvidence. solve_keeps. Qed.

End commands.
