(* ===== verification/EmitSample.v ===== *)
(** * Emitters at work

    A checkout and an evidence root in memory, on which the browser and review emitters
    run, and the inputs of a browser, an iOS and a signed-release record, of a review and
    of an artifact fragment. *)

From S2P Require Import Prelude JsNumber Regex JsValue JsText JsJson Host PathProps.
From S2P Require Import ContractsSpec PlatformSupportProps EvidenceSpec DeviceRecord DeviceClaims DeviceFilesProps ReleaseEvidence ReleaseProps ReleaseFilesProps ReleaseSample.
From S2P Require Import ReleaseFragment FragmentProps EvidenceReader EvidenceReaderProps Disk EvidenceWriter CiEvidence.
From S2P Require Import EmitCommand WebEvidence WebEvidenceProps NativeEvidence NativeEvidenceProps EmitCommandProps.
Open Scope js_scope.

Definition sample_package : val := vobj [("name", vstr "contracts"); ("version", vstr "0.1.0");
  ("devDependencies", vobj [("playwright", vstr "1.55.0")])]%string.
Definition json_of (v : val) : list Z := match json_bytes v with Ok bytes => bytes | Throw _ => [] end.
Definition web_log (browser version : String.string) : jsstr :=
  js browser ++ js "@" ++ js version ++ js ": secure-context pass; webauthn=available" ++ [10].
(** The evidence record and fragment are not there yet. *)
Definition emit_tree : tree := list_to_map [
  (js "/repo/package.json", json_of sample_package);
  (js "/repo/packages/contracts/package.json", json_of sample_package);
  (in_root (js "logs/chromium"), web_log "chromium" "140.0.1");
  (in_root (js "logs/firefox"), web_log "firefox" "142.0");
  (in_root (js "logs/webkit"), web_log "webkit" "26.0")].
Definition device_tree : tree :=
  list_to_map (map (fun p => (in_root p, js "notes on " ++ p)) (js "logs/device" :: js "logs/react-native" :: js "logs/flutter" ::
    map (fun kind => js "artifacts/" ++ kind) NativeEvidence.REQUIRED_NATIVE_ARTIFACT_KINDS)).
Definition web_paths : val := varr (map (fun browser => vobj
  [("browser", vstr browser); ("path", VStr (js "logs/" ++ js browser))]%string) ["chromium"; "firefox"; "webkit"]%string).
Definition sample_web : val := vobj
  [("root", vstr "/work/evidence"); ("commit", sample_hex 40); ("packageVersion", vstr "0.1.0"); ("frameworkVersion", vstr "playwright-1.55.0");
   ("runner", vstr "ubuntu-24.04"); ("recordedAt", sample_time); ("evidencePath", VStr rust_path);
   ("fragmentPath", vstr "fragments/web.json"); ("logs", web_paths)]%string.
(** A text is the package's or else the record's. *)
Definition emit_base (record : val) : Host := {|
  cwd := js "/work"; realpathSync := @realpathSync ci_host; lstat_isSymbolicLink := @lstat_isSymbolicLink ci_host;
  statSync := @statSync ci_host; readFileSync := @readFileSync ci_host; sha256 := sample_digest;
  JSON_parse := fun text => Ok (if str_eqb text (utf8_decode (json_of sample_package)) then sample_package else record);
  public_key_type := fun _ => Throw []; verify := fun _ _ _ => Ok false; other_format := fun _ => None;
  error_message := fun _ => js "error" |}.
Definition web_logs : list log_slot := map (fun '(browser, version) =>
  Log (vstr browser) (VStr (js "logs/" ++ js browser)) (TextEvidence (web_log browser version)))
  [("chromium", "140.0.1"); ("firefox", "142.0"); ("webkit", "26.0")]%string.
Definition web_sample_record : val :=
  match @buildWebBrowserEvidence (emit_base VNull) sample_web (Some web_logs) with Ok record => record | Throw _ => VNull end.
Definition emit_disk : Disk := memory_disk (emit_base web_sample_record).
Lemma emit_base_laws record t : HostLaws (memory_host (emit_base record) t).
Proof. destruct (plain_host_laws VNull) as [H1 H2]. constructor; [exact H1|exact H2]. Qed.

(** ** The browser emitter's command *)

Definition emit_checkout : Checkout := {|
  git_status := Ok [10]; git_head := Ok (repeat 97 40 ++ [10]); repository := js "/repo"; now := js "2026-08-22T10:00:00.000Z" |}.
Definition web_argv : list jsstr := js "evidence" :: rust_path :: js "fragments/web.json" :: flat_map (fun '(o, v) => [js o; js v])
  [("--framework-version", "playwright-1.55.0"); ("--runner", "ubuntu-24.04"); ("--log", "chromium=logs/chromium");
   ("--log", "firefox=logs/firefox"); ("--log", "webkit=logs/webkit")]%string.
Definition web_run : jsstr * Z * @fs emit_disk := @web_main emit_disk emit_checkout web_argv (emit_tree : tree).
Example web_run_line : web_run.1 = (js "web browser release evidence emitted: evidence", 0).
Proof. vm_compute. reflexivity. Qed.
(** A dirty checkout emits nothing. *)
Definition dirty_checkout : Checkout := {|
  git_status := Ok (js " M package.json"); git_head := Ok (repeat 97 40 ++ [10]); repository := js "/repo"; now := [] |}.
Example dirty_run : (@web_main emit_disk dirty_checkout web_argv (emit_tree : tree)).1 =
  (js "web browser release evidence failed: current checkout must be clean before emitting web evidence", 1).
Proof. vm_compute. reflexivity. Qed.
Lemma emitters_exclusive_witness :
  @preserves emit_disk (emit_tree : tree) web_run.2 /\
  exists root gate e f s1 commit version o, @Invoked emit_disk emit_checkout (@web_main emit_disk emit_checkout) web_argv root gate e f /\
    @Emission emit_disk emit_checkout (emit_tree : tree) web_run.2 s1 root gate e f commit version o.
Proof.
  pose proof web_run_line as Hc.
  pose proof (@emitters_exclusive emit_disk (memory_disk_laws (emit_base web_sample_record)) (emit_base_laws web_sample_record) emit_checkout
    (@web_main emit_disk emit_checkout) web_argv (emit_tree : tree)) as H. unfold web_run in *.
  destruct (@web_main emit_disk emit_checkout web_argv (emit_tree : tree)) as [[line code] s'].
  cbn [fst snd] in *. injection Hc as -> ->. destruct (H _ _ _ ltac:(by right; left) eq_refl) as [Hp H']. split; [exact Hp|exact (H' eq_refl)].
Defined.

(** ** The records *)

(** The record has been written. *)
Definition written_tree (record : val) : tree := <[in_root rust_path := json_of record]> (emit_tree ∪ device_tree).
Definition written_host (record : val) : Host := memory_host (emit_base record) (written_tree record).
Lemma written_dense record : denseb record = true -> forall text parsed, @JSON_parse (written_host record) text = Ok parsed -> dense parsed.
Proof. intros H text parsed. cbn. destruct (str_eqb _ _); intros <-%Ok_inj; by apply denseb_dense. Qed.
Lemma memory_bounded (base : Host) (t : tree) (file : jsstr) (bytes : list Z) maximum : t !! file = Some bytes -> 0 < Z.of_nat (length bytes) <= maximum ->
  @bounded_file (memory_host base t) file maximum bytes.
Proof.
  intros Hl Hsize. exists {| isFile := true; size := Z.of_nat (length bytes) |}. cbn. rewrite Hl. split_and!; try done; lia.
Qed.
Lemma written_file (record : val) : 0 < Z.of_nat (length (json_of record)) <= MAX_GATE_EVIDENCE_BYTES ->
  @evidence_file (written_host record) evidence_root rust_path MAX_GATE_EVIDENCE_BYTES (json_of record).
Proof.
  intros Hsize. exists (in_root rust_path). split.
  - destruct (proj1 (@release_contained_nil ci_host ci_host_laws [] evidence_root [] rust_path
      (Some (in_root rust_path)) rust_path_safe)) as (_ & file & [= <-] & Hf); [by vm_compute|exact Hf].
  - apply memory_bounded; [apply lookup_insert_eq|exact Hsize].
Qed.
Example web_is_ready :
  match @prepareWebBrowserEvidence (written_host web_sample_record) sample_web with Ok o => p_record o | Throw _ => VNull end
  = web_sample_record.
Proof. vm_compute. reflexivity. Qed.
Definition prepared (r : result thrown Prepared) (record : val) : Prepared := match r with Ok o => o | Throw _ => Build_Prepared [] record [] VNull end.
Definition web_prepared : Prepared := prepared (@prepareWebBrowserEvidence (written_host web_sample_record) sample_web) VNull.
Definition web_host : Host := written_host web_sample_record.
Lemma written_laws record : HostLaws (written_host record).
Proof. apply emit_base_laws. Qed.

(** An iOS phone, with a log of each host framework and the seven kinds of artifact. *)
Definition sample_native : val := vobj
  [("root", vstr "/work/evidence"); ("commit", sample_hex 40); ("packageVersion", vstr "0.1.0"); ("evidencePath", VStr rust_path);
   ("fragmentPath", vstr "fragments/ios.json"); ("recordedAt", sample_time); ("platform", vstr "ios"); ("framework", vstr "native");
   ("frameworkVersion", vstr "1.0.0"); ("model", vstr "phone"); ("osVersion", vstr "18.2"); ("osBuild", vstr "22C");
   ("securityPatchLevel", vstr "18.2.1"); ("logPath", vstr "logs/device");
   ("testCases", VObj (map (fun n => (n, vstr "pass")) NATIVE_TEST_CASES)); ("testEvidence", VObj (map sample_test NATIVE_TEST_CASES));
   ("hostModes", varr (map (fun '(f, v) => vobj [("framework", vstr f); ("frameworkVersion", vstr v); ("status", vstr "pass")]%string)
      [("react-native", "0.87.0"); ("flutter", "3.47.0")]%string));
   ("hostModeLogPaths", varr (map (fun f => vobj [("framework", vstr f); ("path", VStr (js "logs/" ++ js f))]%string)
      ["react-native"; "flutter"]%string));
   ("artifactPaths", varr (map (fun kind => vobj [("kind", VStr kind); ("path", VStr (js "artifacts/" ++ kind))]%string)
      REQUIRED_NATIVE_ARTIFACT_KINDS))]%string.
Definition native_sample_record : val :=
  let host := written_host VNull in
  match (modes ← normalizeHostModes sample_native.["hostModes"];
         modes ← @attachHostModeLogs host evidence_root modes sample_native.["hostModeLogPaths"];
         let source p := {| src_path := VStr p; src_bytes := TextEvidence (js "notes on " ++ p) |} in
         @buildNativeDeviceEvidence host sample_native (VArr modes) (Some (source (js "logs/device")))
           (Some (map (fun kind => Some (VStr kind, source (js "artifacts/" ++ kind))) REQUIRED_NATIVE_ARTIFACT_KINDS)))
  with Ok record => record | Throw _ => VNull end.
Definition native_host : Host := written_host native_sample_record.
Definition native_prepared : Prepared := prepared (@prepareNativeDeviceEvidence native_host sample_native) VNull.

(** ** A signed and reviewed candidate *)

From S2P Require Import ReleaseClaims SignedEvidence ReviewFragment ArtifactFragment PublishProps.

(** The candidate files of the sample release and the checkout. *)
Definition candidate_tree : tree := list_to_map (
  (js "/repo/packages/contracts/package.json", json_of sample_package) ::
  map (fun k => (in_root (js "candidate/" ++ k), sample_file (in_root (js "candidate/" ++ k)))) required_artifacts).
(** The signature that verifies is the one of 64 ones; the report is the sample's. *)
Definition publish_base (record : val) : Host := {|
  cwd := js "/work"; realpathSync := @realpathSync ci_host; lstat_isSymbolicLink := @lstat_isSymbolicLink ci_host;
  statSync := @statSync ci_host; readFileSync := @readFileSync ci_host; sha256 := sample_digest;
  JSON_parse := fun text => Ok (if str_eqb text (utf8_decode (json_of sample_package)) then sample_package else
    if str_eqb text (in_root (js "candidate/independent-review-report")) then sample_report else record);
  public_key_type := fun _ => Ok (js "ed25519"); verify := fun _ _ signature => Ok (str_eqb signature (repeat 1 64));
  other_format := fun _ => None; error_message := fun _ => js "error" |}.
Definition published_host (record : val) : Host := memory_host (publish_base record) (<[in_root rust_path := json_of record]> candidate_tree).
Lemma published_laws record : HostLaws (published_host record).
Proof. destruct (plain_host_laws VNull) as [H1 H2]. constructor; [exact H1|exact H2]. Qed.
Lemma published_lookup record : LookupLaws (published_host record).
Proof.
  constructor; [|by exists false]. intros r x Hp _ _. cbn. by rewrite resolve1_abspath.
Qed.
Lemma published_dense record : denseb record = true -> forall text parsed, @JSON_parse (published_host record) text = Ok parsed -> dense parsed.
Proof. intros H text parsed. cbn. destruct (str_eqb _ _); [|destruct (str_eqb _ _)]; intros <-%Ok_inj; by apply denseb_dense. Qed.
Lemma published_file (record : val) : 0 < Z.of_nat (length (json_of record)) <= MAX_GATE_EVIDENCE_BYTES ->
  @evidence_file (published_host record) evidence_root rust_path MAX_GATE_EVIDENCE_BYTES (json_of record).
Proof.
  intros Hsize. exists (in_root rust_path). split.
  - destruct (proj1 (@release_contained_nil ci_host ci_host_laws [] evidence_root [] rust_path
      (Some (in_root rust_path)) rust_path_safe)) as (_ & file & [= <-] & Hf); [by vm_compute|exact Hf].
  - apply memory_bounded; [apply lookup_insert_eq|exact Hsize].
Qed.
Lemma safe_by_test l : forallb (fun p => ReleaseEvidence.isSafeRelativePath (VStr p)) l = true -> Forall safe_path l.
Proof. rewrite forallb_Forall. intros Hl. eapply Forall_impl; [exact Hl|]. intros p H. by destruct (proj1 (release_safe (VStr p)) H) as (q & [= <-] & Hq). Qed.
Definition value_of (r : result jsstr val) : val := match r with Ok v => v | Throw _ => VNull end.
Definition fragment_value (r : result thrown val) : val := match r with Ok v => v | Throw _ => VNull end.
Lemma not_root record : @realpathSync (published_host record) evidence_root <> Ok sep.
Proof. clear. vm_compute. discriminate. Qed.

Definition candidate (kind : String.string) : jsstr := js "candidate/" ++ js kind.
Definition sample_signed : val := vobj
  [("root", VStr evidence_root); ("commit", sample_hex 40); ("packageVersion", vstr "0.1.0"); ("recordedAt", sample_time);
   ("bundlePath", VStr (candidate "release-bundle")); ("signaturePath", VStr (candidate "release-signature"));
   ("publicKeyPath", VStr (candidate "release-public-key"))]%string.
Definition signed_value : val := value_of (@buildSignedReleaseEvidence (published_host VNull) [] sample_signed).
Definition signed_host : Host := published_host signed_value.
Definition signed_fragment : val := fragment_value (@buildSignedReleaseFragment signed_host
  (vobj [("record", signed_value); ("evidencePath", VStr rust_path)]%string) (ByteEvidence (json_of signed_value))).
Lemma signed_release_verifies_witness : @Accepted signed_host evidence_root signed_fragment "signature".
Proof.
  assert (Hb : @buildSignedReleaseEvidence signed_host [] sample_signed = Ok signed_value) by (vm_compute; reflexivity).
  assert (Hf : @buildSignedReleaseFragment signed_host (vobj [("record", signed_value); ("evidencePath", VStr rust_path)]%string)
    (ByteEvidence (json_of signed_value)) = Ok signed_fragment) by (vm_compute; reflexivity).
  assert (Hj : @JSON_parse signed_host (utf8_decode (json_of signed_value)) = Ok signed_value) by (vm_compute; reflexivity).
  assert (Hs : Forall safe_path [candidate "release-bundle"; candidate "release-signature"; candidate "release-public-key"; rust_path])
    by (apply safe_by_test; vm_compute; reflexivity).
  assert (Hfile : @evidence_file signed_host evidence_root rust_path MAX_GATE_EVIDENCE_BYTES (json_of signed_value)).
  { apply published_file. clear. vm_compute. split; [reflexivity|discriminate]. }
  assert (Hd : forall text parsed, @JSON_parse signed_host text = Ok parsed -> dense parsed) by (apply published_dense; vm_compute; reflexivity).
  exact (proj2 (@signed_release_verifies signed_host (published_laws signed_value) (published_lookup signed_value) sample_digest_hex Hd
    [] sample_signed signed_value signed_fragment evidence_root _ _ _ rust_path _ Hb Hf Hj eq_refl (not_root signed_value)
    eq_refl eq_refl eq_refl (fun _ => Hfile)) Hs).
Defined.

Definition report_bytes : list Z := in_root (candidate "independent-review-report").
Definition reviewer_key : list Z := in_root (candidate "independent-review-public-key").
Definition sample_review : ReviewInput := {|
  rv_commit := sample_hex 40; rv_packageVersion := vstr "0.1.0";
  rv_reportPath := VStr (candidate "independent-review-report"); rv_reportBytes := ByteEvidence report_bytes;
  rv_signaturePath := VStr (candidate "independent-review-signature"); rv_signatureBytes := ByteEvidence (repeat 1 64);
  rv_publicKeyPath := VStr (candidate "independent-review-public-key"); rv_publicKeyBytes := ByteEvidence reviewer_key;
  rv_evidencePath := VStr rust_path |}.
Definition review_value : val := @review_record (published_host VNull) sample_review sample_report report_bytes (repeat 1 64) reviewer_key.
Definition review_host : Host := published_host review_value.
Definition review_fragment : val := fragment_value (@buildIndependentReviewFragment review_host sample_review).
Lemma review_fragment_verifies_witness : @Accepted review_host evidence_root review_fragment "independentReview".
Proof.
  assert (Hf : @buildIndependentReviewFragment review_host sample_review = Ok review_fragment) by (vm_compute; reflexivity).
  assert (Hs : Forall safe_path [candidate "independent-review-report"; candidate "independent-review-signature";
    candidate "independent-review-public-key"; rust_path]) by (apply safe_by_test; vm_compute; reflexivity).
  assert (H1 : @readBoundedFile review_host evidence_root (VStr (candidate "independent-review-report")) (js "report path") MAX_REVIEW_REPORT_BYTES
    = Ok report_bytes) by (vm_compute; reflexivity).
  assert (H2 : @readBoundedFile review_host evidence_root (VStr (candidate "independent-review-signature")) (js "signature path") SIGNATURE_BYTES
    = Ok (repeat 1 64)) by (vm_compute; reflexivity).
  assert (H3 : @readBoundedFile review_host evidence_root (VStr (candidate "independent-review-public-key")) (js "public key path")
    ReviewFragment.MAX_PUBLIC_KEY_BYTES = Ok reviewer_key) by (vm_compute; reflexivity).
  assert (Hb : json_bytes review_fragment.["evidence"] = Ok (json_of review_value)) by (vm_compute; reflexivity).
  assert (Hj : @JSON_parse review_host (utf8_decode (json_of review_value)) = Ok review_fragment.["evidence"]) by (vm_compute; reflexivity).
  assert (Hfile : @evidence_file review_host evidence_root rust_path MAX_GATE_EVIDENCE_BYTES (json_of review_value)).
  { apply published_file. clear. vm_compute. split; [reflexivity|discriminate]. }
  assert (Hd : forall text parsed, @JSON_parse review_host text = Ok parsed -> dense parsed) by (apply published_dense; vm_compute; reflexivity).
  exact (proj2 (@review_fragment_verifies review_host (published_laws review_value) (published_lookup review_value) sample_digest_hex Hd
    sample_review review_fragment evidence_root _ _ _ rust_path report_bytes (repeat 1 64) reviewer_key _ Hf eq_refl eq_refl eq_refl eq_refl
    (not_root review_value) eq_refl H1 eq_refl H2 eq_refl H3 Hb Hj (fun _ => Hfile)) Hs).
Defined.

(** The bundle and a key described as a signature. *)
Definition sample_specs : list (jsstr * jsstr) :=
  [(js "release-bundle", candidate "release-bundle"); (js "independent-review-signature", candidate "release-public-key")].
Definition sample_slots : list artifact_slot :=
  match traverse (@read_artifact signed_host evidence_root) sample_specs with Ok slots => slots | Throw _ => [] end.
Definition artifact_input : val := vobj [("commit", sample_hex 40); ("packageVersion", vstr "0.1.0")]%string.
Definition artifact_value : val := fragment_value (@buildReleaseArtifactFragment signed_host artifact_input (Some sample_slots)).
Lemma artifact_fragment_verifies_witness :
  artifact_paths artifact_value = sample_specs.*2 /\ Forall Artifact_wf (release_artifacts artifact_value).
Proof.
  assert (Hr : @realpathSync signed_host evidence_root = Ok evidence_root) by (vm_compute; reflexivity).
  assert (Hne : evidence_root <> sep) by (clear; vm_compute; discriminate).
  assert (Hs : Forall safe_path sample_specs.*2) by (apply safe_by_test; vm_compute; reflexivity).
  assert (Ht : traverse (@read_artifact signed_host evidence_root) sample_specs = Ok sample_slots) by (vm_compute; reflexivity).
  assert (Hf : @buildReleaseArtifactFragment signed_host artifact_input (Some sample_slots) = Ok artifact_value) by (vm_compute; reflexivity).
  pose proof (@artifact_fragment_verifies signed_host (published_laws signed_value) (published_lookup signed_value) sample_digest_hex
    evidence_root sample_specs artifact_input sample_slots artifact_value Hr Hne Ht Hf) as (_ & Hp & _ & _ & _ & Hw & _).
  split; [exact Hp|exact (proj2 Hw Hs)].
Defined.

(** The review command run on the candidate. *)
Definition review_disk : Disk := memory_disk (publish_base review_value).
Definition review_argv : list jsstr := js "evidence" :: rust_path :: js "fragments/review.json" :: flat_map (fun '(o, k) => [js o; candidate k])
  [("--report", "independent-review-report"); ("--signature", "independent-review-signature"); ("--public-key", "independent-review-public-key")]%string.
Definition review_run : jsstr * Z * @fs review_disk := @review_main review_disk emit_checkout review_argv (candidate_tree : tree).
Example review_run_line : review_run.1 = (js "independent-review fragment emitted: evidence/fragments/review.json", 0).
Proof. vm_compute. reflexivity. Qed.
Lemma publish_base_laws record t : HostLaws (memory_host (publish_base record) t).
Proof. destruct (plain_host_laws VNull) as [H1 H2]. constructor; [exact H1|exact H2]. Qed.
(** One path for the record and the fragment: the record is written before the fragment
    is refused. *)
Example same_output_leaves_record :
  let '(_, code, t) := @review_main review_disk emit_checkout (js "evidence" :: rust_path :: rust_path :: drop 3 review_argv) (candidate_tree : tree) in
  code = 1 /\ is_Some ((t : tree) !! in_root rust_path).
Proof. vm_compute. split; [reflexivity|by eexists]. Qed.
