(* ===== verification/ExternalEvidence.v ===== *)
(** * scripts/validate-external-release-evidence.mjs

    The artifact with the evidence from outside CI, before it is uploaded: its tree, the
    two device records with their fragments, and the signed review, compared with what
    the emitter of reviews builds from the same bytes.  The script only reads, so that
    everything is a function of one state of the [Disk]. *)

From S2P Require Import Prelude JsNumber Regex JsValue JsText JsJson Host ReleaseEvidence ReleaseFragment Disk.
From S2P Require Import EvidenceReader EvidenceWriter SignedEvidence ReviewFragment.
From S2P Require DeviceEvidence DeviceFiles MergeEvidence ReleaseFiles StageEvidence.
Open Scope js_scope.

Definition MAX_JSON_BYTES : Z := 1 * 1024 * 1024.
Definition MAX_REVIEW_SIGNATURE_BYTES : Z := 64.
Definition MAX_REVIEW_PUBLIC_KEY_BYTES : Z := 1024.
Definition MAX_EXTERNAL_FILE_BYTES : Z := 512 * 1024 * 1024.
Definition MAX_EXTERNAL_TOTAL_BYTES : Z := 2 * 1024 * 1024 * 1024.
(** The two bounds of 16,384 in the walk. *)
Definition MAX_FILES : Z := 16384.
Definition MAX_DIRECTORIES : Z := 16384.

Record NativeGate := { ng_gate : jsstr; ng_evidencePath : jsstr; ng_fragmentPath : jsstr }.
Definition REQUIRED_NATIVE_GATES : list NativeGate :=
  [{| ng_gate := js "ios-device-matrix"; ng_evidencePath := js "evidence/ios-device.json";
      ng_fragmentPath := js "fragments/ios-device.json" |};
   {| ng_gate := js "android-device-matrix"; ng_evidencePath := js "evidence/android-device.json";
      ng_fragmentPath := js "fragments/android-device.json" |}].
(** [REVIEW_INPUTS] *)
Definition review_evidencePath : jsstr := js "evidence/independent-security-review.json".
Definition review_fragmentPath : jsstr := js "fragments/independent-security-review.json".
Definition review_reportPath : jsstr := js "artifacts/independent-review.json".
Definition review_signaturePath : jsstr := js "artifacts/independent-review.sig".
Definition review_publicKeyPath : jsstr := js "artifacts/independent-review.pub.der".

Definition validateOptions (root options : val) : result jsstr unit :=
  match root with
  | VStr (_ :: _) =>
      if negb (is_record options) then Throw (js "external evidence options are required") else
      if negb (is_matching COMMIT options.["expectedCommit"])
      then Throw (js "expectedCommit must be a 40-character lowercase commit SHA") else
      if negb (is_matching VERSION options.["expectedPackageVersion"])
      then Throw (js "expectedPackageVersion must be a semantic version") else
      if negb (is_undefined options.["expectedReviewerPublicKeySha256"])
         && negb (is_matching SHA256 options.["expectedReviewerPublicKeySha256"])
      then Throw (js "expectedReviewerPublicKeySha256 must be a lowercase SHA-256 digest") else Ok tt
  | _ => Throw (js "external evidence root is required")
  end.

(** [Object.keys(value).sort()]: the canonical form of the merger with this order. *)
Definition unit_compare (a b : jsstr) : Z := if str_eqb a b then 0 else if code_unit_le a b then -1 else 1.
Definition assertSameJson (actual expected : val) (field : jsstr) : result thrown unit :=
  same ← lang (MergeEvidence.sameValue unit_compare actual expected);
  if negb (same : bool) then Throw (Err (field ++ js " does not match the verified evidence bytes")) else Ok tt.

Definition EXTERNAL_USAGE : jsstr := js "usage: node scripts/validate-external-release-evidence.mjs <root> <commit-sha> <package-version> [--reviewer-public-key-sha256 <sha256>]".

Section external.
Context {disk : Disk} (s : fs).

Definition requireRoot (root : jsstr) : result jsstr jsstr :=
  (StageEvidence.requireDirectory root (js "external evidence root") s).1.

(** ** The walk *)

Record Totals := { files : Z; directories : Z; bytes : Z }.
Section walk.
Context (root : jsstr).

Definition walk_entry (visit : jsstr -> Totals -> result jsstr Totals) (relativePath : jsstr) (state : Totals) (entry : Dirent)
    : result jsstr Totals :=
  let childPath := StageEvidence.child_path relativePath (entry_name entry) in
  match entry_kind entry with
  | SymbolicLink => Throw (childPath ++ js ": symbolic links are not allowed")
  | Directory => visit childPath state
  | SpecialFile => Throw (childPath ++ js ": only regular files are allowed")
  | RegularFile =>
      if PRIVATE_MATERIAL_PATH childPath then Throw (childPath ++ js ": private signing material is not allowed") else
      stats ← @statSync (observe s) (path_join root childPath);
      if MAX_EXTERNAL_FILE_BYTES <? size stats
      then Throw (childPath ++ js ": file exceeds " ++ dec MAX_EXTERNAL_FILE_BYTES ++ js " bytes") else
      if MAX_EXTERNAL_TOTAL_BYTES - size stats <? bytes state
      then Throw (js "external evidence exceeds " ++ dec MAX_EXTERNAL_TOTAL_BYTES ++ js " bytes") else
      if MAX_FILES <? files state + 1 then Throw (js "external evidence contains too many files") else
      Ok {| files := files state + 1; directories := directories state; bytes := bytes state + size stats |}
  end.
Definition visited_directory (relativePath : jsstr) : jsstr :=
  match relativePath with [] => root | _ => path_join root relativePath end.
(** There is no bound on the depth; each directory is counted before it is opened, so
    that the bound on their number ends the recursion ([visit_fuel_enough]). *)
Fixpoint visit (fuel : nat) (relativePath : jsstr) (state : Totals) : result jsstr Totals :=
  let state := {| files := files state; directories := directories state + 1; bytes := bytes state |} in
  if MAX_DIRECTORIES <? directories state then Throw (js "external evidence contains too many directories") else
  entries ← fs_error (readdirSync s (visited_directory relativePath));
  match fuel with
  | O => Throw []
  | S fuel' => DeviceEvidence.foldM (walk_entry (visit fuel') relativePath) state entries
  end.
Definition visit_fuel : nat := Z.to_nat (MAX_DIRECTORIES + 1).
Definition walkExternalRoot : result jsstr Totals := visit visit_fuel [] {| files := 0; directories := 0; bytes := 0 |}.
End walk.

(** ** Reading *)

(** Below a root whose links the walk has refused; only the last component is examined. *)
Definition readBounded (root relativePath field : jsstr) (maximumBytes : Z) : result jsstr (list Z) :=
  if negb (isSafeRelativePath (VStr relativePath)) || PRIVATE_MATERIAL_PATH relativePath
  then Throw (field ++ js " must be a safe, non-secret relative path") else
  let absolutePath := resolve2 working_directory root relativePath in
  if ReleaseFiles.outside (relative working_directory root absolutePath)
  then Throw (field ++ js " must resolve inside the external evidence root") else
  file ← @lstat_isFile (observe s) absolutePath;
  if negb (file : bool) then Throw (field ++ js " must be a regular file") else
  stats ← @statSync (observe s) absolutePath;
  if size stats =? 0 then Throw (field ++ js " must not be empty") else
  if maximumBytes <? size stats then Throw (field ++ js " exceeds " ++ dec maximumBytes ++ js " bytes") else
  @readFileSync (observe s) absolutePath.
Definition readJson (root relativePath field : jsstr) : result jsstr val :=
  contents ← readBounded root relativePath field MAX_JSON_BYTES;
  match @JSON_parse (observe s) (utf8_decode contents) with
  | Throw message => Throw (field ++ js " must contain valid JSON: " ++ message)
  | Ok parsed => if negb (is_record parsed) then Throw (field ++ js " must contain a JSON object") else Ok parsed
  end.

(** ** The gates *)

Definition device_options (expectedCommit : val) (gate : jsstr) : DeviceEvidence.Options := {|
  DeviceEvidence.requirePhysicalDevice := true; DeviceEvidence.requireNativeHostModes := true;
  DeviceEvidence.requirePlatformSupport := true; DeviceEvidence.expectedCommit := expectedCommit;
  DeviceEvidence.expectedGate := VStr gate; DeviceEvidence.expectedHostModeVersions := VUndef |}.
Definition verifyNativeGate (root : jsstr) (expectedCommit expectedPackageVersion : val) (gateSpec : NativeGate) : result thrown jsstr :=
  let named suffix := ng_gate gateSpec ++ js suffix in
  evidenceBytes ← err (readBounded root (ng_evidencePath gateSpec) (named " evidence") MAX_JSON_BYTES);
  record ← err (readJson root (ng_evidencePath gateSpec) (named " evidence"));
  shape ← lang (@DeviceEvidence.validateDeviceEvidence (observe s) (device_options expectedCommit (ng_gate gateSpec)) record);
  onDisk ← lang (@DeviceFiles.verifyDeviceEvidenceFiles (observe s) record root);
  let findings := shape ++ onDisk in
  if (0 <? length findings)%nat then Throw (Err (named " evidence invalid: " ++ join (js "; ") findings)) else
  fragment ← err (readJson root (ng_fragmentPath gateSpec) (named " fragment"));
  if negb (eq_int fragment.["schemaVersion"] 1) || negb (strict_eq fragment.["commit"] expectedCommit)
     || negb (strict_eq fragment.["packageVersion"] expectedPackageVersion)
  then Throw (Err (named " fragment must bind schema version 1, the expected commit, and package version")) else
  match fragment.["gates"] with
  | VArr [slot] =>
      let gate := default VUndef slot in
      if negb (is_record gate) || negb (eq_str gate.["name"] (ng_gate gateSpec)) || negb (strict_eq gate.["commit"] expectedCommit)
         || negb (eq_str gate.["status"] (js "pass")) || negb (eq_str gate.["evidencePath"] (ng_evidencePath gateSpec))
         || negb (eq_str gate.["sha256"] (@sha256 (observe s) evidenceBytes))
      then Throw (Err (named " fragment does not bind the verified evidence record")) else Ok (ng_gate gateSpec)
  | _ => Throw (Err (named " fragment must contain exactly one gate"))
  end.
Definition review_input (expectedCommit expectedPackageVersion : val) (report signature publicKey : list Z) : ReviewInput := {|
  rv_commit := expectedCommit; rv_packageVersion := expectedPackageVersion;
  rv_reportPath := VStr review_reportPath; rv_reportBytes := ByteEvidence report;
  rv_signaturePath := VStr review_signaturePath; rv_signatureBytes := ByteEvidence signature;
  rv_publicKeyPath := VStr review_publicKeyPath; rv_publicKeyBytes := ByteEvidence publicKey;
  rv_evidencePath := VStr review_evidencePath |}.
Definition verifyReviewGate (root : jsstr) (expectedCommit expectedPackageVersion expectedReviewerPublicKeySha256 : val) : result thrown jsstr :=
  reportBytes ← err (readBounded root review_reportPath (js "independent review report") MAX_JSON_BYTES);
  signatureBytes ← err (readBounded root review_signaturePath (js "independent review signature") MAX_REVIEW_SIGNATURE_BYTES);
  publicKeyBytes ← err (readBounded root review_publicKeyPath (js "independent review public key") MAX_REVIEW_PUBLIC_KEY_BYTES);
  fragment ← @buildIndependentReviewFragment (observe s)
    (review_input expectedCommit expectedPackageVersion reportBytes signatureBytes publicKeyBytes);
  let reviewerKeyHash := (fragment.["independentReview"]).["publicKeySha256"] in
  if negb (is_undefined expectedReviewerPublicKeySha256) && negb (strict_eq reviewerKeyHash expectedReviewerPublicKeySha256)
  then Throw (Err (js "independent review public key does not match the protected reviewer fingerprint")) else
  evidence ← err (readJson root review_evidencePath (js "independent review evidence"));
  _ ← assertSameJson evidence fragment.["evidence"] (js "independent review evidence");
  onDisk ← err (readJson root review_fragmentPath (js "independent review fragment"));
  _ ← assertSameJson onDisk fragment (js "independent review fragment");
  Ok (js "independent-security-review").

Definition validateExternalReleaseEvidence (root options : val) : result thrown (Totals * list jsstr) :=
  _ ← err (validateOptions root options);
  realRoot ← err (requireRoot match root with VStr r => r | _ => [] end);
  totals ← err (walkExternalRoot realRoot);
  gates ← traverse (verifyNativeGate realRoot options.["expectedCommit"] options.["expectedPackageVersion"]) REQUIRED_NATIVE_GATES;
  review ← verifyReviewGate realRoot options.["expectedCommit"] options.["expectedPackageVersion"]
    options.["expectedReviewerPublicKeySha256"];
  Ok (totals, sort_units (gates ++ [review])).

(** ** The command *)

(** The options in pairs, the last one counting; [None] is a refused option. *)
Fixpoint external_options (options : list (String.string * val)) (l : list jsstr) : option (list (String.string * val)) :=
  match l with
  | option :: value :: l' =>
      if negb (str_eqb option (js "--reviewer-public-key-sha256")) || negb (re_match SHA256 value) then None
      else external_options (take 2 options ++ [("expectedReviewerPublicKeySha256", VStr value)]%string) l'
  | _ => Some options
  end.
Definition external_main (argv : list jsstr) : jsstr * Z :=
  match argv with
  | ((_ :: _) as root) :: ((_ :: _) as expectedCommit) :: ((_ :: _) as expectedPackageVersion) :: argumentsList =>
      if negb (Nat.even (length argumentsList)) then (EXTERNAL_USAGE, 64) else
      match external_options [("expectedCommit", VStr expectedCommit); ("expectedPackageVersion", VStr expectedPackageVersion)]%string argumentsList with
      | None => (js "external evidence validation failed: unsupported or invalid option", 64)
      | Some options =>
          match @messages (observe s) _ (validateExternalReleaseEvidence (VStr (resolve1 working_directory root)) (vobj options)) with
          | Ok (totals, gates) => (js "external release evidence verified: " ++ join (js " ") gates ++ js " files=" ++ dec (files totals)
              ++ js " bytes=" ++ dec (bytes totals), 0)
          | Throw message => (js "external evidence validation failed: " ++ message, 1)
          end
      end
  | _ => (EXTERNAL_USAGE, 64)
  end.
End external.
