(* ===== verification/ExternalProps.v ===== *)
(** * What external evidence is accepted

    The walk visits exactly the entries of the tree and ends without a bound on its
    depth; accepted device records are those of the device gate, and the review files
    hold, up to the order of keys, what the emitter builds from the signed report. *)

From stdpp Require Import sorting.
From S2P Require Import Prelude JsNumber Regex JsValue JsText JsJson Host PathProps.
From S2P Require Import ContractsSpec PlatformSupportProps EvidenceSpec DeviceEvidenceProps DeviceRecord DeviceClaims DeviceFilesProps.
From S2P Require Import ReleaseEvidence ReleaseFragment FragmentProps Disk EvidenceReader EvidenceWriter SignedEvidence ReviewFragment.
From S2P Require Import PublishProps ReleaseSample EmitSample StageProps MergeEvidence ExternalEvidence.
From S2P Require DeviceEvidence DeviceFiles ReleaseFiles StageEvidence.
Open Scope js_scope.

(** ** The walk *)

Section walk.
Context {disk : Disk} (laws : DiskLaws disk) (s : fs) (root : jsstr).

Definition lists (rel : jsstr) (es : list Dirent) : Prop := readdirSync s (visited_directory root rel) = Ok es.
Lemma lists_unique rel es es' : lists rel es -> lists rel es' -> es = es'.
Proof. unfold lists. intros -> H. by injection H. Qed.
Notation found := (found lists).
Notation found_by := (found_by lists).

Definition size_of (p : jsstr) : Z := match @statSync (observe s) (path_join root p) with Ok stats => size stats | Throw _ => 0 end.
Fixpoint total (l : list jsstr) : Z := match l with [] => 0 | p :: l' => size_of p + total l' end.
Lemma total_app l k : total (l ++ k) = total l + total k.
Proof. induction l as [|p l IH]; [done|]. cbn. rewrite IH. lia. Qed.
(** A file the walk lets pass. *)
Definition Allowed (p : jsstr) : Prop :=
  PRIVATE_MATERIAL_PATH p = false /\
  exists stats, @statSync (observe s) (path_join root p) = Ok stats /\ size stats <= MAX_EXTERNAL_FILE_BYTES.
(** What a walk over [entry] found and counted, from the totals [t] to [t']. *)
Record Walked (entry : jsstr -> FileKind -> Prop) (t t' : Totals) : Prop := {
  walked_kinds : forall p k, entry p k -> k = RegularFile \/ k = Directory;
  walked_files : forall p, entry p RegularFile -> Allowed p;
  walked_totals : exists l, (forall p, p ∈ l <-> entry p RegularFile) /\
    files t' = files t + Z.of_nat (length l) /\ bytes t' = bytes t + total l;
  walked_bounds : files t <= MAX_FILES -> bytes t <= MAX_EXTERNAL_TOTAL_BYTES ->
    files t' <= MAX_FILES /\ bytes t' <= MAX_EXTERNAL_TOTAL_BYTES;
  walked_directories : directories t <= directories t' /\ (directories t <= MAX_DIRECTORIES -> directories t' <= MAX_DIRECTORIES);
}.
Lemma walked_nothing rel t : Walked (found_by rel []) t t.
Proof.
  constructor.
  - by intros p k ?%found_by_none.
  - by intros p ?%found_by_none.
  - exists []. split_and!; [|cbn; lia..]. intros p. split; [by intros ?%not_elem_of_nil|by intros ?%found_by_none].
  - done.
  - lia.
Qed.
(** One more entry, which holds what [entry] says. *)
Lemma walked_more rel pre e entry t t1 t' : (forall p k, found_by rel [e] p k <-> entry p k) ->
  Walked (found_by rel pre) t t1 -> Walked entry t1 t' -> Walked (found_by rel (pre ++ [e])) t t'.
Proof.
  intros He [H1 H2 (l & H3 & H4 & H5) H6 H7] [G1 G2 (k & G3 & G4 & G5) G6 G7].
  assert (Hor : forall p kd, found_by rel (pre ++ [e]) p kd <-> found_by rel pre p kd \/ entry p kd)
    by (intros p kd; by rewrite found_by_app, He).
  constructor.
  - intros p kd. rewrite Hor. intros [?|?]; eauto.
  - intros p. rewrite Hor. intros [?|?]; eauto.
  - exists (l ++ k). rewrite total_app, length_app. split_and!; [|lia..]. intros p. by rewrite elem_of_app, Hor, H3, G3.
  - intros. destruct H6; [done..|]. by apply G6.
  - lia.
Qed.
Lemma walked_entry fuel rel pre e t t1 t' :
  (forall rel t t', visit s root fuel rel t = Ok t' -> Walked (found rel) t t') ->
  Walked (found_by rel pre) t t1 -> walk_entry s root (visit s root fuel) rel t1 e = Ok t' ->
  Walked (found_by rel (pre ++ [e])) t t'.
Proof.
  intros IH Hpre H. unfold walk_entry in H. destruct (entry_kind e) eqn:Ek; try done.
  - destruct (PRIVATE_MATERIAL_PATH _) eqn:Hp; [done|]. apply bind_Ok in H as (stats & Hs & H).
    destruct (Z.ltb_spec MAX_EXTERNAL_FILE_BYTES (size stats)); [done|].
    destruct (Z.ltb_spec (MAX_EXTERNAL_TOTAL_BYTES - size stats) (bytes t1)); [done|].
    destruct (Z.ltb_spec MAX_FILES (files t1 + 1)); [done|]. apply Ok_inj in H as <-.
    set (c := StageEvidence.child_path rel (entry_name e)) in *.
    apply (walked_more rel pre e (fun p k => p = c /\ k = RegularFile) t t1); [|done|].
    { intros p k. rewrite found_by_one, Ek. naive_solver. }
    constructor; cbn [files directories bytes].
    + naive_solver.
    + intros p [-> _]. split; [done|]. by exists stats.
    + exists [c]. split_and!; [|done|]. { intros p. rewrite list_elem_of_singleton. naive_solver. }
      cbn. unfold size_of. rewrite Hs. lia.
    + lia.
    + lia.
  - apply IH in H as [G1 G2 (k & G3 & G4 & G5) G6 G7]. set (c := StageEvidence.child_path rel (entry_name e)) in *.
    apply (walked_more rel pre e (fun p k => (p = c /\ k = Directory) \/ found c p k) t t1); [|done|].
    { intros p kd. rewrite found_by_one, Ek. naive_solver. }
    constructor; try done.
    + intros p kd [[_ ->]|Hf]; [by right|by apply (G1 p)].
    + intros p [[_ ?]|Hf]; [done|by apply G2].
    + exists k. split_and!; try done. intros p. rewrite G3. naive_solver.
Qed.
Lemma visit_walked fuel rel t t' : visit s root fuel rel t = Ok t' -> Walked (found rel) t t'.
Proof.
  revert rel t t'; induction fuel as [|fuel IH]; intros rel t t'; cbn [visit directories];
    destruct (Z.ltb_spec MAX_DIRECTORIES (directories t + 1)) as [|Hdir]; try done; intros (es & Hes & H)%bind_Ok; [done|].
  assert (Hl : lists rel es). { unfold lists. unfold fs_error in Hes. destruct (readdirSync s _); [|done]. by apply Ok_inj in Hes as ->. }
  set (t0 := Build_Totals _ _ _) in H.
  apply (foldM_inv _ (fun es st => Walked (found_by rel es) t0 st)) in H; [|apply walked_nothing|].
  - destruct H as [H1 H2 (l & H3 & H4 & H5) H6 H7]. subst t0. cbn [files directories bytes] in *.
    assert (Hi : forall p k, found rel p k <-> found_by rel es p k) by (intros; by apply (found_iff lists lists_unique)).
    constructor; try done.
    + intros p k. rewrite Hi. apply H1.
    + intros p. rewrite Hi. apply H2.
    + exists l. split_and!; [|done..]. intros p. by rewrite Hi.
    + lia.
  - intros pre e st st' Hst Hstep. by eapply walked_entry.
Qed.

(** Each directory is counted before it is opened: no more fuel than the bound is used. *)
Lemma visit_more_fuel fuel k rel t : MAX_DIRECTORIES < directories t + Z.of_nat fuel ->
  visit s root (fuel + k) rel t = visit s root fuel rel t.
Proof.
  revert rel t; induction fuel as [|fuel IH]; intros rel t Hf.
  - destruct k; [done|]. cbn [Nat.add visit directories]. by destruct (Z.ltb_spec MAX_DIRECTORIES (directories t + 1)); [|lia].
  - cbn [Nat.add visit directories]. destruct (_ <? _); [done|]. destruct (readdirSync s _) as [es|]; [|done].
    cbn [fs_error mbind result_bind]. set (t0 := Build_Totals _ _ _).
    assert (Ht0 : MAX_DIRECTORIES < directories t0 + Z.of_nat fuel) by (subst t0; cbn [directories]; lia).
    revert Ht0. generalize t0. clear -IH. induction es as [|e es IHes]; intros st Hst; [done|]. cbn [DeviceEvidence.foldM].
    assert (He : walk_entry s root (visit s root (fuel + k)) rel st e = walk_entry s root (visit s root fuel) rel st e).
    { unfold walk_entry. destruct (entry_kind e); try done. by apply IH. }
    rewrite He. destruct (walk_entry s root (visit s root fuel) rel st e) as [st1|m] eqn:E; [|reflexivity]. cbn [mbind result_bind]. apply IHes.
    enough (directories st <= directories st1) by lia. unfold walk_entry in E. destruct (entry_kind e); try done.
    + destruct (PRIVATE_MATERIAL_PATH _); [done|]. apply bind_Ok in E as (stats & _ & E). repeat (destruct (_ <? _); [done|]).
      by apply Ok_inj in E as <-.
    + by apply visit_walked, walked_directories in E as [? _].
Qed.
Lemma visit_fuel_enough k : visit s root (visit_fuel + k) [] {| files := 0; directories := 0; bytes := 0 |} = walkExternalRoot s root.
Proof. apply visit_more_fuel. unfold visit_fuel. rewrite Z2Nat.id by done. by vm_compute. Qed.
Lemma walk_walked t : walkExternalRoot s root = Ok t -> Walked (found []) {| files := 0; directories := 0; bytes := 0 |} t.
Proof. apply visit_walked. Qed.
End walk.

(** ** Values that differ in the order of keys *)

Inductive similar : val -> val -> Prop :=
  | similar_literal v w t : literal v = Some t -> literal w = Some t -> similar v w
  | similar_str s : similar (VStr s) (VStr s)
  | similar_arr vs ws : Forall2 similar vs ws -> similar (VArr (map Some vs)) (VArr (map Some ws))
  | similar_obj ps qs :
      (forall k v, (k, v) ∈ ps -> exists w, (k, w) ∈ qs /\ similar v w) ->
      (forall k w, (k, w) ∈ qs -> exists v, (k, v) ∈ ps /\ similar v w) -> similar (VObj ps) (VObj qs).
Section canonical.
Notation canonical := (canonicalize unit_compare).

Lemma canonical_obj ps : exists qs, canonical (VObj ps) = VObj qs /\
  forall k w, (k, w) ∈ qs <-> exists v, (k, v) ∈ ps /\ w = canonical v.
Proof.
  pose proof (canonicalize_obj unit_compare ps) as E. eexists. split; [exact E|]. intros k w. by eapply canonicalize_member.
Qed.
Lemma canonical_arr vs : canonical (VArr (map Some vs)) = VArr (map Some (map canonical vs)).
Proof. rewrite canonicalize_arr. f_equal. by rewrite !map_map. Qed.
Lemma data_canonical v : data v -> data (canonical v).
Proof.
  induction v as [| | | | | | | |l IH|ps IH|] using val_nested_ind; intros Hv; try done.
  - apply data_arr in Hv as (vs & -> & Hv). rewrite canonical_arr. apply data_arr. eexists. split; [done|]. apply Forall_map.
    rewrite Forall_map in IH. rewrite Forall_forall in *. intros w Hw. by apply (IH w Hw), Hv.
  - apply data_obj in Hv. destruct (canonical_obj ps) as (qs & -> & Hq). apply data_obj, Forall_forall. intros [k w] Hin.
    apply Hq in Hin as (v & Hin & ->). 
    destruct (proj1 (Forall_forall _ _) Hv _ Hin) as [Hk Hd]. split; [done|]. by apply (proj1 (Forall_forall _ _) IH _ Hin).
Qed.
Lemma literal_canonical v t : data v -> literal (canonical v) = Some t -> literal v = Some t.
Proof. by destruct v. Qed.
Lemma canonical_str v u : data v -> canonical v = VStr u -> v = VStr u.
Proof. by destruct v. Qed.
Lemma canonical_arr_inv v vs : data v -> canonical v = VArr (map Some vs) ->
  exists ws, v = VArr (map Some ws) /\ vs = map canonical ws /\ Forall data ws.
Proof.
  destruct v as [| | | | | | | |l| |]; try done.
  intros (ws & -> & Hd)%data_arr. rewrite canonical_arr. intros [= E]. exists ws. split_and!; [done| |done].
  revert E. generalize (map canonical ws). clear. intros l; revert vs; induction l as [|x l IH]; intros [|y vs]; cbn; try done.
  intros [= -> E]. f_equal. by apply IH.
Qed.
Lemma canonical_obj_inv v qs : data v -> canonical v = VObj qs -> exists ps, v = VObj ps /\ Forall (fun kv => data kv.2) ps /\
  forall k w, (k, w) ∈ qs <-> exists v, (k, v) ∈ ps /\ w = canonical v.
Proof.
  destruct v as [| | | | | | | | |ps|]; try done.
  intros Hd%data_obj E. exists ps. split_and!; [done| |].
  - eapply Forall_impl; [exact Hd|]. by intros ? [_ ?].
  - destruct (canonical_obj ps) as (qs' & E' & Hq). rewrite E in E'. injection E' as ->. exact Hq.
Qed.
Lemma Forall2_member {A B} (R : A -> B -> Prop) l k : Forall2 R l k ->
  (forall x, x ∈ l -> exists y, y ∈ k /\ R x y) /\ (forall y, y ∈ k -> exists x, x ∈ l /\ R x y).
Proof.
  intros H. induction H as [|x y l k Hxy H [IH1 IH2]]; [by split; intros ? ?%not_elem_of_nil|]. split.
  - intros z [->|Hz]%elem_of_cons; [exists y; split; [left|done]|]. destruct (IH1 z Hz) as (y' & ? & ?). exists y'. split; [by right|done].
  - intros z [->|Hz]%elem_of_cons; [exists x; split; [left|done]|]. destruct (IH2 z Hz) as (x' & ? & ?). exists x'. split; [by right|done].
Qed.
Lemma same_similar v w : data v -> data w -> same (canonical v) (canonical w) -> similar v w.
Proof.
  revert w; induction v as [| |b|n|s| | |src r|l IH|ps IH|] using val_nested_ind; intros w Hv Hw Hs; try done.
  all: match type of Hs with same ?a ?b => remember a as x eqn:E1; remember b as y eqn:E2 end.
  all: destruct Hs as [v' w' t Hl Hr|u|vs ws HF|ps' qs HF]; symmetry in E1, E2.
  all: try (subst; apply literal_canonical in Hl, Hr; [by eapply similar_literal|done..]).
  all: try (apply canonical_str in E1, E2; [rewrite E1, E2; constructor|done..]).
  all: try (apply canonical_arr_inv in E1 as (vs' & Ev & -> & Hvs), E2 as (ws' & -> & -> & Hws); [|done..]; try done).
  all: try (apply canonical_obj_inv in E1 as (ps'' & Ev & Hvs & Hps), E2 as (qs'' & -> & Hws & Hqs); [|done..]; try done).
  - injection Ev as ->. constructor. rewrite Forall_map in IH. clear Hw Hv. revert ws' HF Hws.
    induction Hvs as [|x vs Hx Hvs IHvs]; intros [|y ws] HF Hws; inversion HF; subst; constructor.
    + apply Forall_cons in IH as [IHx _], Hws as [Hy _]. by apply IHx.
    + apply Forall_cons in IH as [_ IH], Hws as [_ Hws]. by apply IHvs.
  - injection Ev as <-. apply Forall2_member in HF as [F1 F2]. rewrite Forall_forall in IH, Hvs, Hws. constructor.
    + intros k x Hin. destruct (F1 (k, canonical x)) as ([k' y'] & Hy & Ek & Hxy); [apply Hps; by exists x|]. cbn in Ek, Hxy. subst k'.
      apply Hqs in Hy as (y & Hy & ->). exists y. split; [done|]. by apply (IH (k, x) Hin); [apply (Hvs _ Hin)|apply (Hws _ Hy)|].
    + intros k y Hin. destruct (F2 (k, canonical y)) as ([k' x'] & Hx & Ek & Hxy); [apply Hqs; by exists y|]. cbn in Ek, Hxy. subst k'.
      apply Hps in Hx as (x & Hx & ->). exists x. split; [done|]. by apply (IH (k, x) Hx); [apply (Hvs _ Hx)|apply (Hws _ Hin)|].
Qed.
(** What the comparison means: the same value but for the order of keys. *)
Lemma assertSameJson_similar actual expected field : data actual -> data expected ->
  assertSameJson actual expected field = Ok tt -> similar actual expected.
Proof.
  intros Ha He. unfold assertSameJson, sameValue. rewrite (data_stringify _ (data_canonical _ Ha)), (data_stringify _ (data_canonical _ He)).
  cbn [mbind result_bind lang]. destruct (str_eqb _ _) eqn:E; [|done]. apply str_eqb_eq in E. intros _.
  apply same_similar; [done..|]. apply stringify_same; [by apply data_canonical..|].
  by rewrite !data_stringify, E by by apply data_canonical.
Qed.
End canonical.

(** ** Data *)

Lemma js_units s : Forall is_code_unit (js s).
Proof.
  unfold js. induction (String.list_ascii_of_string s) as [|a l IH]; [constructor|]. cbn. constructor; [|done].
  unfold is_code_unit. pose proof (Ascii.N_ascii_bounded a). lia.
Qed.
Lemma data_vobj l : Forall (fun kv => data kv.2) l -> data (vobj l).
Proof. intros H. apply data_obj, Forall_map. eapply Forall_impl; [exact H|]. intros [k v] Hv. split; [apply js_units|done]. Qed.
Lemma data_vstr s : data (vstr s).
Proof. apply js_units. Qed.
Lemma data_varr l : Forall data l -> data (varr l).
Proof. intros H. apply data_arr. by exists l. Qed.
Definition unitb (c : Z) : bool := (0 <=? c) && (c <? 65536).
Lemma data_matching r v : units_ok unitb r = true -> matching r v -> data v.
Proof.
  intros Hr (s & -> & Hm). eapply Forall_impl; [by apply (units_ok_correct _ _ _ Hr Hm)|]. intros c. unfold unitb, is_code_unit.
  rewrite andb_true_iff, Z.leb_le, Z.ltb_lt. lia.
Qed.
Lemma data_matches r s : units_ok unitb r = true -> matches r s -> data (VStr s).
Proof. intros Hr Hm. eapply data_matching; [exact Hr|]. by exists s. Qed.
Lemma data_dense v : data v -> dense v.
Proof.
  intros Hv l Hi. remember (VArr l) as a eqn:E. induction Hi as [|k w Hw Hi IH|ps k w Hw Hi IH]; subst.
  - apply data_arr in Hv as (vs & -> & _). apply Forall_map. by apply Forall_true.
  - apply data_arr in Hv as (vs & -> & Hvs). rewrite Forall_forall in Hvs. apply list_elem_of_fmap in Hw as (x & [= <-] & Hx). auto.
  - apply data_obj in Hv. apply (proj1 (Forall_forall _ _) Hv) in Hw as [_ Hw]. auto.
Qed.

(** ** What is accepted *)

Section accepted.
Context {disk : Disk} (s : fs) (laws : HostLaws (observe s)).
#[local] Instance host : Host := observe s.

(** The file [rel] below the root, as it is read. *)
Definition External_file (root rel : jsstr) (maximum : Z) (contents : list Z) : Prop :=
  let p := resolve2 working_directory root rel in
  PRIVATE_MATERIAL_PATH rel = false /\ ReleaseFiles.outside (relative working_directory root p) = false /\
  lstat_isSymbolicLink p = Ok false /\
  exists stats, statSync p = Ok stats /\ isFile stats = true /\ size stats <> 0 /\ size stats <= maximum /\ readFileSync p = Ok contents.
Definition Holds (root rel : jsstr) (v : val) : Prop :=
  exists contents, External_file root rel MAX_JSON_BYTES contents /\ JSON_parse (utf8_decode contents) = Ok v.
Lemma readBounded_external root rel field maximum contents :
  readBounded s root rel field maximum = Ok contents -> External_file root rel maximum contents.
Proof.
  unfold readBounded. destruct (isSafeRelativePath _); [|done]. destruct (PRIVATE_MATERIAL_PATH rel) eqn:Ep; [done|]. cbn [negb orb].
  cbv zeta. destruct (ReleaseFiles.outside _) eqn:Eo; [done|]. intros (file & Hf & H)%bind_Ok. destruct file; [|done].
  apply lstat_isFile_ok in Hf as [Hl (stats & Hs & Hfile)]. cbn [negb] in H. rewrite Hs in H. cbn [mbind result_bind] in H.
  destruct (Z.eqb_spec (size stats) 0); [done|]. destruct (Z.ltb_spec maximum (size stats)); [done|].
  unfold External_file. split_and!; try done. exists stats. by split_and!.
Qed.
Lemma readJson_holds root rel field v : readJson s root rel field = Ok v -> Holds root rel v.
Proof.
  unfold readJson. intros (contents & Hr%readBounded_external & H)%bind_Ok. destruct (JSON_parse _) as [w|] eqn:Ej; [|done].
  destruct (is_record w); [|done]. apply Ok_inj in H as <-. by exists contents.
Qed.
(** A device record of the physical-device gate with verified files, and a fragment
    whose one gate is bound to its bytes. *)
Definition Native_accepted (root : jsstr) (commit version : val) (spec : NativeGate) : Prop :=
  exists contents record fragment gate,
    External_file root (ng_evidencePath spec) MAX_JSON_BYTES contents /\ JSON_parse (utf8_decode contents) = Ok record /\
    Evidence_wf (device_options commit (ng_gate spec)) record /\ Forall (Ref_ok root) (DeviceFiles.references record) /\
    Holds root (ng_fragmentPath spec) fragment /\ eq_int fragment.["schemaVersion"] 1 = true /\
    fragment.["commit"] = commit /\ fragment.["packageVersion"] = version /\ fragment.["gates"] = VArr [Some gate] /\
    gate.["name"] = VStr (ng_gate spec) /\ gate.["commit"] = commit /\ gate.["status"] = vstr "pass" /\
    gate.["evidencePath"] = VStr (ng_evidencePath spec) /\ gate.["sha256"] = VStr (sha256 contents).
(** A report whose signature verifies and which the gate's validator accepts; the two
    files on disk say what the emitter builds from it. *)
Definition Review_accepted (root : jsstr) (commit version reviewer : val) : Prop :=
  exists report signature key parsed fragment contents evidence onDisk,
    External_file root review_reportPath MAX_JSON_BYTES report /\
    External_file root review_signaturePath MAX_REVIEW_SIGNATURE_BYTES signature /\
    External_file root review_publicKeyPath MAX_REVIEW_PUBLIC_KEY_BYTES key /\
    Review_built (review_input commit version report signature key) fragment parsed report signature key contents /\
    (reviewer = VUndef \/ reviewer = VStr (sha256 key)) /\
    Holds root review_evidencePath evidence /\
    similar evidence (review_record (review_input commit version report signature key) parsed report signature key) /\
    Holds root review_fragmentPath onDisk /\ similar onDisk fragment.

Lemma verifyNativeGate_ok root c v spec gate :
  verifyNativeGate s root (VStr c) (VStr v) spec = Ok gate -> gate = ng_gate spec /\ Native_accepted root (VStr c) (VStr v) spec.
Proof.
  unfold verifyNativeGate. cbv zeta. intros (contents & Hc & H)%bind_Ok. apply bind_Ok in H as (record & Hr & H).
  apply bind_Ok in H as (shape & Hs & H). apply bind_Ok in H as (files & Hf & H).
  destruct (shape ++ files) as [|m l] eqn:E; [|done]. apply app_eq_nil in E as [-> ->]. cbn [length Nat.ltb Nat.leb] in H.
  apply bind_Ok in H as (fragment & Hfr & H). destruct (eq_int _ 1) eqn:E1; [|done].
  destruct (strict_eq fragment.["commit"] _) eqn:E2; [|done]. destruct (strict_eq fragment.["packageVersion"] _) eqn:E3; [|done].
  cbn [negb orb] in H. destruct (fragment.["gates"]) as [| | | | | | | |[|slot []]| |] eqn:Eg; try done.
  destruct slot as [g|]; [|by cbn in H]. cbn [default from_option] in H. change (id g) with g in H. destruct (is_record g); [|done].
  destruct (eq_str g.["name"] _) eqn:G1; [|done]. destruct (strict_eq g.["commit"] _) eqn:G2; [|done].
  destruct (eq_str g.["status"] _) eqn:G3; [|done]. destruct (eq_str g.["evidencePath"] _) eqn:G4; [|done].
  destruct (eq_str g.["sha256"] _) eqn:G5; [|done]. apply Ok_inj in H as <-. split; [done|].
  apply eq_str_spec in G1, G3, G4, G5. apply strict_eq_text in E2, E3, G2.
  apply err_ok, readBounded_external in Hc. apply err_ok, readJson_holds in Hfr.
  apply lang_ok, validateDeviceEvidence_wf in Hs. apply lang_ok, (verifyDeviceEvidenceFiles_wf laws) in Hf as [_ Hrefs].
  apply err_ok, readJson_holds in Hr as (b & Hb & Hj).
  assert (b = contents) as ->.
  { destruct Hc as (_ & _ & _ & st1 & _ & _ & _ & _ & H1), Hb as (_ & _ & _ & st2 & _ & _ & _ & _ & H2). rewrite H1 in H2. by apply Ok_inj in H2. }
  exists contents, record, fragment, g. by split_and!.
Qed.

Context (hex_digests : forall contents, matches SHA256 (sha256 contents)).
Context (json_data : forall text v, JSON_parse text = Ok v -> data v).

Lemma hex_data contents : data (VStr (sha256 contents)).
Proof. by apply (data_matches SHA256). Qed.
Lemma review_paths_data : data (VStr review_reportPath) /\ data (VStr review_signaturePath) /\ data (VStr review_publicKeyPath) /\ data (VStr review_evidencePath).
Proof. split_and!; apply js_units. Qed.
Ltac solve_data := repeat first
  [ assumption | apply hex_data | exact I | apply data_vstr | apply data_vobj | apply data_varr
  | apply List.Forall_nil | apply List.Forall_cons | progress cbn [snd] ].
Lemma review_data c v report signature key fragment parsed contents :
  let input := review_input (VStr c) (VStr v) report signature key in
  Review_built input fragment parsed report signature key contents ->
  fragment.["evidence"] = review_record input parsed report signature key /\
  fragment.["independentReview"] = review_descriptor input parsed key /\
  data (review_record input parsed report signature key) /\ data fragment.
Proof.
  intros input [Hc Hv _ _ Hj Hwf _ _ (g & Hg & ->)].
  destruct (buildReleaseGateFragment_ok (fun text w H => data_dense _ (json_data _ _ H)) _ _ Hg) as (n & p & b & record & [_ _ [Hn _] Hp Hb _ _ (tv & Htv & ->)]).
  apply Ok_inj in Htv as <-. split; [done|]. split; [done|].
  apply (data_matching COMMIT) in Hc; [|done]. apply (data_matching VERSION) in Hv; [|done].
  destruct Hwf as [_ _ _ _ _ [Hrc _] [Hrv _] _ _ _ _]. apply (data_matching COMMIT) in Hrc; [|done]. apply (data_matching VERSION) in Hrv; [|done].
  destruct review_paths_data as (P1 & P2 & P3 & P4).
  assert (Hrec : data (review_record input parsed report signature key)).
  { unfold review_record. solve_data. }
  split; [done|]. change (VObj (entries _ ++ _)) with (vobj
    [("schemaVersion", vnum 1); ("commit", rv_commit input); ("packageVersion", rv_packageVersion input);
     ("gates", varr [gate_of (review_fragment_input input contents) b]);
     ("evidence", review_record input parsed report signature key);
     ("artifacts", varr (review_artifacts input report signature key));
     ("independentReview", review_descriptor input parsed key)])%string.
  unfold gate_of, review_artifacts, descriptor, review_descriptor. solve_data.
Qed.
Lemma assert_same_ok actual expected field u : data actual -> data expected ->
  assertSameJson actual expected field = Ok u -> similar actual expected.
Proof. destruct u. apply assertSameJson_similar. Qed.
Lemma verifyReviewGate_ok root c v reviewer gate :
  verifyReviewGate s root (VStr c) (VStr v) reviewer = Ok gate ->
  gate = js "independent-security-review" /\ Review_accepted root (VStr c) (VStr v) reviewer.
Proof.
  unfold verifyReviewGate. intros (report & Hr%err_ok & H)%bind_Ok. apply bind_Ok in H as (signature & Hs%err_ok & H).
  apply bind_Ok in H as (key & Hk%err_ok & H). apply bind_Ok in H as (fragment & Hf & H). cbv zeta in H.
  destruct (buildReview_ok _ _ _ _ _ Hf eq_refl eq_refl eq_refl) as (parsed & contents & Hb).
  destruct (review_data _ _ _ _ _ _ _ _ Hb) as (Ee & Ei & De & Df). rewrite Ei, Ee in H.
  change ((review_descriptor _ _ _).["publicKeySha256"]) with (VStr (sha256 key)) in H.
  assert (Hrev : (reviewer = VUndef \/ reviewer = VStr (sha256 key)) /\ exists evidence onDisk,
    Holds root review_evidencePath evidence /\ similar evidence (review_record (review_input (VStr c) (VStr v) report signature key) parsed report signature key) /\
    Holds root review_fragmentPath onDisk /\ similar onDisk fragment /\ gate = js "independent-security-review").
  { destruct (_ && _) eqn:E; [done|]. split.
    - apply andb_false_iff in E as [E%negb_false_iff|E%negb_false_iff]; [left; by apply is_undefined_spec|right].
      by apply strict_eq_str.
    - apply bind_Ok in H as (evidence & He%err_ok%readJson_holds & H). pose proof He as (eb & _ & Ej).
      apply bind_Ok in H as (u1 & H1 & H). apply bind_Ok in H as (onDisk & Ho%err_ok%readJson_holds & H). pose proof Ho as (ob & _ & Oj).
      apply bind_Ok in H as (u2 & H2 & H). apply Ok_inj in H as <-.
      exists evidence, onDisk. clear Hf Hb Hr Hs Hk. split; [exact He|]. split; [eapply assert_same_ok; eauto|]. split; [exact Ho|].
      split; [eapply assert_same_ok; eauto|done]. }
  destruct Hrev as [Hrev (evidence & onDisk & H1 & H2 & H3 & H4 & ->)]. split; [done|].
  exists report, signature, key, parsed, fragment, contents, evidence, onDisk. by split_and!; try eapply readBounded_external.
Qed.

(** ** The command *)

Lemma requireRoot_ok root realRoot : requireRoot s root = Ok realRoot -> realpathSync root = Ok realRoot.
Proof.
  unfold requireRoot, StageEvidence.requireDirectory. unfold mbind, io_bind, reading.
  destruct (lstatSync s root) as [k|e]; [|done]. destruct (_ || _); [done|]. unfold realpath, reading. by destruct (realpathSync root).
Qed.

(** The expected reviewer: none without options, else the digest of the last one. *)
Definition expected_reviewer (flags : list jsstr) (reviewer : val) : Prop :=
  (flags = [] /\ reviewer = VUndef) \/
  exists front digest, flags = front ++ [js "--reviewer-public-key-sha256"; digest] /\ reviewer = VStr digest.
Lemma external_options_ok c v l o : Nat.even (length l) = true ->
  external_options [("expectedCommit", c); ("expectedPackageVersion", v)]%string l = Some o ->
  (vobj o).["expectedCommit"] = c /\ (vobj o).["expectedPackageVersion"] = v /\
  expected_reviewer l (vobj o).["expectedReviewerPublicKeySha256"].
Proof.
  set (base := [("expectedCommit", c); ("expectedPackageVersion", v)]%string).
  enough (Hg : forall n l o extra, (length l <= n)%nat -> Nat.even (length l) = true -> external_options (base ++ extra) l = Some o ->
    (l = [] /\ o = base ++ extra) \/ exists front digest, l = front ++ [js "--reviewer-public-key-sha256"; digest] /\
      o = base ++ [("expectedReviewerPublicKeySha256", VStr digest)]%string).
  { intros He H. destruct (Hg (length l) l o [] ltac:(done) He ltac:(by rewrite app_nil_r)) as [[-> ->]|(front & digest & Hd & ->)].
    - split_and!; [done..|by left].
    - split_and!; [done..|]. right. by exists front, digest. }
  clear. induction n as [|n IH]; intros [|a [|b l]] o extra Hl He; cbn [length] in Hl; try done; try lia; cbn [external_options];
    try (intros [= <-]; by left).
  destruct (str_eqb a _) eqn:Ea; [|done]. apply str_eqb_eq in Ea as ->. destruct (re_match _ _); [|done]. cbn [negb orb].
  change (take 2 (base ++ extra)) with base. intros [[-> ->]|(front & digest & -> & ->)]%IH; [| |lia|done]; right.
  - by exists [], b.
  - by exists (js "--reviewer-public-key-sha256" :: b :: front), digest.
Qed.

(** C28. External evidence: exit code 0 of the command means that the tree below the
    root holds regular files and directories only, none of private material, within the
    bounds and with the totals counted; that each device record is a well-formed
    physical-device record of this commit with verified files and is bound, by the digest
    of its bytes, to the one gate of its fragment; and that the review report on this
    commit and version verifies under the public key in the tree - which has the digest
    of the last option, when options were given, and is any key when none were -, the
    record and the fragment on disk being, up to the order of keys, what the emitter of
    reviews builds from it. *)
Theorem external_main_accepts argv line :
  external_main s argv = (line, 0) -> exists root c v flags reviewer realRoot totals,
    argv = root :: c :: v :: flags /\ expected_reviewer flags reviewer /\
    realpathSync (resolve1 working_directory root) = Ok realRoot /\
    Walked s realRoot (found (lists s realRoot) []) {| files := 0; directories := 0; bytes := 0 |} totals /\
    Forall (Native_accepted realRoot (VStr c) (VStr v)) REQUIRED_NATIVE_GATES /\
    Review_accepted realRoot (VStr c) (VStr v) reviewer.
Proof.
  unfold external_main. destruct argv as [|[|x root] [|[|y c] [|[|z v] flags]]]; try done.
  destruct (Nat.even _) eqn:Heven; [|done]. cbn [negb].
  destruct (external_options _ flags) as [o|] eqn:Eo; [|done]. apply external_options_ok in Eo as (Ec & Ev & Hrev); [|done].
  destruct (validateExternalReleaseEvidence _ _ _) as [[totals gates]|e] eqn:E; [|done]. intros _.
  unfold validateExternalReleaseEvidence in E. apply bind_Ok in E as ([] & _ & E). apply bind_Ok in E as (realRoot & Hroot%err_ok & E).
  apply bind_Ok in E as (t & Hw%err_ok%walk_walked & E). apply bind_Ok in E as (names & Hn & E). apply bind_Ok in E as (review & Hv & E).
  apply Ok_inj, pair_equal_spec in E as [<- _]. rewrite Ec, Ev in *. apply verifyReviewGate_ok in Hv as [_ Hv].
  exists (x :: root), (y :: c), (z :: v), flags, (vobj o).["expectedReviewerPublicKeySha256"], realRoot, t. split_and!; try done.
  - by apply requireRoot_ok.
  - apply traverse_Ok in Hn. clear -Hn laws. induction Hn as [|spec name l k Hs Hn IH]; [constructor|]. constructor; [|done].
    by apply verifyNativeGate_ok in Hs as [_ Hs].
Qed.
End accepted.

(** ** An external artifact *)

Fixpoint datab (v : val) : bool :=
  match v with
  | VNull | VBool _ | VNum _ => true
  | VStr s => forallb unitb s
  | VArr l => forallb (fun o => match o with Some w => datab w | None => false end) l
  | VObj ps => forallb (fun kv => forallb unitb kv.1 && datab kv.2) ps
  | _ => false
  end.
Lemma unitb_spec s : forallb unitb s = true -> Forall is_code_unit s.
Proof. rewrite forallb_Forall. intros H. eapply Forall_impl; [exact H|]. intros c. unfold unitb, is_code_unit. lia. Qed.
Lemma datab_data v : datab v = true -> data v.
Proof.
  induction v as [| | | | | | | |l IH|ps IH|] using val_nested_ind; intros Hb; try done; [by apply unitb_spec|..]; cbn [datab] in Hb.
  - induction l as [|[w|] l IHl]; [done| |done]. apply Forall_cons in IH as [Hw IH]. apply andb_true_iff in Hb as [H1 H2].
    split; [by apply Hw|by apply IHl].
  - apply data_obj. apply forallb_Forall in Hb. revert IH. induction Hb as [|kv ps Hkv Hb IHb]; intros IH; constructor.
    + apply Forall_cons in IH as [IH _]. apply andb_true_iff in Hkv as [H1 H2]. split; [by apply unitb_spec|by apply IH].
    + apply Forall_cons in IH as [_ IH]. by apply IHb.
Qed.

(** The device of the emitter's sample, and one on Android that shares its files. *)
Definition in_external (p : jsstr) : jsstr := js "/work/external/" ++ p.
Definition note (p : jsstr) : list Z := js "notes on " ++ p.
Definition device_paths : list jsstr := js "logs/device" :: js "logs/react-native" :: js "logs/flutter" ::
  map (fun kind => js "artifacts/" ++ kind) NativeEvidence.REQUIRED_NATIVE_ARTIFACT_KINDS.
Definition device_files : tree := list_to_map (map (fun p => (in_external p, note p)) device_paths).
Definition external_base (known : list (list Z * val)) : Host := {|
  cwd := js "/work"; realpathSync := fun p => Ok p; lstat_isSymbolicLink := fun _ => Ok false;
  statSync := fun _ => Throw []; readFileSync := fun _ => Throw []; sha256 := sample_digest;
  JSON_parse := fun text => match find (fun kv => str_eqb text (utf8_decode kv.1)) known with Some kv => Ok kv.2 | None => Throw [] end;
  public_key_type := fun _ => Ok (js "ed25519"); verify := fun _ _ signature => Ok (str_eqb signature (repeat 1 64));
  other_format := fun _ => None; error_message := fun _ => js "error" |}.
Definition android_input : val :=
  VObj ([(js "platform", vstr "android"); (js "apiLevel", vnum 35); (js "osVersion", vstr "15"); (js "securityPatchLevel", vstr "2026-08-01")]
        ++ entries sample_native).
Definition device_record (input : val) : val :=
  let host := memory_host (external_base []) device_files in
  match (modes ← NativeEvidence.normalizeHostModes input.["hostModes"];
         modes ← @NativeEvidence.attachHostModeLogs host (js "/work/external") modes input.["hostModeLogPaths"];
         let source p := {| NativeEvidence.src_path := VStr p; NativeEvidence.src_bytes := TextEvidence (note p) |} in
         @NativeEvidence.buildNativeDeviceEvidence host input (VArr modes) (Some (source (js "logs/device")))
           (Some (map (fun kind => Some (VStr kind, source (js "artifacts/" ++ kind))) NativeEvidence.REQUIRED_NATIVE_ARTIFACT_KINDS)))
  with Ok record => record | Throw _ => VNull end.
Definition ios_record : val := device_record sample_native.
Definition android_record : val := device_record android_input.
Definition gate_fragment (gate : String.string) (path : jsstr) (record : val) : val :=
  @fragment_of (external_base []) {| in_commit := sample_hex 40; in_packageVersion := vstr "0.1.0"; in_gateName := vstr gate;
    in_evidencePath := VStr path; in_evidenceBytes := ByteEvidence []; in_toolchains := VUndef |} VUndef (json_of record).
Definition external_input : ReviewInput := review_input (sample_hex 40) (vstr "0.1.0") report_bytes (repeat 1 64) reviewer_key.
Definition external_review : val := @review_record (external_base []) external_input sample_report report_bytes (repeat 1 64) reviewer_key.
Definition external_fragment : val := fragment_value (@buildIndependentReviewFragment
  (external_base [(report_bytes, sample_report); (json_of external_review, external_review)]) external_input).
(** The review's record with its members in the opposite order. *)
Definition reordered : val := VObj (rev (entries external_review)).
Definition external_documents : list (jsstr * val) :=
  [(js "evidence/ios-device.json", ios_record); (js "evidence/android-device.json", android_record);
   (js "fragments/ios-device.json", gate_fragment "ios-device-matrix" (js "evidence/ios-device.json") ios_record);
   (js "fragments/android-device.json", gate_fragment "android-device-matrix" (js "evidence/android-device.json") android_record);
   (review_evidencePath, reordered); (review_fragmentPath, external_fragment)].
Definition external_known : list (list Z * val) :=
  [(report_bytes, sample_report); (json_of external_review, external_review)] ++ map (fun d => (json_of d.2, d.2)) external_documents.
Definition external_tree : tree := list_to_map (
  [(in_external review_reportPath, report_bytes); (in_external review_signaturePath, repeat 1 64); (in_external review_publicKeyPath, reviewer_key)]
  ++ map (fun d => (in_external d.1, json_of d.2)) external_documents) ∪ device_files.
Definition external_disk : Disk := memory_disk (external_base external_known).
Definition external_argv : list jsstr := [js "external"; repeat 97 40; js "0.1.0"].
Example external_run : @external_main external_disk (external_tree : tree) external_argv =
  (js "external release evidence verified: android-device-matrix independent-security-review ios-device-matrix files=19 bytes=11367", 0).
Proof. vm_compute. reflexivity. Qed.
(** Another reviewer's digest refuses the same artifact; one more file does not. *)
Example other_reviewer : (@external_main external_disk (external_tree : tree)
    (external_argv ++ [js "--reviewer-public-key-sha256"; repeat 97 64])).2 = 1.
Proof. vm_compute. reflexivity. Qed.
Example extra_fragment_accepted : (@external_main external_disk (<[in_external (js "fragments/rust-ci.json") := js "{}"]> external_tree : tree)
    external_argv).2 = 0.
Proof. vm_compute. reflexivity. Qed.
Lemma external_laws (s : tree) : HostLaws (@observe external_disk s).
Proof. destruct (plain_host_laws VNull) as [H1 H2]. constructor; [exact H1|exact H2]. Qed.
Lemma external_data (s : tree) text v : @JSON_parse (@observe external_disk s) text = Ok v -> data v.
Proof.
  intros H. change (match find (fun kv => str_eqb text (utf8_decode kv.1)) external_known with
    Some kv => Ok kv.2 | None => Throw [] end = Ok (E := jsstr) v) in H.
  destruct (find (fun kv => str_eqb text (utf8_decode kv.1)) external_known) as [kv|] eqn:E; [|done]. injection H as <-. apply find_some in E as [E _]. apply datab_data.
  assert (Hd : forallb (fun kv => datab kv.2) external_known = true) by (vm_compute; reflexivity).
  rewrite List.forallb_forall in Hd. exact (Hd kv E).
Qed.
Lemma external_main_accepts_witness : exists realRoot totals,
  @Walked external_disk (external_tree : tree) realRoot (found (@lists external_disk (external_tree : tree) realRoot) [])
    {| files := 0; directories := 0; bytes := 0 |} totals /\
  @Review_accepted external_disk (external_tree : tree) realRoot (VStr (repeat 97 40)) (VStr (js "0.1.0")) VUndef.
Proof.
  destruct (@external_main_accepts external_disk (external_tree : tree) (external_laws external_tree) sample_digest_hex (external_data external_tree)
    _ _ external_run) as (root & c & v & flags & reviewer & realRoot & totals & Ha & Hr & _ & Hw & _ & Hrev).
  injection Ha as <- <- <- <-. destruct Hr as [[_ ->]|([|? ?] & d & Hd & _)]; [|discriminate Hd..]. exists realRoot, totals. split; [exact Hw|exact Hrev].
Defined.
