(* ===== verification/Candidate.v ===== *)
(** * The release candidate

    scripts/sign-release.mjs with the buffer of the private key, scripts/
    release-candidate-metadata.mjs, scripts/check-clean-checkout.mjs and the gates that
    scripts/verify-production-candidate.mjs runs one after the other. *)

From S2P Require Import Prelude JsNumber Regex JsValue JsDate JsText JsJson Host ReleaseEvidence ReleaseFragment Disk.
From S2P Require Import EvidenceReader EvidenceWriter EmitCommand EmitCommandProps PathProps DeviceFilesProps DeviceClaims.
From S2P Require CiEvidence LsanEvidence SignedEvidence StageEvidence.
Open Scope js_scope.

(** ** sign-release.mjs *)

(** The private-key functions of [node:crypto]. *)
Class Signer := {
  Key : Type;
  createPrivateKey : list Z -> result jsstr Key;
  asymmetricKeyType : Key -> jsstr;
  (** [sign(null, data, key)] *)
  sign : list Z -> Key -> result jsstr (list Z);
  (** [createPublicKey(key).export({ format: "der", type: "spki" })] *)
  export_public : Key -> result jsstr (list Z);
}.
Definition MAX_RELEASE_ARTIFACT_BYTES : Z := SignedEvidence.MAX_RELEASE_ARTIFACT_BYTES.
Definition MAX_PRIVATE_KEY_BYTES : Z := 64 * 1024.

Section sign.
Context {disk : Disk} {signer : Signer}.

(** The file system, and the bytes of [privateKeyBytes] once it is there. *)
Record Memory := { m_fs : fs; m_key : option (list Z) }.
Definition mem (A : Type) : Type := Memory -> result jsstr A * Memory.
#[export] Instance mem_ret : MRet mem := fun A a m => (Ok a, m).
#[export] Instance mem_bind : MBind mem := fun A B k p m =>
  match p m with (Ok a, m') => k a m' | (Throw e, m') => (Throw e, m') end.
Definition on_disk {A} (p : io A) : mem A := fun m =>
  let '(r, s) := p (m_fs m) in (r, {| m_fs := s; m_key := m_key m |}).
Definition pure {A} (r : result jsstr A) : mem A := fun m => (r, m).
Definition hold_key (bytes : list Z) : mem unit := fun m => (Ok tt, {| m_fs := m_fs m; m_key := Some bytes |}).
(** [privateKeyBytes.fill(0)] *)
Definition clear_key : mem unit := fun m => (Ok tt, {| m_fs := m_fs m; m_key := map (fun _ => 0) <$> m_key m |}).
Definition parse_key : mem Key := fun m => (createPrivateKey (default [] (m_key m)), m).
(** [try { p } finally { cleanup }] *)
Definition finally {A} (p : mem A) (cleanup : mem unit) : mem A := fun m =>
  let '(r, m1) := p m in match cleanup m1 with (Ok _, m2) => (r, m2) | (Throw e, m2) => (Throw e, m2) end.

Definition readBoundedFile (filePath label : jsstr) (maximumBytes : Z) : io (list Z) := reading (fun s =>
  let host := observe s in
  stats ← @statSync host filePath;
  if negb (isFile stats) then Throw (label ++ js " must reference a regular file") else
  if size stats =? 0 then Throw (label ++ js " must be non-empty") else
  if maximumBytes <? size stats then Throw (label ++ js " must not exceed " ++ dec maximumBytes ++ js " bytes") else
  @readFileSync host filePath).
(** An error of [lstat] other than ENOENT is thrown again. *)
Definition requireUnusedOutput (filePath label : jsstr) : io unit := refuse_existing (label ++ js " output") filePath.
Record Signed := { signatureBytes : Z; publicKeySha256 : jsstr }.
Definition signReleaseArtifact (artifactPath privateKeyPath signaturePath publicKeyPath : jsstr) : mem Signed :=
  if str_eqb (resolve1 working_directory signaturePath) (resolve1 working_directory publicKeyPath)
  then pure (Throw (js "signature and public key outputs must use different paths")) else
  _ ← on_disk (requireUnusedOutput signaturePath (js "signature"));
  _ ← on_disk (requireUnusedOutput publicKeyPath (js "public key"));
  privateKeyBytes ← on_disk (readBoundedFile privateKeyPath (js "private key") MAX_PRIVATE_KEY_BYTES);
  _ ← hold_key privateKeyBytes;
  privateKey ← finally parse_key clear_key;
  if negb (str_eqb (asymmetricKeyType privateKey) (js "ed25519"))
  then pure (Throw (js "release signing key must be Ed25519")) else
  artifact ← on_disk (readBoundedFile artifactPath (js "release artifact") MAX_RELEASE_ARTIFACT_BYTES);
  signature ← pure (sign artifact privateKey);
  publicKeyDer ← pure (export_public privateKey);
  _ ← on_disk (call (writeFileSync signaturePath signature));
  _ ← on_disk (call (writeFileSync publicKeyPath publicKeyDer));
  digest ← on_disk (reading (fun s => Ok (@sha256 (observe s) publicKeyDer)));
  mret {| signatureBytes := Z.of_nat (length signature); publicKeySha256 := digest |}.
(** The line that is printed on success. *)
Definition signed_line (result : Signed) (artifactPath signaturePath publicKeyPath : jsstr) : val :=
  let shown p := VStr (relative working_directory working_directory (resolve1 working_directory p)) in
  vobj [("algorithm", vstr "ed25519"); ("signatureBytes", vnum (signatureBytes result)); ("publicKeySha256", VStr (publicKeySha256 result));
        ("artifactPath", shown artifactPath); ("signaturePath", shown signaturePath); ("publicKeyPath", shown publicKeyPath)]%string.
Definition SIGN_USAGE : jsstr := js "usage: node scripts/sign-release.mjs <artifact> <ed25519-private-key-pem> <signature> <public-key-der>".
Definition sign_main (argv : list jsstr) (m : Memory) : jsstr * Z * Memory :=
  match argv with
  | ((_ :: _) as artifactPath) :: ((_ :: _) as privateKeyPath) :: ((_ :: _) as signaturePath) :: ((_ :: _) as publicKeyPath) :: _ =>
      let '(r, m') := signReleaseArtifact artifactPath privateKeyPath signaturePath publicKeyPath m in
      match r ≫= fun result => @messages (observe (m_fs m')) _ (lang (JSON_stringify (signed_line result artifactPath signaturePath publicKeyPath))) with
      | Ok text => (default (js "undefined") text, 0, m')
      | Throw message => (js "release signing failed: " ++ message, 1, m')
      end
  | _ => (SIGN_USAGE, 64, m)
  end.
End sign.

(** ** check-clean-checkout.mjs *)

Definition validateCheckoutStatus (status : val) : result jsstr unit :=
  match status with
  | VStr s => match trim s with [] => Ok tt | _ => Throw (js "current checkout must be clean before production-candidate verification") end
  | _ => Throw (js "current checkout must be clean before production-candidate verification")
  end.
Definition checkCleanCheckout (checkout : Checkout) : result jsstr bool :=
  status ← git_status checkout; _ ← validateCheckoutStatus (VStr status); Ok true.
Definition clean_main (checkout : Checkout) : jsstr * Z :=
  match checkCleanCheckout checkout with
  | Ok _ => (js "clean checkout verified", 0)
  | Throw message => (js "clean checkout verification failed: " ++ message, 1)
  end.

(** ** release-candidate-metadata.mjs *)

Definition isValidTimestamp {host : Host} : val -> result jserr bool := LsanEvidence.validateTimestamp.
Definition candidate_artifact (kind path : String.string) : val := vobj [("kind", vstr kind); ("path", vstr path)]%string.
Definition candidate_artifacts : list val :=
  [candidate_artifact "release-bundle" "secure-keypad-release.tar.gz"; candidate_artifact "release-signature" "secure-keypad-release.sig";
   candidate_artifact "release-public-key" "secure-keypad-release.pub.der"; candidate_artifact "sbom" "secure-keypad.sbom.spdx.json";
   candidate_artifact "native-checksum" "source/secure-keypad-ios-ffi.sha256";
   candidate_artifact "native-checksum-android" "source/secure-keypad-android-ffi.sha256";
   candidate_artifact "license-notices" "source/THIRD-PARTY-NOTICES.md"; candidate_artifact "checksums" "secure-keypad-release.sha256"].
Definition final_verifier : val := vobj
  [("command", vstr "node scripts/check-release-evidence.mjs --require-trusted-keys release-evidence/release-evidence.json");
   ("workflow", vstr ".github/workflows/release-finalize.yml");
   ("requiredProtectedInputs", varr [vstr "SECURE_KEYPAD_RELEASE_PUBLIC_KEY_SHA256"; vstr "SECURE_KEYPAD_REVIEWER_PUBLIC_KEY_SHA256"]);
   ("evidenceMergeCommand", vstr "pnpm merge:release-evidence release-evidence release-evidence/release-evidence.json <fragment.json>...")]%string.
Definition candidate_metadata (commit packageVersion createdAt : val) : val := vobj
  [("schemaVersion", vnum 1); ("kind", vstr "secure-keypad-release-candidate"); ("claim", vstr "candidate-only");
   ("commit", commit); ("packageVersion", packageVersion); ("createdAt", createdAt);
   ("requiredFinalGates", varr (map VStr REQUIRED_RELEASE_GATES)); ("candidateArtifacts", varr candidate_artifacts);
   ("finalVerifier", final_verifier)]%string.
Definition buildReleaseCandidateMetadata {host : Host} (input : val) : result thrown val :=
  if negb (is_record input) then Throw (Err (js "metadata input must be an object")) else
  if negb (is_matching COMMIT input.["commit"]) then Throw (Err (js "commit must be a 40-character lowercase commit SHA")) else
  if negb (is_matching VERSION input.["packageVersion"]) then Throw (Err (js "packageVersion must be a semantic version")) else
  valid ← lang (isValidTimestamp input.["createdAt"]);
  if negb (valid : bool) then Throw (Err (js "createdAt must be an ISO-8601 UTC timestamp")) else
  Ok (candidate_metadata input.["commit"] input.["packageVersion"] input.["createdAt"]).

Section metadata.
Context {disk : Disk} (checkout : Checkout).
(** The output of [git show -s --format=%cI HEAD]. *)
Context (git_timestamp : result jsstr jsstr).

Definition currentCommitTimestamp {host : Host} : result thrown jsstr :=
  output ← err git_timestamp;
  timestamp ← lang (reformat other_format (trim output));
  valid ← lang (isValidTimestamp (VStr timestamp));
  if negb (valid : bool) then Throw (Err (js "current commit timestamp is invalid")) else Ok timestamp.
Definition emit_metadata (outputPath : jsstr) : io jsstr :=
  let absolutePath := resolve1 working_directory outputPath in
  _ ← call (mkdirSync (dirname absolutePath));
  commit ← reading (fun _ => currentCommit (js "candidate metadata") checkout);
  packageVersion ← reading (fun s => @currentPackageVersion (observe s) checkout);
  createdAt ← reading (fun s => @messages (observe s) _ (@currentCommitTimestamp (observe s)));
  metadata ← reading (fun s => @messages (observe s) _ (@buildReleaseCandidateMetadata (observe s)
    (vobj [("commit", VStr commit); ("packageVersion", VStr packageVersion); ("createdAt", VStr createdAt)]%string)));
  bytes ← reading (fun s => @messages (observe s) _ (json_bytes metadata));
  _ ← call (writeFileSync absolutePath bytes);
  mret (js "release candidate metadata emitted: " ++ absolutePath).
Definition metadata_main (argv : list jsstr) (s : fs) : jsstr * Z * fs :=
  match argv with
  | ((_ :: _) as outputPath) :: _ => command (js "release candidate metadata failed: ") (emit_metadata outputPath) s
  | _ => (js "usage: node scripts/release-candidate-metadata.mjs <output-json>", 64, s)
  end.
End metadata.

(** ** verify-production-candidate.mjs *)

Record Step := {
  label : jsstr;
  executable : jsstr;
  step_args : list jsstr;
  step_cwd : jsstr;
  step_env : list (jsstr * jsstr);
  display : jsstr;
}.
(** What [spawnSync] returns: an error that kept the program from starting, its status. *)
Record Spawned := { spawn_error : option jsstr; spawn_status : option Z }.

Section candidate.
Context {host : Host}.
(** [REPOSITORY_ROOT], [process.execPath] and the names in the directory of scripts. *)
Context (root exec_path : jsstr) (script_entries : list jsstr).
Context {world : Type} (spawn : Step -> world -> Spawned * world).

Definition step_of (name program : String.string) (args : list String.string) : Step := {|
  label := js name; executable := js program; step_args := map js args; step_cwd := root; step_env := [];
  display := join (js " ") (js program :: map js args) |}.
Definition node_step (name : String.string) (args : list jsstr) (shown : jsstr) : Step := {|
  label := js name; executable := exec_path; step_args := args; step_cwd := root; step_env := []; display := shown |}.
Definition flutter_step (name program : String.string) (args : list String.string) : Step :=
  let s := step_of name program args in
  {| label := label s; executable := executable s; step_args := step_args s;
     step_cwd := path_join root (js "packages/flutter"); step_env := []; display := display s |}.
Definition is_test_file (entry : jsstr) : bool := startsWith (rev entry) (rev (js ".test.mjs")).
Definition nodeScriptTestFiles : list jsstr :=
  map (path_join (js "scripts")) (sort_units (filter (fun entry => is_test_file entry = true) script_entries)).
Definition with_env (s : Step) (env : list (jsstr * jsstr)) : Step := {|
  label := label s; executable := executable s; step_args := step_args s; step_cwd := step_cwd s; step_env := env; display := display s |}.
Definition deterministic_commands : list Step :=
  [node_step "Clean checkout" [js "scripts/check-clean-checkout.mjs"] (js "node scripts/check-clean-checkout.mjs");
   node_step "Pinned host toolchains" [js "scripts/verify-toolchains.mjs"] (js "node scripts/verify-toolchains.mjs");
   step_of "Rust formatting" "cargo" ["fmt"; "--all"; "--"; "--check"];
   step_of "Rust workspace tests" "cargo" ["test"; "--locked"; "--workspace"; "--all-features"];
   step_of "Rust MSRV tests" "cargo" ["+1.88.0"; "test"; "--locked"; "--workspace"; "--all-features"];
   step_of "Rust clippy" "cargo" ["clippy"; "--locked"; "--workspace"; "--all-targets"; "--all-features"; "--"; "-D"; "warnings"];
   with_env (step_of "Rust documentation" "cargo" ["doc"; "--locked"; "--workspace"; "--all-features"; "--no-deps"])
     [(js "RUSTDOCFLAGS", js "-D warnings")];
   step_of "Cargo dependency audit" "cargo" ["audit"];
   step_of "Node dependency audit" "pnpm" ["audit"; "--audit-level"; "high"];
   step_of "Native package parity" "pnpm" ["check:native-parity"];
   step_of "Native SDK contract" "pnpm" ["check:native-sdk-contract"];
   step_of "HTTP contract version parity" "pnpm" ["check:http-contract-version-parity"];
   step_of "OPAQUE protocol parity" "pnpm" ["check:opaque-protocol-parity"];
   step_of "JavaScript package tests" "pnpm" ["-r"; "test"];
   step_of "JavaScript package typecheck" "pnpm" ["-r"; "typecheck"];
   step_of "JavaScript package builds" "pnpm" ["-r"; "build"];
   node_step "Repository script tests" (js "--test" :: nodeScriptTestFiles) (js "node --test scripts/*.test.mjs");
   step_of "Static security audit" "pnpm" ["security-audit"];
   step_of "Browser runtime matrix" "pnpm" ["test:web-browser"];
   flutter_step "Flutter dependencies" "flutter" ["pub"; "get"];
   flutter_step "Flutter formatting" "dart" ["format"; "--output=none"; "--set-exit-if-changed"; "lib"; "test"];
   flutter_step "Flutter analysis" "flutter" ["analyze"];
   flutter_step "Flutter tests" "flutter" ["test"];
   flutter_step "Flutter publish dry-run" "flutter" ["pub"; "publish"; "--dry-run"]]%string.
Definition evidence_step (evidencePath : jsstr) : Step :=
  let args := [js "scripts/check-release-evidence.mjs"; js "--require-trusted-keys"; evidencePath] in
  node_step "Trusted release evidence verification" args (join (js " ") (exec_path :: args)).
Definition buildProductionCandidateCommands (evidencePath : option jsstr) : list Step :=
  deterministic_commands ++ match evidencePath with Some p => [evidence_step p] | None => [] end.

Record Arguments := { dryRun : bool; evidencePath : option jsstr }.
Fixpoint parse_arguments (o : Arguments) (argv : list jsstr) : result jsstr Arguments :=
  match argv with
  | [] => Ok o
  | argument :: argv' =>
      if str_eqb argument (js "--dry-run") then
        if dryRun o then Throw (js "--dry-run must be specified once")
        else parse_arguments {| dryRun := true; evidencePath := evidencePath o |} argv'
      else if str_eqb argument (js "--evidence") then
        match evidencePath o with
        | Some _ => Throw (js "--evidence must be specified once")
        | None =>
            match argv' with
            | [] => Throw (js "--evidence requires a manifest path")
            | value :: argv'' =>
                if startsWith value (js "--") then Throw (js "--evidence requires a manifest path")
                else parse_arguments {| dryRun := dryRun o; evidencePath := Some (resolve2 cwd root value) |} argv''
            end
        end
      else Throw (js "unknown option: " ++ argument)
  end.
Definition parseProductionCandidateArguments : list jsstr -> result jsstr Arguments :=
  parse_arguments {| dryRun := false; evidencePath := None |}.

(** The message when the step did not succeed. *)
Definition step_failure (s : Step) (r : Spawned) : option jsstr :=
  match spawn_error r with
  | Some message => Some (label s ++ js " could not start: " ++ message)
  | None =>
      match spawn_status r with
      | Some 0 => None
      | Some status => Some (label s ++ js " failed with exit code " ++ num_to_string (num status))
      | None => Some (label s ++ js " failed with exit code unknown")
      end
  end.
(** The lines printed, the message of the gate that failed, and the world after it. *)
Fixpoint runProductionCandidate (commands : list Step) (w : world) : list jsstr * option jsstr * world :=
  match commands with
  | [] => ([], None, w)
  | step :: commands' =>
      let announced := [[10] ++ js "== " ++ label step ++ js " =="; display step] in
      let '(r, w1) := spawn step w in
      match step_failure step r with
      | Some message => (announced, Some message, w1)
      | None => let '(lines, failed, w2) := runProductionCandidate commands' w1 in (announced ++ lines, failed, w2)
      end
  end.
(** The lines on standard output, the line on standard error, the exit code. *)
Definition production_main (argv : list jsstr) (w : world) : list jsstr * option jsstr * Z * world :=
  let failed message := Some (js "production-candidate verification failed: " ++ message) in
  match parseProductionCandidateArguments argv with
  | Throw message => ([], failed message, 1, w)
  | Ok options =>
      let commands := buildProductionCandidateCommands (evidencePath options) in
      if dryRun options then
        (js "deterministic production-candidate gates:" :: map (fun step => js "- " ++ label step ++ js ": " ++ display step) commands
         ++ [js "external device, service, CI-provenance, and independent-review evidence is not synthesized"], None, 0, w)
      else
        match runProductionCandidate commands w with
        | (lines, Some message, w1) => (lines, failed message, 1, w1)
        | (lines, None, w1) =>
            (lines ++ [[10] ++ js "deterministic production-candidate gates passed";
                       match evidencePath options with
                       | None => js "release evidence was not supplied; this is not a production-release approval"
                       | Some _ => js "trusted release evidence verification passed"
                       end], None, 0, w1)
        end
  end.
End candidate.

(** ** What signing does *)

Section signing.
Context {disk : Disk} {signer : Signer} (laws : DiskLaws disk).

(** The buffer of the private key, if there is one, is zero. *)
Definition cleared (m : Memory) : Prop := forall b, m_key m = Some b -> Forall (eq 0) b.
(** What a finished signing made from the two files it read. *)
Record Signing (s s' : fs) (artifactPath privateKeyPath signaturePath publicKeyPath : jsstr) (artifact signature publicKey : list Z) : Prop := {
  signing_artifact : content s artifactPath artifact;
  signing_key : exists bytes key, content s privateKeyPath bytes /\ createPrivateKey bytes = Ok key /\
    asymmetricKeyType key = js "ed25519" /\ sign artifact key = Ok signature /\ export_public key = Ok publicKey;
  signing_signature : Created s s' signaturePath signature;
  signing_public : Created s s' publicKeyPath publicKey;
  signing_distinct : resolve1 working_directory signaturePath <> resolve1 working_directory publicKeyPath;
}.
Lemma readBoundedFile_content p label maximum (s s' : fs) bytes : readBoundedFile p label maximum s = (Ok bytes, s') -> content s p bytes.
Proof.
  unfold readBoundedFile. intros [H _]%reading_ok. apply bind_Ok in H as (stats & _ & H). repeat (destruct (_ : bool); [done|]). exact H.
Qed.
Lemma zeroed_key (b : list Z) : Forall (eq 0) (map (fun _ => 0) b).
Proof. induction b; constructor; done. Qed.
(** How a program ends, whether with a value or an error. *)
Definition ends {A} (p : mem A) (m : Memory) (Q : result jsstr A -> Memory -> Prop) : Prop := Q (p m).1 (p m).2.
Lemma ends_bind {A B} (p : mem A) (k : A -> mem B) m Q :
  ends p m (fun r m' => match r with Ok a => ends (k a) m' Q | Throw e => Q (Throw e) m' end) -> ends (p ≫= k) m Q.
Proof. unfold ends, mbind, mem_bind. by destruct (p m) as [[]]. Qed.
Lemma ends_pure {A B} (r : result jsstr A) (k : A -> mem B) m Q :
  (forall e, Q (Throw e) m) -> (forall a, r = Ok a -> ends (k a) m Q) -> ends (pure r ≫= k) m Q.
Proof. intros He Ho. apply ends_bind. unfold ends at 1, pure. cbn [fst snd]. destruct r; [by apply Ho|apply He]. Qed.
Lemma ends_reading {A B} (f : fs -> result jsstr A) (k : A -> mem B) m Q :
  (forall e, Q (Throw e) m) -> (forall a, f (m_fs m) = Ok a -> ends (k a) m Q) -> ends (on_disk (reading f) ≫= k) m Q.
Proof. destruct m as [s key]. apply (ends_pure (f s)). Qed.
Lemma ends_key {B} (key : list Z) (k : Key -> mem B) m Q :
  let m' := {| m_fs := m_fs m; m_key := Some (map (fun _ => 0) key) |} in m_key m = Some key ->
  (forall e, Q (Throw e) m') -> (forall a, createPrivateKey key = Ok a -> ends (k a) m' Q) ->
  ends (finally parse_key clear_key ≫= k) m Q.
Proof.
  destruct m as [s o]. cbn. intros -> He Ho. apply ends_bind. unfold ends at 1, finally, parse_key. cbn.
  destruct (createPrivateKey key); [by apply Ho|apply He].
Qed.
Lemma ends_write {B} p bytes (k : unit -> mem B) m Q :
  (forall e s', preserves (m_fs m) s' -> Q (Throw e) {| m_fs := s'; m_key := m_key m |}) ->
  (forall s', preserves (m_fs m) s' -> (forall s0, preserves s0 (m_fs m) -> Created s0 s' p bytes) ->
     ends (k tt) {| m_fs := s'; m_key := m_key m |} Q) ->
  ends (on_disk (call (writeFileSync p bytes)) ≫= k) m Q.
Proof.
  intros He Ho. apply ends_bind. unfold ends at 1, on_disk. pose proof (write_keeps laws p bytes (m_fs m)) as Hk.
  destruct (call (writeFileSync p bytes) (m_fs m)) as [[[]|e] s'] eqn:E; cbn [fst snd].
  - apply Ho; [|intros; by eapply (write_created laws)]. apply call_ok in E. by rewrite E in Hk.
  - apply He. unfold call in E. destruct (writeFileSync p bytes (m_fs m)) as [r s1]. injection E as _ <-. done.
Qed.
(** Safe at every end: no readable file has changed, the key is cleared, and a value
    means a finished signing. *)
Definition Safely (s : fs) (a k p q : jsstr) (r : result jsstr Signed) (m' : Memory) : Prop :=
  preserves s (m_fs m') /\ cleared m' /\ forall result, r = Ok result -> exists artifact signature publicKey,
    Signing s (m_fs m') a k p q artifact signature publicKey /\
    result = {| signatureBytes := Z.of_nat (length signature); publicKeySha256 := @sha256 (observe (m_fs m')) publicKey |}.
Lemma failed_safely s a k p q e m' : preserves s (m_fs m') -> cleared m' -> Safely s a k p q (Throw e) m'.
Proof. intros Hp Hc. split; [exact Hp|]. by split; [exact Hc|]. Qed.
Lemma zeroed_cleared s b : cleared {| m_fs := s; m_key := Some (map (fun _ => 0) (b : list Z)) |}.
Proof. unfold cleared. cbn. intros c [= <-]. induction b; constructor; done. Qed.
Lemma sign_safely a k p q s : ends (signReleaseArtifact a k p q) {| m_fs := s; m_key := None |} (Safely s a k p q).
Proof.
  assert (Hnone : cleared {| m_fs := s; m_key := None |}) by done.
  unfold signReleaseArtifact. destruct (str_eqb _ _) eqn:Eq; [by apply failed_safely|].
  apply ends_reading; [intros; by apply failed_safely|]. intros _ _. apply ends_reading; [intros; by apply failed_safely|]. intros _ _.
  apply ends_reading; [intros; by apply failed_safely|]. intros kb Hkb. apply ends_bind. unfold ends at 1, hold_key. cbn [fst snd m_fs m_key].
  pose proof (zeroed_cleared s kb) as Hc. apply (ends_key kb); [done|intros; by apply failed_safely|]. intros key Hkey.
  destruct (str_eqb (asymmetricKeyType key) _) eqn:Et; [|by apply failed_safely]. apply str_eqb_eq in Et. cbn [negb m_fs].
  apply ends_reading; [intros; by apply failed_safely|]. intros artifact Ha. apply ends_pure; [intros; by apply failed_safely|]. intros signature Hs.
  apply ends_pure; [intros; by apply failed_safely|]. intros publicKey Hp.
  apply ends_write; cbn [m_fs m_key]; [intros; by apply failed_safely|]. intros s1 K1 C1.
  apply ends_write; cbn [m_fs m_key]; [intros; apply failed_safely; [by etransitivity|done]|]. intros s2 K2 C2.
  apply ends_reading; [intros; apply failed_safely; [by etransitivity|done]|]. intros digest [= <-].
  unfold ends. cbn [fst snd m_fs]. split_and!; [by etransitivity|done|]. intros result [= <-].
  exists artifact, signature, publicKey. split; [|done]. constructor.
  - eapply (readBoundedFile_content a (js "release artifact") MAX_RELEASE_ARTIFACT_BYTES s s artifact).
    unfold readBoundedFile, reading. by rewrite <- Ha.
  - exists kb, key. split_and!; [|done..]. eapply (readBoundedFile_content k (js "private key") MAX_PRIVATE_KEY_BYTES s s kb).
    unfold readBoundedFile, reading. by rewrite <- Hkb.
  - destruct (C1 s ltac:(reflexivity)) as [Hn Hcont]. split; [done|by apply K2].
  - by apply C2.
  - intros E. rewrite E in Eq. by rewrite str_eqb_refl in Eq.
Qed.
(** What Node documents of Ed25519: a signature verifies under the exported public key. *)
Context (signs : forall s bytes key m signature publicKey,
  createPrivateKey bytes = Ok key -> asymmetricKeyType key = js "ed25519" -> sign m key = Ok signature -> export_public key = Ok publicKey ->
  @verify (observe s) m publicKey signature = Ok true /\ @public_key_type (observe s) publicKey = Ok (js "ed25519") /\
  length signature = 64%nat).

(** C29. Signing is safe: whatever the arguments and however the command ends, no file
    that could be read has changed and the buffer that held the private key is zero; exit
    code 0 means that the signature and the public key are in two new files, that the
    signature is the one of the artifact's bytes under the Ed25519 key that was read, and
    that it verifies under the public key written beside it. *)
Theorem sign_main_safe argv s line code m' :
  sign_main argv {| m_fs := s; m_key := None |} = (line, code, m') ->
  preserves s (m_fs m') /\ cleared m' /\
  (code = 0 -> exists a k p q rest artifact signature publicKey, argv = a :: k :: p :: q :: rest /\
     Signing s (m_fs m') a k p q artifact signature publicKey /\
     @verify (observe (m_fs m')) artifact publicKey signature = Ok true /\
     @public_key_type (observe (m_fs m')) publicKey = Ok (js "ed25519") /\ length signature = 64%nat).
Proof.
  unfold sign_main. destruct argv as [|[|xa a] [|[|xk k] [|[|xp p] [|[|xq q] rest]]]];
    try (intros H; injection H as _ <- <-; split; [reflexivity|by split]).
  pose proof (sign_safely (xa :: a) (xk :: k) (xp :: p) (xq :: q) s) as H. unfold ends in H.
  destruct (signReleaseArtifact _ _ _ _ _) as [r m1]. cbn [fst snd] in H. destruct H as (Hp & Hc & Hok).
  destruct (r ≫= _) as [text|message] eqn:E; intros Hend; injection Hend as _ <- <-; (split; [exact Hp|]; split; [exact Hc|]); [|done].
  intros _. apply bind_Ok in E as (result & -> & _). destruct (Hok _ eq_refl) as (artifact & signature & publicKey & Hs & _).
  exists (xa :: a), (xk :: k), (xp :: p), (xq :: q), rest, artifact, signature, publicKey. split; [done|]. split; [exact Hs|].
  destruct (signing_key _ _ _ _ _ _ _ _ _ Hs) as (bytes & key & _ & H1 & H2 & H3 & H4). by apply (signs _ bytes key).
Qed.
End signing.

(** ** What the metadata says *)

Section metadata.
Context {disk : Disk} (laws : DiskLaws disk) (checkout : Checkout) (git_timestamp : result jsstr jsstr).

(** The metadata is of the clean checkout, claims no more than a candidate, and is in a
    new file. *)
Lemma metadata_main_bound argv s line code s' : metadata_main checkout git_timestamp argv s = (line, code, s') ->
  preserves s s' /\ (code = 0 -> exists commit version createdAt p bytes, At_commit checkout commit /\
    json_bytes (candidate_metadata (VStr commit) (VStr version) (VStr createdAt)) = Ok bytes /\ Created s s' p bytes).
Proof.
  assert (Husage : forall usage, (usage, 64, s) = (line, code, s') -> preserves s s' /\ (code = 0 -> exists commit version createdAt p bytes, At_commit checkout commit /\
    json_bytes (candidate_metadata (VStr commit) (VStr version) (VStr createdAt)) = Ok bytes /\ Created s s' p bytes)).
  { intros usage H. injection H as _ <- <-. by split. }
  unfold metadata_main. destruct argv as [|[|x out] rest]; try apply Husage. intros [Hp H]%command_runs.
  2: { pose proof (mkdir_keeps laws). pose proof (write_keeps laws). unfold emit_metadata. solve_keeps. }
  split; [done|]. intros Hw%H. clear H. unfold emit_metadata in Hw. cbv zeta in Hw. apply (mkdir_then laws) in Hw as (s1 & K1 & Hw).
  apply io_bind_ok in Hw as (commit & s2 & [Hc%currentCommit_ok ->]%reading_ok & Hw). apply io_bind_ok in Hw as (version & s2 & [_ ->]%reading_ok & Hw).
  apply io_bind_ok in Hw as (createdAt & s2 & [_ ->]%reading_ok & Hw). apply io_bind_ok in Hw as (metadata & s2 & [Hm ->]%reading_ok & Hw).
  apply io_bind_ok in Hw as (bytes & s2 & [Hb ->]%reading_ok & Hw). apply io_bind_ok in Hw as ([] & s2 & Hwr & Hw). injection Hw as _ <-.
  apply (proj1 (messages_ok (host := observe s1) _ _)) in Hm, Hb. unfold buildReleaseCandidateMetadata in Hm.
  repeat (destruct (negb _); [done|]). apply bind_Ok in Hm as (valid & _ & Hm). destruct valid; [|done]. apply Ok_inj in Hm as <-.
  do 5 eexists. split; [exact Hc|]. split; [exact Hb|]. by eapply (write_created laws).
Qed.
End metadata.

(** ** What the candidate's gates establish *)

Section gates.
Context {host : Host} (root exec_path : jsstr) (script_entries : list jsstr).
Context {world : Type} (spawn : Step -> world -> Spawned * world).
Notation commands := (buildProductionCandidateCommands root exec_path script_entries).

(** All the steps ran, in this order, and each ended with status 0. *)
Inductive Passed : list Step -> world -> world -> Prop :=
  | passed_none w : Passed [] w w
  | passed_step step steps r w w1 w' :
      spawn step w = (r, w1) -> step_failure step r = None -> Passed steps w1 w' -> Passed (step :: steps) w w'.
(** The steps passed up to one that failed; none after it has run. *)
Definition Stopped (steps : list Step) (w w' : world) (message : jsstr) : Prop :=
  exists before step after w1 r, steps = before ++ step :: after /\ Passed before w w1 /\ spawn step w1 = (r, w') /\
    step_failure step r = Some message.
Lemma run_passed steps w : match runProductionCandidate spawn steps w with
  | (_, None, w') => Passed steps w w'
  | (_, Some message, w') => Stopped steps w w' message
  end.
Proof.
  revert w; induction steps as [|step steps IH]; intros w; [constructor|]. cbn [runProductionCandidate].
  destruct (spawn step w) as [r w1] eqn:E. destruct (step_failure step r) as [message|] eqn:Ef.
  - exists [], step, steps, w, r. split_and!; try done. constructor.
  - specialize (IH w1). destruct (runProductionCandidate spawn steps w1) as [[lines [message|]] w2].
    + destruct IH as (before & s & after & w3 & r' & -> & Hp & Hs & Hf). exists (step :: before), s, after, w3, r'.
      split_and!; try done. by econstructor.
    + by econstructor.
Qed.

(** The candidate's gates are run in order and fail closed: with exit code 0 either
    nothing ran (a dry run), or every gate ran in its place and ended with status 0, the
    verification of the release evidence last when a manifest was given - and only then
    is it said to have passed; with another code either the arguments were refused and
    nothing ran, or the gates passed up to one that failed and none ran after it. *)
Theorem production_main_ordered argv w out err code w' :
  production_main root exec_path script_entries spawn argv w = (out, err, code, w') ->
  (code = 0 -> exists o, parseProductionCandidateArguments root argv = Ok o /\
     if dryRun o then w' = w else Passed (commands (evidencePath o)) w w' /\
       last out = Some (match evidencePath o with
         | Some _ => js "trusted release evidence verification passed"
         | None => js "release evidence was not supplied; this is not a production-release approval" end)) /\
  (code <> 0 -> (exists message, parseProductionCandidateArguments root argv = Throw message /\ w' = w) \/
     exists o message, parseProductionCandidateArguments root argv = Ok o /\ dryRun o = false /\
       Stopped (commands (evidencePath o)) w w' message /\ err = Some (js "production-candidate verification failed: " ++ message)).
Proof.
  unfold production_main. destruct (parseProductionCandidateArguments root argv) as [o|message].
  2: { intros H. injection H as <- <- <- <-. split; [done|]. left. by exists message. }
  cbv zeta. destruct (dryRun o) eqn:Ed.
  { intros H. injection H as <- <- <- <-. split; [|done]. intros _. exists o. by rewrite Ed. }
  pose proof (run_passed (commands (evidencePath o)) w) as Hr.
  destruct (runProductionCandidate spawn _ w) as [[lines [message|]] w1]; intros H; injection H as <- <- <- <-; split; try done.
  - intros _. right. by exists o, message.
  - intros _. exists o. rewrite Ed. split; [done|]. split; [exact Hr|]. rewrite last_app. by destruct (evidencePath o).
Qed.
End gates.

(** ** A signer and a list of gates *)

(** A key is its bytes and every signature is 64 ones. *)
Definition toy_signer : Signer := {|
  Key := list Z; createPrivateKey := fun bytes => Ok bytes; asymmetricKeyType := fun _ => js "ed25519";
  sign := fun _ _ => Ok (repeat 1 64); export_public := fun key => Ok (js "public:" ++ key) |}.
Definition sign_base : Host := {|
  cwd := js "/work"; realpathSync := fun p => Ok p; lstat_isSymbolicLink := fun _ => Ok false;
  statSync := fun _ => Throw []; readFileSync := fun _ => Throw []; sha256 := fun _ => repeat 97 64; JSON_parse := fun _ => Ok VNull;
  public_key_type := fun _ => Ok (js "ed25519"); verify := fun _ _ signature => Ok (str_eqb signature (repeat 1 64));
  other_format := fun _ => None; error_message := fun _ => js "error" |}.
Definition sign_disk : Disk := memory_disk sign_base.
Definition sign_tree : tree := list_to_map [(js "bundle.tar.gz", js "bundle"); (js "key.pem", js "seed")].
Definition sign_argv : list jsstr := map js ["bundle.tar.gz"; "key.pem"; "bundle.sig"; "bundle.pub.der"]%string.
Definition sign_run : jsstr * Z * @Memory sign_disk :=
  @sign_main sign_disk toy_signer sign_argv {| m_fs := sign_tree : @fs sign_disk; m_key := None |}.
Example sign_run_clears : (sign_run.1.2, m_key sign_run.2) = (0, Some [0; 0; 0; 0]).
Proof. vm_compute. reflexivity. Qed.
Lemma sign_main_safe_witness : cleared sign_run.2 /\ exists a k p q artifact signature publicKey,
  @Signing sign_disk toy_signer (sign_tree : tree) (m_fs sign_run.2) a k p q artifact signature publicKey.
Proof.
  pose proof sign_run_clears as Hc. unfold sign_run in *.
  destruct (@sign_main sign_disk toy_signer sign_argv _) as [[line code] m'] eqn:E. cbn [fst snd] in *. injection Hc as -> _.
  destruct (@sign_main_safe sign_disk toy_signer (memory_disk_laws sign_base) ltac:(intros s b key m sg pk _ _ Hs _; injection Hs as <-; by split_and!)
    sign_argv (sign_tree : tree) line 0 m' E) as (_ & Hc & H). split; [exact Hc|].
  destruct (H eq_refl) as (a & k & p & q & rest & artifact & signature & publicKey & _ & Hs & _). by exists a, k, p, q, artifact, signature, publicKey.
Defined.

(** Every gate passes; the world is the list of the gates that ran. *)
Definition toy_spawn (s : Step) (w : list jsstr) : Spawned * list jsstr := ({| spawn_error := None; spawn_status := Some 0 |}, w ++ [label s]).
Definition production_run : list jsstr * option jsstr * Z * list jsstr :=
  @production_main sign_base (js "/repo") (js "/bin/node") [js "a.test.mjs"; js "b.mjs"] _ toy_spawn [js "--evidence"; js "release.json"] [].
Example production_run_ends : (production_run.1.2, length production_run.2, last production_run.2) =
  (0, 25%nat, Some (js "Trusted release evidence verification")).
Proof. vm_compute. reflexivity. Qed.
(** The second gate fails: no other runs. *)
Definition failing_spawn (s : Step) (w : list jsstr) : Spawned * list jsstr :=
  ({| spawn_error := None; spawn_status := Some (if str_eqb (label s) (js "Pinned host toolchains") then 1 else 0) |}, w ++ [label s]).
Example production_run_stops :
  let '(_, err, code, w) := @production_main sign_base (js "/repo") (js "/bin/node") [] _ failing_spawn [] [] in
  (err, code, w) = (Some (js "production-candidate verification failed: Pinned host toolchains failed with exit code 1"), 1,
    [js "Clean checkout"; js "Pinned host toolchains"]).
Proof. vm_compute. reflexivity. Qed.
Lemma production_main_ordered_witness : exists p,
  @Passed _ toy_spawn (@buildProductionCandidateCommands (js "/repo") (js "/bin/node") [js "a.test.mjs"; js "b.mjs"] (Some p)) [] production_run.2.
Proof.
  pose proof production_run_ends as Hc. unfold production_run in *.
  destruct (@production_main sign_base _ _ _ _ toy_spawn _ []) as [[[out err] code] w'] eqn:E. cbn [fst snd] in *. injection Hc as -> _ _.
  destruct (proj1 (@production_main_ordered sign_base _ _ _ _ toy_spawn _ _ _ _ _ _ E) eq_refl) as (o & Ho & H).
  injection Ho as <-. destruct H as [H _]. eexists. exact H.
Defined.
