(* ===== verification/Provenance.v ===== *)
(** * scripts/verify-github-run-provenance.mjs

    The identity of the workflow runs that produced a candidate and its evidence, asked
    of the GitHub API.  The API is a parameter: [fetch] takes a request and the state of
    the world and answers; URL parsing is the class [Urls]. *)

From S2P Require Import Prelude JsNumber Regex JsValue JsText Host ReleaseEvidence ReleaseFragment EvidenceWriter PathProps.
From S2P Require DeviceClaims.
Open Scope js_scope.

(** [/^[1-9][0-9]*$/], [/^[A-Za-z0-9_.-]+\/[A-Za-z0-9_.-]+$/] *)
Definition RUN_ID : re := RSeq (RCls [(49, 57)]) (RStar (RCls [(48, 57)])).
Definition name_units : list (Z * Z) := [(65, 90); (97, 122); (48, 57); (95, 95); (46, 46); (45, 45)].
Definition REPOSITORY : re := RSeq (rplus (RCls name_units)) (RSeq (rchr slash) (rplus (RCls name_units))).
(** [/^\.github\/workflows\/[A-Za-z0-9_.-]+\.(?:yml|yaml)$/] *)
Definition WORKFLOW_PATH : re :=
  RSeq (rlit (js ".github/workflows/")) (RSeq (rplus (RCls name_units)) (RSeq (rchr 46) (RAlt (rlit (js "yml")) (rlit (js "yaml"))))).

Definition normalizeRunId (value : val) (field : jsstr) : result jsstr jsnum :=
  let normalized := match value with VNum n => VStr (num_to_string n) | _ => value end in
  match normalized with
  | VStr s =>
      if negb (re_match RUN_ID s) then Throw (field ++ js " must be a positive decimal integer") else
      let numeric := Number_digits s in
      if negb (is_safe_integer numeric) then Throw (field ++ js " must be a safe integer") else Ok numeric
  | _ => Throw (field ++ js " must be a positive decimal integer")
  end.
(** The validators give the string they have accepted. *)
Definition validateRepository (repository : val) : result jsstr jsstr :=
  match repository with
  | VStr s => if re_match REPOSITORY s then Ok s else Throw (js "repository must use the owner/name format")
  | _ => Throw (js "repository must use the owner/name format")
  end.
Definition validateCommit (commit : val) : result jsstr jsstr :=
  match commit with
  | VStr s => if re_match COMMIT s then Ok s else Throw (js "expected release commit must be a 40-character lowercase commit SHA")
  | _ => Throw (js "expected release commit must be a 40-character lowercase commit SHA")
  end.
Definition validateExpectedWorkflow (expectedWorkflow : val) : result jsstr jsstr :=
  let refused := Throw (js "expected workflow must be a safe .github/workflows YAML path") in
  match expectedWorkflow with
  | VStr s => if negb (re_match WORKFLOW_PATH s) || str_in (js "..") (split slash s) then refused else Ok s
  | _ => refused
  end.
Definition workflowPathMatches (actualWorkflow : val) (expectedWorkflow : jsstr) : bool :=
  eq_str actualWorkflow expectedWorkflow ||
  match actualWorkflow with
  | VStr actual =>
      startsWith actual (expectedWorkflow ++ js "@") && (length expectedWorkflow + 1 <? length actual)%nat &&
      negb (existsb (fun c => (c =? 13) || (c =? 10)) actual)
  | _ => false
  end.

(** What URL the API is asked at: the class [URL] of Node. *)
Class Urls := {
  URL : Type;
  (** [new URL(text)], [new URL(text, base)] *)
  new_URL : jsstr -> result jsstr URL;
  new_URL_in : jsstr -> URL -> result jsstr URL;
  protocol : URL -> jsstr;
}.
(** [encodeURIComponent]; a lone surrogate cannot be encoded. *)
Definition unreserved (c : Z) : bool :=
  in_cls [(65, 90); (97, 122); (48, 57)] c || bool_decide (c ∈ js "-_.!~*'()").
Definition percent (byte : Z) : jsstr :=
  let upper d := if d <? 10 then 48 + d else 55 + d in [37; upper (byte / 16); upper (byte mod 16)].
Definition encodeURIComponent (s : jsstr) : result jsstr jsstr :=
  if existsb (fun c => is_high c || is_low c) (code_points s) then Throw (js "URI malformed") else
  Ok (flat_map (fun c => if unreserved c then [c] else flat_map percent (utf8_bytes c)) (code_points s)).

Section provenance.
Context {host : Host} {urls : Urls} {world : Type}.

(** A computation on the world that may throw. *)
Definition act (A : Type) : Type := world -> result jsstr A * world.
#[export] Instance act_ret : MRet act := fun A a w => (Ok a, w).
#[export] Instance act_bind : MBind act := fun A B k p w =>
  match p w with (Ok a, w') => k a w' | (Throw e, w') => (Throw e, w') end.
Definition now {A} (r : result jsstr A) : act A := fun w => (r, w).

Record Request := { url : URL; headers : list (jsstr * jsstr) }.
(** [json] reads the body. *)
Record Response := { ok : bool; status : val; json : act val }.
(** A fetch rejects, or answers; [None] is no answer with a boolean [ok]. *)
Definition Fetch : Type := Request -> act (option Response).
(** The value of [fetchImpl]: nullish, no function, or a function. *)
Inductive callable := Missing | NotCallable | Callable (f : Fetch).
Context (global_fetch : callable).

Record Options := {
  runId : val; expectedWorkflow : val; repository : val; expectedCommit : val; token : val; apiBaseUrl : val; fetchImpl : callable;
}.
(** [None] where the options are no record. *)
Definition validateGitHubRunProvenance (run : val) (options : option Options) : result jsstr val :=
  if negb (is_record run) then Throw (js "GitHub workflow run response must be an object") else
  match options with
  | None => Throw (js "GitHub workflow run expectations are required")
  | Some o =>
      expectedRunId ← normalizeRunId (runId o) (js "run ID");
      _ ← validateRepository (repository o);
      _ ← validateCommit (expectedCommit o);
      workflow ← validateExpectedWorkflow (expectedWorkflow o);
      id ← normalizeRunId run.["id"] (js "GitHub workflow run id");
      if negb (num_eqb id expectedRunId) then Throw (js "GitHub workflow run id must match the requested run ID") else
      if negb (strict_eq run.["repository"].["full_name"] (repository o))
      then Throw (js "GitHub workflow run repository must match the requested repository") else
      if negb (strict_eq run.["head_sha"] (expectedCommit o))
      then Throw (js "GitHub workflow run head_sha must match the requested release commit") else
      if negb (workflowPathMatches run.["path"] workflow)
      then Throw (js "GitHub workflow run workflow path must match the expected workflow") else
      if negb (eq_str run.["status"] (js "completed")) || negb (eq_str run.["conclusion"] (js "success"))
      then Throw (js "GitHub workflow run must be completed with a success conclusion") else
      Ok run
  end.
Definition endsWith_slash (s : jsstr) : bool := match last s with Some c => c =? slash | None => false end.
Definition buildRunUrl (apiBaseUrl repository runId : val) : result jsstr URL :=
  repo ← validateRepository repository;
  normalizedRunId ← normalizeRunId runId (js "run ID");
  match apiBaseUrl with
  | VStr ((_ :: _) as text) =>
      base ← match new_URL (if endsWith_slash text then text else text ++ sep) with
        | Ok base => Ok base
        | Throw message => Throw (js "GitHub API base URL is invalid: " ++ message)
        end;
      if negb (str_in (protocol base) [js "https:"; js "http:"]) then Throw (js "GitHub API base URL must use HTTP(S)") else
      owner ← encodeURIComponent (nth 0 (split slash repo) []);
      name ← encodeURIComponent (nth 1 (split slash repo) []);
      new_URL_in (js "repos/" ++ owner ++ sep ++ name ++ js "/actions/runs/" ++ num_to_string normalizedRunId) base
  | _ => Throw (js "GitHub API base URL is required")
  end.
Definition nullish (v : val) : bool := is_undefined v || is_null v.
(** [options.apiBaseUrl ?? ..], [options.fetchImpl ?? globalThis.fetch] *)
Definition base_of (v : val) : val := if nullish v then vstr "https://api.github.com" else v.
Definition fetch_of (c : callable) : callable := match c with Missing => global_fetch | given => given end.
Definition request_headers (token : jsstr) : list (jsstr * jsstr) :=
  [(js "Accept", js "application/vnd.github+json"); (js "Authorization", js "Bearer " ++ token);
   (js "X-GitHub-Api-Version", js "2022-11-28")].
Definition fetchGitHubRunProvenance (options : option Options) : act val :=
  match options with
  | None => now (Throw (js "GitHub workflow run options are required"))
  | Some o =>
      match token o with
      | VStr ((_ :: _) as text) =>
          url ← now (buildRunUrl (base_of (apiBaseUrl o)) (repository o) (runId o));
          match fetch_of (fetchImpl o) with
          | Callable fetch =>
              response ← fetch {| url := url; headers := request_headers text |};
              match response with
              | None => now (Throw (js "GitHub API returned an invalid response"))
              | Some response =>
                  if negb (ok response) then
                    now (match to_string (status response) with
                         | Ok code => Throw (js "GitHub workflow run lookup failed with HTTP " ++ code)
                         | Throw e => Throw (error_message e)
                         end) else
                  run ← (fun w => match json response w with
                    | (Throw message, w') => (Throw (js "GitHub workflow run response was not valid JSON: " ++ message), w')
                    | answer => answer
                    end);
                  now (validateGitHubRunProvenance run (Some o))
              end
          | _ => now (Throw (js "fetch is not available"))
          end
      | _ => now (Throw (js "GitHub API token is required"))
      end
  end.

Record RunsOptions := {
  runs : val; runs_repository : val; runs_commit : val; runs_token : val; runs_apiBaseUrl : val; runs_fetchImpl : callable;
}.
Definition options_of (o : RunsOptions) (run : val) : Options := {|
  runId := run.["runId"]; expectedWorkflow := run.["expectedWorkflow"]; repository := runs_repository o;
  expectedCommit := runs_commit o; token := runs_token o; apiBaseUrl := runs_apiBaseUrl o; fetchImpl := runs_fetchImpl o |}.
Fixpoint verify_runs (o : RunsOptions) (inputs : list val) : act (list val) :=
  match inputs with
  | [] => mret []
  | run :: rest =>
      if negb (is_record run) then now (Throw (js "GitHub workflow run input must be an object")) else
      first ← fetchGitHubRunProvenance (Some (options_of o run));
      verified ← verify_runs o rest;
      mret (first :: verified)
  end.
Definition verifyGitHubRunProvenance (options : option RunsOptions) : act (list val) :=
  match options with
  | Some o =>
      match runs o with
      | VArr ((_ :: _) as slots) => verify_runs o (iterated slots)
      | _ => now (Throw (js "at least one GitHub workflow run is required"))
      end
  | None => now (Throw (js "at least one GitHub workflow run is required"))
  end.

(** [process.env.GITHUB_TOKEN], [process.env.GITHUB_API_URL] *)
Record Environment := { GITHUB_TOKEN : option jsstr; GITHUB_API_URL : option jsstr }.
Definition env_value (v : option jsstr) : val := match v with Some s => VStr s | None => VUndef end.
Fixpoint paired (arguments : list jsstr) : list val :=
  match arguments with
  | id :: workflow :: rest => vobj [("runId", VStr id); ("expectedWorkflow", VStr workflow)]%string :: paired rest
  | _ => []
  end.
Definition main_options (env : Environment) (repository expectedCommit : jsstr) (inputs : list val) : RunsOptions := {|
  runs := varr inputs; runs_repository := VStr repository; runs_commit := VStr expectedCommit;
  runs_token := env_value (GITHUB_TOKEN env); runs_apiBaseUrl := env_value (GITHUB_API_URL env); runs_fetchImpl := Missing |}.
Definition PROVENANCE_USAGE : jsstr :=
  js "usage: node scripts/verify-github-run-provenance.mjs <owner/repository> <commit-sha> <run-id> <workflow-path>...".
(** What is printed, and the exit code. *)
Definition provenance_main (env : Environment) (argv : list jsstr) (w : world) : jsstr * Z * world :=
  match argv with
  | ((_ :: _) as repository) :: ((_ :: _) as expectedCommit) :: ((_ :: _) as runArguments) =>
      if negb (Nat.even (length runArguments)) then (PROVENANCE_USAGE, 64, w) else
      match verifyGitHubRunProvenance (Some (main_options env repository expectedCommit (paired runArguments))) w with
      | (Ok verified, w') => (js "verified GitHub workflow provenance for " ++ dec_nat (length verified) ++ js " run(s)", 0, w')
      | (Throw message, w') => (js "GitHub workflow provenance verification failed: " ++ message, 1, w')
      end
  | _ => (PROVENANCE_USAGE, 64, w)
  end.
End provenance.

(** ** What a verified run is *)

(** A run ID as the API and the caller write it: the decimal text of a positive safe
    integer, or a number with that text. *)
Definition identifies (v : val) (n : Z) : Prop :=
  exists s, (v = VStr s \/ exists x, v = VNum x /\ num_to_string x = s) /\ matches RUN_ID s /\ digits_value s = n /\ 0 < n <= MAX_SAFE_INTEGER.
Lemma run_id_positive s : matches RUN_ID s -> 0 < digits_value s.
Proof.
  unfold RUN_ID. rewrite matches_seq. intros (a & b & -> & (c & -> & Hc)%matches_cls & Hb%matches_star_cls).
  unfold digits_value. cbn [app foldl]. cbn in Hc. rewrite orb_false_r, andb_true_iff, !Z.leb_le in Hc.
  assert (Hn : 0 < 0 * 10 + (c - 48)) by lia. revert Hn. generalize (0 * 10 + (c - 48)). clear Hc.
  induction Hb as [|d b Hd Hb IH]; intros n Hn; [done|]. cbn [foldl]. apply IH. cbn in Hd.
  rewrite orb_false_r, andb_true_iff, !Z.leb_le in Hd. lia.
Qed.
Lemma normalizeRunId_ok v field x : normalizeRunId v field = Ok x <-> exists n, identifies v n /\ x = round53 n 0.
Proof.
  assert (Hs : forall s, (if negb (re_match RUN_ID s) then Throw (field ++ js " must be a positive decimal integer") else
      if negb (is_safe_integer (Number_digits s)) then Throw (field ++ js " must be a safe integer") else Ok (Number_digits s)) = Ok x <->
      matches RUN_ID s /\ 0 < digits_value s <= MAX_SAFE_INTEGER /\ x = round53 (digits_value s) 0).
  { intros s. rewrite <- re_match_correct. destruct (re_match RUN_ID s) eqn:E; cbn [negb]; [|split; [done|by intros [? _]]].
    apply re_match_correct, run_id_positive in E. unfold Number_digits.
    destruct (is_safe_integer (round53 (digits_value s) 0)) eqn:Es; cbn [negb].
    - split; [intros <-%Ok_inj|by intros (_ & _ & ->)]. split_and!; [done|done| |done].
      destruct (Z.le_gt_cases (2 ^ 53) (digits_value s)) as [Hl|]; [by rewrite (round53_unsafe _ Hl) in Es|unfold MAX_SAFE_INTEGER; lia].
    - split; [done|]. intros (_ & [_ Hl] & _). exfalso. apply not_true_iff_false in Es. apply Es, is_safe_integer_spec.
      exists (digits_value s). unfold MAX_SAFE_INTEGER in *. split; [apply round53_exact|]; lia. }
  unfold normalizeRunId, identifies. destruct v as [| | |y|s| | | | | |]; try (split; [done|by intros (n & (s & [?|(? & ? & ?)] & _) & _)]).
  - rewrite Hs. split.
    + intros (H1 & H2 & ->). eexists. split; [|done]. exists (num_to_string y). split_and!; try done; try lia. right. by exists y.
    + intros (n & (s & [?|(z & [= <-] & <-)] & H1 & <- & H2) & ->); done.
  - rewrite Hs. split.
    + intros (H1 & H2 & ->). eexists. split; [|done]. exists s. split_and!; try done; try lia. by left.
    + intros (n & (u & [[= <-]|(? & ? & _)] & H1 & <- & H2) & ->); done.
Qed.
Lemma round53_inj n m : 0 < n <= MAX_SAFE_INTEGER -> 0 < m <= MAX_SAFE_INTEGER -> num_eqb (round53 n 0) (round53 m 0) = true <-> n = m.
Proof.
  unfold MAX_SAFE_INTEGER. intros Hn Hm. rewrite (num_eqb_toZ _ _ n m) by (apply round53_exact; lia). apply Z.eqb_eq.
Qed.

(** An owner or a name. *)
Definition plain (s : jsstr) : Prop := s <> [] /\ Forall (fun c => in_cls name_units c = true) s.
Lemma matches_plain s : matches (rplus (RCls name_units)) s <-> plain s.
Proof. by rewrite matches_plus_cls. Qed.
Lemma validateRepository_ok v s : validateRepository v = Ok s <-> v = VStr s /\ exists owner name, plain owner /\ plain name /\ s = owner ++ slash :: name.
Proof.
  assert (Hr : forall s, re_match REPOSITORY s = true <-> exists owner name, plain owner /\ plain name /\ s = owner ++ slash :: name).
  { clear. intros s. rewrite re_match_correct. unfold REPOSITORY. split.
    - intros (owner & r & -> & Ho%matches_plain & (t & name & -> & ->%matches_chr & Hn%matches_plain)%matches_seq)%matches_seq.
      by exists owner, name.
    - intros (owner & name & Ho%matches_plain & Hn%matches_plain & ->). apply m_seq; [done|]. apply (m_seq _ _ [slash]); [by apply matches_chr|done]. }
  rewrite <- Hr. unfold validateRepository. destruct v as [| | | |u| | | | | |]; try (split; [done|by intros [? _]]).
  destruct (re_match REPOSITORY u) eqn:E; split; try done; [by intros <-%Ok_inj|by intros [[= ->] _]|by intros [[= ->] ?]; congruence].
Qed.
Lemma plain_unit c : in_cls name_units c = true -> 45 <= c <= 122 /\ c <> slash /\ unreserved c = true.
Proof.
  intros Hc%elem_of_class_units. assert (Hall : Forall (fun c => 45 <= c <= 122 /\ c <> slash /\ unreserved c = true) (class_units name_units)).
  { apply (List.Forall_forall _ _). intros d Hd. assert (E : forallb (fun c => (45 <=? c) && (c <=? 122) && negb (c =? slash) && unreserved c) (class_units name_units) = true)
      by (vm_compute; reflexivity).
    rewrite forallb_forall in E. apply E in Hd. rewrite !andb_true_iff, !Z.leb_le, negb_true_iff, Z.eqb_neq in Hd. tauto. }
  rewrite Forall_forall in Hall. by apply Hall.
Qed.
(** Nothing of a validated name is encoded. *)
Lemma encode_plain s : plain s -> encodeURIComponent s = Ok s.
Proof.
  intros [_ H]. assert (Hall : Forall (fun c => 45 <= c <= 122 /\ c <> slash /\ unreserved c = true) s) by (eapply Forall_impl; [exact H|apply plain_unit]).
  clear H. assert (Ec : code_points s = s).
  { induction Hall as [|c s Hc Hall IH]; [done|]. cbn [code_points]. replace (is_high c) with false; [|unfold is_high; lia].
    destruct s; [done|]. by rewrite <- IH at 2. }
  unfold encodeURIComponent. rewrite Ec. replace (existsb _ s) with false.
  - f_equal. clear Ec. induction Hall as [|c s (_ & _ & Hc) Hall IH]; [done|]. cbn [flat_map]. by rewrite Hc, IH.
  - symmetry. clear Ec. induction Hall as [|c s (Hc & _) Hall IH]; [done|]. cbn [existsb]. rewrite IH, orb_false_r. unfold is_high, is_low.
    rewrite orb_false_iff, !andb_false_iff, !Z.leb_gt. lia.
Qed.

(** ** The requests, the runs and the command *)

Definition on_workflow (v : val) (workflow : jsstr) : Prop :=
  v = VStr workflow \/ exists ref, ref <> [] /\ v = VStr (workflow ++ js "@" ++ ref) /\ Forall (fun c => c <> 13 /\ c <> 10) (workflow ++ js "@" ++ ref).
Lemma no_breaks s : existsb (fun c => (c =? 13) || (c =? 10)) s = false <-> Forall (fun c => c <> 13 /\ c <> 10) s.
Proof.
  induction s as [|c s IH]; [by split|]. cbn [existsb]. by rewrite Forall_cons, orb_false_iff, IH, orb_false_iff, !Z.eqb_neq.
Qed.
Lemma workflowPathMatches_ok v workflow : workflowPathMatches v workflow = true <-> on_workflow v workflow.
Proof.
  unfold workflowPathMatches, on_workflow. rewrite orb_true_iff, eq_str_spec.
  assert (Hiff : forall A B C : Prop, (B <-> C) -> (A \/ B) <-> (A \/ C)) by tauto. apply Hiff. clear Hiff.
  destruct v as [| | | |s| | | | | |]; try (split; [done|by intros (? & _ & ? & _)]).
  rewrite !andb_true_iff, startsWith_spec, Nat.ltb_lt, negb_true_iff. split.
  - intros [[(ref & ->) Hl] Hn]. exists ref. rewrite <- app_assoc. split; [intros ->; rewrite !length_app in Hl; change (length (js "@")) with 1%nat in Hl; cbn [length] in Hl; lia|].
    split; [done|]. rewrite <- app_assoc in Hn. by apply no_breaks.
  - intros (ref & Hne & [= ->] & Hn). split; [split|].
    + exists ref. by rewrite <- app_assoc.
    + rewrite !length_app. change (length (js "@")) with 1%nat. destruct ref; [done|]. cbn [length]. lia.
    + by apply no_breaks in Hn.
Qed.
Definition safe_workflow (s : jsstr) : Prop := matches WORKFLOW_PATH s /\ js ".." ∉ split slash s.
Lemma validateExpectedWorkflow_ok v s : validateExpectedWorkflow v = Ok s <-> v = VStr s /\ safe_workflow s.
Proof.
  unfold validateExpectedWorkflow, safe_workflow. destruct v as [| | | |u| | | | | |]; try (split; [done|by intros [? _]]).
  rewrite <- re_match_correct, <- str_in_elem. destruct (re_match WORKFLOW_PATH u) eqn:Eu, (str_in (js "..") (split slash u)) eqn:Ed; cbn [negb orb];
    (split; [try done|intros [[= ->] [H1 H2]]; congruence]). intros <-%Ok_inj. split_and!; [done..|]. by rewrite Ed.
Qed.
Lemma validateCommit_ok v s : validateCommit v = Ok s <-> v = VStr s /\ matches COMMIT s.
Proof.
  unfold validateCommit. destruct v as [| | | |u| | | | | |]; try (split; [done|by intros [? _]]). rewrite <- re_match_correct.
  destruct (re_match COMMIT u) eqn:E; (split; [try done|intros [[= ->] H]; congruence]). by intros <-%Ok_inj.
Qed.

Section verified.
Context {host : Host} {urls : Urls} {world : Type} (global_fetch : @callable urls world).

(** The run the API answered is a successful run of the workflow on the commit. *)
Record Run_ok (run : val) (n : Z) (repository commit workflow : jsstr) : Prop := {
  run_record : is_record run = true;
  run_id : identifies run.["id"] n;
  run_repository : run.["repository"].["full_name"] = VStr repository;
  run_head : run.["head_sha"] = VStr commit;
  run_workflow : on_workflow run.["path"] workflow;
  run_status : run.["status"] = vstr "completed";
  run_conclusion : run.["conclusion"] = vstr "success";
}.
Definition named (repository : jsstr) : Prop := exists owner name, plain owner /\ plain name /\ repository = owner ++ slash :: name.
Definition Expected (o : @Options urls world) (n : Z) (repo commit workflow : jsstr) : Prop :=
  identifies (runId o) n /\ (repository o = VStr repo /\ named repo) /\ (expectedCommit o = VStr commit /\ matches COMMIT commit) /\
  (expectedWorkflow o = VStr workflow /\ safe_workflow workflow).
Lemma refuse_ok {A} (b : bool) e (r : result jsstr A) a : (if negb b then Throw e else r) = Ok a <-> b = true /\ r = Ok a.
Proof. destruct b; cbn; [tauto|]. split; [done|by intros [? _]]. Qed.
Lemma identified_unique m n v : identifies v m -> identifies v n -> m = n.
Proof. intros (s & [->|(x & -> & <-)] & _ & <- & _) (u & [Hu|(y & Hu & <-)] & _ & <- & _); congruence. Qed.
Lemma validate_ok run o r : validateGitHubRunProvenance run (Some o) = Ok r <->
  r = run /\ exists n repo commit workflow, Expected o n repo commit workflow /\ Run_ok run n repo commit workflow.
Proof.
  unfold validateGitHubRunProvenance, Expected. rewrite refuse_ok, bind_Ok. split.
  - intros (Hrec & x & (n & Hn & ->)%normalizeRunId_ok & H). apply bind_Ok in H as (repo & [Hr Hnm]%validateRepository_ok & H).
    apply bind_Ok in H as (commit & [Hc Hm]%validateCommit_ok & H). apply bind_Ok in H as (workflow & [Hw Hs]%validateExpectedWorkflow_ok & H).
    apply bind_Ok in H as (id & (m & Hid & ->)%normalizeRunId_ok & H). rewrite Hr, Hc in H.
    rewrite !refuse_ok, !strict_eq_text, workflowPathMatches_ok in H. destruct H as (He & Hfull & Hsha & Hp & H).
    rewrite <- negb_andb, refuse_ok, andb_true_iff, !eq_str_spec in H. destruct H as [[Hst Hco] <-%Ok_inj].
    apply round53_inj in He as ->; [|by destruct Hid as (? & _ & _ & _ & ?)|by destruct Hn as (? & _ & _ & _ & ?)].
    split; [done|]. by exists n, repo, commit, workflow.
  - intros (-> & n & repo & commit & workflow & (Hn & Hr & Hc & Hw) & [Hrec Hid Hfull Hsha Hp Hst Hco]). split; [done|].
    exists (round53 n 0). split; [apply normalizeRunId_ok; by exists n|]. apply bind_Ok. exists repo. split; [by apply validateRepository_ok|].
    apply bind_Ok. exists commit. split; [by apply validateCommit_ok|]. apply bind_Ok. exists workflow. split; [by apply validateExpectedWorkflow_ok|].
    apply bind_Ok. exists (round53 n 0). split; [apply normalizeRunId_ok; by exists n|]. destruct Hr as [-> _], Hc as [-> _].
    rewrite !refuse_ok, !strict_eq_text, workflowPathMatches_ok, <- negb_andb, refuse_ok, andb_true_iff, !eq_str_spec.
    split_and!; try done. destruct Hn as (? & _ & _ & _ & ?). by apply round53_inj.
Qed.

(** Where a run is asked for: below the base, under the repository's own name. *)
Definition Asked (base repo : jsstr) (n : Z) (url : URL) : Prop := exists b,
  new_URL (if endsWith_slash base then base else base ++ sep) = Ok b /\ (protocol b = js "https:" \/ protocol b = js "http:") /\
  new_URL_in (js "repos/" ++ repo ++ js "/actions/runs/" ++ num_to_string (round53 n 0)) b = Ok url.
Lemma buildRunUrl_ok base repository runId url : buildRunUrl base repository runId = Ok url <->
  exists text repo n, base = VStr text /\ text <> [] /\ (repository = VStr repo /\ named repo) /\ identifies runId n /\ Asked text repo n url.
Proof.
  assert (Hsplit : forall repo, named repo -> exists owner name, split slash repo = [owner; name] /\
    encodeURIComponent owner = Ok owner /\ encodeURIComponent name = Ok name /\ repo = owner ++ slash :: name).
  { intros repo (owner & name & Ho & Hn & ->). exists owner, name. rewrite !encode_plain by done. split; [|done].
    assert (Hfree : forall s, plain s -> slash ∉ s).
    { intros s [_ H] Hin. rewrite Forall_forall in H. by apply H, plain_unit in Hin as (_ & ? & _). }
    destruct (split_cons_free owner name (Hfree _ Ho)) as [-> _]. by destruct (split_cons_free name [] (Hfree _ Hn)) as [_ ->]. }
  unfold buildRunUrl, Asked. split.
  - intros H. apply bind_Ok in H as (repo & [Hr Hnm]%validateRepository_ok & H). apply bind_Ok in H as (x & (n & Hn & ->)%normalizeRunId_ok & H).
    destruct base as [| | | |[|c text]| | | | | |]; try done. exists (c :: text), repo, n. split_and!; try done.
    destruct (new_URL _) as [b|] eqn:Eb; [|done]. exists b. split; [done|]. change (Ok b ≫= ?f) with (f b) in H. cbv beta in H.
    rewrite refuse_ok, str_in_elem in H. destruct H as [Hp H]. split; [set_solver|].
    destruct (Hsplit repo Hnm) as (owner & name & Es & Eo & En & ->). rewrite Es in H. cbn [nth] in H. rewrite Eo, En in H.
    rewrite <- H. cbn [mbind result_bind]. by rewrite <- !app_assoc.
  - intros (text & repo & n & -> & Hne & [-> Hnm] & Hn & b & Eb & Hp & H). apply bind_Ok. exists repo.
    split; [by apply validateRepository_ok|]. apply bind_Ok. exists (round53 n 0). split; [apply normalizeRunId_ok; by exists n|].
    destruct text as [|c text]; [done|]. rewrite Eb. change (Ok b ≫= ?f) with (f b). cbv beta.
    rewrite refuse_ok, str_in_elem. split; [set_solver|]. destruct (Hsplit repo Hnm) as (owner & name & Es & Eo & En & ->).
    rewrite Es. cbn [nth]. rewrite Eo, En, <- H. cbn [mbind result_bind]. by rewrite <- !app_assoc.
Qed.

(** One run asked for and found good; the worlds are before the request and after the
    body is read. *)
Definition Fetched (repo commit base token : jsstr) (fetch : Fetch) (id : val) (workflow : jsstr) (w : world) (run : val) (w' : world) : Prop :=
  exists n url response w1, identifies id n /\ safe_workflow workflow /\ Asked base repo n url /\
    fetch {| url := url; headers := request_headers token |} w = (Ok (Some response), w1) /\ ok response = true /\
    json response w1 = (Ok run, w') /\ Run_ok run n repo commit workflow.
Lemma act_bind_ok {A B} (p : act A) (k : A -> act B) (w w' : world) b :
  (p ≫= k) w = (Ok b, w') <-> exists a w1, p w = (Ok a, w1) /\ k a w1 = (Ok b, w').
Proof.
  unfold mbind, act_bind. destruct (p w) as [[a|e] w1]; split; [by eauto|by intros (? & ? & [= <- <-] & ?)|done|by intros (? & ? & ? & _)].
Qed.
Lemma now_ok {A} (r : result jsstr A) (w w' : world) a : now r w = (Ok a, w') <-> r = Ok a /\ w' = w.
Proof. unfold now. split; [by intros [= -> ->]|by intros [-> ->]]. Qed.
Lemma fetch_ok o w run w' : fetchGitHubRunProvenance global_fetch (Some o) w = (Ok run, w') <->
  exists repo commit base token' fetch workflow,
    (repository o = VStr repo /\ named repo) /\ (expectedCommit o = VStr commit /\ matches COMMIT commit) /\
    (base_of (apiBaseUrl o) = VStr base /\ base <> []) /\ (token o = VStr token' /\ token' <> []) /\ fetch_of global_fetch (fetchImpl o) = Callable fetch /\
    expectedWorkflow o = VStr workflow /\ Fetched repo commit base token' fetch (runId o) workflow w run w'.
Proof.
  unfold fetchGitHubRunProvenance, Fetched. split.
  - intros H. destruct (token o) as [| | | |[|c t]| | | | | |] eqn:Et; try done. apply act_bind_ok in H as (u & w0 & [Hu ->]%now_ok & H).
    apply buildRunUrl_ok in Hu as (base & repo & n & Hb & Hne & [Hr Hnm] & Hn & Ha).
    destruct (fetch_of global_fetch (fetchImpl o)) as [| |f] eqn:Ef; try done. apply act_bind_ok in H as (response & w1 & Hf & H).
    destruct response as [response|]; [|done]. destruct (ok response) eqn:Eok; cbn [negb] in H; [|by destruct (to_string _)].
    apply act_bind_ok in H as (answer & w2 & Hj & [(-> & m & repo' & commit & workflow & (Hm & [Hr' _] & [Hc Hcm] & [Hw Hs]) & Hok)%validate_ok ->]%now_ok).
    destruct (json response w1) as [[answer'|e] w3] eqn:Ej; [|done]. injection Hj as -> ->.
    assert (repo' = repo) as -> by congruence. exists repo, commit, base, (c :: t), f, workflow. split_and!; try done.
    exists m, u, response, w1. split_and!; try done. destruct Ha as (b & Hb1 & Hp & Hu). exists b. split_and!; try done.
    by rewrite (identified_unique m n (runId o)).
  - intros (repo & commit & base & t & f & workflow & [Hr Hnm] & [Hc Hcm] & [Hb Hne] & [Ht Htn] & Hf & Hw & n & u & response & w1 & Hn & Hs & Ha & Hfe & Hok & Hj & Hrun).
    rewrite Ht. destruct t as [|c t]; [done|]. apply act_bind_ok. exists u, w. split; [apply now_ok; split; [|done]; apply buildRunUrl_ok; by exists base, repo, n|].
    rewrite Hf. apply act_bind_ok. exists (Some response), w1. split; [done|]. rewrite Hok. cbn [negb]. apply act_bind_ok. exists run, w'.
    rewrite Hj. split; [done|]. apply now_ok. split; [|done]. apply validate_ok. split; [done|]. by exists n, repo, commit, workflow.
Qed.

(** The runs of the command line, in order, each asked for after the one before it was
    found good. *)
Section chain.
Context (repo commit base token : jsstr) (fetch : @Fetch urls world).
Inductive Verified : list (jsstr * jsstr) -> world -> list val -> world -> Prop :=
  | verified_none w : Verified [] w [] w
  | verified_run id workflow rest w run w1 runs w' :
      Fetched repo commit base token fetch (VStr id) workflow w run w1 -> Verified rest w1 runs w' ->
      Verified ((id, workflow) :: rest) w (run :: runs) w'.
End chain.
Definition flat (pairs : list (jsstr * jsstr)) : list jsstr := flat_map (fun p => [p.1; p.2]) pairs.
Definition inputs_of (pairs : list (jsstr * jsstr)) : list val :=
  map (fun p => vobj [("runId", VStr p.1); ("expectedWorkflow", VStr p.2)]%string) pairs.
Lemma even_flat arguments : Nat.even (length arguments) = true <-> exists pairs, arguments = flat pairs.
Proof.
  split; [|intros (pairs & ->); by induction pairs].
  revert arguments. fix IH 1. intros [|a [|b rest]]; [by exists []|done|]. intros H. destruct (IH rest H) as (pairs & ->). exists ((a, b) :: pairs). reflexivity.
Qed.
Lemma paired_flat pairs : paired (flat pairs) = inputs_of pairs.
Proof. induction pairs as [|[a b] pairs IH]; [done|]. change (paired (flat ((a, b) :: pairs))) with (vobj [("runId", VStr a); ("expectedWorkflow", VStr b)]%string :: paired (flat pairs)). by rewrite IH. Qed.
Lemma verify_runs_ok o repo commit base token' fetch pairs w runs w' :
  runs_repository o = VStr repo -> runs_commit o = VStr commit -> base_of (runs_apiBaseUrl o) = VStr base -> base <> [] ->
  runs_token o = VStr token' -> token' <> [] -> fetch_of global_fetch (runs_fetchImpl o) = Callable fetch -> named repo -> matches COMMIT commit ->
  verify_runs global_fetch o (inputs_of pairs) w = (Ok runs, w') <-> Verified repo commit base token' fetch pairs w runs w'.
Proof.
  intros Hr Hc Hb Hbn Ht Htn Hf Hnm Hcm. revert w runs; induction pairs as [|[id workflow] pairs IH]; intros w runs; cbn [inputs_of map verify_runs].
  { split; [by intros [= <- <-]; constructor|by inversion 1]. }
  change (is_record _) with true. cbn [negb]. rewrite act_bind_ok. split.
  - intros (run & w1 & (repo' & commit' & base' & t & f & workflow' & [Hr' _] & [Hc' _] & [Hb' _] & [Ht' _] & Hf' & Hw' & H)%fetch_ok & Hrest).
    apply act_bind_ok in Hrest as (rest & w2 & Hv & E). injection E as <- <-.
    cbn [options_of repository expectedCommit token apiBaseUrl fetchImpl] in Hr', Hc', Hb', Ht', Hf'. change (VStr workflow = VStr workflow') in Hw'.
    assert (repo' = repo /\ commit' = commit /\ base' = base /\ t = token' /\ f = fetch /\ workflow' = workflow)
      as (-> & -> & -> & -> & -> & ->) by (split_and!; congruence). apply (verified_run _ _ _ _ _ _ _ _ _ _ w1); [exact H|by apply IH].
  - inversion 1 as [|? ? ? ? run w1 rest ? Hfe Hv]; subst. exists run, w1. split.
    + apply fetch_ok. exists repo, commit, base, token', fetch, workflow. by split_and!.
    + apply act_bind_ok. exists rest, w'. split; [by apply IH|done].
Qed.
Lemma verified_length repo commit base token' fetch pairs w runs w' : Verified repo commit base token' fetch pairs w runs w' -> length runs = length pairs.
Proof. induction 1; cbn; congruence. Qed.

Lemma verify_all_ok o pairs w runs w' : pairs <> [] ->
  verify_runs global_fetch o (inputs_of pairs) w = (Ok runs, w') <-> exists repo commit base token' fetch,
    (runs_repository o = VStr repo /\ named repo) /\ (runs_commit o = VStr commit /\ matches COMMIT commit) /\
    (base_of (runs_apiBaseUrl o) = VStr base /\ base <> []) /\ (runs_token o = VStr token' /\ token' <> []) /\
    fetch_of global_fetch (runs_fetchImpl o) = Callable fetch /\ Verified repo commit base token' fetch pairs w runs w'.
Proof.
  intros Hp. split.
  - intros H. destruct pairs as [|[id workflow] pairs]; [done|]. pose proof H as Hfirst. cbn [inputs_of map verify_runs] in Hfirst.
    change (is_record _) with true in Hfirst. cbn [negb] in Hfirst.
    apply act_bind_ok in Hfirst as (run & w1 & (repo & commit & base & t & f & _ & [Hr Hnm] & [Hc Hcm] & [Hb Hbn] & [Ht Htn] & Hf & _)%fetch_ok & _).
    exists repo, commit, base, t, f. split_and!; try done. by apply (verify_runs_ok o).
  - intros (repo & commit & base & t & f & [Hr Hnm] & [Hc Hcm] & [Hb Hbn] & [Ht Htn] & Hf & Hv). by eapply verify_runs_ok.
Qed.
Lemma named_nonempty s : named s -> s <> [].
Proof. by intros ([|? ?] & name & [Hne _] & _ & ->). Qed.
Lemma flat_inj p q : flat p = flat q -> p = q.
Proof.
  revert q; induction p as [|[a b] p IH]; intros [|[c d] q]; try done.
  change (a :: b :: flat p = c :: d :: flat q -> (a, b) :: p = (c, d) :: q). intros [= -> -> H]. by rewrite (IH q H).
Qed.
Lemma iterated_varr l : iterated (map Some l) = l.
Proof. unfold iterated. induction l as [|v l IH]; [done|]. cbn. by f_equal. Qed.
Lemma verify_array o l : runs o = varr l -> l <> [] -> verifyGitHubRunProvenance global_fetch (Some o) = verify_runs global_fetch o l.
Proof.
  intros Ho Hl. unfold verifyGitHubRunProvenance. rewrite Ho. destruct l as [|v l]; [done|]. unfold varr. cbn [map].
  change (Some v :: map Some l) with (map Some (v :: l)). by rewrite iterated_varr.
Qed.
(** Either the command line is wrong, and nothing is asked, or the runs are verified. *)
Lemma main_shape env argv w :
  (exists repo commit pairs, argv = repo :: commit :: flat pairs /\ repo <> [] /\ commit <> [] /\ pairs <> [] /\
     provenance_main global_fetch env argv w = match verify_runs global_fetch (main_options env repo commit (inputs_of pairs)) (inputs_of pairs) w with
       | (Ok verified, w') => (js "verified GitHub workflow provenance for " ++ dec_nat (length verified) ++ js " run(s)", 0, w')
       | (Throw message, w') => (js "GitHub workflow provenance verification failed: " ++ message, 1, w')
       end) \/
  ((forall repo commit pairs, argv = repo :: commit :: flat pairs -> repo <> [] -> commit <> [] -> pairs <> [] -> False) /\
     provenance_main global_fetch env argv w = (PROVENANCE_USAGE, 64, w)).
Proof.
  destruct argv as [|[|r repo] [|[|c commit] [|a arguments]]]; try (right; split; [|done]; intros ? ? [|[? ?] ?]; cbn; naive_solver).
  unfold provenance_main. destruct (Nat.even (length (a :: arguments))) eqn:E; cbn [negb].
  - apply even_flat in E as (pairs & E). rewrite E. left. exists (r :: repo), (c :: commit), pairs. split_and!; try done; [by intros ->|].
    rewrite paired_flat. rewrite (verify_array _ (inputs_of pairs)); [done..|by destruct pairs].
  - right. split; [|done]. intros ? ? pairs [= _ _ Hp] _ _ _. apply not_true_iff_false in E. apply E, even_flat. by exists pairs.
Qed.

(** C30. The provenance command succeeds exactly when the runs it was given check out, one
    after the other: with [GITHUB_TOKEN] and [fetch] at hand, the repository and the commit
    well formed and an even, non-empty list of run IDs and workflows, it asks the API at
    [GITHUB_API_URL] (api.github.com by default) for every run under the repository's own
    name, with the token, and each answer is the completed and successful run of that ID,
    repository, commit and workflow.  It exits with 0 in no other case, and with 64 without
    having asked anything. *)
Theorem provenance_main_verifies env argv w message code w' :
  provenance_main global_fetch env argv w = (message, code, w') ->
  (code = 0 <-> exists repo commit pairs base token' fetch runs,
     argv = repo :: commit :: flat pairs /\ pairs <> [] /\ named repo /\ matches COMMIT commit /\
     (base = default (js "https://api.github.com") (GITHUB_API_URL env) /\ base <> []) /\
     (GITHUB_TOKEN env = Some token' /\ token' <> []) /\ global_fetch = Callable fetch /\
     Verified repo commit base token' fetch pairs w runs w' /\
     message = js "verified GitHub workflow provenance for " ++ dec_nat (length pairs) ++ js " run(s)") /\
  (code = 64 -> w' = w).
Proof.
  destruct (main_shape env argv w) as [(repo & commit & pairs & -> & Hr & Hc & Hp & ->)|[Hno ->]].
  2: { intros [= _ <- <-]. split; [|done]. split; [done|].
    intros (repo & commit & pairs & base & t & f & runs & -> & Hp & Hnm & Hcm & _). exfalso. eapply Hno; [done| | |done].
    - by apply named_nonempty.
    - by apply (matches_nonempty COMMIT). }
  destruct (verify_runs global_fetch _ (inputs_of pairs) w) as [[runs|e] w1] eqn:E; intros [= <- <- <-]; (split; [|done]).
  - split; [intros _|done]. apply verify_all_ok in E as (repo' & commit' & base & t & f & [[= <-] Hnm] & [[= <-] Hcm] & [Hb Hbn] & [Ht Htn] & Hf & Hv); [|done].
    cbn in Hb, Ht, Hf. exists repo, commit, pairs, base, t, f, runs. split_and!; try done.
    + destruct (GITHUB_API_URL env) as [u|]; by injection Hb as <-.
    + destruct (GITHUB_TOKEN env) as [u|]; [by injection Ht as <-|done].
    + by rewrite (verified_length _ _ _ _ _ _ _ _ _ Hv).
  - split; [done|]. intros (repo' & commit' & pairs' & base & t & f & runs & [= <- <- Hpairs%flat_inj] & _ & Hnm & Hcm & [Hb Hbn] & [Ht Htn] & Hf & Hv & _).
    subst pairs'. exfalso. assert (Hok : verify_runs global_fetch (main_options env repo commit (inputs_of pairs)) (inputs_of pairs) w = (Ok runs, w1)); [|congruence].
    apply verify_all_ok; [done|]. exists repo, commit, base, t, f. cbn. rewrite Ht, Hf. split_and!; try done. rewrite Hb. by destruct (GITHUB_API_URL env).
Qed.
End verified.

(** ** An API that knows two runs *)

Definition toy_host : Host := DeviceClaims.plain_host VNull.
Definition toy_urls : Urls := {|
  URL := jsstr; new_URL := fun text => Ok text; new_URL_in := fun path base => Ok (base ++ path);
  protocol := fun url => if startsWith url (js "https:") then js "https:" else js "other:" |}.
Definition toy_commit : jsstr := repeat 97 40.
Definition toy_workflow : jsstr := js ".github/workflows/ci.yml".
Definition toy_run (id : Z) (conclusion : String.string) : val := vobj
  [("id", vnum id); ("repository", vobj [("full_name", vstr "uulab/keypad")]); ("head_sha", VStr toy_commit);
   ("path", VStr (toy_workflow ++ js "@refs/heads/main")); ("status", vstr "completed"); ("conclusion", vstr conclusion)]%string.
(** The world is the list of the URLs that were asked. *)
Definition toy_fetch (conclusion : String.string) : @Fetch toy_urls (list jsstr) := fun request w =>
  let id := if str_eqb (url request) (js "https://api.github.com/repos/uulab/keypad/actions/runs/11") then 11 else 12 in
  (Ok (Some {| ok := true; status := vnum 200; json := fun w => (Ok (toy_run id (if id =? 11 then conclusion else "success"%string)), w) |}),
   w ++ [url request : jsstr]).
Definition toy_env : Environment := {| GITHUB_TOKEN := Some (js "token"); GITHUB_API_URL := None |}.
Definition toy_pairs : list (jsstr * jsstr) := [(js "11", toy_workflow); (js "12", toy_workflow)].
Definition toy_provenance (conclusion : String.string) : jsstr * Z * list jsstr :=
  @provenance_main toy_host toy_urls (list jsstr) (Callable (toy_fetch conclusion)) toy_env (js "uulab/keypad" :: toy_commit :: flat toy_pairs) [].
Example provenance_run : toy_provenance "success"%string =
  (js "verified GitHub workflow provenance for 2 run(s)", 0,
   [js "https://api.github.com/repos/uulab/keypad/actions/runs/11"; js "https://api.github.com/repos/uulab/keypad/actions/runs/12"]).
Proof. vm_compute. reflexivity. Qed.
(** The first run failed: the second is not asked for. *)
Example provenance_failed : toy_provenance "failure"%string =
  (js "GitHub workflow provenance verification failed: GitHub workflow run must be completed with a success conclusion", 1,
   [js "https://api.github.com/repos/uulab/keypad/actions/runs/11"]).
Proof. vm_compute. reflexivity. Qed.
(** Dots pass for a name, and nothing encodes them: the request leaves [repos/]. *)
Example dots_are_a_name : @buildRunUrl toy_urls (vstr "https://api.github.com") (vstr "../..") (vstr "11") =
  Ok (js "https://api.github.com/repos/../../actions/runs/11").
Proof. vm_compute. reflexivity. Qed.
Lemma provenance_main_verifies_witness : exists runs,
  @Verified toy_urls (list jsstr) (js "uulab/keypad") toy_commit (js "https://api.github.com") (js "token")
    (toy_fetch "success"%string) toy_pairs [] runs (toy_provenance "success"%string).2.
Proof.
  pose proof provenance_run as Hc. unfold toy_provenance in *.
  destruct (@provenance_main toy_host _ _ _ toy_env _ []) as [[message code] w'] eqn:E. injection Hc as -> -> Hw.
  destruct (proj1 (proj1 (@provenance_main_verifies toy_host toy_urls _ _ _ _ _ _ _ _ E)) eq_refl)
    as (repo & commit & pairs & base & t & f & runs & Hargv & _ & _ & _ & [-> _] & [Ht _] & Hf & Hv & _).
  apply (inj2 cons) in Hargv as [<- Hargv]. apply (inj2 cons) in Hargv as [<- <-%flat_inj].
  injection Ht as <-. injection Hf as <-. exists runs. exact Hv.
Defined.
