(* ===== verification/ReleaseArchive.v ===== *)
(** * scripts/check-release-archive.mjs

    What the signed release archive must list.  The two listings are the output of the
    external tar, a parameter; everything computed from them is here, with the proof that
    the check accepts exactly the complete archives of one version. *)

From S2P Require Import Prelude JsNumber Regex JsValue JsText ReleaseEvidence.
From S2P Require Import PathProps.
Open Scope js_scope.

Definition NPM_PACKAGES : list jsstr := map js
  ["secure-keypad-contracts"; "secure-keypad-react-native"; "secure-keypad-web"; "secure-keypad-server-node"]%string.
Definition RUST_CRATES : list jsstr := map js
  ["secure-auth"; "secure-auth-axum"; "secure-auth-actix"; "secure-auth-http"; "secure-auth-server"; "secure-core";
   "secure-ffi"; "secure-webauthn-example"]%string.
Definition REQUIRED_SOURCE_ENTRIES : list jsstr := map js
  ["source/release-candidate-metadata.json"; "source/secure-keypad.sbom.spdx.json";
   "source/secure-keypad-android-ffi.sha256"; "source/secure-keypad-android-ffi.commit";
   "source/secure-keypad-native-android.aar.sha256"; "source/native-artifacts/android/arm64-v8a/libsecure_ffi.a";
   "source/native-artifacts/android/x86_64/libsecure_ffi.a";
   "source/native-artifacts/android/secure-keypad-native.aar"; "source/packages/flutter/pubspec.yaml";
   "source/packages/flutter/ios/secure_ffi.xcframework/Info.plist"; "source/packages/flutter/ios/libsecure_ffi.a";
   "source/packages/flutter/android/secure_ffi/arm64-v8a/libsecure_ffi.a";
   "source/packages/flutter/android/secure_ffi/x86_64/libsecure_ffi.a"]%string.
Definition npm_archive (version name : jsstr) : jsstr := js "packages/" ++ name ++ js "-" ++ version ++ js ".tgz".
Definition crate_archive (version name : jsstr) : jsstr := js "packages/" ++ name ++ js "-" ++ version ++ js ".crate".
Definition requiredPackageEntries (version : jsstr) : list jsstr :=
  map (npm_archive version) NPM_PACKAGES ++ map (crate_archive version) RUST_CRATES.

(** [value.replace(/^\.\//, "")] *)
Definition drop_dot (value : jsstr) : jsstr := if startsWith value (js "./") then drop 2 value else value.
(** [value.replace(/\/$/, "")] *)
Definition drop_slash (value : jsstr) : jsstr :=
  match rev value with c :: r => if c =? slash then rev r else value | [] => value end.
Definition normalizeEntry (value : val) : jsstr := match value with VStr s => drop_slash (drop_dot s) | _ => [] end.

(** ** The version an entry names

    [/^packages\/.+-(<version>)\.(?:tgz|crate)$/]: the dot-star is greedy, so the version
    starts after the last hyphen that a whole version follows. *)

Definition is_dot_unit (c : Z) : bool := negb ((c =? 10) || (c =? 13) || (c =? 8232) || (c =? 8233)).
Definition strip_suffix (suffix s : jsstr) : option jsstr :=
  if startsWith (rev s) (rev suffix) then Some (take (length s - length suffix) s) else None.
Definition versioned (post : jsstr) : option jsstr :=
  let ending suffix := match strip_suffix suffix post with
                       | Some v => if re_match VERSION v then Some v else None
                       | None => None
                       end in
  match ending (js ".tgz") with Some v => Some v | None => ending (js ".crate") end.
Fixpoint last_version (body : jsstr) : option jsstr :=
  match body with
  | [] => None
  | c :: rest =>
      match (if is_dot_unit c then last_version rest else None) with
      | Some v => Some v
      | None => if c =? 45 then versioned rest else None
      end
  end.
Definition package_version (entry : jsstr) : option jsstr :=
  if startsWith entry (js "packages/") then
    match drop 9 entry with
    | c :: rest => if is_dot_unit c then last_version rest else None
    | [] => None
    end
  else None.

(** ** The check *)

Definition check_entry (st : list jsstr * list jsstr) (rawEntry : val) : list jsstr * list jsstr :=
  let '(findings, normalized) := st in
  let entry := normalizeEntry rawEntry in
  match entry with
  | [] => st
  | _ =>
      let findings := push_if (set_has entry normalized) (entry ++ js ": archive entry must be unique") findings in
      let normalized := set_add entry normalized in
      if startsWith entry sep || str_in (js "..") (split slash entry)
      then (findings ++ [entry ++ js ": archive path must be relative and non-parent"], normalized) else
      let topLevel := hd [] (split slash entry) in
      (push_if (negb (str_eqb topLevel (js "source")) && negb (str_eqb topLevel (js "packages")))
         (entry ++ js ": archive entry is outside source/ or packages/") findings, normalized)
  end.
Definition check_required (normalized : list jsstr) (findings : list jsstr) (requiredEntry : jsstr) : list jsstr :=
  push_if (negb (set_has requiredEntry normalized)) (requiredEntry ++ js ": signed release archive entry is missing") findings.
Definition add_version (versions : list jsstr) (entry : jsstr) : list jsstr :=
  match package_version entry with
  | Some v => if re_match VERSION v then set_add v versions else versions
  | None => versions
  end.
Definition validateReleaseArchiveEntries (archive_entries : val) : list jsstr :=
  match archive_entries with
  | VArr ((_ :: _) as slots) =>
      let '(findings, normalized) := foldl check_entry ([], []) (iterated slots) in
      let findings := foldl (check_required normalized) findings REQUIRED_SOURCE_ENTRIES in
      let packageEntries := filter (fun entry => startsWith entry (js "packages/") = true) normalized in
      let versions := foldl add_version [] packageEntries in
      let findings := push_if (negb (length versions =? 1)%nat)
        (js "signed release archives must use the same package version") findings in
      unique match versions with
             | version :: _ => foldl (check_required normalized) findings (requiredPackageEntries version)
             | [] => findings ++ [js "signed release archive package version could not be determined"]
             end
  | _ => [js "release archive must contain entries"]
  end.

Section archive.
(** The output of [tar <flags> <archivePath>]. *)
Context (tar : jsstr -> jsstr -> result jsstr jsstr).

Definition check_types (listingTypes : list Z) : list jsstr :=
  let findings := push_if (existsb (fun t => t =? 108) listingTypes)
    (js "signed release archive must not contain symbolic links") [] in
  push_if (existsb (fun t => negb (t =? 45) && negb (t =? 100)) listingTypes)
    (js "signed release archive must contain only regular files and directories") findings.
Definition listing_types (verboseListing : jsstr) : list Z := flat_map (take 1) (nonempty (split 10 verboseListing)).
Definition archive_names (listing : jsstr) : list jsstr :=
  nonempty (map (fun line => normalizeEntry (VStr line)) (split 10 listing)).
Definition checkReleaseArchive (archivePath : val) : list jsstr :=
  match archivePath with
  | VStr ((_ :: _) as p) =>
      match (verboseListing ← tar (js "-tvzf") p; listing ← tar (js "-tzf") p; Ok (verboseListing, listing)) with
      | Ok (verboseListing, listing) =>
          unique (check_types (listing_types verboseListing) ++
                  validateReleaseArchiveEntries (varr (map VStr (archive_names listing))))
      | Throw message => [js "release archive cannot be inspected: " ++ message]
      end
  | _ => [js "release archive path is required"]
  end.
(** The lines printed and the exit code. *)
Definition archive_main (argv : list jsstr) : list jsstr * Z :=
  match checkReleaseArchive (match argv with p :: _ => VStr p | [] => VUndef end) with
  | [] => ([js "release archive contract passed: " ++ match argv with p :: _ => p | [] => js "undefined" end], 0)
  | findings => (map (fun finding => js "release-archive: " ++ finding) findings, 1)
  end.
End archive.

(** ** What the check accepts

    The greedy search for a version against its declarative reading, the names of a
    complete archive ([Archive_wf]) and the theorem that the check decides it. *)

(** ** Versions *)

Lemma NoDup_one (v : jsstr) l : NoDup l -> l = [v] <-> v ∈ l /\ forall w, w ∈ l -> w = v.
Proof.
  intros Hd. split.
  - intros ->. split; [by apply list_elem_of_singleton|]. by intros w ->%list_elem_of_singleton.
  - intros [Hv Hall]. destruct l as [|a [|b l]]; [by apply not_elem_of_nil in Hv| |].
    + f_equal. apply Hall. left.
    + rewrite NoDup_cons in Hd. destruct Hd as [Ha _]. destruct Ha. rewrite (Hall a), (Hall b) by set_solver. left.
Qed.

Definition one_line (s : jsstr) : Prop := Forall (fun c => is_dot_unit c = true) s.
Definition package_suffix (s : jsstr) : Prop := s = js ".tgz" \/ s = js ".crate".

Lemma strip_suffix_spec suffix s v : strip_suffix suffix s = Some v <-> s = v ++ suffix.
Proof.
  unfold strip_suffix. destruct (startsWith (rev s) (rev suffix)) eqn:E.
  - apply startsWith_spec in E as [t Ht]. assert (Hs : s = rev t ++ suffix).
    { rewrite <- (rev_involutive s), Ht, rev_app_distr, rev_involutive. done. }
    subst s. rewrite length_app, Nat.add_sub, take_app_length. split; [by intros [= ->]|]. intros H. f_equal. by eapply app_inv_tail.
  - split; [done|]. intros ->. rewrite rev_app_distr in E. cut (false = true); [done|]. rewrite <- E. apply startsWith_spec. eauto.
Qed.
Lemma suffixes_apart v w : v ++ js ".tgz" = w ++ js ".crate" -> False.
Proof. intros H. apply (f_equal (@rev Z)) in H. rewrite !rev_app_distr in H. by vm_compute in H. Qed.
Lemma versioned_spec post v :
  versioned post = Some v <-> matches VERSION v /\ exists suffix, package_suffix suffix /\ post = v ++ suffix.
Proof.
  unfold versioned, package_suffix.
  assert (Hend : forall suffix w, match strip_suffix suffix post with Some v => if re_match VERSION v then Some v else None | None => None end = Some w
    <-> matches VERSION w /\ post = w ++ suffix).
  { intros suffix w. destruct (strip_suffix suffix post) as [u|] eqn:E.
    - apply strip_suffix_spec in E. rewrite <- re_match_correct. destruct (re_match VERSION u) eqn:Em.
      + split; [by intros [= ->]|]. intros [_ H]. rewrite E in H. apply app_inv_tail in H. by subst.
      + split; [done|]. intros [Hm H]. rewrite E in H. apply app_inv_tail in H. congruence.
    - split; [done|]. intros [_ H]. apply strip_suffix_spec in H. congruence. }
  pose proof (Hend (js ".tgz")) as H1. pose proof (Hend (js ".crate")) as H2.
  destruct (match strip_suffix (js ".tgz") post with Some v => if re_match VERSION v then Some v else None | None => None end) as [u|] eqn:Eu.
  - specialize (proj1 (H1 u) eq_refl) as [Hm Hp]. split.
    + intros [= <-]. eauto.
    + intros (_ & s & [-> | ->] & H); rewrite Hp in H; [apply app_inv_tail in H; by subst|by apply suffixes_apart in H].
  - rewrite H2. split; [intros []; eauto|]. intros (Hm & s & [-> | ->] & H); [|done]. by assert (None = Some v) by by apply H1.
Qed.

(** A hyphen of one line that a version and a suffix follow. *)
Definition candidate (body pre v : jsstr) : Prop :=
  exists post, body = pre ++ 45 :: post /\ one_line pre /\ versioned post = Some v.
Lemma candidate_nil pre v : ~ candidate [] pre v.
Proof. by intros (post & H & _); destruct pre. Qed.
Lemma candidate_cons c body pre v :
  candidate (c :: body) pre v <->
  (pre = [] /\ c = 45 /\ versioned body = Some v) \/
  (exists pre', pre = c :: pre' /\ is_dot_unit c = true /\ candidate body pre' v).
Proof.
  unfold candidate, one_line. split.
  - intros (post & H & Hl & Hv). destruct pre as [|d pre]; cbn in H; injection H as -> ->; [by left|right].
    apply Forall_cons in Hl as [Hd Hl]. exists pre. split; [done|]. split; [done|]. by exists post.
  - intros [(-> & -> & Hv)|(pre' & -> & Hc & post & -> & Hl & Hv)]; [by exists body|]. exists post. split_and!; [done|by constructor|done].
Qed.
Lemma last_version_none body : last_version body = None -> forall pre v, ~ candidate body pre v.
Proof.
  induction body as [|c body IH]; cbn [last_version]; [intros; apply candidate_nil|]. intros H pre v.
  rewrite candidate_cons. intros [(_ & -> & Hv)|(pre' & _ & Hc & Hcand)].
  - destruct (if _ : bool then _ else _); [done|]. cbn in H. congruence.
  - rewrite Hc in H. destruct (last_version body); [done|]. by eapply IH.
Qed.
Lemma last_version_some body v : last_version body = Some v ->
  exists pre, candidate body pre v /\ forall pre' v', candidate body pre' v' -> (length pre' <= length pre)%nat.
Proof.
  revert v; induction body as [|c body IH]; intros v; cbn [last_version]; [done|]. setoid_rewrite candidate_cons.
  destruct (if is_dot_unit c then last_version body else None) as [w|] eqn:E.
  - intros [= <-]. destruct (is_dot_unit c) eqn:Ec; [|done]. destruct (IH _ E) as (pre & Hp & Hmax). exists (c :: pre).
    split; [by right; exists pre|]. intros pre' v' [(-> & _)|(p & -> & _ & Hp')]; cbn [length]; [lia|]. apply Hmax in Hp'. lia.
  - destruct (Z.eqb_spec c 45) as [->|]; [|done]. intros Hv. exists []. split; [by left|].
    intros pre' v' [(-> & _)|(p & -> & Hc & Hp)]; [done|]. rewrite Hc in E. by apply (last_version_none _ E) in Hp.
Qed.
Lemma last_version_spec body v :
  last_version body = Some v <->
  exists pre, candidate body pre v /\ forall pre' v', candidate body pre' v' -> (length pre' <= length pre)%nat.
Proof.
  split; [apply last_version_some|]. intros (pre & Hc & Hmax). destruct (last_version body) as [w|] eqn:E.
  - apply last_version_some in E as (pre2 & Hc2 & Hmax2). assert (Hlen : length pre = length pre2) by (apply Nat.le_antisymm; eauto).
    destruct Hc as (post & -> & _ & Hv), Hc2 as (post2 & H & _ & Hw). apply app_inj_1 in H as [_ [= ->]]; [|done]. congruence.
  - by apply (last_version_none _ E) in Hc.
Qed.

(** [entry] is the archive of a package at version [v]: the name is the longest that
    leaves a whole version. *)
Definition Names_version (entry v : jsstr) : Prop :=
  exists name suffix, entry = js "packages/" ++ name ++ js "-" ++ v ++ suffix /\ name <> [] /\ one_line name /\
    package_suffix suffix /\ matches VERSION v /\
    forall name' v' suffix', entry = js "packages/" ++ name' ++ js "-" ++ v' ++ suffix' -> one_line name' -> package_suffix suffix' ->
      matches VERSION v' -> (length name' <= length name)%nat.
Lemma package_version_spec entry v : package_version entry = Some v <-> Names_version entry v.
Proof.
  unfold package_version, Names_version. destruct (startsWith entry (js "packages/")) eqn:E.
  2: { split; [done|]. intros (name & s & -> & _). cut (false = true); [done|]. rewrite <- E. apply startsWith_spec. eauto. }
  apply startsWith_spec in E as [body ->]. change (drop 9 (js "packages/" ++ body)) with body.
  assert (Hcand : forall c rest pre w, is_dot_unit c = true -> candidate rest pre w <->
    exists suffix, c :: rest = (c :: pre) ++ js "-" ++ w ++ suffix /\ one_line (c :: pre) /\ package_suffix suffix /\ matches VERSION w).
  { intros c rest pre w Hc. unfold candidate, one_line. setoid_rewrite versioned_spec. split.
    - intros (post & -> & Hl & Hm & s & Hs & ->). exists s. split_and!; try done. by constructor.
    - intros (s & H & [_ Hl]%Forall_cons & Hs & Hm). injection H as ->. exists (w ++ s). split; [done|]. split; [done|]. split; [done|]. by exists s. }
  destruct body as [|c rest]; [by split; [|intros ([|] & ? & [= ] & _)]|].
  destruct (is_dot_unit c) eqn:Ec.
  2: { split; [done|]. intros ([|d name] & s & H & Hn & Hl & _); [done|]. apply app_inv_head in H. injection H as <- _.
       apply Forall_cons in Hl as [? _]. congruence. }
  specialize (fun rest pre w => Hcand c rest pre w Ec) as Hc. clear Hcand. rename Hc into Hcand. rewrite last_version_spec. split.
  - intros (pre & (s & H & Hl & Hs & Hm)%Hcand & Hmax). exists (c :: pre), s. rewrite H. split_and!; try done.
    intros name' v' s' H' Hl' Hs' Hm'. apply app_inv_head in H'. destruct name' as [|d name']; cbn [length]; [lia|].
    assert (d = c) as -> by by rewrite <- H in H'; cbn in H'; injection H'. apply le_n_S, (Hmax _ v'), Hcand.
    exists s'. by rewrite H.
  - intros (name & s & H & Hn & Hl & Hs & Hm & Hmax). apply app_inv_head in H. destruct name as [|d name]; [done|].
    assert (d = c) as -> by by cbn in H; injection H. exists name. split; [apply Hcand; by exists s|].
    intros pre' v' (s' & H' & Hl' & Hs' & Hm')%Hcand. apply le_S_n, (Hmax (c :: pre') v' s'); [by rewrite <- H'|done..].
Qed.

(** ** The names *)

Definition contained (entry : jsstr) : Prop :=
  isAbsolute entry = false /\ (js ".." ∉ split slash entry) /\
  (exists r, split slash entry = js "source" :: r \/ split slash entry = js "packages" :: r).
(** The archive of a release at version [v]. *)
Record Archive_wf (names : list jsstr) (v : jsstr) : Prop := {
  archive_distinct : NoDup names;
  archive_contained : Forall contained names;
  archive_sources : REQUIRED_SOURCE_ENTRIES ⊆ names;
  archive_packages : requiredPackageEntries v ⊆ names;
  archive_named : exists entry, entry ∈ names /\ Names_version entry v;
  archive_version : forall entry w, entry ∈ names -> Names_version entry w -> w = v;
}.
Definition entry_names (l : list val) : list jsstr := nonempty (map normalizeEntry l).

Lemma check_entry_cons findings normalized raw :
  check_entry (findings, normalized) raw =
  match normalizeEntry raw with
  | [] => (findings, normalized)
  | entry => ((check_entry (findings, normalized) raw).1, set_add entry normalized)
  end.
Proof. unfold check_entry. destruct (normalizeEntry raw); [done|]. by destruct (_ || _). Qed.
Lemma split_not_nil s : split slash s <> [].
Proof. destruct s as [|c s]; cbn; [done|]. destruct (c =? slash); [done|]. by destruct (split slash s). Qed.
Lemma check_entry_ok findings normalized raw entry : normalizeEntry raw = entry -> entry <> [] ->
  (check_entry (findings, normalized) raw).1 = [] <-> findings = [] /\ (entry ∉ normalized) /\ contained entry.
Proof.
  intros He Hne. unfold check_entry, contained. rewrite He. destruct entry as [|c s]; [done|]. clear He Hne. set (entry := c :: s).
  assert (Ha : startsWith entry sep = isAbsolute entry) by (subst entry; unfold isAbsolute, sep, slash; change (js "/") with [47]; cbn [startsWith]; destruct s; apply andb_true_r). rewrite Ha.
  destruct (isAbsolute entry); cbn [orb fst].
  { split; [by intros []%app_eq_nil|by intros (_ & _ & ? & _)]. }
  destruct (str_in (js "..") (split slash entry)) eqn:Ep; cbn [fst].
  { apply str_in_elem in Ep. split; [by intros []%app_eq_nil|by intros (_ & _ & _ & [] & _)]. }
  rewrite <- not_true_iff_false, str_in_elem in Ep.
  rewrite !push_if_nil. unfold set_has. rewrite bool_decide_eq_false. pose proof (split_not_nil entry) as Hs.
  destruct (split slash entry) as [|top r] eqn:Et; [done|]. cbn [hd]. rewrite andb_false_iff, !negb_false_iff, !str_eqb_eq. split.
  - intros (Htop & Hin & ->). split_and!; try done. exists r. by destruct Htop as [-> | ->]; [left|right].
  - intros (-> & Hin & _ & _ & r' & [[= -> _]|[= -> _]]); tauto.
Qed.
Lemma check_entries_ok l : forall findings normalized,
  (foldl check_entry (findings, normalized) l).1 = [] <->
  findings = [] /\ Forall contained (entry_names l) /\ unseen normalized (entry_names l).
Proof.
  induction l as [|raw l IH]; intros findings normalized; cbn [foldl].
  - cbn. split; [intros ->; split_and!; [done|constructor|apply unseen_nil]|by intros (-> & _)].
  - rewrite check_entry_cons. unfold entry_names in *. cbn [map]. unfold nonempty in *.
    destruct (normalizeEntry raw) as [|c s] eqn:Ee.
    { rewrite IH. rewrite filter_cons_False by naive_solver. done. }
    rewrite filter_cons_True by done. rewrite <- Ee in *. set (entry := normalizeEntry raw) in *.
    rewrite IH, (check_entry_ok _ _ _ entry), Forall_cons by by try rewrite Ee. change (entry :: ?l) with ([entry] ++ l).
    rewrite unseen_app, unseen_single. split.
    + intros ((-> & Hn & Hc) & Hl & Hf). rewrite set_add_new in Hf by done. done.
    + intros (-> & [Hc Hl] & Hn & Hf). by rewrite set_add_new.
Qed.
Lemma check_entries_names l st x : x ∈ (foldl check_entry st l).2 <-> x ∈ st.2 \/ x ∈ entry_names l.
Proof.
  revert st; induction l as [|raw l IH]; intros [findings normalized]; cbn [foldl].
  { cbn. split; [by left|]. by intros [?|?%not_elem_of_nil]. }
  rewrite check_entry_cons, IH. unfold entry_names, nonempty. cbn [map].
  destruct (normalizeEntry raw); [by rewrite filter_cons_False by naive_solver|]. rewrite filter_cons_True by done.
  cbn [snd]. rewrite elem_of_set_add, elem_of_cons. tauto.
Qed.
Lemma check_required_nil normalized l findings :
  foldl (check_required normalized) findings l = [] <-> findings = [] /\ l ⊆ normalized.
Proof.
  revert findings; induction l as [|x l IH]; intros findings; cbn [foldl].
  { split; [intros ->; split; [done|set_solver]|by intros []]. }
  rewrite IH. unfold check_required. rewrite push_if_nil, negb_false_iff. unfold set_has. rewrite bool_decide_eq_true. set_solver.
Qed.
Lemma add_versions_elem l versions v :
  v ∈ foldl add_version versions l <-> v ∈ versions \/ exists entry, entry ∈ l /\ Names_version entry v.
Proof.
  revert versions; induction l as [|e l IH]; intros versions; cbn [foldl].
  { split; [by left|]. by intros [?|(? & ?%not_elem_of_nil & _)]. }
  rewrite IH. setoid_rewrite elem_of_cons. unfold add_version. destruct (package_version e) as [w|] eqn:Ew.
  - pose proof Ew as Hw. apply package_version_spec in Ew as Hn. destruct Hn as (_ & _ & _ & _ & _ & _ & Hm%re_match_correct & _). rewrite Hm.
    rewrite elem_of_set_add. split.
    + intros [[->|]|(? & ? & ?)]; [right; exists e; split; [by left|by apply package_version_spec]|by left|right; eauto].
    + intros [|(x & [->|] & Hx)]; [by left; right| |right; eauto]. apply package_version_spec in Hx. left; left. congruence.
  - split; [naive_solver|]. intros [|(x & [->|] & Hx)]; [by left| |right; eauto]. apply package_version_spec in Hx. congruence.
Qed.
Lemma add_versions_NoDup l : NoDup (foldl add_version [] l).
Proof.
  apply (foldl_inv NoDup); [|constructor]. intros vs e _ H. unfold add_version. destruct (package_version e) as [v|]; [|done].
  destruct (re_match VERSION v); [by apply NoDup_set_add|done].
Qed.
(** The versions found among [names]: exactly one when [v] is the only version named. *)
Lemma versions_one names v :
  foldl add_version [] (filter (fun entry => startsWith entry (js "packages/") = true) names) = [v] <->
  (exists entry, entry ∈ names /\ Names_version entry v) /\ forall entry w, entry ∈ names -> Names_version entry w -> w = v.
Proof.
  rewrite NoDup_one by apply add_versions_NoDup. setoid_rewrite add_versions_elem. setoid_rewrite list_elem_of_filter.
  assert (Hp : forall e w, Names_version e w -> startsWith e (js "packages/") = true).
  { intros e w (name & s & -> & _). apply startsWith_spec. eauto. }
  split.
  - intros [[?%not_elem_of_nil|(e & [_ He] & Hv)] Hall]; [done|]. split; [eauto|]. intros e' w He' Hw. apply Hall. right. eauto.
  - intros [(e & He & Hv) Hall]. split; [right; eauto|]. intros w [?%not_elem_of_nil|(e' & [_ He'] & Hw)]; [done|eauto].
Qed.
Lemma validateReleaseArchiveEntries_nil slots :
  validateReleaseArchiveEntries (VArr slots) = [] <-> exists v, Archive_wf (entry_names (iterated slots)) v.
Proof.
  unfold validateReleaseArchiveEntries. destruct slots as [|slot slots].
  { split; [done|]. by intros (v & [_ _ _ _ (e & ?%not_elem_of_nil & _) _]). }
  set (l := iterated _). pose proof (check_entries_ok l [] []) as Hok. pose proof (check_entries_names l ([], [])) as Hn.
  destruct (foldl check_entry ([], []) l) as [findings normalized]. cbn [fst snd] in *. rewrite unseen_empty in Hok.
  assert (Hin : forall x, x ∈ normalized <-> x ∈ entry_names l).
  { intros x. rewrite Hn. split; [by intros [?%not_elem_of_nil|]|by right]. }
  assert (Hsub : forall k, k ⊆ normalized <-> k ⊆ entry_names l).
  { intros k. split; intros H x Hx; apply Hin, H, Hx. }
  rewrite unique_nil. set (versions := foldl add_version [] _). pose proof (versions_one normalized) as Hone. fold versions in Hone.
  transitivity (exists v, versions = [v] /\ findings = [] /\ REQUIRED_SOURCE_ENTRIES ⊆ normalized /\ requiredPackageEntries v ⊆ normalized).
  - destruct versions as [|v [|w versions]]; cbn [length Nat.eqb negb push_if].
    + split; [by intros []%app_eq_nil|by intros (? & [= ] & _)].
    + rewrite !check_required_nil. split; [intros [[] ?]; eauto|]. by intros (? & [= <-] & ? & ? & ?).
    + rewrite check_required_nil. split; [by intros [[]%app_eq_nil _]|by intros (? & [= ] & _)].
  - apply exist_proper. intros v. rewrite Hone, Hok, !Hsub. setoid_rewrite Hin. split.
    + intros ([? ?] & (_ & ? & ?) & ? & ?). by constructor.
    + intros []. by split_and!.
Qed.

(** ** The check *)

(** A line of the verbose listing: of a regular file or a directory. *)
Definition file_line (line : jsstr) : Prop := line = [] \/ exists r, line = 45 :: r \/ line = 100 :: r.
Lemma check_types_nil verbose : check_types (listing_types verbose) = [] <-> Forall file_line (split 10 verbose).
Proof.
  unfold check_types, listing_types. rewrite !push_if_nil, !existsb_false_Forall. unfold nonempty. induction (split 10 verbose) as [|line l IH].
  { cbn. split; [constructor|]. intros _. by split_and!. }
  unfold file_line in *. rewrite Forall_cons. destruct line as [|c r].
  { rewrite filter_cons_False by naive_solver. rewrite IH. split; [by split; [left|]|by intros [_ ?]]. }
  rewrite filter_cons_True by done. cbn [flat_map take app]. rewrite !Forall_cons, <- IH, andb_false_iff, !negb_false_iff, Z.eqb_neq, !Z.eqb_eq.
  split.
  - intros ([Hc ?] & [? ?] & _). split; [right; exists r|done]. by destruct Hc as [-> | ->]; [left|right].
  - intros [[?|(r' & [[= -> _]|[= -> _]])] (? & ? & _)]; [done| |]; split_and!; try done; eauto.
Qed.
Lemma archive_names_id listing :
  entry_names (iterated (map Some (map VStr (archive_names listing)))) =
  nonempty (map (fun n => normalizeEntry (VStr n)) (archive_names listing)).
Proof. unfold entry_names, iterated. by rewrite !map_map. Qed.

Section check.
Context (tar : jsstr -> jsstr -> result jsstr jsstr).

(** C20. The archive check accepts exactly the complete archives: tar can list the file,
    every entry is a regular file or a directory, the names are distinct, relative and
    below source/ or packages/, all required source entries are there, and the package
    archives name one version, for which every package archive is there. *)
Theorem checkReleaseArchive_correct p :
  checkReleaseArchive tar (VStr p) = [] <->
  p <> [] /\ exists verbose listing, tar (js "-tvzf") p = Ok verbose /\ tar (js "-tzf") p = Ok listing /\
    Forall file_line (split 10 verbose) /\
    exists v, Archive_wf (nonempty (map (fun n => normalizeEntry (VStr n)) (archive_names listing))) v.
Proof.
  unfold checkReleaseArchive. destruct p as [|c p]; [by split; [|intros []]|]. set (path := c :: p).
  destruct (tar (js "-tvzf") path) as [verbose|]; cbn [mbind result_bind]; [|by split; [|intros (_ & ? & ? & ? & _)]].
  destruct (tar (js "-tzf") path) as [listing|]; cbn [mbind result_bind]; [|by split; [|intros (_ & ? & ? & _ & ? & _)]].
  rewrite unique_nil, app_nil, check_types_nil. unfold varr. rewrite validateReleaseArchiveEntries_nil, archive_names_id. split.
  - intros [? ?]. split; [done|]. by exists verbose, listing.
  - by intros (_ & ? & ? & [= <-] & [= <-] & ? & ?).
Qed.
End check.

(** ** Concrete archives *)

Definition lines_of (l : list jsstr) : jsstr := flat_map (fun line => line ++ [10]) l.
Definition sample_tar (v flags : jsstr) (_ : jsstr) : result jsstr jsstr :=
  let names := js "./source/" :: map (fun n => js "./" ++ n) (REQUIRED_SOURCE_ENTRIES ++ requiredPackageEntries v) in
  Ok (if str_eqb flags (js "-tzf") then lines_of names else lines_of (map (fun n => js "-rw-r--r-- a/b 1 2026-01-01 00:00 " ++ n) names)).
Example complete_archives_pass :
  map (fun v => archive_main (sample_tar (js v)) [js "a.tgz"]) ["0.1.0"; "1.0.0-rc.1"; "2.10.3-beta+build.5"]%string =
  repeat ([js "release archive contract passed: a.tgz"], 0) 3.
Proof. vm_compute. done. Qed.
(** A pre-release of three numbers is a version of the release contract, but the greedy
    pattern reads its tail as the version, so its complete archive is refused. *)
Example numeric_prerelease_refused :
  re_match VERSION (js "1.0.0-0.3.7") = true /\
  package_version (npm_archive (js "1.0.0-0.3.7") (js "secure-keypad-web")) = Some (js "0.3.7") /\
  length (checkReleaseArchive (sample_tar (js "1.0.0-0.3.7")) (vstr "a.tgz")) = 12%nat.
Proof. vm_compute. done. Qed.
