(* ===== verification/ReleaseBundle.v ===== *)
(** * scripts/check-release-bundle.mjs

    The directory that is archived and signed.  Findings are collected by a writer: a
    check that throws ends the script, one that reports goes on.  The file system is only
    read, and tar is an external command; both are the class [BundleHost]. *)

From S2P Require Import Prelude JsNumber Regex JsValue JsText Host Disk ReleaseEvidence ReleaseFragment ReleaseArchive.
From S2P Require PlatformSupport.
Open Scope js_scope.

Class BundleHost := {
  bundle_host : Host;
  existsSync : jsstr -> bool;
  (** [lstatSync]: what the entry is and its size. *)
  lstat : jsstr -> result jsstr (FileKind * Z);
  (** [readdirSync(p, { withFileTypes: true })] *)
  readdir : jsstr -> result jsstr (list Dirent);
  (** The output of [tar -tzf p] and of [tar -xOzf p -- entry]. *)
  tar_list : jsstr -> result jsstr jsstr;
  tar_extract : jsstr -> jsstr -> result jsstr (list Z);
}.
#[export] Existing Instance bundle_host.

(** ** Constants *)

Definition REQUIRED_SOURCE_FILES : list jsstr := map js
  ["source/Cargo.lock"; "source/pnpm-lock.yaml"; "source/CHANGELOG.md"; "source/README.md"; "source/SECURITY.md";
   "source/LICENSE-MIT"; "source/THIRD-PARTY-NOTICES.md"; "source/secure-keypad.sbom.spdx.json";
   "source/secure-keypad-ios-ffi.sha256"; "source/secure-keypad-android-ffi.sha256";
   "source/secure-keypad-android-ffi.commit"; "source/secure-keypad-native-android.aar.sha256";
   "source/native-artifacts/android/arm64-v8a/libsecure_ffi.a"; "source/native-artifacts/android/x86_64/libsecure_ffi.a";
   "source/native-artifacts/android/secure-keypad-native.aar"; "source/release-candidate-metadata.json";
   "source/packages/flutter/pubspec.yaml"; "source/packages/flutter/ios/secure_ffi.xcframework/Info.plist";
   "source/packages/flutter/ios/libsecure_ffi.a"; "source/packages/flutter/android/secure_ffi/arm64-v8a/libsecure_ffi.a";
   "source/packages/flutter/android/secure_ffi/x86_64/libsecure_ffi.a"; "source/docs/SECURITY-SPEC.md";
   "source/docs/THREAT-MODEL.md"; "source/docs/PLATFORM-SECURITY-POLICY.md"; "source/docs/PLATFORM-SUPPORT.json";
   "source/docs/RELEASE-GATES.md"; "source/docs/ROADMAP.md"]%string.
(** [/password|..|rawInput|input(?:Value|Text|Bytes)|credential(?:Value|Bytes)/i] *)
Definition SECRET_KEY (key : jsstr) : bool :=
  re_search (ralts (map rlit_ci (map js
    ["password"; "passphrase"; "secret"; "private"; "plaintext"; "rawInput"; "inputValue"; "inputText"; "inputBytes";
     "credentialValue"; "credentialBytes"]%string))) key.
Definition ANDROID_FFI_CHECKSUM_ENTRIES : list jsstr := map js
  ["native-artifacts/android/arm64-v8a/libsecure_ffi.a"; "native-artifacts/android/x86_64/libsecure_ffi.a"]%string.
Definition ANDROID_NATIVE_AAR_CHECKSUM_MANIFEST : jsstr := js "source/secure-keypad-native-android.aar.sha256".
Definition ANDROID_NATIVE_AAR_CHECKSUM_ENTRIES : list jsstr := [js "native-artifacts/android/secure-keypad-native.aar"].
Record PackageFfi := { abi : jsstr; flutterPath : jsstr; reactNativeArchivePath : jsstr; sourcePath : jsstr }.
Definition ANDROID_PACKAGE_FFI_ENTRIES : list PackageFfi :=
  [{| abi := js "arm64-v8a"; flutterPath := js "source/packages/flutter/android/secure_ffi/arm64-v8a/libsecure_ffi.a";
      reactNativeArchivePath := js "package/android/secure_ffi/arm64-v8a/libsecure_ffi.a";
      sourcePath := js "source/native-artifacts/android/arm64-v8a/libsecure_ffi.a" |};
   {| abi := js "x86_64"; flutterPath := js "source/packages/flutter/android/secure_ffi/x86_64/libsecure_ffi.a";
      reactNativeArchivePath := js "package/android/secure_ffi/x86_64/libsecure_ffi.a";
      sourcePath := js "source/native-artifacts/android/x86_64/libsecure_ffi.a" |}].
Definition IOS_PACKAGE_XCFRAMEWORK_SOURCE : jsstr := js "source/packages/flutter/ios/secure_ffi.xcframework".
Definition IOS_PACKAGE_XCFRAMEWORK_ARCHIVE_PREFIX : jsstr := js "package/secure_ffi.xcframework".
Definition IOS_PACKAGE_LIBRARY_SOURCE : jsstr := js "source/packages/flutter/ios/libsecure_ffi.a".
Definition IOS_PACKAGE_LIBRARY_ARCHIVE : jsstr := js "package/libsecure_ffi.a".
Definition IOS_FFI_CHECKSUM_MANIFEST : jsstr := js "source/secure-keypad-ios-ffi.sha256".
Definition ANDROID_FFI_COMMIT : jsstr := js "source/secure-keypad-android-ffi.commit".
Definition MAX_NATIVE_CHECKSUM_MANIFEST_BYTES : Z := 1 * 1024 * 1024.
Definition MAX_NATIVE_COMMIT_BINDING_BYTES : Z := 64.

(** ** Findings *)

Definition audit (A : Type) : Type := result thrown (A * list jsstr).
#[export] Instance audit_ret : MRet audit := fun A a => Ok (a, []).
#[export] Instance audit_bind : MBind audit := fun A B k m =>
  match m with
  | Ok (a, findings) => match k a with Ok (b, more) => Ok (b, findings ++ more) | Throw e => Throw e end
  | Throw e => Throw e
  end.
Definition note (message : jsstr) : audit unit := Ok (tt, [message]).
Definition note_if (c : bool) (message : jsstr) : audit unit := if c then note message else mret tt.
Definition may_throw {A} (m : result thrown A) : audit A := match m with Ok a => Ok (a, []) | Throw e => Throw e end.
(** A loop with a variable; a loop without. *)
Fixpoint loop {S A} (f : S -> A -> audit S) (st : S) (l : list A) : audit S :=
  match l with [] => mret st | x :: l' => st ← f st x; loop f st l' end.
Definition each {A} (f : A -> audit unit) (l : list A) : audit unit := loop (fun _ => f) tt l.

(** ** Paths and lines *)

(** [path.basename(p)] of a path without a trailing slash *)
Definition basename (p : jsstr) : jsstr := default [] (last (split slash p)).
(** [/^([a-f0-9]{64})  (<rest>+)$/] for a rest of allowed units *)
Definition checksum_line (allowed : Z -> bool) (line : jsstr) : option (jsstr * jsstr) :=
  if re_match SHA256 (take 64 line) && startsWith (drop 64 line) (js "  ") && negb (str_eqb (drop 66 line) [])
     && forallb allowed (drop 66 line)
  then Some (take 64 line, drop 66 line) else None.
Definition not_return (c : Z) : bool := negb ((c =? 13) || (c =? 10)).
(** [/^<heading>(?:\r?\n|$)/m.test(contents)] *)
Fixpoint has_heading (heading contents : jsstr) (at_start : bool) : bool :=
  (at_start && startsWith contents heading &&
     match drop (length heading) contents with [] => true | c :: _ => negb (is_dot_unit c) end)
  || match contents with [] => false | c :: rest => has_heading heading rest (negb (is_dot_unit c)) end.

Section bundle.
Context {bundle : BundleHost} (root : jsstr).

(** ** Reading *)

Definition regularFile (relativePath : jsstr) : audit (option jsstr) :=
  let absolutePath := path_join root relativePath in
  match lstat absolutePath with
  | Throw _ => _ ← note (relativePath ++ js ": required release file is missing"); mret None
  | Ok (SymbolicLink, _) => _ ← note (relativePath ++ js ": symlinks are not allowed in release staging"); mret None
  | Ok (RegularFile, _) => mret (Some absolutePath)
  | Ok _ => _ ← note (relativePath ++ js ": must be a regular file"); mret None
  end.
(** The bytes of a file, no error caught. *)
Definition file_bytes (p : jsstr) : audit (list Z) := may_throw (err (readFileSync p)).
(** A file of at most [bound] bytes as text; errors are reported under [relativePath]. *)
Definition bounded_text (absolutePath relativePath : jsstr) (bound : Z) : audit (option jsstr) :=
  match ('(_, size) ← lstat absolutePath; if bound <? size then Ok None else bytes ← readFileSync absolutePath; Ok (Some bytes)) with
  | Ok None => _ ← note (relativePath ++ js ": must not exceed " ++ dec bound ++ js " bytes"); mret None
  | Ok (Some bytes) => mret (Some (utf8_decode bytes))
  | Throw message => _ ← note (relativePath ++ js ": cannot be read (" ++ message ++ js ")"); mret None
  end.
Definition readBoundedChecksumManifest (absolutePath relativePath : jsstr) : audit (option jsstr) :=
  bounded_text absolutePath relativePath MAX_NATIVE_CHECKSUM_MANIFEST_BYTES.
(** A text file, errors reported. *)
Definition read_text (relativePath : jsstr) : audit (option jsstr) :=
  f ← regularFile relativePath;
  match f with
  | None => mret None
  | Some absolutePath =>
      match readFileSync absolutePath with
      | Ok bytes => mret (Some (utf8_decode bytes))
      | Throw message => _ ← note (relativePath ++ js ": cannot be read (" ++ message ++ js ")"); mret None
      end
  end.
(** [undefined] is [None]: JSON.parse never returns it. *)
Definition readJson (relativePath : jsstr) : audit (option val) :=
  f ← regularFile relativePath;
  match f with
  | None => mret None
  | Some absolutePath =>
      match (bytes ← readFileSync absolutePath; JSON_parse (utf8_decode bytes)) with
      | Ok value => mret (Some value)
      | Throw message => _ ← note (relativePath ++ js ": invalid JSON (" ++ message ++ js ")"); mret None
      end
  end.

(** ** Checksum manifests of the Android libraries

    The two functions are one text with other names and messages. *)

Record ChecksumManifest := {
  manifest_path : jsstr;
  checked_entries : list jsstr;
  count_message : jsstr;
  unexpected_message : jsstr;
  duplicate_message : jsstr;
}.
Definition android_ffi_manifest : ChecksumManifest := {|
  manifest_path := js "source/secure-keypad-android-ffi.sha256"; checked_entries := ANDROID_FFI_CHECKSUM_ENTRIES;
  count_message := js ": must contain exactly one checksum for each supported Android FFI library";
  unexpected_message := js ": unexpected Android FFI checksum path ";
  duplicate_message := js ": duplicate Android FFI checksum path " |}.
Definition android_aar_manifest : ChecksumManifest := {|
  manifest_path := ANDROID_NATIVE_AAR_CHECKSUM_MANIFEST; checked_entries := ANDROID_NATIVE_AAR_CHECKSUM_ENTRIES;
  count_message := js ": must contain exactly one checksum for the standalone Android Native SDK AAR";
  unexpected_message := js ": unexpected checksum path ";
  duplicate_message := js ": duplicate checksum path " |}.
Definition check_digest (m : ChecksumManifest) (expectedHash relativePath : jsstr) : audit unit :=
  let sourceRelativePath := path_join (js "source") relativePath in
  f ← regularFile sourceRelativePath;
  match f with
  | None => mret tt
  | Some absolutePath =>
      bytes ← file_bytes absolutePath;
      note_if (negb (str_eqb (sha256 bytes) expectedHash))
        (manifest_path m ++ js ": checksum does not match " ++ sourceRelativePath)
  end.
Definition check_line (m : ChecksumManifest) (seen : list jsstr) (line : jsstr) : audit (list jsstr) :=
  match checksum_line not_return line with
  | None => _ ← note (manifest_path m ++ js ": contains a malformed checksum line"); mret seen
  | Some (expectedHash, relativePath) =>
      if isAbsolute relativePath || includes relativePath (js "\") || str_in (js "..") (split slash relativePath)
      then _ ← note (manifest_path m ++ js ": checksum path must be relative and non-parent"); mret seen else
      if negb (str_in relativePath (checked_entries m))
      then _ ← note (manifest_path m ++ unexpected_message m ++ relativePath); mret seen else
      if set_has relativePath seen
      then _ ← note (manifest_path m ++ duplicate_message m ++ relativePath); mret seen else
      _ ← check_digest m expectedHash relativePath;
      mret (set_add relativePath seen)
  end.
(** Whether the manifest could be read. *)
Definition check_manifest (m : ChecksumManifest) : audit bool :=
  f ← regularFile (manifest_path m);
  match f with
  | None => mret false
  | Some manifestPath =>
      contents ← readBoundedChecksumManifest manifestPath (manifest_path m);
      match contents with
      | None => mret false
      | Some contents =>
          let lines := nonempty (split_lines contents) in
          _ ← note_if (negb (length lines =? length (checked_entries m))%nat) (manifest_path m ++ count_message m);
          seen ← loop (check_line m) [] lines;
          _ ← each (fun requiredPath => note_if (negb (set_has requiredPath seen))
                (manifest_path m ++ js ": missing checksum for " ++ requiredPath)) (checked_entries m);
          mret true
      end
  end.
(** The file that names the candidate's commit. *)
Definition check_commit_binding (metadata : option val) : audit unit :=
  f ← regularFile ANDROID_FFI_COMMIT;
  match f, metadata with
  | Some commitPath, Some metadata =>
      text ← may_throw (lang (String_ metadata.["commit"]));
      if negb (re_match COMMIT text) then mret tt else
      contents ← bounded_text commitPath ANDROID_FFI_COMMIT MAX_NATIVE_COMMIT_BINDING_BYTES;
      match contents with
      | None => mret tt
      | Some commitContents =>
          commit ← may_throw (lang (to_string metadata.["commit"]));
          note_if (negb (str_eqb commitContents (commit ++ [10])))
            (ANDROID_FFI_COMMIT ++ js ": must contain the release candidate commit followed by one newline")
      end
  | _, _ => mret tt
  end.
Definition validateAndroidFfiChecksum (metadata : option val) : audit unit :=
  read ← check_manifest android_ffi_manifest;
  if (read : bool) then check_commit_binding metadata else mret tt.
Definition validateAndroidNativeAarChecksum : audit unit := _ ← check_manifest android_aar_manifest; mret tt.

(** ** The files of the directory *)

(** The files below a directory with their kinds; a directory that cannot be read has
    none.  The recursion is bounded by the depth of the tree. *)
Fixpoint listFiles (fuel : nat) (relativePath : jsstr) : list (jsstr * FileKind) :=
  match fuel with
  | O => []
  | S fuel' =>
      match readdir (path_join root relativePath) with
      | Throw _ => []
      | Ok dirents =>
          flat_map (fun entry =>
            let child := path_join relativePath (entry_name entry) in
            match entry_kind entry with
            | Directory => listFiles fuel' child
            | kind => [(child, kind)]
            end) dirents
      end
  end.
(** PATH_MAX: no longer path can be read. *)
Definition MAX_PATH_UNITS : nat := 4096.
Definition list_files : jsstr -> list (jsstr * FileKind) := listFiles (S MAX_PATH_UNITS).

(** ** Documents *)

Fixpoint rejectSecretMetadata (value : val) (field : jsstr) : list jsstr :=
  match value with
  | VArr slots =>
      (fix items (index : nat) (l : list (option val)) : list jsstr :=
         match l with
         | [] => []
         | None :: l' => items (S index) l'
         | Some child :: l' => rejectSecretMetadata child (field ++ js "[" ++ dec_nat index ++ js "]") ++ items (S index) l'
         end) 0%nat slots
  | VObj ps =>
      (fix members (ps : list (jsstr * val)) : list jsstr :=
         match ps with
         | [] => []
         | (key, child) :: ps' =>
             let childField := dot field key in
             (if SECRET_KEY key then [childField ++ js ": private signing material or secret fields are forbidden"] else [])
             ++ rejectSecretMetadata child childField ++ members ps'
         end) ps
  | _ => []
  end.
Definition report (findings : list jsstr) : audit unit := Ok (tt, findings).
Definition validatePlatformSupportDocument : audit unit :=
  policy ← readJson (js "source/docs/PLATFORM-SUPPORT.json");
  match policy with
  | None => mret tt
  | Some policy =>
      findings ← may_throw (lang (PlatformSupport.validatePlatformSupportPolicy other_format policy));
      each (fun finding => note (js "source/docs/PLATFORM-SUPPORT.json: " ++ finding)) findings
  end.
Definition validateCandidateMetadata (metadata : option val) : audit (option val) :=
  match metadata with
  | Some ((VObj _ | VBuf _) as metadata) =>
      _ ← report (rejectSecretMetadata metadata (js "metadata"));
      _ ← note_if (negb (eq_int metadata.["schemaVersion"] 1)) (js "candidate metadata schemaVersion must equal 1");
      _ ← note_if (negb (eq_str metadata.["kind"] (js "secure-keypad-release-candidate"))) (js "candidate metadata kind is invalid");
      _ ← note_if (negb (eq_str metadata.["claim"] (js "candidate-only"))) (js "candidate metadata must remain candidate-only");
      _ ← note_if (negb (is_matching COMMIT metadata.["commit"]))
            (js "candidate metadata commit must be an immutable 40-character SHA");
      _ ← note_if (negb (is_matching VERSION metadata.["packageVersion"]))
            (js "candidate metadata packageVersion must be semantic version");
      _ ← match metadata.["requiredFinalGates"] with
          | VArr slots =>
              note_if (negb (length slots =? length REQUIRED_RELEASE_GATES)%nat
                       || existsb (fun '(index, gate) => negb (eq_str gate (nth index REQUIRED_RELEASE_GATES []))) (present slots))
                (js "candidate metadata requiredFinalGates must match the release contract")
          | _ => note (js "candidate metadata must enumerate required final gates")
          end;
      mret (Some metadata)
  | _ => _ ← note (js "source/release-candidate-metadata.json: metadata must be an object"); mret None
  end.
Definition validateSpdx : audit unit :=
  sbom ← readJson (js "source/secure-keypad.sbom.spdx.json");
  match sbom with
  | None => mret tt
  | Some VNull => Throw (Lang TypeError)
  | Some sbom =>
      _ ← note_if (negb match sbom.["spdxVersion"] with VStr s => startsWith s (js "SPDX-") | _ => false end)
            (js "source/secure-keypad.sbom.spdx.json: SPDX version is missing");
      note_if (match sbom.["packages"] with VArr (_ :: _) => false | _ => true end)
        (js "source/secure-keypad.sbom.spdx.json: SPDX packages must be non-empty")
  end.
Definition validateChangelog : audit unit :=
  contents ← read_text (js "source/CHANGELOG.md");
  match contents with
  | None => mret tt
  | Some contents =>
      _ ← note_if (negb (has_heading (js "# Changelog") contents true))
            (js "source/CHANGELOG.md: must contain a top-level # Changelog heading");
      note_if (negb (has_heading (js "## Unreleased") contents true))
        (js "source/CHANGELOG.md: must contain a ## Unreleased release heading")
  end.
(** Each document with the texts it must contain and the complaint. *)
Definition public_documents : list (jsstr * list (jsstr * jsstr)) :=
  [(js "source/README.md", [(js "Secure Native Mode", js "must describe Secure Native Mode")]);
   (js "source/SECURITY.md",
     [(js "## Reporting a vulnerability", js "must contain a vulnerability reporting section");
      (js "private GitHub Security Advisory", js "must document the private GitHub Security Advisory channel");
      (js "security/advisories/new", js "must contain the private Security Advisory URL")])].
Definition check_document (document : jsstr * list (jsstr * jsstr)) : audit unit :=
  let '(relativePath, checks) := document in
  contents ← read_text relativePath;
  match contents with
  | None => mret tt
  | Some contents =>
      each (fun '(pattern, detail) => note_if (negb (includes contents pattern)) (relativePath ++ js ": " ++ detail)) checks
  end.
Definition validatePublicDocuments : audit unit := each check_document public_documents.

(** ** Packages *)

Definition archiveEntries (absolutePath : jsstr) : audit (list jsstr) :=
  match tar_list absolutePath with
  | Ok listing => mret (nonempty (map (fun entry => trim (drop_dot entry)) (split 10 listing)))
  | Throw message => _ ← note (basename absolutePath ++ js ": archive cannot be inspected (" ++ message ++ js ")"); mret []
  end.
Definition archiveEntryBytes (absolutePath entry : jsstr) : audit (option (list Z)) :=
  match tar_extract absolutePath entry with
  | Ok bytes => mret (Some bytes)
  | Throw message => _ ← note (basename absolutePath ++ js ": cannot read " ++ entry ++ js " (" ++ message ++ js ")"); mret None
  end.
Definition archive_map : Type := list (jsstr * list jsstr).
Fixpoint entries_of (archiveEntryMap : archive_map) (relativePath : jsstr) : list jsstr :=
  match archiveEntryMap with
  | [] => []
  | (p, entries) :: rest => if str_eqb relativePath p then entries else entries_of rest relativePath
  end.
Definition npm_required (packageName : jsstr) : list jsstr :=
  map js ["package/package.json"; "package/LICENSE"; "package/README.md"]%string ++
  (if str_eqb packageName (js "secure-keypad-react-native") then map js
     ["package/secure_ffi.xcframework/Info.plist"; "package/libsecure_ffi.a";
      "package/android/secure_ffi/arm64-v8a/libsecure_ffi.a"; "package/android/secure_ffi/x86_64/libsecure_ffi.a"]%string
   else []).
(** The names are distinct, so a new entry never replaces one. *)
Definition check_npm (version : jsstr) (archiveEntryMap : archive_map) (packageName : jsstr) : audit archive_map :=
  let relativePath := npm_archive version packageName in
  f ← regularFile relativePath;
  match f with
  | None => mret archiveEntryMap
  | Some absolutePath =>
      archived ← archiveEntries absolutePath;
      _ ← each (fun requiredEntry => note_if (negb (str_in requiredEntry archived))
            (relativePath ++ js ": archive must contain " ++ requiredEntry)) (npm_required packageName);
      mret (archiveEntryMap ++ [(relativePath, archived)])
  end.
Definition validateNpmArchives (version : jsstr) : audit archive_map := loop (check_npm version) [] NPM_PACKAGES.
Definition check_crate (version crateName : jsstr) : audit unit :=
  let relativePath := crate_archive version crateName in
  f ← regularFile relativePath;
  match f with
  | None => mret tt
  | Some absolutePath =>
      archived ← archiveEntries absolutePath;
      each (fun file => note_if (negb (str_in (crateName ++ js "-" ++ version ++ file) archived))
          (relativePath ++ js ": crate archive must contain " ++ crateName ++ js "-" ++ version ++ file))
        [js "/Cargo.toml"; js "/README.md"]
  end.
Definition validateRustArchives (version : jsstr) : audit unit := each (check_crate version) RUST_CRATES.
Definition react_native_archive (version : jsstr) : jsstr := npm_archive version (js "secure-keypad-react-native").

(** ** The iOS checksum manifest *)

Definition normalizeChecksumPath (value : jsstr) : option jsstr :=
  let normalized := drop_dot value in
  if str_eqb normalized [] || startsWith normalized sep || includes normalized (js "\") || includes normalized (js "//")
     || str_in (js "..") (split slash normalized)
  then None else Some normalized.
(** The lines so far: path and hash, in the order of the manifest. *)
Definition ios_line (manifestEntries : list (jsstr * jsstr)) (indexed_line : nat * jsstr) : audit (list (jsstr * jsstr)) :=
  let '(index, line) := indexed_line in
  match line with
  | [] => mret manifestEntries
  | _ =>
      match checksum_line is_dot_unit line with
      | None => _ ← note (IOS_FFI_CHECKSUM_MANIFEST ++ js ": malformed checksum line " ++ dec_nat (S index)); mret manifestEntries
      | Some (hash, value) =>
          match normalizeChecksumPath value with
          | None => _ ← note (IOS_FFI_CHECKSUM_MANIFEST ++ js ": unsafe checksum path on line " ++ dec_nat (S index)); mret manifestEntries
          | Some relativePath =>
              if str_in relativePath manifestEntries.*1
              then _ ← note (IOS_FFI_CHECKSUM_MANIFEST ++ js ": duplicate checksum path " ++ relativePath); mret manifestEntries
              else mret (manifestEntries ++ [(relativePath, hash)])
          end
      end
  end.
(** Where the bytes of an expected entry are. *)
Inductive Expected := SourceFile (p : jsstr) | ArchiveEntry (p : jsstr) | Literal (bytes : list Z).
Fixpoint set_expected (m : list (jsstr * Expected)) (k : jsstr) (e : Expected) : list (jsstr * Expected) :=
  match m with
  | [] => [(k, e)]
  | (k', e') :: m' => if str_eqb k k' then (k', e) :: m' else (k', e') :: set_expected m' k e
  end.
Fixpoint find_hash (m : list (jsstr * jsstr)) (k : jsstr) : option jsstr :=
  match m with [] => None | (k', h) :: m' => if str_eqb k k' then Some h else find_hash m' k end.
(** The path below the framework directory. *)
Definition framework_path (relativePath : jsstr) : jsstr := drop (length IOS_PACKAGE_XCFRAMEWORK_SOURCE + 1) relativePath.
Definition expect_framework (expectedEntries : list (jsstr * Expected)) (sourceFile : jsstr * FileKind)
    : audit (list (jsstr * Expected)) :=
  let relativePath := framework_path sourceFile.1 in
  if negb (bool_decide (sourceFile.2 = RegularFile))
  then _ ← note (sourceFile.1 ++ js ": iOS XCFramework checksum inputs must be regular files"); mret expectedEntries else
  let expectedEntries := set_expected expectedEntries (js "flutter/ios/secure_ffi.xcframework/" ++ relativePath)
    (SourceFile sourceFile.1) in
  mret (set_expected expectedEntries (js "react-native/secure_ffi.xcframework/" ++ relativePath)
    (ArchiveEntry (js "package/secure_ffi.xcframework/" ++ relativePath))).
Definition check_expected (archive : option jsstr) (archived : list jsstr) (manifestEntries : list (jsstr * jsstr))
    (entry : jsstr * Expected) : audit unit :=
  match find_hash manifestEntries entry.1 with
  | None | Some [] => mret tt
  | Some expectedHash =>
      actual ← match entry.2 with
               | Literal bytes => mret (Some bytes)
               | SourceFile p => bytes ← file_bytes (path_join root p); mret (Some bytes)
               | ArchiveEntry p =>
                   match archive with
                   | Some archivePath => if str_in p archived then archiveEntryBytes archivePath p else mret None
                   | None => mret None
                   end
               end;
      match actual with
      | None => mret tt
      | Some bytes => note_if (negb (str_eqb (sha256 bytes) expectedHash))
          (IOS_FFI_CHECKSUM_MANIFEST ++ js ": checksum does not match " ++ entry.1)
      end
  end.
Definition validateIosFfiChecksum (version : jsstr) (archiveEntryMap : archive_map) (metadata : val) : audit unit :=
  f ← regularFile IOS_FFI_CHECKSUM_MANIFEST;
  match f with
  | None => mret tt
  | Some manifestPath =>
      contents ← readBoundedChecksumManifest manifestPath IOS_FFI_CHECKSUM_MANIFEST;
      match contents with
      | None => mret tt
      | Some manifestContents =>
          manifestEntries ← loop ios_line [] (indexed (split_lines manifestContents));
          expectedEntries ← loop expect_framework [] (list_files IOS_PACKAGE_XCFRAMEWORK_SOURCE);
          sourceLibrary ← regularFile IOS_PACKAGE_LIBRARY_SOURCE;
          let expectedEntries := match sourceLibrary with
            | Some _ => set_expected expectedEntries (js "flutter/ios/libsecure_ffi.a") (SourceFile IOS_PACKAGE_LIBRARY_SOURCE)
            | None => expectedEntries
            end in
          let expectedEntries := set_expected expectedEntries (js "react-native/libsecure_ffi.a") (ArchiveEntry IOS_PACKAGE_LIBRARY_ARCHIVE) in
          commit ← may_throw (lang (to_string metadata.["commit"]));
          let expectedEntries := set_expected expectedEntries (js "secure-keypad-ios-ffi.commit") (Literal (utf8_encode (commit ++ [10]))) in
          archive ← regularFile (react_native_archive version);
          let archived := entries_of archiveEntryMap (react_native_archive version) in
          _ ← each (fun relativePath => note_if (negb (str_in relativePath expectedEntries.*1))
                (IOS_FFI_CHECKSUM_MANIFEST ++ js ": unexpected checksum path " ++ relativePath)) manifestEntries.*1;
          _ ← each (fun relativePath => note_if (negb (str_in relativePath manifestEntries.*1))
                (IOS_FFI_CHECKSUM_MANIFEST ++ js ": missing checksum for " ++ relativePath)) expectedEntries.*1;
          each (check_expected archive archived manifestEntries) expectedEntries
      end
  end.

(** ** Packaged bytes against the source *)

Definition check_framework_file (version archivePath : jsstr) (archived expected : list jsstr) (sourceFile : jsstr * FileKind)
    : audit (list jsstr) :=
  let relativePath := framework_path sourceFile.1 in
  let archiveEntry := IOS_PACKAGE_XCFRAMEWORK_ARCHIVE_PREFIX ++ sep ++ relativePath in
  if negb (bool_decide (sourceFile.2 = RegularFile))
  then _ ← note (sourceFile.1 ++ js ": iOS XCFramework source entries must be regular files"); mret expected else
  let expected := set_add archiveEntry expected in
  if negb (str_in archiveEntry archived)
  then _ ← note (react_native_archive version ++ js ": archive must contain " ++ archiveEntry); mret expected else
  archiveBytes ← archiveEntryBytes archivePath archiveEntry;
  match archiveBytes with
  | None => mret expected
  | Some archiveBytes =>
      sourceBytes ← file_bytes (path_join root sourceFile.1);
      _ ← note_if (negb (str_eqb (sha256 archiveBytes) (sha256 sourceBytes)))
            (js "React Native iOS FFI " ++ relativePath ++ js ": packaged bytes do not match signed source");
      mret expected
  end.
Definition is_framework_entry (archived_entry : jsstr) : bool :=
  startsWith archived_entry (IOS_PACKAGE_XCFRAMEWORK_ARCHIVE_PREFIX ++ sep) && negb (startsWith (rev archived_entry) sep).
Definition validatePackagedIosFfi (version : jsstr) (archiveEntryMap : archive_map) : audit unit :=
  f ← regularFile (react_native_archive version);
  match f with
  | None => mret tt
  | Some archivePath =>
      let archived := entries_of archiveEntryMap (react_native_archive version) in
      expected ← loop (check_framework_file version archivePath archived) [] (list_files IOS_PACKAGE_XCFRAMEWORK_SOURCE);
      _ ← each (fun extraEntry => note_if (negb (set_has extraEntry expected))
            (react_native_archive version ++ js ": unexpected iOS XCFramework entry " ++ extraEntry))
          (unique (filter (fun entry => is_framework_entry entry = true) archived));
      sourceLibrary ← regularFile IOS_PACKAGE_LIBRARY_SOURCE;
      match sourceLibrary with
      | Some sourceLibrary =>
          if negb (str_in IOS_PACKAGE_LIBRARY_ARCHIVE archived) then mret tt else
          archiveBytes ← archiveEntryBytes archivePath IOS_PACKAGE_LIBRARY_ARCHIVE;
          match archiveBytes with
          | None => mret tt
          | Some archiveBytes =>
              sourceBytes ← file_bytes sourceLibrary;
              note_if (negb (str_eqb (sha256 archiveBytes) (sha256 sourceBytes)))
                (js "React Native iOS FFI libsecure_ffi.a: packaged bytes do not match signed source")
          end
      | None => mret tt
      end
  end.
Definition check_android_entry (archive : option jsstr) (archived : list jsstr) (entry : PackageFfi) : audit unit :=
  source ← regularFile (sourcePath entry);
  match source with
  | None => mret tt
  | Some source =>
      sourceBytes ← file_bytes source;
      let expectedHash := sha256 sourceBytes in
      flutter ← regularFile (flutterPath entry);
      _ ← match flutter with
          | Some flutter =>
              bytes ← file_bytes flutter;
              note_if (negb (str_eqb (sha256 bytes) expectedHash))
                (js "Flutter Android FFI " ++ abi entry ++ js ": packaged bytes do not match signed source " ++ sourcePath entry)
          | None => mret tt
          end;
      match archive with
      | Some archivePath =>
          if negb (str_in (reactNativeArchivePath entry) archived) then mret tt else
          archiveBytes ← archiveEntryBytes archivePath (reactNativeArchivePath entry);
          match archiveBytes with
          | Some bytes => note_if (negb (str_eqb (sha256 bytes) expectedHash))
              (js "React Native Android FFI " ++ abi entry ++ js ": packaged bytes do not match signed source " ++ sourcePath entry)
          | None => mret tt
          end
      | None => mret tt
      end
  end.
Definition validatePackagedAndroidFfi (version : jsstr) (archiveEntryMap : archive_map) : audit unit :=
  archive ← regularFile (react_native_archive version);
  each (check_android_entry archive (entries_of archiveEntryMap (react_native_archive version))) ANDROID_PACKAGE_FFI_ENTRIES.

(** ** The check *)

(** [/(?:private|signing[-_]?key)|\.pem$/i] *)
Definition private_name (p : jsstr) : bool :=
  re_search (RAlt (rlit_ci (js "private"))
    (RSeq (rlit_ci (js "signing")) (RSeq (ropt (RCls [(45, 45); (95, 95)])) (rlit_ci (js "key"))))) p
  || re_match (RSeq (RStar rany) (rlit_ci (js ".pem"))) p.
Definition check_listed (file : jsstr * FileKind) : audit unit :=
  _ ← note_if (bool_decide (file.2 = SymbolicLink)) (file.1 ++ js ": symlinks are not allowed in release staging");
  _ ← note_if (bool_decide (file.2 = SpecialFile)) (file.1 ++ js ": only regular files are allowed in release staging");
  note_if (private_name file.1) (file.1 ++ js ": private signing material must never enter release staging").
Definition check_packages (metadata : val) : audit unit :=
  version ← may_throw (lang (to_string metadata.["packageVersion"]));
  archiveEntryMap ← validateNpmArchives version;
  _ ← validateIosFfiChecksum version archiveEntryMap metadata;
  _ ← validatePackagedIosFfi version archiveEntryMap;
  _ ← validatePackagedAndroidFfi version archiveEntryMap;
  validateRustArchives version.
Definition check_contents : audit unit :=
  _ ← each (fun relativePath => _ ← regularFile relativePath; mret tt) REQUIRED_SOURCE_FILES;
  _ ← validateChangelog;
  _ ← validatePublicDocuments;
  _ ← validatePlatformSupportDocument;
  metadata ← readJson (js "source/release-candidate-metadata.json");
  validatedMetadata ← validateCandidateMetadata metadata;
  _ ← validateSpdx;
  _ ← validateAndroidFfiChecksum validatedMetadata;
  _ ← validateAndroidNativeAarChecksum;
  _ ← match validatedMetadata with
      | Some metadata => if truthy metadata.["packageVersion"] then check_packages metadata else mret tt
      | None => mret tt
      end;
  each check_listed (list_files []).
Definition checkReleaseStaging : result thrown (list jsstr) :=
  if match root with [] => true | _ => negb (existsSync root) end then Ok [js "release staging root is missing"] else
  match lstat root with
  | Throw _ => Ok [js "release staging root cannot be inspected"]
  | Ok (Directory, _) => '(_, findings) ← (check_contents : result thrown (unit * list jsstr)); Ok (unique findings)
  | Ok _ => Ok [js "release staging root must be a real directory"]
  end.
End bundle.
(** The command's lines and exit code; [None] when the check throws. *)
Definition bundle_main `{BundleHost} (argv : list jsstr) : option (list jsstr * Z) :=
  match argv with
  | ((_ :: _) as root) :: _ =>
      match checkReleaseStaging (resolve1 cwd root) with
      | Ok [] => Some ([js "release staging contract passed"], 0)
      | Ok findings => Some (map (fun finding => js "release-bundle: " ++ finding) findings, 1)
      | Throw _ => None
      end
  | _ => Some ([js "usage: node scripts/check-release-bundle.mjs <release-staging-root>"], 64)
  end.
