(* ===== verification/ReleaseBundleSpec.v ===== *)
(** * What each check of the release bundle decides

    A check is quiet when it neither reports nor throws.  Quietness distributes over the
    writer, so each check is quiet exactly when its part of the bundle is right. *)

From S2P Require Import Prelude JsNumber Regex JsValue JsText PathProps Host Disk ReleaseEvidence ReleaseFragment.
From S2P Require Import EvidenceSpec ReleaseArchive ReleaseBundle.
From S2P Require PlatformSupport.
Open Scope js_scope.

(** ** Paths and listings

    [path_join] on normalised paths appends components; the recursive listing is exactly
    what the directories hold ([Lists]), so its fuel is enough. *)

(** ** Joining *)

Lemma normalize_parts_proper above l acc :
  Forall (fun c => c = [] \/ proper c) l ->
  foldl (fun acc c =>
    if str_eqb c [] || str_eqb c (js ".") then acc
    else if str_eqb c (js "..") then
      match rev acc with
      | last :: _ => if str_eqb last (js "..") then acc ++ [c] else removelast acc
      | [] => if above : bool then [c] else []
      end
    else acc ++ [c]) acc l = acc ++ nonempty l.
Proof.
  intros H. revert acc; induction H as [|c l Hc H IH]; intros acc; cbn [foldl]; [by rewrite app_nil_r|]. unfold nonempty.
  destruct Hc as [->|([Hne _] & Hd & Hdd)]; [rewrite filter_cons_False by naive_solver; apply IH|].
  rewrite filter_cons_True by done.
  assert (E : forall w, c <> w -> str_eqb c w = false) by (intros w Hw; apply not_true_iff_false; by rewrite str_eqb_eq).
  rewrite !E by done. cbn [orb]. rewrite IH. by rewrite <- app_assoc.
Qed.
Lemma nonempty_proper l : Forall proper l -> nonempty l = l.
Proof. intros H. unfold nonempty. induction H as [|c l [[? _] _] _ IH]; [done|]. by rewrite filter_cons_True, IH. Qed.
Lemma not_trailing q c : component c -> match rev (q ++ c) with x :: _ => x =? slash | [] => false end = false.
Proof.
  intros [Hne Hc]. rewrite rev_app_distr. destruct (rev c) as [|x r] eqn:E.
  { apply (f_equal (@rev Z)) in E. by rewrite rev_involutive in E. }
  cbn. apply Z.eqb_neq. intros ->. apply Hc. rewrite <- (rev_involutive c), E. cbn. set_solver.
Qed.
Lemma join_last l c : exists q, join sep (l ++ [c]) = q ++ c.
Proof. destruct l as [|x l]; [by exists []|]. rewrite join_snoc by done. exists (join sep (x :: l) ++ [slash]). by rewrite <- app_assoc. Qed.
Lemma join_app a b : a <> [] -> b <> [] -> join sep (a ++ b) = join sep a ++ sep ++ join sep b.
Proof.
  intros Ha Hb. induction a as [|x a IH]; [done|]. destruct a as [|y a]; [by apply join_cons|].
  change ((x :: y :: a) ++ b) with (x :: (y :: a) ++ b). rewrite !(join_cons sep x), IH, <- !app_assoc by done. done.
Qed.
(** A path whose components are proper, without a trailing slash. *)
Lemma normalize_proper p l : p <> [] -> l <> [] -> Forall proper l -> (exists q c, p = q ++ c /\ component c) ->
  Forall (fun c => c = [] \/ proper c) (split slash p) -> nonempty (split slash p) = l ->
  normalize p = (if isAbsolute p then sep else []) ++ join sep l.
Proof.
  intros Hp Hne Hl (q & c & -> & Hc) Hs Hn. unfold normalize, normalize_parts. destruct (q ++ c) as [|x s] eqn:E; [done|].
  rewrite normalize_parts_proper by done. rewrite Hn, <- E, not_trailing by done. cbn [app].
  destruct (join sep l) eqn:Ej; [by apply join_nonempty in Ej; [| |apply proper_component]|]. by rewrite app_nil_r.
Qed.
Lemma isAbsolute_join l : Forall component l -> isAbsolute (join sep l) = false.
Proof.
  intros H. destruct H as [|[|x c] l [Hne Hc] _]; [done|done|]. destruct l; cbn; apply Z.eqb_neq; intros ->; apply Hc; left.
Qed.
Lemma proper_or l : Forall proper l -> Forall (fun c => c = [] \/ proper c) l.
Proof. intros H. eapply Forall_impl; [exact H|]. by right. Qed.
Lemma path_join_root r l : Forall proper r -> Forall proper l -> path_join (abspath r) (join sep l) = abspath (r ++ l).
Proof.
  intros Hr Hl. unfold path_join, nonempty. rewrite filter_cons_True by done.
  destruct (decide (l = [])) as [->|Hne].
  { cbn [join]. rewrite filter_cons_False by naive_solver. cbn [filter list_filter]. change (filter _ []) with (@nil jsstr). cbn [join].
    rewrite app_nil_r. destruct (decide (r = [])) as [->|Hr']; [done|]. rewrite (normalize_proper _ r); try done.
    - destruct r as [|c r _] using rev_ind; [done|]. destruct (join_last r c) as [q Hq]. exists (sep ++ q), c.
      split; [unfold abspath; by rewrite Hq, app_assoc|]. apply Forall_app in Hr as [_ Hr]. by inversion Hr as [|? ? []].
    - rewrite split_abspath by by apply proper_component. destruct r; [done|]. constructor; [by left|by apply proper_or].
    - rewrite split_abspath by by apply proper_component. destruct r as [|c r]; [done|]. unfold nonempty. rewrite filter_cons_False by naive_solver.
      by apply nonempty_proper. }
  rewrite filter_cons_True by (apply join_nonempty; [done|by apply proper_component]). change (filter _ []) with (@nil jsstr). cbn [join].
  pose proof (split_app_sep r l (proper_component _ Hr) (proper_component _ Hl) Hne) as Hs.
  rewrite (normalize_proper _ (r ++ l)); try done.
  - intros []%app_eq_nil. done.
  - by apply Forall_app.
  - destruct l as [|c l _] using rev_ind; [done|]. destruct (join_last l c) as [q Hq]. exists (abspath r ++ sep ++ q), c.
    rewrite Hq, <- !app_assoc. split; [done|]. apply Forall_app in Hl as [_ Hl]. by inversion Hl as [|? ? []].
  - rewrite Hs. apply Forall_app. split; [|by apply proper_or]. destruct r; [by repeat constructor|]. constructor; [by left|by apply proper_or].
  - rewrite Hs. unfold nonempty. rewrite filter_app. fold (nonempty l). rewrite (nonempty_proper l) by done. f_equal.
    destruct r as [|c r]; [done|]. rewrite filter_cons_False by naive_solver. by apply nonempty_proper.
Qed.
Lemma path_join_child l c : Forall proper l -> proper c -> path_join (join sep l) c = join sep (l ++ [c]).
Proof.
  intros Hl Hc. assert (Hlc : Forall proper (l ++ [c])) by by apply Forall_app; split; [|constructor]. pose proof (proper_component _ Hlc) as Hcomp.
  assert (E : join sep (nonempty [join sep l; c]) = join sep (l ++ [c])).
  { unfold nonempty. rewrite filter_cons. rewrite (filter_cons_True _ c) by apply Hc. change (filter _ []) with (@nil jsstr).
    destruct (decide (l = [])) as [->|Hne]; [by rewrite decide_False by naive_solver|].
    rewrite decide_True by (apply join_nonempty; [done|by apply proper_component]). cbn [join]. by rewrite join_snoc. }
  unfold path_join. rewrite E. assert (l ++ [c] <> []) by (intros []%app_eq_nil; done).
  rewrite (normalize_proper _ (l ++ [c])); try done.
  - by rewrite isAbsolute_join.
  - by apply join_nonempty.
  - destruct (join_last l c) as [q Hq]. exists q, c. split; [done|apply Hc].
  - rewrite split_join_comps by done. by apply proper_or.
  - rewrite split_join_comps by done. by apply nonempty_proper.
Qed.

(** ** Listings *)

(** What Node documents of [readdirSync] and the kernel of path lengths. *)
Record BundleLaws (bundle : BundleHost) : Prop := {
  readdir_names : forall p dirents, readdir p = Ok dirents -> Forall (fun e => proper (entry_name e)) dirents;
  path_max : forall p dirents, readdir p = Ok dirents -> (length p <= MAX_PATH_UNITS)%nat;
}.

Section lists.
Context {bundle : BundleHost} (laws : BundleLaws bundle) (r : list jsstr) (Hr : Forall proper r).
Local Abbreviation root := (abspath r).

(** [p], of kind [k], lies below the directory [dir] of the root. *)
Inductive Lists : jsstr -> jsstr -> FileKind -> Prop :=
  | lists_entry dir dirents e : readdir (path_join root dir) = Ok dirents -> e ∈ dirents -> entry_kind e <> Directory ->
      Lists dir (path_join dir (entry_name e)) (entry_kind e)
  | lists_below dir dirents e p k : readdir (path_join root dir) = Ok dirents -> e ∈ dirents -> entry_kind e = Directory ->
      Lists (path_join dir (entry_name e)) p k -> Lists dir p k.

Lemma abspath_longer l c : proper c -> (length (abspath l) < length (abspath (l ++ [c])))%nat.
Proof.
  intros [[Hne _] _]. unfold abspath. destruct (decide (l = [])) as [->|Hl]; [destruct c; [done|]; cbn [app join]; rewrite !length_app; cbn [length]; lia|].
  rewrite join_snoc, !length_app by done. cbn [length]. lia.
Qed.
Lemma listFiles_sound fuel dir p k : (p, k) ∈ listFiles root fuel dir -> Lists dir p k.
Proof.
  revert dir; induction fuel as [|fuel IH]; intros dir; cbn [listFiles]; [by intros ?%not_elem_of_nil|].
  destruct (readdir _) as [dirents|] eqn:Ed; [|by intros ?%not_elem_of_nil].
  intros (e & He & H)%elem_of_flat_map. destruct (entry_kind e) eqn:Ek;
    try (apply list_elem_of_singleton in H as [= -> ->]; rewrite <- Ek; apply (lists_entry _ dirents); [done..|by rewrite Ek]).
  eapply lists_below; eauto.
Qed.
Lemma listFiles_complete dir p k : Lists dir p k -> forall fuel l, dir = join sep l -> Forall proper l ->
  (MAX_PATH_UNITS < fuel + length (abspath (r ++ l)))%nat -> (p, k) ∈ listFiles root fuel dir.
Proof.
  induction 1 as [dir dirents e Hd He Hk|dir dirents e p k Hd He Hk _ IH]; intros fuel l -> Hl Hf;
    pose proof Hd as Hmax; rewrite path_join_root in Hmax by done; apply (path_max _ laws) in Hmax;
    destruct fuel as [|fuel]; try lia; cbn [listFiles]; rewrite Hd; apply elem_of_flat_map; exists e; split; try done.
  - destruct (entry_kind e); try done; by apply list_elem_of_singleton.
  - rewrite Hk. pose proof (readdir_names _ laws _ _ Hd) as Hn. rewrite Forall_forall in Hn. specialize (Hn e He).
    rewrite path_join_child in IH |- * by done. apply (IH fuel (l ++ [entry_name e])); [done|by apply Forall_app; split; [|constructor]|].
    rewrite app_assoc. pose proof (abspath_longer (r ++ l) (entry_name e) Hn). lia.
Qed.
(** The listing is complete whatever the shape of the tree. *)
Lemma list_files_spec l p k : Forall proper l -> (p, k) ∈ list_files root (join sep l) <-> Lists (join sep l) p k.
Proof.
  intros Hl. split; [apply listFiles_sound|]. intros H. eapply listFiles_complete; [done..|]. unfold list_files. lia.
Qed.
Lemma Lists_below dir p k : Lists dir p k -> forall l, dir = join sep l -> Forall proper l ->
  k <> Directory /\ exists l', l' <> [] /\ Forall proper l' /\ p = join sep (l ++ l').
Proof.
  induction 1 as [dir dirents e Hd He Hk|dir dirents e p k Hd He Hk _ IH]; intros l -> Hl;
    pose proof (readdir_names _ laws _ _ Hd) as Hn; rewrite Forall_forall in Hn; specialize (Hn e He).
  - split; [done|]. exists [entry_name e]. rewrite path_join_child by done. split_and!; [done|by constructor|done].
  - rewrite path_join_child in IH by done. destruct (IH _ eq_refl) as (? & l' & ? & ? & ->); [by apply Forall_app; split; [|constructor]|].
    split; [done|]. exists (entry_name e :: l'). rewrite <- app_assoc. split_and!; [done|by constructor|done].
Qed.
End lists.

(** ** Quietness *)

Definition quiet {A} (m : audit A) (a : A) : Prop := m = Ok (a, []).
Lemma quiet_bind {A B} (m : audit A) (k : A -> audit B) b : quiet (m ≫= k) b <-> exists a, quiet m a /\ quiet (k a) b.
Proof.
  unfold quiet, mbind, audit_bind. destruct m as [[a w]|e]; [|naive_solver].
  transitivity (w = [] /\ k a = Ok (b, [])).
  - destruct (k a) as [[b' w']|e]; [|naive_solver]. split; [intros [= -> [-> ->]%app_eq_nil]; done|]. by intros [-> [= -> ->]].
  - split; [intros [-> H]; by exists a|]. by intros (a' & [= -> ->] & H).
Qed.
Lemma quiet_ret {A} (a b : A) : quiet (mret a) b <-> a = b.
Proof. unfold quiet, mret, audit_ret. split; [by intros [=]|by intros ->]. Qed.
Lemma quiet_note message u : quiet (note message) u <-> False.
Proof. by split. Qed.
Lemma quiet_noted {A} message (a b : A) : quiet (_ ← note message; mret a) b <-> False.
Proof. rewrite quiet_bind. setoid_rewrite quiet_note. naive_solver. Qed.
Lemma quiet_note_if c message u : quiet (note_if c message) u <-> c = false.
Proof. destruct c, u; cbn; [by rewrite quiet_note|by rewrite quiet_ret]. Qed.
Lemma quiet_may_throw {A} (m : result thrown A) a : quiet (may_throw m) a <-> m = Ok a.
Proof. destruct m; unfold quiet, may_throw; naive_solver. Qed.
Lemma quiet_report findings u : quiet (report findings) u <-> findings = [].
Proof. destruct u. unfold quiet, report. naive_solver. Qed.
Lemma quiet_loop_cons {S A} (f : S -> A -> audit S) st x l st' :
  quiet (loop f st (x :: l)) st' <-> exists st1, quiet (f st x) st1 /\ quiet (loop f st1 l) st'.
Proof. apply quiet_bind. Qed.
Lemma quiet_each {A} (f : A -> audit unit) l u : quiet (each f l) u <-> Forall (fun x => quiet (f x) tt) l.
Proof.
  destruct u. unfold each. induction l as [|x l IH]; [cbn; rewrite quiet_ret; split; [constructor|done]|].
  rewrite quiet_loop_cons, Forall_cons, <- IH. split; [by intros ([] & ?)|]. intros. by exists tt.
Qed.
Lemma quiet_seq {A} (m : audit unit) (k : audit A) a : quiet (_ ← m; k) a <-> quiet m tt /\ quiet k a.
Proof. rewrite quiet_bind. split; [by intros ([] & ?)|]. intros. by exists tt. Qed.
(** A loop that must not report over the elements of a list. *)
Lemma quiet_all {A} (c : A -> bool) (message : A -> jsstr) l u :
  quiet (each (fun x => note_if (c x) (message x)) l) u <-> forall x, x ∈ l -> c x = false.
Proof. rewrite quiet_each, Forall_forall. by setoid_rewrite quiet_note_if. Qed.

Section spec.
Context {bundle : BundleHost} (root : jsstr).

(** ** Files *)

(** [rel] is a regular file below the root; it holds [bytes]. *)
Definition regular (rel : jsstr) : Prop := exists size, lstat (path_join root rel) = Ok (RegularFile, size).
Definition holds (rel : jsstr) (bytes : list Z) : Prop := regular rel /\ readFileSync (path_join root rel) = Ok bytes.
Definition within (rel : jsstr) (bound : Z) : Prop := exists size, lstat (path_join root rel) = Ok (RegularFile, size) /\ size <= bound.

Lemma regularFile_quiet rel f : quiet (regularFile root rel) f <-> f = Some (path_join root rel) /\ regular rel.
Proof.
  unfold regularFile, regular. destruct (lstat _) as [[[] size]|]; rewrite ?quiet_noted, ?quiet_ret; naive_solver.
Qed.
Lemma file_bytes_quiet p bytes : quiet (file_bytes p) bytes <-> readFileSync p = Ok bytes.
Proof. unfold file_bytes. by rewrite quiet_may_throw, err_ok. Qed.
Lemma bounded_text_quiet rel bound text : regular rel ->
  quiet (bounded_text (path_join root rel) rel bound) text <->
  exists bytes, text = Some (utf8_decode bytes) /\ holds rel bytes /\ within rel bound.
Proof.
  unfold bounded_text, holds, within, regular. intros [size E]. rewrite E. cbn [mbind result_bind].
  destruct (Z.ltb_spec bound size).
  - rewrite quiet_noted. split; [done|]. intros (_ & _ & _ & n & [= ->] & ?). lia.
  - destruct (readFileSync _) as [bytes|]; cbn [mbind result_bind]; [|rewrite quiet_noted; naive_solver].
    rewrite quiet_ret. split; [intros <-; exists bytes; eauto 10|]. by intros (b & -> & (_ & [= ->]) & _).
Qed.
(** The text of a file that is present. *)
Definition text_of (rel text : jsstr) : Prop := exists bytes, holds rel bytes /\ text = utf8_decode bytes.
Lemma read_text_quiet rel text : quiet (read_text root rel) text <-> exists t, text = Some t /\ text_of rel t.
Proof.
  unfold read_text, text_of, holds. rewrite quiet_bind. setoid_rewrite regularFile_quiet. split.
  - intros (f & [-> Hr] & H). destruct (readFileSync _) as [bytes|]; [|by apply quiet_noted in H]. apply quiet_ret in H as <-. eauto 10.
  - intros (t & -> & bytes & [Hr Hb] & ->). exists (Some (path_join root rel)). split; [done|]. rewrite Hb. by apply quiet_ret.
Qed.
(** The value in a JSON file. *)
Definition json_of (rel : jsstr) (value : val) : Prop := exists text, text_of rel text /\ JSON_parse text = Ok value.
Lemma readJson_quiet rel value : quiet (readJson root rel) value <-> exists v, value = Some v /\ json_of rel v.
Proof.
  unfold readJson, json_of, text_of, holds. rewrite quiet_bind. setoid_rewrite regularFile_quiet. split.
  - intros (f & [-> Hr] & H). destruct (readFileSync _) as [bytes|]; cbn [mbind result_bind] in H; [|by apply quiet_noted in H].
    destruct (JSON_parse _) as [v|] eqn:Ev; [|by apply quiet_noted in H]. apply quiet_ret in H as <-. exists v. split; [done|]. eauto 10.
  - intros (v & -> & text & (bytes & [Hr Hb] & ->) & Hv). exists (Some (path_join root rel)). split; [done|]. rewrite Hb. cbn. rewrite Hv. done.
Qed.

(** ** The Android checksum manifests *)

(** One line per file: its digest and its path below source/. *)
Definition checksum_pair (line : jsstr) (pair : jsstr * jsstr) : Prop := checksum_line not_return line = Some pair.
Definition digest_holds (pair : jsstr * jsstr) : Prop :=
  exists bytes, holds (path_join (js "source") pair.2) bytes /\ sha256 bytes = pair.1.
Definition Checksums_wf (m : ChecksumManifest) : Prop :=
  exists bytes pairs, holds (manifest_path m) bytes /\ within (manifest_path m) MAX_NATIVE_CHECKSUM_MANIFEST_BYTES /\
    Forall2 checksum_pair (nonempty (split_lines (utf8_decode bytes))) pairs /\
    pairs.*2 ≡ₚ checked_entries m /\ Forall digest_holds pairs.

Definition safe_entry (p : jsstr) : Prop :=
  (isAbsolute p || includes p (js "\") || str_in (js "..") (split slash p)) = false.
Lemma check_line_quiet m seen line seen' : Forall safe_entry (checked_entries m) ->
  quiet (check_line root m seen line) seen' <->
  exists pair, checksum_pair line pair /\ pair.2 ∈ checked_entries m /\ (pair.2 ∉ seen) /\ digest_holds pair /\ seen' = seen ++ [pair.2].
Proof.
  intros Hsafe. unfold check_line, checksum_pair. destruct (checksum_line _ _) as [[hash p]|]; [|rewrite quiet_noted; naive_solver].
  transitivity (p ∈ checked_entries m /\ (p ∉ seen) /\ digest_holds (hash, p) /\ seen' = seen ++ [p]); [|naive_solver].
  destruct (decide (p ∈ checked_entries m)) as [Hp|Hp].
  2: { destruct (_ || _ || _); rewrite ?quiet_noted; [naive_solver|]. pose proof Hp as Hb. rewrite <- str_in_elem, not_true_iff_false in Hb.
       rewrite Hb. cbn [negb]. rewrite quiet_noted. naive_solver. }
  rewrite Forall_forall in Hsafe. pose proof (Hsafe p Hp) as Hs0. unfold safe_entry in Hs0. rewrite Hs0. rewrite (proj2 (str_in_elem _ _) Hp). cbn [negb]. unfold set_has at 1.
  case_bool_decide as Hs; [rewrite quiet_noted; naive_solver|]. rewrite quiet_seq, quiet_ret, set_add_new by done.
  assert (Hd : quiet (check_digest root m hash p) tt <-> digest_holds (hash, p)); [|rewrite Hd; naive_solver].
  unfold check_digest, digest_holds, holds. rewrite quiet_bind. setoid_rewrite regularFile_quiet. split.
  - intros (f & [-> Hr] & (bytes & Hb & H)%quiet_bind). apply file_bytes_quiet in Hb. apply quiet_note_if in H.
    apply negb_false_iff, str_eqb_eq in H. eauto 10.
  - intros (bytes & [Hr Hb] & E). eexists. split; [split; [done|exact Hr]|]. rewrite quiet_bind. exists bytes. rewrite file_bytes_quiet.
    split; [done|]. apply quiet_note_if, negb_false_iff, str_eqb_eq, E.
Qed.
Lemma check_lines_quiet m lines : Forall safe_entry (checked_entries m) -> forall seen seen',
  quiet (loop (check_line root m) seen lines) seen' <->
  exists pairs, Forall2 checksum_pair lines pairs /\ pairs.*2 ⊆ checked_entries m /\ unseen seen pairs.*2 /\
    Forall digest_holds pairs /\ seen' = seen ++ pairs.*2.
Proof.
  intros Hsafe. induction lines as [|line lines IH]; intros seen seen'.
  - cbn [loop]. rewrite quiet_ret. split.
    + intros <-. exists []. rewrite app_nil_r. split_and!; try done; [set_solver|apply unseen_nil].
    + intros (pairs & H & _ & _ & _ & ->). inversion H. by rewrite app_nil_r.
  - rewrite quiet_loop_cons. setoid_rewrite check_line_quiet; [|done]. setoid_rewrite IH. split.
    + intros (s1 & (pair & Hp & Hin & Hn & Hd & ->) & pairs & H2 & Hsub & Hu & Hf & ->). exists (pair :: pairs). cbn [fmap list_fmap].
      change (pair.2 :: pairs.*2) with ([pair.2] ++ pairs.*2). rewrite unseen_app, unseen_single, <- app_assoc. split_and!; try done; [by constructor|set_solver|by constructor].
    + intros (pairs & H2 & Hsub & Hu & Hf & ->). inversion H2 as [|? pair ? pairs' Hp H2']; subst. cbn [fmap list_fmap] in *.
      change (pair.2 :: pairs'.*2) with ([pair.2] ++ pairs'.*2) in *. rewrite unseen_app, unseen_single in Hu. apply Forall_cons in Hf as [Hd Hf].
      exists (seen ++ [pair.2]). split; [exists pair; split_and!; try done; [set_solver|apply Hu]|]. exists pairs'. rewrite <- app_assoc.
      split_and!; try done; [set_solver|apply Hu].
Qed.
Lemma check_manifest_quiet m read : NoDup (checked_entries m) -> Forall safe_entry (checked_entries m) ->
  quiet (check_manifest root m) read <-> read = true /\ Checksums_wf m.
Proof.
  intros Hd Hsafe. unfold check_manifest, Checksums_wf. rewrite quiet_bind. setoid_rewrite regularFile_quiet. split.
  - intros (f & [-> Hr] & (text & Ht & H)%quiet_bind). apply bounded_text_quiet in Ht as (bytes & -> & Hb & Hw); [|done].
    rewrite quiet_seq, quiet_note_if, quiet_bind in H. destruct H as (Hlen & seen & Hl & H). rewrite quiet_seq, quiet_all, quiet_ret in H.
    apply check_lines_quiet in Hl as (pairs & H2 & Hsub & Hu & Hf & ->); [|done]. destruct H as [Hall <-]. split; [done|].
    exists bytes, pairs. split_and!; try done. apply NoDup_Permutation; [apply Hu|done|]. intros x. split; [apply Hsub|].
    intros Hx. specialize (Hall x Hx). apply negb_false_iff in Hall. by apply bool_decide_eq_true in Hall.
  - intros (-> & bytes & pairs & Hb & Hw & H2 & Hp & Hf). eexists. split; [split; [done|apply Hb]|].
    rewrite quiet_bind. eexists. split; [apply bounded_text_quiet; [apply Hb|by exists bytes]|].
    rewrite quiet_seq, quiet_note_if, quiet_bind. split.
    + apply negb_false_iff, Nat.eqb_eq. by rewrite (Forall2_length _ _ _ H2), <- Hp, length_fmap.
    + exists pairs.*2. split.
      * apply check_lines_quiet; [done|]. exists pairs. split_and!; try done; [by rewrite Hp|]. apply unseen_empty. by rewrite Hp.
      * rewrite quiet_seq, quiet_all, quiet_ret. split; [|done]. intros x Hx. apply negb_false_iff, bool_decide_eq_true. by rewrite Hp.
Qed.
Lemma android_ffi_quiet read : quiet (check_manifest root android_ffi_manifest) read <-> read = true /\ Checksums_wf android_ffi_manifest.
Proof. apply check_manifest_quiet; [apply (bool_decide_unpack _); by vm_compute|]. repeat constructor. Qed.
Lemma android_aar_quiet u : quiet (validateAndroidNativeAarChecksum root) u <-> Checksums_wf android_aar_manifest.
Proof.
  destruct u. unfold validateAndroidNativeAarChecksum. rewrite quiet_bind. setoid_rewrite check_manifest_quiet.
  - setoid_rewrite quiet_ret. naive_solver.
  - apply (bool_decide_unpack _). by vm_compute.
  - repeat constructor.
Qed.

(** The commit file holds the candidate's commit and a newline. *)
Definition Commit_bound (commit : jsstr) : Prop :=
  exists bytes, holds ANDROID_FFI_COMMIT bytes /\ within ANDROID_FFI_COMMIT MAX_NATIVE_COMMIT_BINDING_BYTES /\
    utf8_decode bytes = commit ++ [10].
Lemma check_commit_binding_quiet metadata commit u : metadata.["commit"] = VStr commit -> matches COMMIT commit ->
  quiet (check_commit_binding root (Some metadata)) u <-> Commit_bound commit.
Proof.
  intros Hc Hm%re_match_correct. destruct u. unfold check_commit_binding, Commit_bound. rewrite Hc.
  rewrite quiet_bind. setoid_rewrite regularFile_quiet.
  assert (Hs : String_ (VStr commit) = Ok commit) by done. assert (Ht : to_string (VStr commit) = Ok commit) by done.
  split.
  - intros (f & [-> Hr] & (t & Ht' & H)%quiet_bind). apply quiet_may_throw, lang_ok in Ht'. rewrite Hs in Ht'. apply Ok_inj in Ht' as <-.
    rewrite Hm in H. cbn [negb] in H. apply quiet_bind in H as (text & Htx & H). apply bounded_text_quiet in Htx as (bytes & -> & Hb & Hw); [|done].
    apply quiet_bind in H as (c & Hc' & H). apply quiet_may_throw, lang_ok in Hc'. rewrite Ht in Hc'. apply Ok_inj in Hc' as <-.
    apply quiet_note_if, negb_false_iff, str_eqb_eq in H. eauto.
  - intros (bytes & Hb & Hw & E). eexists. split; [split; [done|apply Hb]|]. rewrite quiet_bind. exists commit.
    rewrite quiet_may_throw, lang_ok. split; [done|]. rewrite Hm. cbn [negb]. rewrite quiet_bind. eexists.
    split; [apply bounded_text_quiet; [apply Hb|by exists bytes]|]. rewrite quiet_bind. exists commit. rewrite quiet_may_throw, lang_ok.
    split; [done|]. apply quiet_note_if, negb_false_iff, str_eqb_eq, E.
Qed.

(** ** Documents *)

Lemma rejectSecretMetadata_nil value : forall field, rejectSecretMetadata value field = [] <-> free_of SECRET_KEY value.
Proof.
  induction value as [| | | | | | | |slots IH|ps IH|] using val_nested_ind; intros field;
    try (split; [intros _; by apply free_of_leaf|done]).
  - rewrite free_of_arr. cbn [rejectSecretMetadata]. generalize O. induction IH as [|o l Ho _ IHl]; intros i; [by split; [constructor|]|].
    rewrite Forall_cons. destruct o as [w|]; cbn [from_option] in *; [rewrite app_nil, IHl; specialize (Ho (field ++ js "[" ++ dec_nat i ++ js "]")); tauto|]. rewrite IHl. tauto.
  - rewrite free_of_obj. cbn [rejectSecretMetadata]. induction IH as [|[k w] l Hk _ IHl]; [by split; [constructor|]|].
    rewrite Forall_cons, !app_nil, IHl. cbn [fst snd] in *. rewrite Hk. destruct (SECRET_KEY k); naive_solver.
Qed.
(** The metadata of a candidate at [commit] and [version]. *)
Record Candidate_wf (metadata : val) (commit version : jsstr) : Prop := {
  candidate_object : is_record metadata = true;
  candidate_secrets : free_of SECRET_KEY metadata;
  candidate_schema : eq_int metadata.["schemaVersion"] 1 = true;
  candidate_kind : metadata.["kind"] = vstr "secure-keypad-release-candidate";
  candidate_claim : metadata.["claim"] = vstr "candidate-only";
  candidate_commit : metadata.["commit"] = VStr commit /\ matches COMMIT commit;
  candidate_version : metadata.["packageVersion"] = VStr version /\ matches VERSION version;
  candidate_gates : exists slots, metadata.["requiredFinalGates"] = VArr slots /\
    Forall2 (fun slot gate => from_option (fun v => v = VStr gate) True slot) slots REQUIRED_RELEASE_GATES;
}.
Lemma final_gates_ok slots l : forall i,
  (length slots = length l /\ forall j v, (j, v) ∈ present_from i slots -> eq_str v (nth (j - i) l []) = true) <->
  Forall2 (fun slot gate => from_option (fun v => v = VStr gate) True slot) slots l.
Proof.
  revert l; induction slots as [|slot slots IH]; intros [|g l] i; cbn [length].
  - split; [constructor|]. intros _. split; [done|]. by intros ? ? ?%not_elem_of_nil.
  - split; [by intros []|inversion 1].
  - split; [by intros []|inversion 1].
  - rewrite Forall2_cons, <- (IH l (S i)). cbn [present_from].
    assert (Hsh : forall j v, (j, v) ∈ present_from (S i) slots -> nth (j - i) (g :: l) [] = nth (j - S i) l []).
    { intros j v [? _]%present_from_elem. by replace (j - i)%nat with (S (j - S i)) by lia. }
    destruct slot as [w|]; cbn [from_option]; [setoid_rewrite elem_of_cons|]; split.
    + intros [[= Hlen] H]. split; [|split; [done|]].
      * specialize (H i w (or_introl eq_refl)). rewrite Nat.sub_diag in H. by apply eq_str_spec in H.
      * intros j v Hj. rewrite <- (Hsh j v Hj). apply H. by right.
    + intros (-> & -> & H). split; [done|]. intros j v [[= -> ->]|Hj]; [rewrite Nat.sub_diag; apply str_eqb_refl|]. rewrite (Hsh j v Hj). by apply H.
    + intros [[= Hlen] H]. split; [done|split; [done|]]. intros j v Hj. rewrite <- (Hsh j v Hj). by apply H.
    + intros (_ & -> & H). split; [done|]. intros j v Hj. rewrite (Hsh j v Hj). by apply H.
Qed.
Lemma is_matching_ok p v : is_matching p v = true <-> exists s, v = VStr s /\ matches p s.
Proof. unfold is_matching. destruct v; cbn; rewrite ?re_match_correct; naive_solver. Qed.
Lemma validateCandidateMetadata_quiet metadata validated :
  quiet (validateCandidateMetadata metadata) validated <->
  exists v commit version, metadata = Some v /\ validated = Some v /\ Candidate_wf v commit version.
Proof.
  assert (Hother : forall v, is_record v = false -> ~ exists w commit version, Some v = Some w /\ validated = Some w /\ Candidate_wf w commit version).
  { intros v Hv (w & c & u & [= <-] & _ & [Hr]). congruence. }
  unfold validateCandidateMetadata. destruct metadata as [v|]; [|rewrite quiet_noted; naive_solver].
  destruct (is_record v) eqn:Er; [|specialize (Hother v Er); destruct v; try done; rewrite quiet_noted; tauto].
  transitivity (validated = Some v /\ exists commit version, Candidate_wf v commit version); [|naive_solver].
  assert (Hgates : forall m, quiet (match v.["requiredFinalGates"] with
          | VArr slots =>
              note_if (negb (length slots =? length REQUIRED_RELEASE_GATES)%nat
                       || existsb (fun '(index, gate) => negb (eq_str gate (nth index REQUIRED_RELEASE_GATES []))) (present slots))
                (js "candidate metadata requiredFinalGates must match the release contract")
          | _ => note m
          end) tt <-> exists slots, v.["requiredFinalGates"] = VArr slots /\
            Forall2 (fun slot gate => from_option (fun v => v = VStr gate) True slot) slots REQUIRED_RELEASE_GATES).
  { intros m. destruct v.["requiredFinalGates"] as [| | | | | | | |slots| |]; rewrite ?quiet_note; try naive_solver.
    rewrite quiet_note_if, orb_false_iff, negb_false_iff, Nat.eqb_eq, existsb_false_Forall, Forall_forall.
    transitivity (Forall2 (fun slot gate => from_option (fun v => v = VStr gate) True slot) slots REQUIRED_RELEASE_GATES); [|naive_solver].
    rewrite <- (final_gates_ok _ _ 0). setoid_rewrite Nat.sub_0_r. split.
    - intros [? H]. split; [done|]. intros j w Hj. apply negb_false_iff, (H (j, w) Hj).
    - intros [? H]. split; [done|]. intros [j w] Hj. apply negb_false_iff, (H j w Hj). }
  destruct v as [| | | | | | | | |ps|b]; try done;
    rewrite !quiet_seq, quiet_report, !quiet_note_if, Hgates, quiet_ret, rejectSecretMetadata_nil, !negb_false_iff, !eq_str_spec, !is_matching_ok;
    (split; [intros (? & ? & ? & ? & (c & ? & ?) & (u & ? & ?) & ? & <-); split; [done|]; exists c, u; by constructor|];
     intros (-> & c & u & [? ? ? ? ? [? ?] [? ?] ?]); split_and!; eauto).
Qed.

Definition Spdx_wf (sbom : val) : Prop :=
  sbom <> VNull /\ (exists version, sbom.["spdxVersion"] = VStr (js "SPDX-" ++ version)) /\
  exists slots, sbom.["packages"] = VArr slots /\ slots <> [].
Lemma validateSpdx_quiet u : quiet (validateSpdx root) u <-> exists sbom, json_of (js "source/secure-keypad.sbom.spdx.json") sbom /\ Spdx_wf sbom.
Proof.
  destruct u. unfold validateSpdx. rewrite quiet_bind. setoid_rewrite readJson_quiet.
  transitivity (exists sbom, json_of (js "source/secure-keypad.sbom.spdx.json") sbom /\
    quiet (match sbom with VNull => Throw (Lang TypeError) | sbom =>
      _ ← note_if (negb match sbom.["spdxVersion"] with VStr s => startsWith s (js "SPDX-") | _ => false end)
            (js "source/secure-keypad.sbom.spdx.json: SPDX version is missing");
      note_if (match sbom.["packages"] with VArr (_ :: _) => false | _ => true end)
        (js "source/secure-keypad.sbom.spdx.json: SPDX packages must be non-empty") end) tt); [naive_solver|].
  apply exist_proper. intros sbom. apply and_iff_compat_l. unfold Spdx_wf.
  assert (H : quiet (_ ← note_if (negb match sbom.["spdxVersion"] with VStr s => startsWith s (js "SPDX-") | _ => false end)
            (js "source/secure-keypad.sbom.spdx.json: SPDX version is missing");
      note_if (match sbom.["packages"] with VArr (_ :: _) => false | _ => true end)
        (js "source/secure-keypad.sbom.spdx.json: SPDX packages must be non-empty")) tt <->
    (exists version, sbom.["spdxVersion"] = VStr (js "SPDX-" ++ version)) /\ exists slots, sbom.["packages"] = VArr slots /\ slots <> []).
  { rewrite quiet_seq, !quiet_note_if, negb_false_iff. f_equiv.
    - destruct sbom.["spdxVersion"] as [| | | |s| | | | | |]; try naive_solver. rewrite startsWith_spec. split; [intros [r ->]; eauto|intros [r [= ->]]; eauto].
    - destruct sbom.["packages"] as [| | | | | | | |[|o l]| |]; naive_solver. }
  destruct sbom; [rewrite H; naive_solver|by split; [|intros [? _]]|rewrite H; naive_solver..].
Qed.

(** A line of [text] starts with [heading] and ends there. *)
Definition heading_line (heading text : jsstr) : Prop :=
  exists before rest, text = before ++ heading ++ rest /\
    (before = [] \/ exists b c, before = b ++ [c] /\ is_dot_unit c = false) /\
    match rest with [] => True | c :: _ => is_dot_unit c = false end.
Lemma has_heading_spec heading text : forall at_start,
  has_heading heading text at_start = true <->
  exists before rest, text = before ++ heading ++ rest /\
    (before = [] /\ at_start = true \/ exists b c, before = b ++ [c] /\ is_dot_unit c = false) /\
    match rest with [] => True | c :: _ => is_dot_unit c = false end.
Proof.
  assert (Hhere : forall s, startsWith s heading && match drop (length heading) s with [] => true | c :: _ => negb (is_dot_unit c) end = true <->
    exists rest, s = heading ++ rest /\ match rest with [] => True | c :: _ => is_dot_unit c = false end).
  { intros s. rewrite andb_true_iff, startsWith_spec. split.
    - intros [[rest ->] H]. exists rest. rewrite drop_app_length in H. split; [done|]. destruct rest; [done|]. by apply negb_true_iff.
    - intros (rest & -> & H). split; [eauto|]. rewrite drop_app_length. destruct rest; [done|]. by apply negb_true_iff. }
  induction text as [|c text IH]; intros at_start; cbn [has_heading]; rewrite <- andb_assoc, orb_true_iff, andb_true_iff, Hhere.
  - split.
    + intros [[-> (rest & H & Hr)]|?]; [|done]. exists [], rest. by split_and!; [|left|].
    + intros (before & rest & H & [[-> ->]|(b & x & -> & _)] & Hr); [left; eauto|]. by destruct b.
  - rewrite IH. split.
    + intros [[-> (rest & H & Hr)]|(before & rest & -> & Hb & Hr)]; [exists [], rest; by split_and!; [|left|]|].
      exists (c :: before), rest. split_and!; [done| |done]. right. destruct Hb as [[-> Hc]|(b & x & -> & Hx)].
      * exists [], c. split; [done|]. by apply negb_true_iff.
      * by exists (c :: b), x.
    + intros (before & rest & H & Hb & Hr). destruct before as [|d before].
      * left. destruct Hb as [[_ ->]|(b & x & E & _)]; [|by destruct b]. split; [done|]. eauto.
      * right. injection H as <- ->. exists before, rest. split_and!; [done| |done]. destruct Hb as [[[=] _]|(b & x & E & Hx)].
        destruct b as [|y b]; cbn in E; injection E as -> ->; [left; by rewrite Hx|right; eauto].
Qed.
Lemma heading_line_spec heading text : has_heading heading text true = true <-> heading_line heading text.
Proof.
  rewrite has_heading_spec. unfold heading_line. repeat (apply exist_proper; intros ?). naive_solver.
Qed.
Definition Changelog_wf : Prop :=
  exists text, text_of (js "source/CHANGELOG.md") text /\ heading_line (js "# Changelog") text /\ heading_line (js "## Unreleased") text.
Lemma validateChangelog_quiet u : quiet (validateChangelog root) u <-> Changelog_wf.
Proof.
  destruct u. unfold validateChangelog, Changelog_wf. rewrite quiet_bind. setoid_rewrite read_text_quiet. split.
  - intros (t & (text & -> & Ht) & H). rewrite quiet_seq, !quiet_note_if, !negb_false_iff, !heading_line_spec in H. eauto.
  - intros (text & Ht & H). exists (Some text). split; [eauto|]. by rewrite quiet_seq, !quiet_note_if, !negb_false_iff, !heading_line_spec.
Qed.
(** A document contains each of its texts. *)
Definition Document_wf (document : jsstr * list (jsstr * jsstr)) : Prop :=
  exists text, text_of document.1 text /\ forall pattern, pattern ∈ document.2.*1 -> includes text pattern = true.
Lemma validatePublicDocuments_quiet u : quiet (validatePublicDocuments root) u <-> Forall Document_wf public_documents.
Proof.
  unfold validatePublicDocuments. rewrite quiet_each. apply Forall_proper; [|done]. intros [rel checks]. unfold check_document, Document_wf.
  rewrite quiet_bind. setoid_rewrite read_text_quiet. cbn [fst snd].
  assert (H : forall text, quiet (each (fun '(pattern, detail) => note_if (negb (includes text pattern)) (rel ++ js ": " ++ detail)) checks) tt <->
    forall pattern, pattern ∈ checks.*1 -> includes text pattern = true).
  { intros text. rewrite quiet_each, Forall_forall. setoid_rewrite list_elem_of_fmap. split.
    - intros H pattern ([p d] & -> & Hp). specialize (H _ Hp). by apply quiet_note_if, negb_false_iff in H.
    - intros H [p d] Hp. apply quiet_note_if, negb_false_iff, H. by exists (p, d). }
  split.
  - intros (t & (text & -> & Ht) & Hq). exists text. split; [done|]. apply (H text), Hq.
  - intros (text & Ht & Hp). exists (Some text). split; [eauto|]. by apply H.
Qed.
Definition Platform_document : Prop :=
  exists policy, json_of (js "source/docs/PLATFORM-SUPPORT.json") policy /\
    PlatformSupport.validatePlatformSupportPolicy other_format policy = Ok [].
Lemma validatePlatformSupportDocument_quiet u : quiet (validatePlatformSupportDocument root) u <-> Platform_document.
Proof.
  destruct u. unfold validatePlatformSupportDocument, Platform_document. rewrite quiet_bind. setoid_rewrite readJson_quiet. split.
  - intros (t & (policy & -> & Hp) & (findings & Hf & H)%quiet_bind). apply quiet_may_throw, lang_ok in Hf. rewrite quiet_each in H.
    exists policy. split; [done|]. rewrite Hf. f_equal. destruct H as [|f l H _]; [done|]. by apply quiet_note in H.
  - intros (policy & Hp & Hf). exists (Some policy). split; [eauto|]. rewrite quiet_bind. exists []. rewrite quiet_may_throw, lang_ok. split; [done|].
    rewrite quiet_each. constructor.
Qed.
End spec.
