(* ===== verification/BundlePackages.v ===== *)
(** * The packages of the release bundle

    What the checks of the npm and crate archives, of the iOS checksum manifest and of the
    packaged libraries decide. *)

From S2P Require Import Prelude JsNumber Regex JsValue JsText PathProps Host Disk ReleaseEvidence ReleaseFragment.
From S2P Require Import ReleaseArchive ReleaseBundle ReleaseBundleSpec.
Open Scope js_scope.

Section packages.
Context {bundle : BundleHost} (laws : BundleLaws bundle) (r : list jsstr) (Hr : Forall proper r).
Local Abbreviation root := (abspath r).
Local Abbreviation below := (Lists r).

(** ** Archives *)

Definition archive_lines (listing : jsstr) : list jsstr := nonempty (map (fun line => trim (drop_dot line)) (split 10 listing)).
(** The archive [rel] lists [l]. *)
Definition archived (rel : jsstr) (l : list jsstr) : Prop :=
  regular root rel /\ exists listing, tar_list (path_join root rel) = Ok listing /\ l = archive_lines listing.
Definition Archive_has (rel : jsstr) (required : list jsstr) : Prop := exists l, archived rel l /\ required ⊆ l.
Lemma archived_fun rel l k : archived rel l -> archived rel k -> l = k.
Proof. intros (_ & x & Hx & ->) (_ & y & Hy & ->). congruence. Qed.
Lemma archiveEntries_quiet p l : quiet (archiveEntries p) l <-> exists listing, tar_list p = Ok listing /\ l = archive_lines listing.
Proof. unfold archiveEntries. destruct (tar_list p); [rewrite quiet_ret|rewrite quiet_noted]; naive_solver. Qed.
Lemma archiveEntryBytes_quiet p entry o : quiet (archiveEntryBytes p entry) o <-> exists bytes, tar_extract p entry = Ok bytes /\ o = Some bytes.
Proof. unfold archiveEntryBytes. destruct (tar_extract p entry); [rewrite quiet_ret|rewrite quiet_noted]; naive_solver. Qed.
Lemma required_quiet l (message : jsstr -> jsstr) required u :
  quiet (each (fun e => note_if (negb (str_in e l)) (message e)) required) u <-> required ⊆ l.
Proof. rewrite quiet_all. setoid_rewrite negb_false_iff. setoid_rewrite str_in_elem. done. Qed.

Definition npm_entry (version name : jsstr) (entry : jsstr * list jsstr) : Prop :=
  entry.1 = npm_archive version name /\ archived entry.1 entry.2 /\ npm_required name ⊆ entry.2.
Lemma check_npm_quiet version m name m' :
  quiet (check_npm root version m name) m' <-> exists entry, npm_entry version name entry /\ m' = m ++ [entry].
Proof.
  unfold check_npm, npm_entry, archived. rewrite quiet_bind. setoid_rewrite regularFile_quiet. split.
  - intros (f & [-> Hf] & (l & (listing & Hl & El)%archiveEntries_quiet & H)%quiet_bind). rewrite quiet_seq, required_quiet, quiet_ret in H.
    destruct H as [Hreq <-]. exists (npm_archive version name, l). split_and!; cbn; eauto.
  - intros ([rel l] & (E & (Hf & listing & Hl & El) & Hreq) & ->). cbn [fst snd] in *. subst rel. eexists. split; [done|]. rewrite quiet_bind. exists l.
    rewrite archiveEntries_quiet, quiet_seq, required_quiet, quiet_ret. split_and!; try done. by exists listing.
Qed.
Lemma npm_quiet version names : forall m m',
  quiet (loop (check_npm root version) m names) m' <-> exists more, Forall2 (npm_entry version) names more /\ m' = m ++ more.
Proof.
  induction names as [|name names IH]; intros m m'.
  - cbn [loop]. rewrite quiet_ret. split; [intros <-; exists []; by rewrite app_nil_r|]. intros (more & H & ->). inversion H. by rewrite app_nil_r.
  - rewrite quiet_loop_cons. setoid_rewrite check_npm_quiet. setoid_rewrite IH. split.
    + intros (m1 & (entry & He & ->) & more & H & ->). exists (entry :: more). rewrite <- app_assoc. split; [by constructor|done].
    + intros (more & H & ->). inversion H as [|? entry ? more' He H']; subst. exists (m ++ [entry]). split; [eauto|]. exists more'. by rewrite <- app_assoc.
Qed.
Lemma entries_of_archived m k : Forall (fun entry => archived entry.1 entry.2) m -> k ∈ m.*1 -> archived k (entries_of m k).
Proof.
  induction 1 as [|[p l] m Hp _ IH]; [by intros ?%not_elem_of_nil|]. cbn. destruct (str_eqb k p) eqn:E.
  - apply str_eqb_eq in E as ->. done.
  - intros [->|H]%elem_of_cons; [by rewrite str_eqb_refl in E|by apply IH].
Qed.
(** Only the listing of the React Native archive is used afterwards. *)
Lemma validateNpmArchives_quiet version (P : list jsstr -> Prop) :
  (exists m, quiet (validateNpmArchives root version) m /\ P (entries_of m (react_native_archive version))) <->
  (forall name, name ∈ NPM_PACKAGES -> Archive_has (npm_archive version name) (npm_required name)) /\
  exists l, archived (react_native_archive version) l /\ P l.
Proof.
  unfold validateNpmArchives. setoid_rewrite npm_quiet. split.
  - intros (m & (more & H & ->) & HP). cbn [app] in HP. split.
    + intros name (i & Hi)%list_elem_of_lookup. destruct (Forall2_lookup_l _ _ _ _ _ H Hi) as ([rel l] & _ & E & Ha & Hreq). cbn in *. subst. by exists l.
    + eexists. split; [|exact HP]. apply entries_of_archived.
      * apply Forall_forall. intros e (i & Hi)%list_elem_of_lookup. by destruct (Forall2_lookup_r _ _ _ _ _ H Hi) as (name & _ & _ & ? & _).
      * assert (Hin : js "secure-keypad-react-native" ∈ NPM_PACKAGES) by (right; left). apply list_elem_of_lookup in Hin as [i Hi].
        destruct (Forall2_lookup_l _ _ _ _ _ H Hi) as (e & He & E & _). apply list_elem_of_fmap. exists e. split; [done|]. by eapply list_elem_of_lookup_2.
  - intros [Hall (l & Hl & HP)].
    assert (Hm : exists m, Forall2 (npm_entry version) NPM_PACKAGES m).
    { clear -Hall. induction NPM_PACKAGES as [|name names IH]; [by exists []|].
      destruct IH as [m Hm]; [intros; apply Hall; by right|]. destruct (Hall name) as (l & Hl & Hreq); [left|].
      exists ((npm_archive version name, l) :: m). by constructor. }
    destruct Hm as [m Hm]. exists m. split; [by exists m|]. replace (entries_of m _) with l; [done|]. apply (archived_fun _ _ _ Hl).
    apply entries_of_archived.
    + apply Forall_forall. intros e (i & Hi)%list_elem_of_lookup. by destruct (Forall2_lookup_r _ _ _ _ _ Hm Hi) as (name & _ & _ & ? & _).
    + assert (Hin : js "secure-keypad-react-native" ∈ NPM_PACKAGES) by (right; left). apply list_elem_of_lookup in Hin as [i Hi].
      destruct (Forall2_lookup_l _ _ _ _ _ Hm Hi) as (e & He & E & _). apply list_elem_of_fmap. exists e. split; [done|]. by eapply list_elem_of_lookup_2.
Qed.
Definition crate_required (version name : jsstr) : list jsstr :=
  map (fun file => name ++ js "-" ++ version ++ file) [js "/Cargo.toml"; js "/README.md"].
Lemma validateRustArchives_quiet version u :
  quiet (validateRustArchives root version) u <->
  forall name, name ∈ RUST_CRATES -> Archive_has (crate_archive version name) (crate_required version name).
Proof.
  unfold validateRustArchives. rewrite quiet_each, Forall_forall. apply forall_proper. intros name. apply forall_proper. intros _.
  unfold check_crate, Archive_has, archived, crate_required. rewrite quiet_bind. setoid_rewrite regularFile_quiet.
  assert (Hmap : forall l, quiet (each (fun file => note_if (negb (str_in (name ++ js "-" ++ version ++ file) l))
          (crate_archive version name ++ js ": crate archive must contain " ++ name ++ js "-" ++ version ++ file))
        [js "/Cargo.toml"; js "/README.md"]) tt <-> map (fun file => name ++ js "-" ++ version ++ file) [js "/Cargo.toml"; js "/README.md"] ⊆ l).
  { intros l. rewrite quiet_all. setoid_rewrite negb_false_iff. setoid_rewrite str_in_elem. split.
    - intros H x (file & -> & Hf)%list_elem_of_fmap. by apply H.
    - intros H file Hf. apply H, list_elem_of_fmap. by exists file. }
  split.
  - intros (f & [-> Hf] & (l & (listing & Hl & El)%archiveEntries_quiet & H)%quiet_bind). apply Hmap in H. eauto 10.
  - intros (l & (Hf & listing & Hl & El) & H). eexists. split; [done|]. rewrite quiet_bind. exists l. rewrite archiveEntries_quiet, Hmap. split; [by exists listing|done].
Qed.

(** ** The iOS framework *)

Definition framework_components : list jsstr :=
  map js ["source"; "packages"; "flutter"; "ios"; "secure_ffi.xcframework"]%string.
Lemma framework_source : IOS_PACKAGE_XCFRAMEWORK_SOURCE = join sep framework_components.
Proof. done. Qed.
Lemma framework_proper : Forall proper framework_components.
Proof.
  assert (H : forall c, forallb (fun x => negb (x =? slash)) c = true -> slash ∉ c).
  { intros c Hc Hin. apply forallb_Forall in Hc. rewrite Forall_forall in Hc. by apply Hc in Hin. }
  repeat constructor; try done; by apply H.
Qed.
Local Abbreviation framework := (below IOS_PACKAGE_XCFRAMEWORK_SOURCE).
Lemma framework_files p k : (p, k) ∈ list_files root IOS_PACKAGE_XCFRAMEWORK_SOURCE <-> framework p k.
Proof. rewrite framework_source. apply list_files_spec; [done..|apply framework_proper]. Qed.
(** A file of the framework lies below it. *)
Lemma framework_prefix p k : framework p k -> k <> Directory /\ p = IOS_PACKAGE_XCFRAMEWORK_SOURCE ++ sep ++ framework_path p.
Proof.
  rewrite framework_source. intros H. destruct (Lists_below laws r _ _ _ H _ eq_refl framework_proper) as (Hk & l & Hne & Hl & ->).
  split; [done|]. by rewrite join_app.
Qed.

(** The archive's copy of [entry] has the digest of the source file [rel]. *)
Definition Same_bytes (version entry rel : jsstr) : Prop :=
  exists l packed source, archived (react_native_archive version) l /\ entry ∈ l /\
    tar_extract (path_join root (react_native_archive version)) entry = Ok packed /\
    readFileSync (path_join root rel) = Ok source /\ sha256 packed = sha256 source.
(** The entry of a framework file in the archive. *)
Definition framework_entry (p : jsstr) : jsstr := IOS_PACKAGE_XCFRAMEWORK_ARCHIVE_PREFIX ++ sep ++ framework_path p.
Definition packed_same (version : jsstr) (l : list jsstr) (entry rel : jsstr) : Prop :=
  entry ∈ l /\ exists packed source, tar_extract (path_join root (react_native_archive version)) entry = Ok packed /\
    readFileSync (path_join root rel) = Ok source /\ sha256 packed = sha256 source.
Lemma compare_quiet archivePath entry p (message : jsstr) u :
  quiet (archiveBytes ← archiveEntryBytes archivePath entry;
         match archiveBytes with
         | None => mret tt
         | Some archiveBytes =>
             sourceBytes ← file_bytes p; note_if (negb (str_eqb (sha256 archiveBytes) (sha256 sourceBytes))) message
         end) u <->
  exists packed source, tar_extract archivePath entry = Ok packed /\ readFileSync p = Ok source /\ sha256 packed = sha256 source.
Proof.
  rewrite quiet_bind. setoid_rewrite archiveEntryBytes_quiet. split.
  - intros (o & (packed & Hp & ->) & (source & Hs%file_bytes_quiet & H)%quiet_bind). apply quiet_note_if, negb_false_iff, str_eqb_eq in H. eauto.
  - intros (packed & source & Hp & Hs & E). exists (Some packed). split; [eauto|]. rewrite quiet_bind. exists source. rewrite file_bytes_quiet.
    split; [done|]. by apply quiet_note_if, negb_false_iff, str_eqb_eq.
Qed.
Lemma check_framework_file_quiet version l expected f expected' :
  quiet (check_framework_file root version (path_join root (react_native_archive version)) l expected f) expected' <->
  f.2 = RegularFile /\ packed_same version l (framework_entry f.1) f.1 /\ expected' = set_add (framework_entry f.1) expected.
Proof.
  unfold check_framework_file, packed_same. fold (framework_entry f.1). case_bool_decide as Hk; cbn [negb]; [|rewrite quiet_noted; naive_solver].
  rewrite <- str_in_elem. destruct (str_in _ _); cbn [negb]; [|rewrite quiet_noted; naive_solver].
  rewrite quiet_bind. setoid_rewrite archiveEntryBytes_quiet. split.
  - intros (o & (packed & Hp & ->) & (source & Hs%file_bytes_quiet & H)%quiet_bind). rewrite quiet_seq, quiet_note_if, negb_false_iff, str_eqb_eq, quiet_ret in H.
    destruct H as [H <-]. split_and!; eauto 10.
  - intros (_ & (_ & packed & source & Hp & Hs & E) & ->). exists (Some packed). split; [eauto|]. rewrite quiet_bind. exists source. rewrite file_bytes_quiet.
    split; [done|]. by rewrite quiet_seq, quiet_note_if, negb_false_iff, str_eqb_eq, quiet_ret.
Qed.
Lemma check_framework_files_quiet version l files : forall expected expected',
  quiet (loop (check_framework_file root version (path_join root (react_native_archive version)) l) expected files) expected' <->
  Forall (fun f => f.2 = RegularFile /\ packed_same version l (framework_entry f.1) f.1) files /\
  expected' = foldl (fun s f => set_add (framework_entry f.1) s) expected files.
Proof.
  induction files as [|f files IH]; intros expected expected'.
  - cbn. rewrite quiet_ret. split; [by intros ->|by intros [_ ->]].
  - rewrite quiet_loop_cons, Forall_cons. setoid_rewrite check_framework_file_quiet. setoid_rewrite IH. cbn [foldl]. naive_solver.
Qed.
Lemma expected_elem files expected x :
  x ∈ foldl (fun s (f : jsstr * FileKind) => set_add (framework_entry f.1) s) expected files <->
  x ∈ expected \/ exists f, f ∈ files /\ x = framework_entry f.1.
Proof.
  revert expected; induction files as [|f files IH]; intros expected; cbn [foldl].
  - split; [by left|]. by intros [|(? & ?%not_elem_of_nil & _)].
  - rewrite IH, elem_of_set_add. setoid_rewrite elem_of_cons. naive_solver.
Qed.
Lemma unique_elem (l : list jsstr) x : x ∈ unique l <-> x ∈ l.
Proof.
  unfold unique. transitivity (x ∈ @nil jsstr \/ x ∈ l); [|rewrite elem_of_nil; tauto]. generalize (@nil jsstr).
  induction l as [|y l IH]; intros s; cbn [foldl]; [rewrite elem_of_nil; tauto|]. rewrite IH, elem_of_set_add, elem_of_cons. tauto.
Qed.
(** The archive holds the framework, nothing else in its directory, and the library. *)
Definition Packaged_ios (version : jsstr) (l : list jsstr) : Prop :=
  (forall p k, framework p k -> k = RegularFile /\ packed_same version l (framework_entry p) p) /\
  (forall x, x ∈ l -> is_framework_entry x = true -> exists p k, framework p k /\ x = framework_entry p) /\
  regular root IOS_PACKAGE_LIBRARY_SOURCE /\
  (IOS_PACKAGE_LIBRARY_ARCHIVE ∈ l -> packed_same version l IOS_PACKAGE_LIBRARY_ARCHIVE IOS_PACKAGE_LIBRARY_SOURCE).
Lemma validatePackagedIosFfi_quiet version m u : regular root (react_native_archive version) ->
  quiet (validatePackagedIosFfi root version m) u <-> Packaged_ios version (entries_of m (react_native_archive version)).
Proof.
  intros Ha. set (l := entries_of m _). unfold validatePackagedIosFfi, Packaged_ios. rewrite quiet_bind. fold l.
  assert (Hlib : quiet (sourceLibrary ← regularFile root IOS_PACKAGE_LIBRARY_SOURCE;
      match sourceLibrary with
      | Some sourceLibrary =>
          if negb (str_in IOS_PACKAGE_LIBRARY_ARCHIVE l) then mret tt else
          archiveBytes ← archiveEntryBytes (path_join root (react_native_archive version)) IOS_PACKAGE_LIBRARY_ARCHIVE;
          match archiveBytes with
          | None => mret tt
          | Some archiveBytes =>
              sourceBytes ← file_bytes sourceLibrary;
              note_if (negb (str_eqb (sha256 archiveBytes) (sha256 sourceBytes)))
                (js "React Native iOS FFI libsecure_ffi.a: packaged bytes do not match signed source")
          end
      | None => mret tt
      end) u <-> regular root IOS_PACKAGE_LIBRARY_SOURCE /\
     (IOS_PACKAGE_LIBRARY_ARCHIVE ∈ l -> packed_same version l IOS_PACKAGE_LIBRARY_ARCHIVE IOS_PACKAGE_LIBRARY_SOURCE)).
  { rewrite quiet_bind. setoid_rewrite regularFile_quiet. unfold packed_same. rewrite <- str_in_elem.
    transitivity (regular root IOS_PACKAGE_LIBRARY_SOURCE /\ quiet (if negb (str_in IOS_PACKAGE_LIBRARY_ARCHIVE l) then mret tt else
          archiveBytes ← archiveEntryBytes (path_join root (react_native_archive version)) IOS_PACKAGE_LIBRARY_ARCHIVE;
          match archiveBytes with
          | None => mret tt
          | Some archiveBytes =>
              sourceBytes ← file_bytes (path_join root IOS_PACKAGE_LIBRARY_SOURCE);
              note_if (negb (str_eqb (sha256 archiveBytes) (sha256 sourceBytes)))
                (js "React Native iOS FFI libsecure_ffi.a: packaged bytes do not match signed source")
          end) u); [naive_solver|].
    f_equiv. destruct (str_in _ _); cbn [negb]; [rewrite compare_quiet; naive_solver|rewrite quiet_ret; destruct u; naive_solver]. }
  transitivity ((forall p k, framework p k -> k = RegularFile /\ packed_same version l (framework_entry p) p) /\
    (forall x, x ∈ l -> is_framework_entry x = true -> exists p k, framework p k /\ x = framework_entry p) /\
    (regular root IOS_PACKAGE_LIBRARY_SOURCE /\ (IOS_PACKAGE_LIBRARY_ARCHIVE ∈ l -> packed_same version l IOS_PACKAGE_LIBRARY_ARCHIVE IOS_PACKAGE_LIBRARY_SOURCE)));
    [rewrite <- Hlib|done].
  setoid_rewrite regularFile_quiet. setoid_rewrite <- framework_files. split.
  - intros (f & [-> _] & (expected & [Hf ->]%check_framework_files_quiet & [Hx H]%quiet_seq)%quiet_bind). rewrite Forall_forall in Hf.
    split; [intros p k Hp; apply (Hf (p, k) Hp)|]. split; [|exact H]. intros x Hx' Hfx. rewrite quiet_all in Hx.
    assert (Hin : x ∈ unique (filter (fun entry => is_framework_entry entry = true) l)) by by apply unique_elem, list_elem_of_filter.
    apply Hx, negb_false_iff, bool_decide_eq_true, expected_elem in Hin as [?%not_elem_of_nil|([p k] & Hp & ->)]; [done|]. eauto.
  - intros (Hf & Hx & H). eexists. split; [done|]. rewrite quiet_bind. eexists. split.
    + apply check_framework_files_quiet. split; [|done]. apply Forall_forall. intros [p k] Hp. by apply Hf.
    + rewrite quiet_seq. split; [|exact H]. rewrite quiet_all. intros x [Hfx Hxl]%unique_elem%list_elem_of_filter.
      apply negb_false_iff, bool_decide_eq_true, expected_elem. right. destruct (Hx x Hxl Hfx) as (p & k & Hp & ->). by exists (p, k).
Qed.

(** ** The Android libraries *)

Definition Android_same (version : jsstr) (l : list jsstr) (entry : PackageFfi) : Prop :=
  exists source flutter, holds root (sourcePath entry) source /\ holds root (flutterPath entry) flutter /\ sha256 flutter = sha256 source /\
    (reactNativeArchivePath entry ∈ l -> exists packed,
       tar_extract (path_join root (react_native_archive version)) (reactNativeArchivePath entry) = Ok packed /\ sha256 packed = sha256 source).
Lemma check_android_entry_quiet version l entry u :
  quiet (check_android_entry root (Some (path_join root (react_native_archive version))) l entry) u <-> Android_same version l entry.
Proof.
  destruct u. unfold check_android_entry, Android_same, holds. rewrite quiet_bind. setoid_rewrite regularFile_quiet.
  assert (Hpacked : forall source, quiet (if negb (str_in (reactNativeArchivePath entry) l) then mret tt else
      archiveBytes ← archiveEntryBytes (path_join root (react_native_archive version)) (reactNativeArchivePath entry);
      match archiveBytes with
      | Some bytes => note_if (negb (str_eqb (sha256 bytes) (sha256 source)))
          (js "React Native Android FFI " ++ abi entry ++ js ": packaged bytes do not match signed source " ++ sourcePath entry)
      | None => mret tt
      end) tt <-> (reactNativeArchivePath entry ∈ l -> exists packed,
       tar_extract (path_join root (react_native_archive version)) (reactNativeArchivePath entry) = Ok packed /\ sha256 packed = sha256 source)).
  { intros source. rewrite <- str_in_elem. destruct (str_in _ _); cbn [negb]; [|rewrite quiet_ret; naive_solver].
    rewrite quiet_bind. setoid_rewrite archiveEntryBytes_quiet. split.
    - intros (o & (packed & Hp & ->) & H) _. apply quiet_note_if, negb_false_iff, str_eqb_eq in H. eauto.
    - intros H. destruct (H eq_refl) as (packed & Hp & E). exists (Some packed). split; [eauto|]. by apply quiet_note_if, negb_false_iff, str_eqb_eq. }
  split.
  - intros (f & [-> Hf] & (source & Hs%file_bytes_quiet & H)%quiet_bind). apply quiet_bind in H as (g & [-> Hg]%regularFile_quiet & H).
    apply quiet_seq in H as [(flutter & Hfl%file_bytes_quiet & Hd)%quiet_bind Hp]. apply quiet_note_if, negb_false_iff, str_eqb_eq in Hd.
    pose proof (proj1 (Hpacked source) Hp). by exists source, flutter.
  - intros (source & flutter & [Hf Hs] & [Hg Hfl] & Hd & Hp). eexists. split; [done|]. rewrite quiet_bind. exists source. rewrite file_bytes_quiet.
    split; [done|]. rewrite quiet_bind. eexists. split; [by apply regularFile_quiet|]. rewrite quiet_seq, quiet_bind. split; [|by apply (proj2 (Hpacked source))].
    exists flutter. rewrite file_bytes_quiet. split; [done|]. by apply quiet_note_if, negb_false_iff, str_eqb_eq.
Qed.
Lemma validatePackagedAndroidFfi_quiet version m u : regular root (react_native_archive version) ->
  quiet (validatePackagedAndroidFfi root version m) u <->
  Forall (Android_same version (entries_of m (react_native_archive version))) ANDROID_PACKAGE_FFI_ENTRIES.
Proof.
  intros Ha. unfold validatePackagedAndroidFfi. rewrite quiet_bind. setoid_rewrite regularFile_quiet. setoid_rewrite quiet_each. split.
  - intros (f & [-> _] & H). eapply Forall_impl; [exact H|]. intros e He. by apply check_android_entry_quiet in He.
  - intros H. eexists. split; [done|]. eapply Forall_impl; [exact H|]. intros e He. by apply check_android_entry_quiet.
Qed.

(** ** The iOS checksum manifest *)

(** A line with its path, normalised, and digest. *)
Definition ios_pair (line : jsstr) (pair : jsstr * jsstr) : Prop :=
  exists value, checksum_line is_dot_unit line = Some (pair.2, value) /\ normalizeChecksumPath value = Some pair.1.
Lemma ios_line_quiet es i line es' : line <> [] ->
  quiet (ios_line es (i, line)) es' <-> exists pair, ios_pair line pair /\ (pair.1 ∉ es.*1) /\ es' = es ++ [pair].
Proof.
  intros Hne. unfold ios_line, ios_pair. destruct line as [|c line]; [done|]. set (s := c :: line) in *.
  destruct (checksum_line is_dot_unit s) as [[hash value]|]; [|rewrite quiet_noted; naive_solver].
  destruct (normalizeChecksumPath value) as [p|] eqn:En; [|rewrite quiet_noted; naive_solver].
  transitivity ((p ∉ es.*1) /\ es' = es ++ [(p, hash)]).
  - rewrite <- str_in_elem. destruct (str_in p es.*1); [rewrite quiet_noted; naive_solver|]. rewrite quiet_ret. naive_solver.
  - split; [intros [? ->]; exists (p, hash); split_and!; [by exists value|done|done]|].
    intros ([q h] & (v & [= <- <-] & Hv) & Hn & ->). cbn in *. rewrite En in Hv. by injection Hv as <-.
Qed.
Lemma ios_lines_quiet lines : forall i es es',
  quiet (loop ios_line es (indexed_from i lines)) es' <->
  exists more, Forall2 ios_pair (nonempty lines) more /\ unseen es.*1 more.*1 /\ es' = es ++ more.
Proof.
  induction lines as [|line lines IH]; intros i es es'.
  - cbn. rewrite quiet_ret. split; [intros <-; exists []; rewrite app_nil_r; split_and!; [constructor|apply unseen_nil|done]|].
    intros (more & H & _ & ->). inversion H. by rewrite app_nil_r.
  - cbn [indexed_from]. rewrite quiet_loop_cons. unfold nonempty in *. destruct line as [|c line].
    { rewrite filter_cons_False by naive_solver. setoid_rewrite IH. unfold ios_line. setoid_rewrite quiet_ret. naive_solver. }
    rewrite filter_cons_True by done. set (s := c :: line). setoid_rewrite ios_line_quiet; [|done..]. setoid_rewrite IH. split.
    + intros (e1 & (pair & Hp & Hn & ->) & more & H & Hu & ->). exists (pair :: more). rewrite <- app_assoc. split_and!; [by constructor| |done].
      cbn [fmap list_fmap]. change (pair.1 :: more.*1) with ([pair.1] ++ more.*1). rewrite unseen_app, unseen_single. split; [done|].
      by rewrite fmap_app in Hu.
    + intros (more & H & Hu & ->). inversion H as [|? pair ? more' Hp H']; subst. cbn [fmap list_fmap] in Hu.
      change (pair.1 :: more'.*1) with ([pair.1] ++ more'.*1) in Hu. rewrite unseen_app, unseen_single in Hu. destruct Hu as [Hn Hu].
      exists (es ++ [pair]). split; [eauto|]. exists more'. rewrite fmap_app, <- app_assoc. by split_and!.
Qed.

(** The table of expected entries, a map from names. *)
Lemma set_expected_elem m k e k' e' : NoDup m.*1 ->
  (k', e') ∈ set_expected m k e <-> (k' = k /\ e' = e) \/ (k' <> k /\ (k', e') ∈ m).
Proof.
  induction m as [|[k0 e0] m IH]; cbn; [rewrite elem_of_cons, elem_of_nil; naive_solver|].
  intros [Hn Hd]%NoDup_cons. destruct (str_eqb k k0) eqn:E.
  - apply str_eqb_eq in E as ->. rewrite !elem_of_cons. split.
    + intros [[= -> ->]|H]; [by left|]. right. split; [|by right]. intros ->. apply Hn, list_elem_of_fmap. by exists (k0, e').
    + intros [[-> ->]|[Hk [[= -> ->]|H]]]; [by left|done|by right].
  - rewrite !elem_of_cons, IH by done. split; [|naive_solver]. intros [[= -> ->]|[H|[? ?]]]; [|by left|naive_solver].
    right. split; [|by left]. intros ->. by rewrite str_eqb_refl in E.
Qed.
Lemma set_expected_keys m k e x : x ∈ (set_expected m k e).*1 <-> x = k \/ x ∈ m.*1.
Proof.
  induction m as [|[k0 e0] m IH]; cbn; [rewrite elem_of_cons, elem_of_nil; tauto|]. destruct (str_eqb k k0) eqn:E; cbn; rewrite !elem_of_cons.
  - apply str_eqb_eq in E as ->. tauto.
  - rewrite IH. tauto.
Qed.
Lemma set_expected_NoDup m k e : NoDup m.*1 -> NoDup (set_expected m k e).*1.
Proof.
  induction m as [|[k0 e0] m IH]; cbn; [intros; apply NoDup_singleton|]. intros Hd. pose proof Hd as [Hn Hd']%NoDup_cons.
  destruct (str_eqb k k0) eqn:E; cbn; [exact Hd|]. apply NoDup_cons. split; [|by apply IH]. rewrite set_expected_keys. intros [->|?]; [|done].
  by rewrite str_eqb_refl in E.
Qed.
Definition set_all (xs : list (jsstr * Expected)) : list (jsstr * Expected) := foldl (fun m x => set_expected m x.1 x.2) [] xs.
Lemma set_all_elem xs : (forall k e e', (k, e) ∈ xs -> (k, e') ∈ xs -> e = e') -> forall k e, (k, e) ∈ set_all xs <-> (k, e) ∈ xs.
Proof.
  unfold set_all. induction xs as [|[k0 e0] xs IH] using rev_ind; intros Hfun k e; [done|]. rewrite foldl_app. cbn [foldl fst snd].
  assert (Hd : NoDup (foldl (fun m x => set_expected m x.1 x.2) [] xs).*1).
  { apply (foldl_inv (fun m : list (jsstr * Expected) => NoDup m.*1)); [|constructor]. intros m x _. apply set_expected_NoDup. }
  rewrite set_expected_elem by done. rewrite IH.
  - rewrite elem_of_app, list_elem_of_singleton. split; [naive_solver|]. intros [H|[= -> ->]]; [|by left]. destruct (decide (k = k0)) as [->|]; [|by right].
    left. split; [done|]. apply (Hfun k0); apply elem_of_app; [by left|right; by left].
  - intros k1 e1 e2 H1 H2. apply (Hfun k1); apply elem_of_app; by left.
Qed.

Definition framework_expected (f : jsstr * FileKind) : list (jsstr * Expected) :=
  [(js "flutter/ios/secure_ffi.xcframework/" ++ framework_path f.1, SourceFile f.1);
   (js "react-native/secure_ffi.xcframework/" ++ framework_path f.1, ArchiveEntry (js "package/secure_ffi.xcframework/" ++ framework_path f.1))].
Definition fixed_expected (commit : jsstr) : list (jsstr * Expected) :=
  [(js "flutter/ios/libsecure_ffi.a", SourceFile IOS_PACKAGE_LIBRARY_SOURCE);
   (js "react-native/libsecure_ffi.a", ArchiveEntry IOS_PACKAGE_LIBRARY_ARCHIVE);
   (js "secure-keypad-ios-ffi.commit", Literal (utf8_encode (commit ++ [10])))].
(** The manifest names the entry [k], whose bytes are at [e]. *)
Definition Expects (commit k : jsstr) (e : Expected) : Prop :=
  (exists p, framework p RegularFile /\ (k, e) ∈ framework_expected (p, RegularFile)) \/ (k, e) ∈ fixed_expected commit.
Lemma Expects_fun commit k e e' : Expects commit k e -> Expects commit k e' -> e = e'.
Proof.
  assert (Hp : forall p q, framework p RegularFile -> framework q RegularFile -> framework_path p = framework_path q -> p = q).
  { intros p q [_ Ep]%framework_prefix [_ Eq]%framework_prefix E. by rewrite Ep, Eq, E. }
  assert (Hin : forall (k : jsstr) (e : Expected) a b l, (k, e) ∈ (a, b) :: l <-> (k = a /\ e = b) \/ (k, e) ∈ l).
  { intros. by rewrite elem_of_cons, pair_equal_spec. }
  unfold Expects, framework_expected, fixed_expected. repeat setoid_rewrite Hin. setoid_rewrite elem_of_nil. cbn [fst].
  intros [(p & Hfp & [[-> ->]|[[-> ->]|[]]])|[[-> ->]|[[-> ->]|[[-> ->]|[]]]]]
    [(q & Hfq & [[H ->]|[[H ->]|[]]])|[[H ->]|[[H ->]|[[H ->]|[]]]]];
    try done; try (exfalso; vm_compute in H; discriminate H); apply (app_inv_head (js _)) in H; by rewrite (Hp p q) by done.
Qed.
Lemma expect_framework_quiet files : forall m m',
  quiet (loop expect_framework m files) m' <->
  Forall (fun f => f.2 = RegularFile) files /\ m' = foldl (fun m x => set_expected m x.1 x.2) m (flat_map framework_expected files).
Proof.
  induction files as [|f files IH]; intros m m'.
  - cbn. rewrite quiet_ret. split; [by intros ->|by intros [_ ->]].
  - rewrite quiet_loop_cons, Forall_cons. setoid_rewrite IH. cbn [flat_map]. rewrite foldl_app. unfold expect_framework at 1.
    case_bool_decide as Hk; cbn [negb]; [setoid_rewrite quiet_ret|setoid_rewrite quiet_noted]; naive_solver.
Qed.
(** Where the bytes can be had they have the digest. *)
Definition digest_at (version : jsstr) (l : list jsstr) (e : Expected) (hash : jsstr) : Prop :=
  match e with
  | Literal bytes => sha256 bytes = hash
  | SourceFile p => exists bytes, readFileSync (path_join root p) = Ok bytes /\ sha256 bytes = hash
  | ArchiveEntry p => p ∈ l -> exists bytes, tar_extract (path_join root (react_native_archive version)) p = Ok bytes /\ sha256 bytes = hash
  end.
Lemma find_hash_elem es k h : NoDup es.*1 -> find_hash es k = Some h <-> (k, h) ∈ es.
Proof.
  induction es as [|[k0 h0] es IH]; cbn; [by split; [|intros ?%not_elem_of_nil]|]. intros [Hn Hd]%NoDup_cons. rewrite elem_of_cons.
  destruct (str_eqb k k0) eqn:E.
  - apply str_eqb_eq in E as ->. split; [intros [= ->]; by left|]. intros [[= ->]|H]; [done|]. destruct Hn. apply list_elem_of_fmap. by exists (k0, h).
  - rewrite IH by done. split; [by right|]. intros [[= -> ->]|?]; [by rewrite str_eqb_refl in E|done].
Qed.
Lemma ios_pair_hash line pair : ios_pair line pair -> pair.2 <> [].
Proof.
  intros (value & H & _). unfold checksum_line in H. destruct (re_match SHA256 (take 64 line)) eqn:Em; [|done].
  destruct (_ && _ && _); [|done]. injection H as <- _. intros E. rewrite E in Em. by vm_compute in Em.
Qed.
Lemma check_expected_quiet version l es k e h u : NoDup es.*1 -> (k, h) ∈ es -> h <> [] ->
  quiet (check_expected root (Some (path_join root (react_native_archive version))) l es (k, e)) u <-> digest_at version l e h.
Proof.
  intros Hd Hkh Hne. destruct u. unfold check_expected. cbn [fst snd]. rewrite (proj2 (find_hash_elem es k h Hd) Hkh).
  destruct h as [|c h]; [done|]. set (hash := c :: h). destruct e as [p|p|bytes]; cbn [digest_at]; rewrite quiet_bind.
  - split.
    + intros (o & (bytes & Hb%file_bytes_quiet & <-%quiet_ret)%quiet_bind & H). apply quiet_note_if, negb_false_iff, str_eqb_eq in H. eauto.
    + intros (bytes & Hb & E). exists (Some bytes). rewrite quiet_bind. split; [exists bytes; by rewrite file_bytes_quiet, quiet_ret|].
      by apply quiet_note_if, negb_false_iff, str_eqb_eq.
  - rewrite <- str_in_elem. destruct (str_in p l); [setoid_rewrite archiveEntryBytes_quiet|setoid_rewrite quiet_ret; naive_solver]. split.
    + intros (o & (bytes & Hb & ->) & H) _. apply quiet_note_if, negb_false_iff, str_eqb_eq in H. eauto.
    + intros H. destruct (H eq_refl) as (bytes & Hb & E). exists (Some bytes). split; [eauto|]. by apply quiet_note_if, negb_false_iff, str_eqb_eq.
  - setoid_rewrite quiet_ret. split.
    + intros (o & <- & H). by apply quiet_note_if, negb_false_iff, str_eqb_eq in H.
    + intros E. exists (Some bytes). split; [done|]. by apply quiet_note_if, negb_false_iff, str_eqb_eq.
Qed.
Definition Ios_manifest (version : jsstr) (l : list jsstr) (commit : jsstr) : Prop :=
  exists bytes es, holds root IOS_FFI_CHECKSUM_MANIFEST bytes /\ within root IOS_FFI_CHECKSUM_MANIFEST MAX_NATIVE_CHECKSUM_MANIFEST_BYTES /\
    Forall2 ios_pair (nonempty (split_lines (utf8_decode bytes))) es /\ NoDup es.*1 /\
    (forall p k, framework p k -> k = RegularFile) /\ regular root IOS_PACKAGE_LIBRARY_SOURCE /\
    (forall k, k ∈ es.*1 <-> exists e, Expects commit k e) /\
    (forall k h e, (k, h) ∈ es -> Expects commit k e -> digest_at version l e h).
(** The table the script builds. *)
Definition expected_table (commit : jsstr) : list (jsstr * Expected) :=
  set_all (flat_map framework_expected (list_files root IOS_PACKAGE_XCFRAMEWORK_SOURCE) ++ fixed_expected commit).
Lemma expected_table_elem commit k e : (forall p k, framework p k -> k = RegularFile) ->
  (k, e) ∈ expected_table commit <-> Expects commit k e.
Proof.
  intros Hreg. assert (Hraw : forall k e, (k, e) ∈ flat_map framework_expected (list_files root IOS_PACKAGE_XCFRAMEWORK_SOURCE) ++ fixed_expected commit
    <-> Expects commit k e).
  { intros k' e'. unfold Expects. rewrite elem_of_app, elem_of_flat_map. f_equiv. split.
    - intros ([p kind] & Hp%framework_files & H). pose proof (Hreg _ _ Hp) as ->. eauto.
    - intros (p & Hp & H). exists (p, RegularFile). split; [by apply framework_files|done]. }
  unfold expected_table. rewrite set_all_elem, Hraw; [done|]. intros k' e1 e2. rewrite !Hraw. apply Expects_fun.
Qed.
Lemma elem_fst {B} (l : list (jsstr * B)) k : k ∈ l.*1 <-> exists e, (k, e) ∈ l.
Proof. rewrite list_elem_of_fmap. split; [intros ([k' e] & -> & H); eauto|]. intros [e H]. by exists (k, e). Qed.
(** The three comparisons of the manifest with the table. *)
Lemma ios_comparison_quiet version l es commit u :
  NoDup es.*1 -> Forall (fun pair => pair.2 <> []) es -> (forall p k, framework p k -> k = RegularFile) ->
  quiet (_ ← each (fun relativePath => note_if (negb (str_in relativePath (expected_table commit).*1))
                (IOS_FFI_CHECKSUM_MANIFEST ++ js ": unexpected checksum path " ++ relativePath)) es.*1;
         _ ← each (fun relativePath => note_if (negb (str_in relativePath es.*1))
                (IOS_FFI_CHECKSUM_MANIFEST ++ js ": missing checksum for " ++ relativePath)) (expected_table commit).*1;
         each (check_expected root (Some (path_join root (react_native_archive version))) l es) (expected_table commit)) u <->
  (forall k, k ∈ es.*1 <-> exists e, Expects commit k e) /\
  (forall k h e, (k, h) ∈ es -> Expects commit k e -> digest_at version l e h).
Proof.
  intros Hd Hne Hreg. rewrite !quiet_seq, !required_quiet, quiet_each, Forall_forall.
  assert (Hkeys : forall k, k ∈ (expected_table commit).*1 <-> exists e, Expects commit k e).
  { intros k. rewrite elem_fst. by setoid_rewrite expected_table_elem. }
  rewrite Forall_forall in Hne. split.
  - intros (H1 & H2 & H3). split.
    + intros k. rewrite <- Hkeys. split; [apply H1|apply H2].
    + intros k h e Hkh He. apply (check_expected_quiet _ _ es k e h tt Hd Hkh (Hne _ Hkh)), (H3 (k, e)). by apply expected_table_elem.
  - intros [Hk Hh]. split_and!.
    + intros k. by rewrite Hkeys, Hk.
    + intros k. by rewrite Hkeys, Hk.
    + intros [k e] He. apply expected_table_elem in He; [|done]. assert (Hin : k ∈ es.*1) by (apply Hk; by exists e).
      apply elem_fst in Hin as [h Hkh]. apply (check_expected_quiet _ _ es k e h tt Hd Hkh (Hne _ Hkh)). by eapply Hh.
Qed.
Lemma validateIosFfiChecksum_quiet version m metadata commit u :
  metadata.["commit"] = VStr commit -> regular root (react_native_archive version) ->
  quiet (validateIosFfiChecksum root version m metadata) u <-> Ios_manifest version (entries_of m (react_native_archive version)) commit.
Proof.
  intros Hc Ha. destruct u. unfold validateIosFfiChecksum, Ios_manifest. rewrite Hc, quiet_bind. setoid_rewrite regularFile_quiet.
  assert (Hto : to_string (VStr commit) = Ok commit) by done. set (l := entries_of m _).
  assert (Htable : forall exps, quiet (loop expect_framework [] (list_files root IOS_PACKAGE_XCFRAMEWORK_SOURCE)) exps ->
    set_expected (set_expected (set_expected exps (js "flutter/ios/libsecure_ffi.a") (SourceFile IOS_PACKAGE_LIBRARY_SOURCE))
      (js "react-native/libsecure_ffi.a") (ArchiveEntry IOS_PACKAGE_LIBRARY_ARCHIVE)) (js "secure-keypad-ios-ffi.commit")
      (Literal (utf8_encode (commit ++ [10]))) = expected_table commit).
  { intros exps [_ ->]%expect_framework_quiet. unfold expected_table, set_all. by rewrite foldl_app. }
  split.
  - intros (f & [-> Hf] & (text & Ht & H)%quiet_bind). apply bounded_text_quiet in Ht as (bytes & -> & Hb & Hw); [|done].
    apply quiet_bind in H as (es & (more & Hes & Hu & ->)%ios_lines_quiet & H). apply quiet_bind in H as (exps & Hexp & H).
    pose proof Hexp as [Hreg _]%expect_framework_quiet. rewrite Forall_forall in Hreg.
    assert (Hall : forall p k, framework p k -> k = RegularFile) by (intros p k Hp%framework_files; by apply (Hreg (p, k))).
    apply quiet_bind in H as (lib & [-> Hlib]%regularFile_quiet & H). apply quiet_bind in H as (c & Hc' & H).
    apply quiet_may_throw, lang_ok in Hc'. rewrite Hto in Hc'. apply Ok_inj in Hc' as <-. apply quiet_bind in H as (arch & [-> _]%regularFile_quiet & H).
    cbn zeta in H. rewrite (Htable _ Hexp) in H. cbn [app] in H. fold l in H.
    assert (Hd : NoDup more.*1) by apply Hu.
    apply ios_comparison_quiet in H as [Hk Hh]; [|done| |done]; [by exists bytes, more|].
    apply Forall_forall. intros pair (i & Hi)%list_elem_of_lookup. destruct (Forall2_lookup_r _ _ _ _ _ Hes Hi) as (line & _ & Hp). by eapply ios_pair_hash.
  - intros (bytes & es & Hb & Hw & Hes & Hd & Hall & Hlib & Hk & Hh). eexists. split; [split; [done|apply Hb]|]. rewrite quiet_bind. eexists.
    split; [apply bounded_text_quiet; [apply Hb|by exists bytes]|]. rewrite quiet_bind. exists es. split.
    { apply ios_lines_quiet. exists es. split_and!; [done|by apply unseen_empty|done]. }
    rewrite quiet_bind. set (exps := foldl (fun m x => set_expected m x.1 x.2) [] (flat_map framework_expected (list_files root IOS_PACKAGE_XCFRAMEWORK_SOURCE))).
    assert (Hexp : quiet (loop expect_framework [] (list_files root IOS_PACKAGE_XCFRAMEWORK_SOURCE)) exps).
    { apply expect_framework_quiet. split; [|done]. apply Forall_forall. intros [p k] Hp. by apply (Hall p), framework_files. }
    exists exps. split; [done|]. rewrite quiet_bind. eexists. split; [by apply regularFile_quiet|]. rewrite quiet_bind. exists commit.
    rewrite quiet_may_throw, lang_ok. split; [done|]. rewrite quiet_bind. eexists. split; [by apply regularFile_quiet|]. cbn zeta.
    rewrite (Htable _ Hexp). fold l. apply ios_comparison_quiet; try done.
    apply Forall_forall. intros pair (i & Hi)%list_elem_of_lookup. destruct (Forall2_lookup_r _ _ _ _ _ Hes Hi) as (line & _ & Hp). by eapply ios_pair_hash.
Qed.
End packages.
