(* ===== verification/ReleaseBundleProps.v ===== *)
(** * A bundle that may be signed

    [Bundle_wf] says what a complete release bundle is; the check accepts exactly those
    directories.  A bundle in memory shows that there are some. *)

From S2P Require Import Prelude JsNumber Regex JsValue JsText PathProps Host Disk ReleaseEvidence ReleaseFragment EvidenceSpec.
From S2P Require Import ReleaseArchive ReleaseBundle ReleaseBundleSpec BundlePackages.
Open Scope js_scope.

Section bundle.
Context {bundle : BundleHost} (laws : BundleLaws bundle) (r : list jsstr) (Hr : Forall proper r).
Local Abbreviation root := (abspath r).
Local Abbreviation framework := (Lists r IOS_PACKAGE_XCFRAMEWORK_SOURCE).

(** ** The packages *)

Definition digest_of (version : jsstr) (e : Expected) (hash : jsstr) : Prop :=
  match e with
  | Literal bytes => sha256 bytes = hash
  | SourceFile p => exists bytes, readFileSync (path_join root p) = Ok bytes /\ sha256 bytes = hash
  | ArchiveEntry p => exists bytes, tar_extract (path_join root (react_native_archive version)) p = Ok bytes /\ sha256 bytes = hash
  end.
(** The iOS framework and library, with the listing [l] of the React Native archive:
    packaged with the bytes of the source, nothing else in the framework's directory, and
    all of it - source, package and commit - under one checksum manifest. *)
Record Ios_wf (version : jsstr) (l : list jsstr) (commit : jsstr) : Prop := {
  ios_files : forall p k, framework p k -> k = RegularFile /\ packed_same r version l (framework_entry p) p;
  ios_only : forall x, x ∈ l -> is_framework_entry x = true -> exists p k, framework p k /\ x = framework_entry p;
  ios_library : regular root IOS_PACKAGE_LIBRARY_SOURCE /\ packed_same r version l IOS_PACKAGE_LIBRARY_ARCHIVE IOS_PACKAGE_LIBRARY_SOURCE;
  ios_manifest : exists bytes es,
    holds root IOS_FFI_CHECKSUM_MANIFEST bytes /\ within root IOS_FFI_CHECKSUM_MANIFEST MAX_NATIVE_CHECKSUM_MANIFEST_BYTES /\
    Forall2 ios_pair (nonempty (split_lines (utf8_decode bytes))) es /\ NoDup es.*1 /\
    (forall k, k ∈ es.*1 <-> exists e, Expects r commit k e) /\
    (forall k h e, (k, h) ∈ es -> Expects r commit k e -> digest_of version e h);
}.
(** An Android library: one digest in the sources, in Flutter and in the archive. *)
Definition Android_wf (version : jsstr) (entry : PackageFfi) : Prop :=
  exists source flutter packed, holds root (sourcePath entry) source /\ holds root (flutterPath entry) flutter /\
    tar_extract (path_join root (react_native_archive version)) (reactNativeArchivePath entry) = Ok packed /\
    sha256 flutter = sha256 source /\ sha256 packed = sha256 source.
Record Packages_wf (commit version : jsstr) : Prop := {
  packages_npm : forall name, name ∈ NPM_PACKAGES -> Archive_has r (npm_archive version name) (npm_required name);
  packages_crates : forall name, name ∈ RUST_CRATES -> Archive_has r (crate_archive version name) (crate_required version name);
  packages_ios : exists l, archived r (react_native_archive version) l /\ Ios_wf version l commit;
  packages_android : Forall (Android_wf version) ANDROID_PACKAGE_FFI_ENTRIES;
}.

Lemma react_native_required : Forall (fun e => e ∈ npm_required (js "secure-keypad-react-native"))
  (IOS_PACKAGE_LIBRARY_ARCHIVE :: map reactNativeArchivePath ANDROID_PACKAGE_FFI_ENTRIES).
Proof. apply (bool_decide_unpack _). by vm_compute. Qed.
Lemma Ios_wf_spec version l commit : IOS_PACKAGE_LIBRARY_ARCHIVE ∈ l ->
  Ios_wf version l commit <-> Ios_manifest r version l commit /\ Packaged_ios r version l.
Proof.
  intros Hlib. split.
  - intros [Hf Hx [Hl Hls] (bytes & es & Hb & Hw & Hes & Hd & Hk & Hh)]. split; [|by split_and!].
    exists bytes, es. split_and!; try done; [intros p k Hp; by apply (Hf p k)|].
    intros k h e Hkh He. specialize (Hh k h e Hkh He). destruct e; [done|by intros _|done].
  - intros [(bytes & es & Hb & Hw & Hes & Hd & Hall & Hl & Hk & Hh) (Hf & Hx & _ & Hls)].
    constructor; try done; [split; [done|by apply Hls]|]. exists bytes, es. split_and!; try done.
    intros k h e Hkh He. specialize (Hh k h e Hkh He). destruct e as [p|p|b]; try done. cbn in *. apply Hh.
    destruct He as [(q & Hq & H)|H].
    + destruct (Hf q _ Hq) as [_ [Hin _]]. repeat (apply elem_of_cons in H as [H|H]); [done| |by apply not_elem_of_nil in H].
      apply pair_equal_spec in H as [_ [= ->]]. exact Hin.
    + repeat (apply elem_of_cons in H as [H|H]); [done| |done|by apply not_elem_of_nil in H]. by apply pair_equal_spec in H as [_ [= ->]].
Qed.
Lemma check_packages_quiet metadata commit version u :
  metadata.["commit"] = VStr commit -> metadata.["packageVersion"] = VStr version ->
  quiet (check_packages root metadata) u <-> Packages_wf commit version.
Proof.
  intros Hc Hv. unfold check_packages. rewrite Hv, quiet_bind. assert (Hto : to_string (VStr version) = Ok version) by done.
  set (P l := Ios_manifest r version l commit /\ Packaged_ios r version l /\ Forall (Android_same r version l) ANDROID_PACKAGE_FFI_ENTRIES).
  transitivity ((exists m, quiet (validateNpmArchives root version) m /\ P (entries_of m (react_native_archive version))) /\
    quiet (validateRustArchives root version) u).
  { assert (Hrest : forall m, quiet (validateNpmArchives root version) m ->
      quiet (_ ← validateIosFfiChecksum root version m metadata; _ ← validatePackagedIosFfi root version m;
             _ ← validatePackagedAndroidFfi root version m; validateRustArchives root version) u <->
      P (entries_of m (react_native_archive version)) /\ quiet (validateRustArchives root version) u).
    { intros m Hm. assert (Ha : regular root (react_native_archive version)).
      { destruct (proj1 (validateNpmArchives_quiet r version (fun _ => True))) as [_ (l & [Ha _] & _)]; [by exists m|done]. }
      rewrite !quiet_seq, (validateIosFfiChecksum_quiet laws r Hr _ _ _ commit), (validatePackagedIosFfi_quiet laws r Hr),
        (validatePackagedAndroidFfi_quiet r) by done. unfold P. tauto. }
    split.
    - intros (w & Hw%quiet_may_throw%lang_ok & (m & Hm & H)%quiet_bind). rewrite Hto in Hw. apply Ok_inj in Hw as <-.
      apply (Hrest m Hm) in H as [HP Hrust]. split; [by exists m|done].
    - intros [(m & Hm & HP) Hrust]. exists version. rewrite quiet_may_throw, lang_ok. split; [done|]. rewrite quiet_bind. exists m. split; [done|].
      by apply Hrest. }
  rewrite validateNpmArchives_quiet, validateRustArchives_quiet. pose proof react_native_required as Hreq. rewrite Forall_forall in Hreq.
  assert (Hin : (forall name, name ∈ NPM_PACKAGES -> Archive_has r (npm_archive version name) (npm_required name)) ->
    forall l e, archived r (react_native_archive version) l -> e ∈ IOS_PACKAGE_LIBRARY_ARCHIVE :: map reactNativeArchivePath ANDROID_PACKAGE_FFI_ENTRIES -> e ∈ l).
  { intros Hnpm l e Hl He. destruct (Hnpm (js "secure-keypad-react-native")) as (k & Hk & Hsub); [right; left|].
    rewrite (archived_fun _ _ _ _ Hl Hk). by apply Hsub, Hreq. }
  split.
  - intros [[Hnpm (l & Hl & Hm & Hp & Ha)] Hrust]. constructor; try done.
    + exists l. split; [done|]. apply Ios_wf_spec; [by eapply Hin; [..|left]|done].
    + apply Forall_forall. intros e He. rewrite Forall_forall in Ha. destruct (Ha e He) as (s & f & Hs & Hf & Hd & Hpk).
      destruct Hpk as (packed & Hpk & E); [eapply Hin; [done..|right; by apply list_elem_of_fmap_2]|]. by exists s, f, packed.
  - intros [Hnpm Hcrates (l & Hl & Hios) Handroid]. split; [|done]. split; [done|]. exists l. split; [done|].
    apply Ios_wf_spec in Hios as [Hm Hp]; [|by eapply Hin; [..|left]]. split_and!; try done. eapply Forall_impl; [exact Handroid|].
    intros e (s & f & packed & Hs & Hf & Hpk & Hd & E). exists s, f. split_and!; eauto.
Qed.

(** ** The bundle *)

Record Bundle_wf (commit version : jsstr) : Prop := {
  bundle_root : existsSync root = true /\ exists size, lstat root = Ok (Directory, size);
  bundle_files : forall rel, rel ∈ REQUIRED_SOURCE_FILES -> regular root rel;
  bundle_changelog : Changelog_wf root;
  bundle_documents : Forall (Document_wf root) public_documents;
  bundle_platforms : Platform_document root;
  bundle_candidate : exists metadata, json_of root (js "source/release-candidate-metadata.json") metadata /\ Candidate_wf metadata commit version;
  bundle_spdx : exists sbom, json_of root (js "source/secure-keypad.sbom.spdx.json") sbom /\ Spdx_wf sbom;
  bundle_android : Checksums_wf root android_ffi_manifest /\ Checksums_wf root android_aar_manifest;
  bundle_commit : Commit_bound root commit;
  bundle_packages : Packages_wf commit version;
  bundle_listed : forall p k, Lists r [] p k -> k = RegularFile /\ private_name p = false;
}.
Lemma check_listed_quiet file u : quiet (check_listed file) u <-> file.2 <> SymbolicLink /\ file.2 <> SpecialFile /\ private_name file.1 = false.
Proof. destruct u. unfold check_listed. by rewrite !quiet_seq, !quiet_note_if, !bool_decide_eq_false. Qed.
Lemma list_root_quiet u : quiet (each check_listed (list_files root [])) u <-> forall p k, Lists r [] p k -> k = RegularFile /\ private_name p = false.
Proof.
  assert (Hl : forall p k, (p, k) ∈ list_files root [] <-> Lists r [] p k) by (intros p k; by apply (list_files_spec laws r Hr [])).
  rewrite quiet_each, Forall_forall. split.
  - intros H p k Hp. assert (Hk : k <> Directory) by (by destruct (Lists_below laws r _ _ _ Hp [] eq_refl) as [? _]; [constructor|]).
    apply Hl, H, check_listed_quiet in Hp as (? & ? & ?). by destruct k.
  - intros H [p k] Hp%Hl. apply check_listed_quiet. cbn. by destruct (H p k Hp) as [-> ?].
Qed.
Lemma required_files_quiet u :
  quiet (each (fun rel => _ ← regularFile root rel; mret tt) REQUIRED_SOURCE_FILES) u <-> forall rel, rel ∈ REQUIRED_SOURCE_FILES -> regular root rel.
Proof.
  rewrite quiet_each, Forall_forall. apply forall_proper. intros rel. apply forall_proper. intros _. rewrite quiet_bind.
  setoid_rewrite regularFile_quiet. setoid_rewrite quiet_ret. naive_solver.
Qed.
Lemma version_nonempty version : matches VERSION version -> version <> [].
Proof. intros H%re_match_correct ->. by vm_compute in H. Qed.

(** C19. The bundle check decides completeness: it reports nothing exactly for a real
    directory that has every required file, the documents with their texts, candidate
    metadata without secrets that claims nothing, checksum manifests that match every
    Android and iOS library in the sources, in Flutter and in the React Native archive,
    the commit bound to them, every package archive of the one version with its entries,
    and below which there are only regular files with no private name. *)
Theorem checkReleaseStaging_correct :
  checkReleaseStaging root = Ok [] <-> exists commit version, Bundle_wf commit version.
Proof.
  transitivity ((existsSync root = true /\ exists size, lstat root = Ok (Directory, size)) /\ quiet (check_contents root) tt).
  { unfold checkReleaseStaging. change (abspath r) with (slash :: join sep r) at 1. cbn iota.
    destruct (existsSync root); cbn [negb]; [|by split; [|intros [[? _] _]]].
    destruct (lstat root) as [[[] size]|]; try (by split; [|intros [[_ [? [=]]] _]]).
    unfold quiet. destruct (check_contents root) as [[[] w]|e]; cbn [mbind result_bind]; [|by split; [|intros [_ ?]]].
    assert (Hw : Ok (unique w) = @Ok thrown _ [] <-> w = []) by (rewrite <- (unique_nil w); split; [by intros ?%Ok_inj|by intros ->]).
    rewrite Hw. split; [intros ->; split; [by split; [|exists size]|done]|]. by intros [_ [= ->]]. }
  unfold check_contents. rewrite !quiet_seq, required_files_quiet, validateChangelog_quiet, validatePublicDocuments_quiet,
    validatePlatformSupportDocument_quiet, quiet_bind.
  split.
  - intros (Hroot & Hfiles & Hlog & Hdocs & Hplat & _ & (v & -> & Hv)%readJson_quiet & H).
    apply quiet_bind in H as (_ & (w & commit & version & [= <-] & -> & Hwf)%validateCandidateMetadata_quiet & H).
    pose proof Hwf as [_ _ _ _ _ [Hc Hcm] [Hver Hvm] _].
    rewrite !quiet_seq, validateSpdx_quiet, android_aar_quiet, list_root_quiet, Hver in H. destruct H as (Hspdx & Hffi & Haar & Hpkg & Hlist).
    apply quiet_bind in Hffi as (read & [-> Hffi]%android_ffi_quiet & Hbound). apply (check_commit_binding_quiet _ _ commit) in Hbound; [|done..].
    exists commit, version. pose proof (version_nonempty _ Hvm). destruct version as [|c version]; [done|].
    apply (check_packages_quiet _ commit (c :: version)) in Hpkg; [|done..]. constructor; eauto.
  - intros (commit & version & [Hroot Hfiles Hlog Hdocs Hplat (v & Hv & Hwf) Hspdx [Hffi Haar] Hbound Hpkg Hlist]).
    pose proof Hwf as [_ _ _ _ _ [Hc Hcm] [Hver Hvm] _].
    do 5 (split; [done|]). exists (Some v). split; [apply readJson_quiet; eauto|]. rewrite quiet_bind. exists (Some v).
    split; [apply validateCandidateMetadata_quiet; eauto 10|]. rewrite !quiet_seq, validateSpdx_quiet, android_aar_quiet, list_root_quiet, Hver.
    split_and!; try done.
    + unfold validateAndroidFfiChecksum. rewrite quiet_bind. exists true. rewrite android_ffi_quiet. split; [done|].
      by apply (check_commit_binding_quiet _ _ commit).
    + pose proof (version_nonempty _ Hvm). destruct version as [|c version]; [done|]. by apply (check_packages_quiet _ commit (c :: version)).
Qed.
End bundle.

(** ** A release bundle in memory

    A staging directory that passes the check, and one unit away, ones that do not. *)

From S2P Require PlatformSupport DeviceClaims ReleaseSample.

Definition sample_commit : jsstr := repeat 97 40.
Definition sample_version : jsstr := js "0.1.0".
(** A stand-in digest of 64 hexadecimal units that depends on the bytes. *)
Definition sample_sha (bytes : list Z) : jsstr := repeat 97 61 ++ map (fun k => 48 + (foldl (fun n b => n * 7 + b) 1 bytes / k) mod 10) [1; 10; 100].
Definition candidate_metadata : val := vobj
  [("schemaVersion", vnum 1); ("kind", vstr "secure-keypad-release-candidate"); ("claim", vstr "candidate-only");
   ("commit", VStr sample_commit); ("packageVersion", VStr sample_version);
   ("requiredFinalGates", varr (map VStr REQUIRED_RELEASE_GATES))]%string.
Definition sample_sbom : val := vobj [("spdxVersion", vstr "SPDX-2.3"); ("packages", varr [vobj []])]%string.
(** The three JSON files hold the names of their values. *)
Definition sample_parse (text : jsstr) : result jsstr val :=
  if str_eqb text (js "metadata") then Ok candidate_metadata else
  if str_eqb text (js "sbom") then Ok sample_sbom else
  if str_eqb text (js "policy") then Ok PlatformSupport.PLATFORM_SUPPORT_POLICY else Throw (js "Unexpected token").

(** ** Files and archives *)

Definition sum_line (bytes : list Z) (p : jsstr) : jsstr := sample_sha bytes ++ js "  " ++ p ++ [10].
Definition arm : list Z := [1; 2].
Definition x86 : list Z := [3; 4; 5].
Definition aar : list Z := [6].
Definition plist : list Z := [7; 8].
Definition ios_library_bytes : list Z := [9; 9].
Definition ios_sums : jsstr :=
  sum_line plist (js "flutter/ios/secure_ffi.xcframework/Info.plist") ++
  sum_line plist (js "./react-native/secure_ffi.xcframework/Info.plist") ++
  sum_line ios_library_bytes (js "flutter/ios/libsecure_ffi.a") ++
  sum_line ios_library_bytes (js "react-native/libsecure_ffi.a") ++
  sum_line (sample_commit ++ [10]) (js "secure-keypad-ios-ffi.commit").
Definition bundle_contents : list (String.string * list Z) :=
  [("source/CHANGELOG.md", (js "# Changelog" ++ [10; 10] ++ js "## Unreleased" ++ [13; 10])%list);
   ("source/README.md", js "Secure Native Mode");
   ("source/SECURITY.md", js "## Reporting a vulnerability: a private GitHub Security Advisory, security/advisories/new");
   ("source/docs/PLATFORM-SUPPORT.json", js "policy"); ("source/release-candidate-metadata.json", js "metadata");
   ("source/secure-keypad.sbom.spdx.json", js "sbom");
   ("source/secure-keypad-android-ffi.sha256",
      (sum_line x86 (js "native-artifacts/android/x86_64/libsecure_ffi.a") ++ sum_line arm (js "native-artifacts/android/arm64-v8a/libsecure_ffi.a"))%list);
   ("source/secure-keypad-native-android.aar.sha256", sum_line aar (js "native-artifacts/android/secure-keypad-native.aar"));
   ("source/secure-keypad-android-ffi.commit", (sample_commit ++ [10])%list); ("source/secure-keypad-ios-ffi.sha256", ios_sums);
   ("source/native-artifacts/android/arm64-v8a/libsecure_ffi.a", arm); ("source/native-artifacts/android/x86_64/libsecure_ffi.a", x86);
   ("source/native-artifacts/android/secure-keypad-native.aar", aar);
   ("source/packages/flutter/ios/secure_ffi.xcframework/Info.plist", plist); ("source/packages/flutter/ios/libsecure_ffi.a", ios_library_bytes);
   ("source/packages/flutter/android/secure_ffi/arm64-v8a/libsecure_ffi.a", arm);
   ("source/packages/flutter/android/secure_ffi/x86_64/libsecure_ffi.a", x86)]%string.
Definition react_native_files : list (String.string * list Z) :=
  [("package/secure_ffi.xcframework/Info.plist", plist); ("package/libsecure_ffi.a", ios_library_bytes);
   ("package/android/secure_ffi/arm64-v8a/libsecure_ffi.a", arm); ("package/android/secure_ffi/x86_64/libsecure_ffi.a", x86)]%string.
Definition staged (rel : jsstr) : jsstr := js "/work/staging/" ++ rel.
Definition bundle_tree (overrides : list (String.string * list Z)) : tree :=
  list_to_map (map (fun kv => (staged (js kv.1), kv.2)) (overrides ++ bundle_contents) ++
    map (fun rel => (staged rel, [65])) (REQUIRED_SOURCE_FILES ++ requiredPackageEntries sample_version)).
(** The members of an archive by its path. *)
Definition archive_members (p : jsstr) : list jsstr :=
  flat_map (fun name => if str_eqb p (staged (npm_archive sample_version name)) then npm_required name else []) NPM_PACKAGES ++
  flat_map (fun name => if str_eqb p (staged (crate_archive sample_version name)) then crate_required sample_version name else []) RUST_CRATES.
Definition sample_extract (entry : jsstr) : result jsstr (list Z) :=
  match List.find (fun kv => str_eqb entry (js kv.1)) react_native_files with Some kv => Ok kv.2 | None => Throw (js "not found") end.

Definition bundle_host_of (t : tree) : Host := {|
  cwd := js "/work"; realpathSync := fun p => Ok p; lstat_isSymbolicLink := fun _ => Ok false;
  statSync := fun p => Ok {| isFile := true; size := 1 |};
  readFileSync := fun p => match t !! p with Some bytes => Ok bytes | None => Throw (js "ENOENT") end;
  sha256 := sample_sha; JSON_parse := sample_parse; public_key_type := fun _ => Throw []; verify := fun _ _ _ => Throw [];
  other_format := fun _ => None; error_message := fun _ => js "error" |}.
Definition memory_bundle (t : tree) : BundleHost := {|
  bundle_host := bundle_host_of t;
  existsSync := fun p => is_directory t p;
  lstat := fun p =>
    match t !! p with
    | Some bytes => Ok (RegularFile, Z.of_nat (length bytes))
    | None => if is_directory t p then Ok (Directory, 4096) else Throw (js "ENOENT")
    end;
  readdir := fun p => if (length p <=? MAX_PATH_UNITS)%nat then Ok (dirents t p) else Throw (js "ENAMETOOLONG");
  tar_list := fun p => Ok (flat_map (fun member => js "./" ++ member ++ [10]) (archive_members p));
  tar_extract := fun _ => sample_extract |}.
Lemma memory_bundle_laws t : BundleLaws (memory_bundle t).
Proof.
  constructor; cbn; intros p es; destruct (Nat.leb_spec (length p) MAX_PATH_UNITS); try done; intros H'; injection H' as <-.
  apply Forall_forall. intros e He. apply list_elem_of_filter in He as [He _]. by apply is_proper_proper.
Qed.
Definition sample_root : list jsstr := [js "work"; js "staging"].
Definition check_with (overrides : list (String.string * list Z)) : result thrown (list jsstr) :=
  @checkReleaseStaging (memory_bundle (bundle_tree overrides)) (abspath sample_root).
Example sample_bundle_passes :
  @bundle_main (memory_bundle (bundle_tree [])) [js "staging"] = Some ([js "release staging contract passed"], 0).
Proof. vm_compute. done. Qed.
(** One packaged byte changed, one file added, one commit replaced. *)
Example spoiled_bundles :
  map check_with
    [[("source/packages/flutter/android/secure_ffi/x86_64/libsecure_ffi.a", [3; 4; 6])];
     [("source/packages/flutter/ios/secure_ffi.xcframework/extra", [1])];
     [("source/secure-keypad-android-ffi.commit", (repeat 98 40 ++ [10])%list)]; [("source/docs/release.PEM", [1])]]%string =
  map Ok
    [[js "Flutter Android FFI x86_64: packaged bytes do not match signed source source/native-artifacts/android/x86_64/libsecure_ffi.a"];
     [js "source/secure-keypad-ios-ffi.sha256: missing checksum for flutter/ios/secure_ffi.xcframework/extra";
      js "source/secure-keypad-ios-ffi.sha256: missing checksum for react-native/secure_ffi.xcframework/extra";
      js "packages/secure-keypad-react-native-0.1.0.tgz: archive must contain package/secure_ffi.xcframework/extra"];
     [js "source/secure-keypad-android-ffi.commit: must contain the release candidate commit followed by one newline"];
     [js "source/docs/release.PEM: private signing material must never enter release staging"]].
Proof. vm_compute. done. Qed.
Lemma sample_root_proper : Forall proper sample_root.
Proof. repeat constructor; by apply is_proper_proper; vm_compute. Qed.
Lemma checkReleaseStaging_correct_witness :
  exists commit version, @Bundle_wf (memory_bundle (bundle_tree [])) sample_root commit version.
Proof.
  apply (proj1 (@checkReleaseStaging_correct (memory_bundle (bundle_tree [])) (memory_bundle_laws _) sample_root sample_root_proper)).
  vm_compute. reflexivity.
Defined.
